(* ===== verification/_CoqProject ===== *)
-Q . S2P
Prelude.v
FairRounds.v
Log.v
BitTwiddle.v
SwitchTo.v
PingPong.v
Platform.v
MacMemory.v
MacTls.v
World.v
Task.v
Tls.v
TlsProcess.v
TlsRefine.v
TlsInterface.v
TlsLinux.v
TlsMac.v
TlsWorld.v
TlsPlatforms.v
Raii.v
RingBuffer.v
Mutex.v
WaiterClient.v
MutexRefine.v
MutexClient.v
Monitor.v
ChannelClient.v
RingMonitor.v
RingStream.v
ChannelWindow.v
WindowProgress.v
WindowMonitor.v
WindowStream.v
TimeOrderedQueue.v
Rq.v
Freelist.v
SchedNode.v
Sched.v
SchedSpec.v
WaiterRefine.v
Demo.v
Keeps.v
Inv.v
InvSteps.v
InvOps.v
TaskClients.v
TaskMirror.v
InvNode.v
InvSched.v
InvExec.v
InvCalls.v
Safety.v
Behaviour.v
SchedAbs.v
SchedRefine.v
Client.v
ForkJoin.v
Fairness.v
Gthread.v
Runs.v
Conformance.v
Witnesses.v
WitnessesArch.v
WitnessesLib.v
WitnessesConcur.v
WitnessesMac.v
WitnessesWindow.v
WitnessesTls.v
WitnessesPlatforms.v
WitnessesClient.v
