(* ===== verification/Prelude.v ===== *)
(** * gthread: a verification development

    gthread is a library of user-level threads for C++: tasks with stacks of
    their own on one kernel thread, a scheduler that picks the task with the
    least virtual run time, preemption by a timer signal, and mutexes and
    channels on top.  This development models its code (under src/) and proves
    what makes it correct; where the code does not do what it means to, a
    theorem shows that too.

    ** The program and its model

    The parts, from the bottom up, and the file that models each:

    - arch/switch_to.s, the context switch, instruction by instruction on a
      machine with registers and memory ([SwitchTo]); arch/bit_twiddle.h
      ([BitTwiddle]).
    - platform/clock.cc, platform/memory_linux.cc, sched/task_attr.h
      ([Platform]).  The answers of the operating system are the class [Env];
      what the proofs rely on of them is the class [EnvOk].  [Demo] is an
      instance of both in which everything evaluates.
    - platform/tls_linux.cc, the thread-local blocks: the images, the vector and
      the memory below the control block ([Tls]), and the class [tls] over the
      state its objects share ([TlsProcess]): the register [%fs], the table of
      images, the vectors on the heap.  The scheduler only sees two words of a
      block, [World.tls_block]; [TlsRefine] relates the two.
    - util/log_impl.h, over the text of the error stream ([Log]); the other parts
      see only the exception of a fatal message.
    - sched/task.cc and task_impl.h ([Task]), sched/internal/
      time_ordered_queue ([TimeOrderedQueue]), rq ([Rq]) and task_freelist
      ([Freelist]), sched/sched_node.cc, sched/preempt.cc and platform/alarm.cc
      ([SchedNode]), sched/sched.cc and concur/internal/waiter ([Sched]).
      These parts share one heap, the record [World.world]: tasks by address,
      thread-local blocks, the node with its queues, the free list, the alarm,
      and the handles, words and waiters of the program.
    - gthread_impl.h and util/function_marshall ([Gthread]).
    - concur/mutex.cc and concur/internal/spin_lock.h ([Mutex]),
      concur/internal/ring_buffer ([RingBuffer]) and channel_window
      ([ChannelWindow]): interleavings of the atomic steps of their users.
    - platform/timer.h, util/close_wrapper.h, concur/channel_impl.h ([Raii]); the
      template parameter [Monitor] of make_wishbone_channel is the class
      [Monitor.Monitor], with the ring buffer ([RingMonitor]) and the window
      ([WindowMonitor]) as its instances.
    - platform/memory_macos.cc and tls_macos.cc, the second implementation of
      the platform ([MacMemory], [MacTls]), over the calls of the Mach kernel
      (the class [MachOk]).
    - platform/tls.h, the interface the two implementations of thread-local
      storage have in common, with its laws ([TlsInterface]); [TlsLinux],
      [TlsMac] and [TlsWorld] show that the class of Linux, the one of macOS and
      the one in the world of the scheduler keep them.

    A function of the code is a function of the effect monad [M] below, with the
    state after it, an exception (which keeps the state), or a fault: a failed
    assertion or a step that C++ leaves undefined.  A context switch cuts a call
    in two.  What a call still has to do when its task is resumed is a [frame];
    the saved context of a task is the list of its frames, innermost first, and
    [Sched.exec] performs the call of the running task and then, if it switched
    away, the frames of the task it switched to.  A program is a sequence of
    calls and timer ticks, each made by whichever task runs.  [SwitchTo] shows
    that the assembly does what this treatment assumes.

    Integers are at their width where wrapping matters: sizes, clock readings
    and ring-buffer counters modulo 2^64.  Virtual run times and deadlines are
    mathematical integers: microseconds and nanoseconds in 63 bits last for
    centuries.  Fuel appears in one place, the search of tls_macos.cc for the
    slots of a thread, with a theorem that the distance of the slots is enough;
    the programs of the benchmarks run along a list of events, and the theorems
    about them say how long a list is enough ([FairRounds] has the argument for
    lists in which every thread has its turns); every other function of the code
    in the model is structurally recursive, and the loops that wait for another
    task (spinning on a lock, waiting for a waiter to be unparked) are steps of a
    transition system, except for the spin lock of the node, whose holder runs on
    the same kernel thread: a second [lock()] is the fault [spin_forever], and is
    proved not to happen.

    ** The proofs

    - [Inv] states the invariant of the scheduler, for programs whose spawned
      tasks all have a thread-local block or all have none; [InvSteps], [InvOps],
      [InvNode], [InvSched], [InvExec] and [InvCalls] prove, function by
      function, that the code keeps it.  [Keeps] is a second logic for facts no
      call changes.
    - [Safety]: in every reachable state every call returns, is refused with its
      documented exception, or reports a deadlock when nothing is left to run;
      the only fault left is the null pointer of the idle path, which needs a
      sleeping task; [yield] elects the task with the least virtual run time;
      the virtual time of the queue never goes back; the free list is bounded;
      every pointer the library keeps names a live object of its type.
    - [Fairness]: a bound on the number of turns until a runnable task runs, when
      the clock advances by a microsecond per reading, and that tasks starve when
      it does not.
    - [SchedSpec] is the scheduler as its users see it: tasks with a status and a
      joiner, handles, waiters, a step per call, and when a call is refused or
      stalls.  [SchedAbs] gives the abstract state of a world, and [SchedRefine]
      proves that every call in every reachable state that does not sleep is a
      step of the specification, is refused as it says, or reports the deadlock
      it predicts.  [Client] is the interface for programs: what is proved of a
      program against the specification (the class [Verified]) holds of its run
      on the library, whenever the timer comes.
    - [Behaviour]: what [spawn], [join], [exit], [unpark] and [task::create]
      achieve, and two places where the code fails its purpose.
    - [TimeOrderedQueue], [Freelist], [BitTwiddle], [Platform], [SwitchTo],
      [Tls], [RingBuffer], [Mutex], [Raii] and [Gthread] have the properties of
      their part: order and stability of the queues, the round trip of two
      context switches, the layout and the reset of thread-local blocks,
      first-in first-out through the ring buffer under every interleaving,
      mutual exclusion and progress of the mutex, objects that release once.
    - [Monitor] states the abstract channel, a bounded queue, and proves what any
      monitor gives its channel; [RingMonitor] and [WindowMonitor] prove that the
      two implementations refine it, [MutexRefine] that the mutex refines a lock,
      [TlsRefine] that the thread-local blocks refine what the scheduler sees of
      them.  [WindowProgress] proves that calls that meet in the window end, by a
      ranking of its explored states.
    - [TlsProcess]: along every history of blocks that are created, run, reset
      and destroyed no vector is used after its deletion, no module freed twice
      and none lost, and the block in use is complete.
    - [MacMemory] and [MacTls]: stacks are fresh, aligned and given back whole;
      the block in use is the current one, and a reset frees each slot once.
    - [TlsPlatforms]: a program that follows the rules of tls.h gets the same
      answers from all three implementations, those of a registry of blocks.
    - The benchmarks are programs on top of the library.  [ForkJoin]
      (sched_benchmark.cc): fork and join end after a fixed number of steps
      however the timer interrupts them, and leave nothing behind, but may lose
      increments.  [ChannelClient], [RingStream] and [WindowStream]
      (channel_benchmark.cc): with the timer off a stream of integers arrives
      complete and in order, and the programs end.  [MutexClient]
      (mutex_benchmark.cc): a mailbox guarded by the mutex never loses or mixes
      up a number.  [TaskClients] and [TaskMirror] (task_benchmark.cc): bare
      tasks leak nothing, and switching there and back restores the state.
      [PingPong] (switch_to_benchmark.cc): the same for the assembly.
      [WaiterClient] (waiter_benchmark.cc): under every interleaving of the steps
      of [park], [swap] and [unpark] in which both threads have their turns the
      two hand over to each other the right number of times and end;
      [WaiterRefine] shows that these calls, when nobody interrupts them, are
      those of [SchedSpec].
    - [Runs] has complete runs of small programs that go wrong, [Conformance] tests
      of the repository as runs that end as expected.
    - [Witnesses], [WitnessesArch], [WitnessesLib], [WitnessesConcur],
      [WitnessesMac], [WitnessesWindow], [WitnessesTls], [WitnessesPlatforms] and
      [WitnessesClient] apply the theorems with hypotheses to concrete states, so
      that the hypotheses are seen to hold together.

    ** Not modelled

    The wrappers of [malloc], which nothing in the library calls; the benchmarks
    of std::thread, ucontext and setjmp, which use nothing of the library; the
    macros of util/compiler.h, which have no meaning at run time; the mask of
    blocked signals in the alarm handler.
    [__ctype_init] is the C library's: it is modelled by its effect, the blocks
    that have character tables.  Code that runs between a spawn and its
    [schedule] without the preemption lock is treated as one step: a timer tick
    is an operation of the program, made between calls.  The scheduler is
    modelled over the stacks of Linux; on macOS [MacMemory] shows that stacks have
    the same layout.  Its thread-local blocks are those of either platform, by
    [TlsPlatforms].  The specification of the scheduler leaves sleeping out: a
    sleeping task is where the code fails (see [Runs]). *)

From stdpp Require Export base tactics option list gmap strings numbers sorting.
From Stdlib Require Export ZArith Lia.

Global Open Scope Z_scope.
Global Set Default Goal Selector "!".

(** ** Failures *)

(** C++ exceptions the library throws, with their message. *)
Inductive exn :=
| domain_error (what : string)
| logic_error (what : string)
| runtime_error (what : string)
| system_error (errno : Z)
| bad_function_call
| bad_alloc.

(** Executions that leave the defined behaviour of the program: a failed
    [assert], an access through an invalid pointer, the read of an object
    that was never written, a spin lock taken twice by the only kernel thread,
    a switch to a context that was never saved. *)
Inductive fault :=
| assert_failed (what : string)
| null_deref
| dangling (p : Z)
| indeterminate (what : string)
| spin_forever
| no_context (p : Z)
| undefined (what : string).

#[global] Instance exn_eq_dec : EqDecision exn.
Proof. solve_decision. Defined.
#[global] Instance fault_eq_dec : EqDecision fault.
Proof. solve_decision. Defined.

(** ** The effect monad: state, exceptions, faults

    An exception keeps the state in which it was thrown, because C++ unwinding
    does not undo assignments; a fault has no state. *)

Inductive outcome (S A : Type) :=
| Ret (a : A) (s : S)
| Throw (e : exn) (s : S)
| Stuck (f : fault).
Arguments Ret {S A} a s.
Arguments Throw {S A} e s.
Arguments Stuck {S A} f.

Definition M (S A : Type) : Type := S → outcome S A.

#[global] Instance M_ret S : MRet (M S) := λ A a s, Ret a s.
#[global] Instance M_bind S : MBind (M S) := λ A B k m s,
  match m s with
  | Ret a s' => k a s'
  | Throw e s' => Throw e s'
  | Stuck f => Stuck f
  end.

Definition gets {S A} (f : S → A) : M S A := λ s, Ret (f s) s.
Definition modify {S} (f : S → S) : M S () := λ s, Ret () (f s).
Definition throw {S A} (e : exn) : M S A := λ s, Throw e s.
Definition stuck {S A} (f : fault) : M S A := λ _, Stuck f.

(** [assert(b)], with assertions enabled. *)
Definition assert {S} (b : bool) (what : string) : M S () :=
  if b then mret () else stuck (assert_failed what).

(** A value that must be present, or else the access is the fault [f]. *)
Definition need {S A} (f : fault) (o : option A) : M S A :=
  match o with Some a => mret a | None => stuck f end.

(** Run [m]; when it throws, run the destructor [d] and rethrow. *)
Definition on_throw {S A} (d : M S ()) (m : M S A) : M S A := λ s,
  match m s with
  | Throw e s' => match d s' with
                  | Ret _ s'' => Throw e s''
                  | Throw e' s'' => Throw e' s''
                  | Stuck f => Stuck f
                  end
  | r => r
  end.

(** ** Weakest preconditions for the effect monad *)

Definition wp {S A} (m : M S A) (Q : A → S → Prop) (X : exn → S → Prop)
    (U : fault → Prop) (s : S) : Prop :=
  match m s with
  | Ret a s' => Q a s'
  | Throw e s' => X e s'
  | Stuck f => U f
  end.

Create HintDb wp.

Section wp_rules.
Context {S : Type}.
Implicit Types (s : S) (X : exn → S → Prop) (U : fault → Prop).

Lemma wp_bind {A B} (m : M S A) (k : A → M S B) Q X U s :
  wp m (λ a, wp (k a) Q X U) X U s → wp (m ≫= k) Q X U s.
Proof. unfold wp, mbind, M_bind. by destruct (m s). Qed.

Lemma wp_mono {A} (m : M S A) (Q Q' : A → S → Prop) X X' (U U' : fault → Prop) s :
  wp m Q X U s →
  (∀ a s', Q a s' → Q' a s') → (∀ e s', X e s' → X' e s') → (∀ f, U f → U' f) →
  wp m Q' X' U' s.
Proof. unfold wp. destruct (m s); eauto. Qed.

Lemma wp_post {A} (m : M S A) (Q Q' : A → S → Prop) X (U : fault → Prop) s :
  wp m Q X U s → (∀ a s', Q a s' → Q' a s') → wp m Q' X U s.
Proof. intros ??; eapply wp_mono; eauto. Qed.

Lemma wp_ext {A} (m m' : M S A) (Q : A → S → Prop) X U s :
  m s = m' s → wp m' Q X U s → wp m Q X U s.
Proof. unfold wp. by intros ->. Qed.

Lemma wp_ret {A} (a : A) (Q : A → S → Prop) X U s : Q a s → wp (mret a) Q X U s.
Proof. done. Qed.

Lemma wp_gets {A} (f : S → A) (Q : A → S → Prop) X U s : Q (f s) s → wp (gets f) Q X U s.
Proof. done. Qed.

Lemma wp_modify (f : S → S) (Q : () → S → Prop) X U s : Q () (f s) → wp (modify f) Q X U s.
Proof. done. Qed.

Lemma wp_throw {A} e (Q : A → S → Prop) X U s : X e s → wp (throw e) Q X U s.
Proof. done. Qed.

Lemma wp_assert b what (Q : () → S → Prop) X U s :
  b = true → Q () s → wp (assert b what) Q X U s.
Proof. by intros ->. Qed.

Lemma wp_need {A} f (o : option A) a (Q : A → S → Prop) X U s :
  o = Some a → Q a s → wp (need f o) Q X U s.
Proof. by intros ->. Qed.

Lemma wp_on_throw {A} (d : M S ()) (m : M S A) Q X U s :
  wp m Q (λ e, wp d (λ _ s', X e s') X U) U s → wp (on_throw d m) Q X U s.
Proof. unfold wp, on_throw. destruct (m s); auto. by destruct (d s0). Qed.

End wp_rules.

(** Step through a monadic program under [wp]. *)
Ltac wp_step :=
  lazymatch goal with
  | |- wp (_ ≫= _) _ _ _ _ => apply wp_bind
  | |- wp (mret _) _ _ _ _ => apply wp_ret
  | |- wp (gets _) _ _ _ _ => apply wp_gets
  | |- wp (modify _) _ _ _ _ => apply wp_modify
  | |- wp (throw _) _ _ _ _ => apply wp_throw
  | |- wp (need _ _) _ _ _ _ => eapply wp_need; [by eauto with wp|]
  | |- wp (assert _ _) _ _ _ _ => apply wp_assert
  | |- wp (on_throw _ _) _ _ _ _ => apply wp_on_throw
  end; cbn beta.

(** All the steps that need no side condition. *)
Ltac wp_go :=
  repeat (lazymatch goal with
          | |- wp (_ ≫= _) _ _ _ _ => apply wp_bind
          | |- wp (mret _) _ _ _ _ => apply wp_ret
          | |- wp (gets _) _ _ _ _ => apply wp_gets
          | |- wp (modify _) _ _ _ _ => apply wp_modify
          | |- wp (need _ (Some _)) _ _ _ _ => eapply wp_need; [reflexivity|]
          end; cbn beta).

(** ** Machine integers *)

Definition two64 : Z := 2 ^ 64.
Definition wrap64 (z : Z) : Z := z mod two64.
(** The [int64_t] value of a 64-bit pattern. *)
Definition signed64 (z : Z) : Z :=
  let u := wrap64 z in if u <? 2 ^ 63 then u else u - two64.

Lemma wrap64_range z : 0 ≤ wrap64 z < two64.
Proof. apply Z.mod_pos_bound. done. Qed.
Lemma wrap64_small z : 0 ≤ z < two64 → wrap64 z = z.
Proof. apply Z.mod_small. Qed.
Lemma wrap64_add a b : wrap64 (wrap64 a + b) = wrap64 (a + b).
Proof. apply Z.add_mod_idemp_l. done. Qed.
Lemma signed64_small z : 0 ≤ z < 2 ^ 63 → signed64 z = z.
Proof.
  intros ?. unfold signed64. rewrite wrap64_small; [|unfold two64; lia].
  destruct (Z.ltb_spec z (2 ^ 63)); lia.
Qed.

(** ** Lists *)

Lemma not_elem_of_single {A} (x y : A) : x ≠ y → x ∉ [y].
Proof. intros Hne Hin. by apply list_elem_of_singleton in Hin. Qed.
#[export] Hint Resolve not_elem_of_single : core.
