(* ===== verification/FairRounds.v ===== *)
(** * Fair rounds

    A program of several parties that step in any order: a measure that the
    step of one party, the one that is due, brings down and no other step
    raises is used up by as many rounds as its value, where a round is any
    sequence of steps in which every party occurs. *)

From S2P Require Import Prelude.

Section rounds.
Context {S P : Type} (step : S → P → S).
Variables (I : S → Prop) (f : S → nat) (due : S → P).
Hypothesis step_keeps : ∀ s p, I s → I (step s p).
Hypothesis step_due : ∀ s, I s → f s ≠ 0%nat → (f (step s (due s)) < f s)%nat.
Hypothesis step_other : ∀ s p, I s →
  (f (step s p) < f s)%nat ∨ f (step s p) = f s ∧ (f s ≠ 0%nat → due (step s p) = due s).

Definition fair (r : list P) : Prop := ∀ p, p ∈ r.

Lemma steps_keep es s : I s → I (fold_left step es s).
Proof. revert s. induction es as [|p es IH]; simpl; auto. Qed.

Lemma steps_down es s : I s → (f (fold_left step es s) ≤ f s)%nat.
Proof.
  revert s. induction es as [|p es IH]; intros s Hs; simpl; [done|].
  specialize (IH _ (step_keeps s p Hs)). destruct (step_other s p Hs) as [?|[? _]]; lia.
Qed.

(** A round in which the party that is due steps brings the measure down. *)
Lemma round_down es s :
  I s → f s ≠ 0%nat → due s ∈ es → (f (fold_left step es s) < f s)%nat.
Proof.
  revert s. induction es as [|p es IH]; intros s Hs Hf Hin; simpl; [by apply elem_of_nil in Hin|].
  pose proof (step_keeps s p Hs) as Hs'. pose proof (steps_down es _ Hs') as Hle.
  apply elem_of_cons in Hin as [<-|Hin]; [pose proof (step_due s Hs Hf); lia|].
  destruct (step_other s p Hs) as [?|[Heq Hd]]; [lia|]. specialize (Hd Hf).
  rewrite <-Heq. apply IH; [done|lia|by rewrite Hd].
Qed.

Lemma fair_rounds rs s :
  I s → Forall fair rs → (f s ≤ length rs)%nat →
  I (fold_left step (concat rs) s) ∧ f (fold_left step (concat rs) s) = 0%nat.
Proof.
  intros Hs Hf Hlen. split; [by apply steps_keep|]. revert s Hs Hlen.
  induction Hf as [|r rs Hr Hrs IH]; intros s Hs Hlen; simpl in *; [lia|].
  rewrite fold_left_app. apply IH; [by apply steps_keep|].
  destruct (decide (f s = 0%nat)) as [H0|H0].
  - pose proof (steps_down r s Hs). lia.
  - pose proof (round_down r s Hs H0 (Hr (due s))). lia.
Qed.

End rounds.
