(* ===== verification/Log.v ===== *)
(** * util/log_impl.h: messages

    The arguments of a message as the texts [operator<<] writes for them; the
    state is what was written to the standard error stream. *)

From S2P Require Import Prelude.

(** [gthread_recursive_write]: a pack of one argument, and one of more *)
Fixpoint gthread_recursive_write (stream : string) (t : string) (rest : list string) : string :=
  match rest with
  | [] => stream +:+ t
  | t' :: rest' => gthread_recursive_write (stream +:+ t) t' rest'
  end.

Definition endl : string := String (Ascii.ascii_of_nat 10) EmptyString.

Definition gthread_log (t : string) (rest : list string) : M string () :=
  modify (λ err, gthread_recursive_write err t rest +:+ endl).

Definition gthread_log_fatal (t : string) (rest : list string) : M string () :=
  modify (λ err, gthread_recursive_write err t rest +:+ endl);;
  throw (runtime_error (gthread_recursive_write "" t rest)).

(** [ndebug]: whether the macro [NDEBUG] is defined *)
Definition gthread_log_dfatal (ndebug : bool) (t : string) (rest : list string) : M string () :=
  if ndebug then gthread_log t rest else gthread_log_fatal t rest.

#[global] Instance append_assoc : Assoc (=) String.append.
Proof.
  intros s1 s2 s3. induction s1 as [|a s1 IH]; [done|].
  change (String a (s1 +:+ s2 +:+ s3) = String a ((s1 +:+ s2) +:+ s3)). by rewrite IH.
Qed.
#[global] Instance append_right_id : RightId (=) "" String.append.
Proof.
  intros s. induction s as [|a s IH]; [done|].
  change (String a (s +:+ "") = String a s). by rewrite IH.
Qed.

Lemma recursive_write_app stream t rest :
  gthread_recursive_write stream t rest = stream +:+ gthread_recursive_write "" t rest.
Proof.
  revert stream t. induction rest as [|t' rest IH]; intros stream t; simpl; [done|].
  rewrite IH, (IH ("" +:+ t)). by rewrite (assoc_L String.append).
Qed.

(** The exception carries the line that was written: the text of the
    arguments in order, behind what was there, without the end of the line. *)
Theorem fatal_reports t rest err :
  ∃ text, gthread_log_fatal t rest err = Throw (runtime_error text) (err +:+ text +:+ endl) ∧
    text = foldr String.append "" (t :: rest) ∧
    gthread_log t rest err = Ret () (err +:+ text +:+ endl).
Proof.
  exists (gthread_recursive_write "" t rest).
  assert (gthread_recursive_write err t rest +:+ endl =
          err +:+ gthread_recursive_write "" t rest +:+ endl) as Heq.
  { rewrite recursive_write_app. by rewrite (assoc_L String.append). }
  unfold gthread_log_fatal, gthread_log, mbind, M_bind, modify, throw. rewrite Heq.
  split_and!; [done| |done].
  clear. revert t. induction rest as [|t' rest IH]; intros t; simpl.
  - by rewrite (right_id_L "" String.append).
  - rewrite recursive_write_app, IH. done.
Qed.
