(* ===== verification/BitTwiddle.v ===== *)
(** * arch/bit_twiddle.h: the mask of a 64-bit number *)

From S2P Require Import Prelude.

(** [lzcntq]: the number of zero bits above the highest set bit of a 64-bit
    register, 64 when the register is 0. *)
Definition lzcntq (bits : Z) : Z := if bits =? 0 then 64 else 63 - Z.log2 bits.

(** [right_mask]: [~0 >> lzcnt bits]. C++ leaves a shift by 64 undefined. *)
Definition right_mask (bits : Z) : option Z :=
  let leading_zeroes := lzcntq bits in
  if leading_zeroes <? 64 then Some (Z.shiftr (two64 - 1) leading_zeroes) else None.

Lemma right_mask_value bits : 0 < bits < two64 →
  right_mask bits = Some (Z.ones (Z.log2 bits + 1)).
Proof.
  intros [Hp Hlt]. unfold right_mask, lzcntq.
  assert (Z.log2 bits < 64) by (by apply Z.log2_lt_pow2).
  pose proof (Z.log2_nonneg bits).
  rewrite (proj2 (Z.eqb_neq bits 0)); [|lia].
  rewrite (proj2 (Z.ltb_lt _ _)); [|lia]. f_equal.
  replace (two64 - 1) with (Z.ones 64) by done.
  rewrite Z.shiftr_div_pow2; [|lia]. rewrite Z.ones_div_pow2; [|lia].
  f_equal. lia.
Qed.

(** [right_mask] of a number other than 0 is the least mask of the form
    2^k - 1 that covers all its bits: the number is contained in it, and it is
    less than twice the number. *)
Theorem right_mask_least bits :
  0 < bits < two64 →
  ∃ m k, right_mask bits = Some m ∧ 0 ≤ k ≤ 64 ∧ m = 2 ^ k - 1 ∧ bits ≤ m < 2 * bits ∧
    Z.land bits m = bits.
Proof.
  intros Hb. pose proof (right_mask_value bits Hb) as ->.
  set (k := Z.log2 bits + 1). pose proof (Z.log2_nonneg bits).
  assert (Z.log2 bits < 64) by (apply Z.log2_lt_pow2; [lia|apply Hb]).
  destruct (Z.log2_spec bits) as [Hlo Hhi]; [lia|].
  exists (Z.ones k), k. rewrite Z.ones_equiv. unfold k in *.
  split_and!; [done|lia|lia|lia|lia| |].
  - rewrite Z.pow_add_r by lia. lia.
  - rewrite <-Z.ones_equiv. rewrite Z.land_ones by lia. apply Z.mod_small. lia.
Qed.
