(* ===== verification/SwitchTo.v ===== *)
(** * arch/switch_to.s: the context switch

    The two assembly routines, instruction by instruction, on a machine with
    the registers they use and a memory of 8-byte words.  Accesses are to
    addresses divisible by 8 (contexts and stacks are aligned that way); a load
    from a word that was never written has no result.  [ret] and the indirect
    jump leave the routine: [run] answers the address control goes to. *)

From S2P Require Import Prelude.

Inductive reg := RBX | RSP | RBP | R12 | R13 | R14 | R15 | RDI | RSI | RCX | RDX.
#[global] Instance reg_eq_dec : EqDecision reg.
Proof. solve_decision. Defined.

(** AT&T operand order: the destination comes last. *)
Inductive instr :=
| Test (r : reg)                     (* test r, r *)
| Jz (skip : nat)                    (* jz, over the next [skip] instructions *)
| Store (r : reg) (off : Z) (b : reg)   (* mov r, off(b) *)
| Load (off : Z) (b : reg) (r : reg)    (* mov off(b), r *)
| StoreImm (v : Z) (off : Z) (b : reg)  (* movq $v, off(b) *)
| MovImm (v : Z) (r : reg)           (* mov $v, r *)
| Mov (r : reg) (r' : reg)           (* mov r, r' *)
| Lea (off : Z) (b : reg) (r : reg)  (* lea off(b), r *)
| Ret_                               (* ret *)
| JmpReg (r : reg).                  (* jmp *r *)

Record machine := mkMachine { regs : reg → Z; mem : gmap Z Z; zf : bool }.

Definition set_reg (r : reg) (v : Z) (m : machine) : machine :=
  mkMachine (λ r', if decide (r' = r) then v else regs m r') (mem m) (zf m).
Definition set_mem (a v : Z) (m : machine) : machine := mkMachine (regs m) (<[a := v]> (mem m)) (zf m).

Definition load (a : Z) (m : machine) : option Z := if a `mod` 8 =? 0 then mem m !! a else None.
Definition store (a v : Z) (m : machine) : option machine :=
  if a `mod` 8 =? 0 then Some (set_mem a v m) else None.

(** [run code skip m]: the next [skip] instructions are jumped over. *)
Fixpoint run (code : list instr) (skip : nat) (m : machine) : option (Z * machine) :=
  match code with
  | [] => None
  | i :: code' =>
      match skip with
      | S k => run code' k m
      | O =>
          match i with
          | Test r => run code' 0 (mkMachine (regs m) (mem m) (regs m r =? 0))
          | Jz n => if zf m then run code' n m else run code' 0 m
          | Store r off b => m' ← store (regs m b + off) (regs m r) m; run code' 0 m'
          | Load off b r => v ← load (regs m b + off) m; run code' 0 (set_reg r v m)
          | StoreImm v off b => m' ← store (regs m b + off) v m; run code' 0 m'
          | MovImm v r => run code' 0 (set_reg r v m)
          | Mov r r' => run code' 0 (set_reg r' (regs m r) m)
          | Lea off b r => run code' 0 (set_reg r (regs m b + off) m)
          | Ret_ => v ← load (regs m RSP) m; Some (v, set_reg RSP (regs m RSP + 8) m)
          | JmpReg r => Some (regs m r, m)
          end
      end
  end.

Definition save_context : list instr :=
  [Test RDI; Jz 7;
   Store RBX 0x00 RDI; Store RSP 0x08 RDI; Store RBP 0x10 RDI; Store R12 0x18 RDI;
   Store R13 0x20 RDI; Store R14 0x28 RDI; Store R15 0x30 RDI].

Definition gthread_switch_to : list instr :=
  save_context ++
  [Load 0x00 RSI RBX; Load 0x08 RSI RSP; Load 0x10 RSI RBP; Load 0x18 RSI R12;
   Load 0x20 RSI R13; Load 0x28 RSI R14; Load 0x30 RSI R15; Ret_].

Definition gthread_switch_to_and_spawn : list instr :=
  save_context ++
  [Lea (-0x8) RSI RSP; MovImm 0 RBP; StoreImm 0 0 RSP; Mov RCX RDI; JmpReg RDX].

(** ** Saved contexts *)

(** [struct _gthread_saved_ctx]: the callee-saved registers, at these offsets. *)
Definition ctx_fields : list (reg * Z) :=
  [(RBX, 0x00); (RSP, 0x08); (RBP, 0x10); (R12, 0x18); (R13, 0x20); (R14, 0x28); (R15, 0x30)].

(** The context at [a] holds the registers [rs]. *)
Definition holds (m : gmap Z Z) (a : Z) (rs : reg → Z) : Prop :=
  ∀ r off, (r, off) ∈ ctx_fields → m !! (a + off) = Some (rs r).

(** [a] is a word outside the context at [c]. *)
Definition outside_ctx (c a : Z) : Prop := a + 8 ≤ c ∨ c + 0x38 ≤ a.

Lemma ctx_field_range r off : (r, off) ∈ ctx_fields → 0 ≤ off ≤ 0x30.
Proof.
  unfold ctx_fields. intros Hin.
  repeat (apply elem_of_cons in Hin as [[= _ ->]|Hin]; [lia|]). by apply elem_of_nil in Hin.
Qed.

Definition saved_mem (from : Z) (rs : reg → Z) (mm : gmap Z Z) : gmap Z Z :=
  <[from + 0x30 := rs R15]> (<[from + 0x28 := rs R14]> (<[from + 0x20 := rs R13]>
    (<[from + 0x18 := rs R12]> (<[from + 0x10 := rs RBP]> (<[from + 0x08 := rs RSP]>
      (<[from + 0x00 := rs RBX]> mm)))))).

Lemma saved_holds from rs mm : holds (saved_mem from rs mm) from rs.
Proof.
  intros r off Hin. unfold ctx_fields, saved_mem in *.
  repeat (apply elem_of_cons in Hin as [[= -> ->]|Hin];
    [rewrite ?lookup_insert_ne by lia; by rewrite lookup_insert_eq|]).
  by apply elem_of_nil in Hin.
Qed.

Lemma saved_other from rs mm a : outside_ctx from a → saved_mem from rs mm !! a = mm !! a.
Proof. intros [?|?]; unfold saved_mem; by rewrite !lookup_insert_ne by lia. Qed.

Lemma aligned_field a k : a `mod` 8 = 0 → k `mod` 8 = 0 → ((a + k) `mod` 8 =? 0) = true.
Proof. intros Ha Hk. apply Z.eqb_eq. rewrite Z.add_mod, Ha, Hk by lia. done. Qed.

(** The first half of both routines: save, unless the pointer is null. *)
Lemma run_save code m :
  regs m RDI ≠ 0 → regs m RDI `mod` 8 = 0 →
  run (save_context ++ code) 0 m =
    run code 0 (mkMachine (regs m) (saved_mem (regs m RDI) (regs m) (mem m)) false).
Proof.
  intros Hnz Hal. unfold save_context. cbn [run app]. rewrite (proj2 (Z.eqb_neq _ _) Hnz).
  cbn [run zf regs]. unfold store.
  do 7 (rewrite aligned_field by done; cbn [mbind option_bind set_mem run regs mem]).
  reflexivity.
Qed.

(** The second half of a switch: the registers of the context [rs] at |to|. *)
Definition resumed_regs (m : machine) (rs : reg → Z) : reg → Z := λ r,
  if decide (r = RSP) then rs RSP + 8
  else if decide (r ∈ ctx_fields.*1) then rs r else regs m r.

Lemma run_load m rs ret :
  regs m RSI `mod` 8 = 0 → holds (mem m) (regs m RSI) rs →
  rs RSP `mod` 8 = 0 → mem m !! rs RSP = Some ret →
  ∃ m', run (drop 9 gthread_switch_to) 0 m = Some (ret, m') ∧ mem m' = mem m ∧
    ∀ r, regs m' r = resumed_regs m rs r.
Proof.
  intros Hal Hh Hsp Hret.
  assert (∀ r off, (r, off) ∈ ctx_fields → mem m !! (regs m RSI + off) = Some (rs r)) as Hf by done.
  cbn [drop gthread_switch_to save_context app run]. unfold load.
  do 7 (rewrite aligned_field by done; cbn [mem set_reg];
    erewrite Hf by (repeat constructor); cbn [mbind option_bind regs]; cbn [decide]).
  set (m1 := set_reg R15 _ _). change (regs m1 RSP) with (rs RSP).
  rewrite (proj2 (Z.eqb_eq _ _) Hsp), Hret. eexists. split_and!; [done..|].
  intros r. by destruct r.
Qed.

(** [gthread_switch_to] from a context [from] to a saved context: the
    registers the caller must find again are in [from] as they were, those of
    the saved context are loaded, and control returns to the caller of the
    call that saved it, with the stack as it was there; the rest of the memory
    is unchanged. *)
Lemma switch_to_swaps m rs ret :
  regs m RDI ≠ 0 → regs m RDI `mod` 8 = 0 → regs m RSI `mod` 8 = 0 → rs RSP `mod` 8 = 0 →
  regs m RDI + 0x38 ≤ regs m RSI ∨ regs m RSI + 0x38 ≤ regs m RDI →
  outside_ctx (regs m RDI) (rs RSP) →
  holds (mem m) (regs m RSI) rs → mem m !! rs RSP = Some ret →
  ∃ m', run gthread_switch_to 0 m = Some (ret, m') ∧
    holds (mem m') (regs m RDI) (regs m) ∧
    (∀ r, regs m' r = resumed_regs m rs r) ∧
    ∀ a, outside_ctx (regs m RDI) a → mem m' !! a = mem m !! a.
Proof.
  intros Hnz Hal Hal' Hsp Hdis Hout Hh Hret. unfold gthread_switch_to. rewrite run_save by done.
  set (m1 := mkMachine _ _ _).
  destruct (run_load m1 rs ret) as (m' & Hrun & Hmem & Hregs); [done| |done| |].
  - intros r off Hin. cbn. rewrite saved_other; [by apply Hh|].
    pose proof (ctx_field_range r off Hin). unfold outside_ctx. lia.
  - cbn. by rewrite saved_other.
  - exists m'. split_and!; [exact Hrun|rewrite Hmem; apply saved_holds|done|].
    intros a Ha. rewrite Hmem. by apply saved_other.
Qed.

(** The routine that enters a new function: the saved context and the null
    return address are all it writes. *)
Lemma spawn_runs m :
  regs m RDI ≠ 0 → regs m RDI `mod` 8 = 0 → regs m RSI `mod` 16 = 0 →
  ∃ m', run gthread_switch_to_and_spawn 0 m = Some (regs m RDX, m') ∧
    mem m' = <[regs m RSI - 8 := 0]> (saved_mem (regs m RDI) (regs m) (mem m)) ∧
    regs m' RDI = regs m RCX ∧ regs m' RBP = 0 ∧ regs m' RSP = regs m RSI - 8.
Proof.
  intros Hnz Hal Hst. unfold gthread_switch_to_and_spawn. rewrite run_save by done.
  set (m1 := mkMachine _ _ _). cbn [run]. unfold store.
  assert (((regs m RSI + -8 + 0) `mod` 8 =? 0) = true) as Hal'.
  { apply aligned_field; [|done]. pose proof (Z.div_mod (regs m RSI) 16).
    replace (regs m RSI + -8) with ((regs m RSI / 16 * 2 - 1) * 8) by lia. by apply Z.mod_mul. }
  change (regs (set_reg RBP 0 _) RSP) with (regs m RSI + -8). rewrite Hal'. cbn [mbind option_bind].
  eexists. split; [reflexivity|].
  split_and!; [|done..|change (regs m RSI + -8 = regs m RSI - 8); lia].
  change (<[regs m RSI + -8 + 0 := 0]> (saved_mem (regs m RDI) (regs m) (mem m)) =
          <[regs m RSI - 8 := 0]> (saved_mem (regs m RDI) (regs m) (mem m))). f_equal. lia.
Qed.

(** ** Properties *)

(** C18.  A context that was left by [gthread_switch_to] and is switched back
    to, whatever ran in between, as long as nobody wrote to its saved registers
    or to its return address, continues after its call with its own
    callee-saved registers and its stack pointer as if the call had returned. *)
Theorem switch_back_resumes m ret m1 m2 rs :
  (* the first switch, away from the context *)
  regs m RDI ≠ 0 → regs m RDI `mod` 8 = 0 → regs m RSP `mod` 8 = 0 →
  mem m !! regs m RSP = Some ret → outside_ctx (regs m RDI) (regs m RSP) →
  (∃ dest, run gthread_switch_to 0 m = Some (dest, m1)) →
  regs m RSI `mod` 8 = 0 → rs RSP `mod` 8 = 0 → holds (mem m) (regs m RSI) rs →
  regs m RDI + 0x38 ≤ regs m RSI ∨ regs m RSI + 0x38 ≤ regs m RDI →
  outside_ctx (regs m RDI) (rs RSP) → is_Some (mem m !! rs RSP) →
  (* a later switch, back to it, from another context *)
  regs m2 RSI = regs m RDI → regs m2 RDI ≠ 0 → regs m2 RDI `mod` 8 = 0 →
  regs m2 RDI + 0x38 ≤ regs m2 RSI ∨ regs m2 RSI + 0x38 ≤ regs m2 RDI →
  outside_ctx (regs m2 RDI) (regs m RSP) →
  (∀ a, ¬ outside_ctx (regs m RDI) a ∨ a = regs m RSP → mem m2 !! a = mem m1 !! a) →
  ∃ m3, run gthread_switch_to 0 m2 = Some (ret, m3) ∧
    regs m3 RSP = regs m RSP + 8 ∧
    ∀ r, r ∈ [RBX; RBP; R12; R13; R14; R15] → regs m3 r = regs m r.
Proof.
  intros Hnz Hal Hsp Hret Hout [dest Hrun] Hal1 Hsp1 Hh1 Hdis1 Hout1 [ret1 Hret1]
    Hto Hnz2 Hal2 Hdis2 Hout2 Hsame.
  destruct (switch_to_swaps m rs ret1) as (m1' & Hrun1 & Hsaved & _ & Hother); try done.
  assert (m1' = m1) as -> by congruence.
  destruct (switch_to_swaps m2 (regs m) ret) as (m3 & Hrun3 & _ & Hregs & _); try done.
  - by rewrite Hto.
  - rewrite Hto. intros r off Hin. rewrite Hsame; [by apply Hsaved|].
    left. pose proof (ctx_field_range r off Hin). unfold outside_ctx. lia.
  - rewrite Hsame by (by right). by rewrite Hother.
  - exists m3. split_and!; [done|by rewrite Hregs|]. intros r Hr. rewrite Hregs.
    repeat (apply elem_of_cons in Hr as [->|Hr]; [done|]). by apply elem_of_nil in Hr.
Qed.

(** C26.  [gthread_switch_to_and_spawn] enters the new function with its
    argument on the given stack: the caller's registers are saved, the frame
    pointer and the return address are null, so that stack traces end there,
    and a 16-byte aligned stack gives the alignment a function expects on
    entry. *)
Theorem spawn_enters m :
  regs m RDI ≠ 0 → regs m RDI `mod` 8 = 0 → regs m RSI `mod` 16 = 0 →
  outside_ctx (regs m RDI) (regs m RSI - 8) →
  ∃ m', run gthread_switch_to_and_spawn 0 m = Some (regs m RDX, m') ∧
    regs m' RDI = regs m RCX ∧ regs m' RBP = 0 ∧ regs m' RSP = regs m RSI - 8 ∧
    (regs m' RSP + 8) `mod` 16 = 0 ∧ mem m' !! regs m' RSP = Some 0 ∧
    holds (mem m') (regs m RDI) (regs m).
Proof.
  intros Hnz Hal Hst Hout. destruct (spawn_runs m Hnz Hal Hst) as (m' & Hrun & Hmem & Hdi & Hbp & Hsp).
  exists m'. rewrite Hsp, Hmem. split_and!; [done..| |apply lookup_insert_eq|].
  - by replace (regs m RSI - 8 + 8) with (regs m RSI) by lia.
  - intros r off Hin. pose proof (ctx_field_range r off Hin). unfold outside_ctx in *.
    rewrite lookup_insert_ne by lia. by apply saved_holds.
Qed.
