(* ===== verification/PingPong.v ===== *)
(** * arch/switch_to_benchmark.cc: two contexts in assembly

    [bench_gthread_switch_to] and [test_func] on the machine of [SwitchTo]: what
    a caller of the two routines does is to put the arguments into the registers
    of the calling convention and to push its return address.  The function on
    the new stack switches back at once and for ever. *)

From S2P Require Import Prelude SwitchTo.

(** Two-argument and four-argument calls, up to the first instruction of the
    routine: [rdi], [rsi], [rdx], [rcx], and the return address [ret]. *)
Definition call2 (ret a1 a2 : Z) (m : machine) : option machine :=
  let m1 := set_reg RSI a2 (set_reg RDI a1 m) in
  store (regs m RSP - 8) ret (set_reg RSP (regs m RSP - 8) m1).
Definition call4 (ret a1 a2 a3 a4 : Z) (m : machine) : option machine :=
  call2 ret a1 a2 (set_reg RCX a4 (set_reg RDX a3 m)).

Section bench.
(** The addresses of the two contexts and of [test_func], the stack, and where
    the calls of the two functions return to. *)
Context (main_ctx test_func_ctx stack test_func : Z) (ret_spawn ret_loop ret_test : Z).

(** Control arrives where it should. *)
Definition arrive (at_ : Z) (r : option (Z * machine)) : option machine :=
  '(dest, m) ← r; if dest =? at_ then Some m else None.

(** [gthread_switch_to(&c, &c')], to where control goes then. *)
Definition switch (ret c c' : Z) (m : machine) : option (Z * machine) :=
  m ← call2 ret c c' m; run gthread_switch_to 0 m.

(** A turn of the loop of [test_func]. *)
Definition test_func_turn (m : machine) : option (Z * machine) :=
  switch ret_test test_func_ctx main_ctx m.

(** A round of the timed loop: there and back. *)
Definition loop_turn (m : machine) : option machine :=
  m ← arrive ret_test (switch ret_loop main_ctx test_func_ctx m);
  arrive ret_loop (test_func_turn m).

Fixpoint loop (n : nat) (m : machine) : option machine :=
  match n with O => Some m | S n' => m ← loop_turn m; loop n' m end.

Definition bench_gthread_switch_to (n : nat) (m : machine) : option machine :=
  m ← call4 ret_spawn main_ctx stack test_func 0 m;
  m ← arrive test_func (run gthread_switch_to_and_spawn 0 m);
  m ← arrive ret_spawn (test_func_turn m);
  loop n m.

(** ** The stack words and contexts are apart *)

Context (m0 : machine).
Let sp : Z := regs m0 RSP.

Definition apart (a : Z) : Prop := outside_ctx main_ctx a ∧ outside_ctx test_func_ctx a.

Hypothesis (Hmain : main_ctx ≠ 0) (Halm : main_ctx `mod` 8 = 0).
Hypothesis (Htest : test_func_ctx ≠ 0) (Halt : test_func_ctx `mod` 8 = 0).
Hypothesis (Hdis : main_ctx + 0x38 ≤ test_func_ctx ∨ test_func_ctx + 0x38 ≤ main_ctx).
Hypothesis (Hsp : sp `mod` 8 = 0) (Hst : stack `mod` 16 = 0).
Hypothesis (Happ : apart (sp - 8)) (Hap1 : apart (stack - 8)) (Hap2 : apart (stack - 16)).
Hypothesis (Hne1 : sp - 8 ≠ stack - 8) (Hne2 : sp - 8 ≠ stack - 16).

Lemma aligned_minus a k : a `mod` 8 = 0 → k `mod` 8 = 0 → (a - k) `mod` 8 = 0.
Proof. intros Ha Hk. rewrite Zminus_mod, Ha, Hk. done. Qed.

Lemma stack_aligned : stack `mod` 8 = 0.
Proof. pose proof (Z.div_mod stack 16). replace stack with (stack / 16 * 2 * 8) by lia. by apply Z.mod_mul. Qed.

Lemma call2_eq ret a1 a2 m :
  regs m RSP `mod` 8 = 0 →
  ∃ m', call2 ret a1 a2 m = Some m' ∧ mem m' = <[regs m RSP - 8 := ret]> (mem m) ∧
    regs m' RDI = a1 ∧ regs m' RSI = a2 ∧ regs m' RSP = regs m RSP - 8 ∧
    ∀ r, r ∉ [RDI; RSI; RSP] → regs m' r = regs m r.
Proof.
  intros Hal. unfold call2, store. rewrite (proj2 (Z.eqb_eq _ _) (aligned_minus _ 8 Hal eq_refl)).
  eexists. split; [done|]. split_and!; try done. intros r Hr. rewrite !elem_of_cons in Hr. destruct r; tauto.
Qed.

(** The context that runs has the callee-saved registers [rs]. *)
Definition saved_regs : list reg := [RBX; RBP; R12; R13; R14; R15].
Definition keeps (m : machine) (rs : reg → Z) : Prop := ∀ r, r ∈ saved_regs → regs m r = rs r.

Lemma keeps_resumed m m' rs : (∀ r, regs m' r = resumed_regs m rs r) → keeps m' rs.
Proof.
  intros H r Hr. rewrite H. unfold saved_regs in Hr.
  repeat (apply elem_of_cons in Hr as [->|Hr]; [done|]). by apply elem_of_nil in Hr.
Qed.

(** A call of [gthread_switch_to] from the context [c] to the context [c']: the
    caller is saved with its return address on its stack, and the other side
    goes on after the call that saved it. *)
Lemma half_trip c c' ret_here ret rs m :
  c ≠ 0 → c `mod` 8 = 0 → c' `mod` 8 = 0 → c + 0x38 ≤ c' ∨ c' + 0x38 ≤ c →
  regs m RSP `mod` 8 = 0 → outside_ctx c (regs m RSP - 8) → outside_ctx c' (regs m RSP - 8) →
  holds (mem m) c' rs → rs RSP `mod` 8 = 0 → outside_ctx c (rs RSP) → rs RSP ≠ regs m RSP - 8 →
  mem m !! rs RSP = Some ret →
  ∃ m' own, switch ret_here c c' m = Some (ret, m') ∧
    holds (mem m') c own ∧ own RSP = regs m RSP - 8 ∧ (∀ r, r ∈ saved_regs → own r = regs m r) ∧
    mem m' !! (regs m RSP - 8) = Some ret_here ∧ keeps m' rs ∧ regs m' RSP = rs RSP + 8 ∧
    ∀ a, outside_ctx c a → a ≠ regs m RSP - 8 → mem m' !! a = mem m !! a.
Proof.
  intros Hnz Hal Hal' Hd Hsp1 Ho Ho' Hh Hrs Hors Hne Hret. unfold switch.
  destruct (call2_eq ret_here c c' m Hsp1) as (m1 & -> & Hmem & Hdi & Hsi & Hsp' & Hother).
  destruct (switch_to_swaps m1 rs ret) as (m' & Hrun & Hown & Hregs & Hm'); rewrite ?Hdi, ?Hsi; try done.
  - intros r off Hin. rewrite Hmem, lookup_insert_ne; [by apply Hh|].
    pose proof (ctx_field_range r off Hin). unfold outside_ctx in Ho'. lia.
  - by rewrite Hmem, lookup_insert_ne.
  - exists m', (regs m1). rewrite Hdi in *. split_and!; try done.
    + intros r Hr. apply Hother. intros Hin. rewrite !elem_of_cons, elem_of_nil in Hin.
      unfold saved_regs in Hr. rewrite !elem_of_cons, elem_of_nil in Hr. intuition congruence.
    + rewrite Hm' by done. rewrite Hmem. apply lookup_insert_eq.
    + by eapply keeps_resumed.
    + intros a Ha Hna. rewrite Hm' by done. by rewrite Hmem, lookup_insert_ne.
Qed.

(** The words the program writes. *)
Definition scratch (a : Z) : Prop := ¬ apart a ∨ a ∈ [sp - 8; stack - 8; stack - 16].

Record at_main (m : machine) : Prop := {
  am_keeps : keeps m (regs m0);
  am_sp : regs m RSP = sp;
  am_ctx : ∃ rs, holds (mem m) test_func_ctx rs ∧ rs RSP = stack - 16;
  am_ret : mem m !! (stack - 16) = Some ret_test;
  am_mem a : ¬ scratch a → mem m !! a = mem m0 !! a
}.

(** From [main_ctx] there and back. *)
Lemma loop_turn_ok m : at_main m → ∃ m', loop_turn m = Some m' ∧ at_main m'.
Proof.
  intros [Hk Hs (rs & Hh & Hrs) Hret Hm].
  destruct Happ as [Hp1 Hp2], Hap1 as [Hq1 Hq2], Hap2 as [Hr1 Hr2]. pose proof stack_aligned as Hal.
  destruct (half_trip main_ctx test_func_ctx ret_loop ret_test rs m)
    as (m1 & own & Hrun & Hown & Hosp & Hok & Hoat & Hk1 & Hsp1 & Hm1);
    rewrite ?Hs, ?Hrs in *; try done; [by apply aligned_minus|].
  replace (stack - 16 + 8) with (stack - 8) in Hsp1 by lia.
  destruct (half_trip test_func_ctx main_ctx ret_test ret_loop own m1)
    as (m2 & own' & Hrun2 & Hown2 & Hosp2 & _ & Hoat2 & Hk2 & Hsp2 & Hm2);
    rewrite ?Hsp1, ?Hosp in *; replace (stack - 8 - 8) with (stack - 16) in * by lia; try done.
  { lia. }
  { by apply aligned_minus. }
  { by apply aligned_minus. }
  exists m2. split.
  { unfold loop_turn, arrive. rewrite Hrun. cbn [mbind option_bind]. rewrite Z.eqb_refl.
    cbn [mbind option_bind]. unfold test_func_turn. rewrite Hrun2. cbn [mbind option_bind].
    by rewrite Z.eqb_refl. }
  constructor.
  - intros r Hr. rewrite Hk2, Hok by done. by apply Hk.
  - rewrite Hsp2. lia.
  - exists own'. done.
  - done.
  - intros a Ha. rewrite <-Hm by done. unfold scratch in Ha. rewrite !elem_of_cons in Ha.
    unfold apart in Ha. rewrite Hm2, Hm1; [done|..]; (apply dec_stable; intros ?; apply Ha; tauto).
Qed.

(** The first switch: [test_func] is entered on its stack, and switches back. *)
Lemma spawn_ok :
  ∃ m, (m ← call4 ret_spawn main_ctx stack test_func 0 m0;
        m ← arrive test_func (run gthread_switch_to_and_spawn 0 m);
        arrive ret_spawn (test_func_turn m)) = Some m ∧ at_main m.
Proof.
  destruct Happ as [Hp1 Hp2], Hap1 as [Hq1 Hq2], Hap2 as [Hr1 Hr2]. pose proof stack_aligned as Hal.
  destruct (call2_eq ret_spawn main_ctx stack (set_reg RCX 0 (set_reg RDX test_func m0)))
    as (m1 & Hcall & Hmem & Hdi & Hsi & Hsp1 & Hoth1); [exact Hsp|].
  change (regs (set_reg RCX 0 (set_reg RDX test_func m0)) RSP) with sp in *.
  change (mem (set_reg RCX 0 (set_reg RDX test_func m0))) with (mem m0) in Hmem.
  assert (regs m1 RDX = test_func) as Hdx.
  { rewrite Hoth1; [done|]. rewrite !elem_of_cons, elem_of_nil. intuition congruence. }
  destruct (spawn_runs m1) as (m2 & Hspawn & Hmem2 & _ & _ & Hsp2); rewrite ?Hdi, ?Hsi in *; try done.
  assert (∀ a, apart a → a ∉ [sp - 8; stack - 8] → mem m2 !! a = mem m0 !! a) as Hframe.
  { intros a [Ha _] Hna. rewrite !elem_of_cons, elem_of_nil in Hna.
    rewrite Hmem2, lookup_insert_ne, saved_other, Hmem, lookup_insert_ne; tauto || (intros <-; tauto). }
  destruct (half_trip test_func_ctx main_ctx ret_test ret_spawn (regs m1) m2)
    as (m3 & own & Hrun & Hown & Hosp & _ & Hoat & Hk & Hsp3 & Hm3);
    rewrite ?Hsp2, ?Hsp1 in *; replace (stack - 8 - 8) with (stack - 16) in * by lia; try done.
  { lia. }
  { by apply aligned_minus. }
  { intros r off Hin. pose proof (ctx_field_range r off Hin).
    rewrite Hmem2, lookup_insert_ne by (unfold outside_ctx in Hq1; lia). by apply saved_holds. }
  { by apply aligned_minus. }
  { rewrite Hmem2, lookup_insert_ne, saved_other, Hmem by done. apply lookup_insert_eq. }
  exists m3. split.
  { unfold call4, arrive. rewrite Hcall. cbn [mbind option_bind]. rewrite Hspawn, Hdx.
    cbn [mbind option_bind]. rewrite Z.eqb_refl. cbn [mbind option_bind]. unfold test_func_turn.
    rewrite Hrun. cbn [mbind option_bind]. by rewrite Z.eqb_refl. }
  constructor.
  - intros r Hr. rewrite Hk, Hoth1 by (done || (unfold saved_regs in Hr;
      rewrite !elem_of_cons, elem_of_nil in *; intuition congruence)).
    unfold saved_regs in Hr. rewrite !elem_of_cons, elem_of_nil in Hr. intuition (by subst).
  - rewrite Hsp3. lia.
  - by exists own.
  - done.
  - intros a Ha. unfold scratch in Ha. rewrite !elem_of_cons in Ha.
    assert (apart a) as Hap by (split; apply dec_stable; intros ?; apply Ha; left; intros []; done).
    rewrite Hm3, Hframe; [done|done|rewrite !elem_of_cons; tauto|apply Hap|tauto].
Qed.

(** C24.  [n] switches there and back.  The benchmark enters [test_func] on its
    own stack and comes back, and every later round trip comes back as well:
    control arrives at each of the expected addresses, and after any number of
    rounds the callee-saved registers and the stack pointer are those of the
    beginning; beside the two saved contexts only the three words of the stacks
    that hold return addresses were written. *)
Theorem ping_pong_returns n :
  ∃ m, bench_gthread_switch_to n m0 = Some m ∧ regs m RSP = sp ∧
    (∀ r, r ∈ saved_regs → regs m r = regs m0 r) ∧
    ∀ a, apart a → a ∉ [sp - 8; stack - 8; stack - 16] → mem m !! a = mem m0 !! a.
Proof.
  destruct spawn_ok as (m & Hm & Hat).
  assert (∃ m', loop n m = Some m' ∧ at_main m') as (m' & Hl & Hk).
  { clear Hm. revert m Hat. induction n as [|n IH]; intros m Hat; [by exists m|].
    destruct (loop_turn_ok m Hat) as (m1 & Hm1 & Hat1). simpl. rewrite Hm1. by apply IH. }
  exists m'. split_and!; [|exact (am_sp _ Hk)|exact (am_keeps _ Hk)|].
  - rewrite <-Hl. unfold bench_gthread_switch_to. revert Hm. destruct (call4 _ _ _ _ _ _); [|done].
    cbn [mbind option_bind]. destruct (arrive test_func _); [|done]. cbn [mbind option_bind].
    by intros ->.
  - intros a Ha Hna. apply (am_mem _ Hk). intros [?|?]; done.
Qed.

End bench.
