(* ===== verification/Platform.v ===== *)
(** * platform/: what the library takes from the operating system

    [Env] collects the answers of the operating system and of the loader, as
    parameters of the model: clock readings, [mmap] and [mprotect], the page
    size, the addresses of the objects of the hosting kernel thread and the
    table of the thread-local images.  [EnvOk] states the documented
    behaviour the proofs rely on.  On top of them the file models
    platform/clock.cc, platform/memory_linux.cc and sched/task_attr.h. *)

From S2P Require Import Prelude.

(** ** Data *)

(** [struct timespec] *)
Record timespec := mkTimespec { tv_sec : Z; tv_nsec : Z }.

(** [struct attr] (sched/task_attr.h); [stack_addr] 0 is [nullptr]. *)
Record attr := mkAttr {
  stack_addr : Z;
  stack_size : Z;
  stack_guardsize : Z;
  alloc_tls : bool
}.

Definition size_max : Z := two64 - 1.

Definition k_default_attr : attr := mkAttr 0 (4 * 1024 * 1024) size_max true.
Definition k_light_attr : attr := mkAttr 0 (4 * 1024 * 1024) size_max false.

(** [struct tls_image] (platform/tls_linux.cc); [data] 0 is [nullptr]. *)
Record tls_image := mkTlsImage {
  image_data : Z;
  image_size : Z;
  image_mem_offset : Z;
  image_reserve : Z
}.

(** Memory regions handed out by the kernel: first address and length. *)
Definition region : Type := Z * Z.

(** [MAP_FAILED], [(void* ) -1] *)
Definition map_failed : Z := two64 - 1.

Class Env := {
  (** the n-th reading of [CLOCK_THREAD_CPUTIME_ID] and its resolution *)
  clock_gettime : nat → timespec;
  clock_getres : timespec;
  (** the n-th reading of [std::chrono::system_clock] in nanoseconds *)
  system_now : nat → Z;
  (** [std::this_thread::sleep_until t] at reading n returns before the
      reading [sleep_until n t] *)
  sleep_until : nat → Z → nat;
  (** [sysconf(_SC_PAGESIZE)] *)
  sc_pagesize : Z;
  (** [mmap(NULL, len, ..)] when the given regions are mapped *)
  mmap : list region → Z → Z;
  (** [mprotect(addr, len, PROT_NONE)]: whether it fails *)
  mprotect_fails : Z → Z → bool;
  (** [setitimer(ITIMER_PROF, ..)]: [None] on success, or [errno] *)
  setitimer : Z → Z → option Z;
  (** the table [find_tls_images()] builds from [dl_iterate_phdr()] *)
  tls_images : list tls_image;
  (** addresses of [sched_context::root_node._host_task] and of the [tls]
      object of the hosting kernel thread *)
  host_task : Z;
  host_tls : Z
}.

Definition disjoint_region (r1 r2 : region) : Prop :=
  r1.1 + r1.2 ≤ r2.1 ∨ r2.1 + r2.2 ≤ r1.1.
#[global] Instance disjoint_region_dec r1 r2 : Decision (disjoint_region r1 r2).
Proof. unfold disjoint_region. apply _. Defined.

(** A mapping that overlaps no other is given back alone. *)
Lemma unmap_fresh (maps : list region) base total :
  0 < total → (∀ r, r ∈ maps → disjoint_region r (base, total)) →
  filter (λ r, r ≠ (base, total)) ((base, total) :: maps) = maps.
Proof.
  intros Ht Hf. rewrite filter_cons_False by (by intros []).
  induction maps as [|r maps IH]; [done|]. rewrite filter_cons_True.
  - f_equal. apply IH. intros r' Hr'. apply Hf. by right.
  - intros ->. destruct (Hf (base, total)); [by left|simpl in *; lia..].
Qed.

(** ** platform/clock.cc *)

Section clock.
Context {E : Env}.

(** The arithmetic is on [long]; the result is converted to [uint64_t]. *)
Definition timespec_ns (t : timespec) : Z :=
  wrap64 (tv_sec t * 1000 * 1000 * 1000 + tv_nsec t).

Definition posix_time_from_type (n : nat) : Z := timespec_ns (clock_gettime n).
Definition posix_time_resolution_from_type : Z := timespec_ns clock_getres.

(** [thread_clock::now()]: [std::chrono::nanoseconds] holds an [int64_t]. *)
Definition thread_clock_now (n : nat) : Z := signed64 (posix_time_from_type n).
Definition thread_clock_resolution : Z := signed64 posix_time_resolution_from_type.

End clock.

(** [duration_cast] from nanoseconds to microseconds, truncating. *)
Definition to_microseconds (ns : Z) : Z := Z.quot ns 1000.

(** ** platform/memory_linux.cc *)

Definition k_stack_min : Z := 0x2000.

(** What a call of [allocate_stack] leaves behind: its return code, the values
    written through |stack| and |total_stack_size| ([None] when the object is
    left unwritten) and the mapped regions. *)
Record stack_result := mkStackResult {
  sr_rc : Z;
  sr_stack : option Z;
  sr_total : option Z;
  sr_maps : list region
}.

Section memory.
Context {E : Env}.

Definition effective_guardsize (a : attr) : Z :=
  if bool_decide (stack_guardsize a ≠ size_max) then stack_guardsize a else k_stack_min.

Definition total_size (a : attr) : Z := wrap64 (stack_size a + effective_guardsize a).

(** [want_total]: whether the caller passes a [total_stack_size] pointer. *)
Definition allocate_stack (maps : list region) (a : attr) (want_total : bool) : stack_result :=
  if bool_decide (stack_addr a ≠ 0) then
    if bool_decide (stack_addr a `mod` sc_pagesize ≠ 0)
    then mkStackResult (-1) None None maps
    else mkStackResult 0 (Some (stack_addr a)) None maps
  else
    let guardsize := effective_guardsize a in
    let total := total_size a in
    let out := if want_total then Some total else None in
    let stackaddr := mmap maps total in
    let maps' := if bool_decide (stackaddr = map_failed) then maps
                 else (stackaddr, total) :: maps in
    if bool_decide (stackaddr = 0) then mkStackResult (-1) None out maps'
    else if bool_decide (guardsize ≠ 0) && mprotect_fails stackaddr guardsize
    then mkStackResult (-1) None out maps'
    else mkStackResult 0 (Some (wrap64 (stackaddr + total))) out maps'.

(** [munmap] of a whole mapping. *)
Definition free_stack (maps : list region) (stack_base total_stack_size : Z) : list region :=
  filter (λ r, r ≠ (stack_base, total_stack_size)) maps.

(** What [allocate_stack] does when the kernel serves both requests. *)
Lemma allocate_stack_fresh maps a want_total :
  stack_addr a = 0 → mmap maps (total_size a) ≠ map_failed → mmap maps (total_size a) ≠ 0 →
  (effective_guardsize a ≠ 0 →
   mprotect_fails (mmap maps (total_size a)) (effective_guardsize a) = false) →
  0 ≤ mmap maps (total_size a) + total_size a < two64 →
  allocate_stack maps a want_total =
    mkStackResult 0 (Some (mmap maps (total_size a) + total_size a))
      (if want_total then Some (total_size a) else None)
      ((mmap maps (total_size a), total_size a) :: maps).
Proof.
  intros Haddr Hm H0 Hp Hr. unfold allocate_stack. rewrite Haddr, wrap64_small by done.
  rewrite (bool_decide_false (mmap _ _ = map_failed)) by done.
  rewrite (bool_decide_false (mmap _ _ = 0)) by done. simpl.
  destruct (decide (effective_guardsize a = 0)) as [->|Hg]; [done|].
  rewrite bool_decide_true by done. by rewrite Hp.
Qed.

End memory.

(** ** platform/tls_linux.cc: sizes of the thread-local block *)

Definition sizeof_tls : Z := 1.
(** self, thread_vector, thread, did_ctype_init, padding_a[7], sysinfo,
    stack_guard, pointer_guard, padding_b[1632], glibc_stack_size *)
Definition sizeof_tcbhead : Z := 8 + 8 + 8 + 1 + 7 + 8 + 8 + 8 + 1632 + 8.

Definition tls_postfix_bytes : Z := sizeof_tls + sizeof_tcbhead.

Fixpoint reserved_until_gap (images : list tls_image) : Z :=
  match images with
  | [] => 0
  | i :: rest => if bool_decide (image_data i = 0) then 0
                 else image_reserve i + reserved_until_gap rest
  end.

Definition tls_prefix_bytes `{Env} : Z := wrap64 (reserved_until_gap tls_images).

(** ** The documented behaviour of the environment *)

Definition sizeof_task : Z := 160.

Class EnvOk (E : Env) : Prop := {
  (** [sleep_until] returns when the deadline has passed *)
  sleep_until_passed n t : t ≤ system_now (sleep_until n t);
  (** a successful [mmap] returns a fresh region of the address space *)
  mmap_fresh maps len r : mmap maps len ≠ map_failed → r ∈ maps →
    disjoint_region r (mmap maps len, len);
  mmap_range maps len : mmap maps len ≠ map_failed →
    0 < mmap maps len ∧ mmap maps len + len < two64;
  host_task_pos : 0 < host_task;
  host_tls_pos : 0 < host_tls;
  host_disjoint : disjoint_region (host_task, sizeof_task) (host_tls, tls_postfix_bytes)
}.

(** ** Properties *)

(** A reading of the thread clock is the exact number of nanoseconds of
    the [timespec], as long as that number fits in 63 bits, and a slice between
    two readings is charged to the microsecond below. *)
Theorem thread_clock_exact {E : Env} n :
  0 ≤ tv_sec (clock_gettime n) → 0 ≤ tv_nsec (clock_gettime n) < 1000000000 →
  tv_sec (clock_gettime n) < 9223372036 →
  thread_clock_now n = tv_sec (clock_gettime n) * 1000000000 + tv_nsec (clock_gettime n) ∧
  ∀ m, thread_clock_now m ≤ thread_clock_now n →
    let slice := thread_clock_now n - thread_clock_now m in
    1000 * to_microseconds slice ≤ slice < 1000 * to_microseconds slice + 1000.
Proof.
  intros Hs Hns Hmax. split.
  - unfold thread_clock_now, posix_time_from_type, timespec_ns.
    assert (0 ≤ tv_sec (clock_gettime n) * 1000 * 1000 * 1000 + tv_nsec (clock_gettime n) < 2 ^ 63) by lia.
    rewrite wrap64_small by (unfold two64; lia). rewrite signed64_small by lia. lia.
  - intros m Hle slice. unfold to_microseconds. rewrite Z.quot_div_nonneg by lia.
    pose proof (Z.mod_pos_bound slice 1000). pose proof (Z.div_mod slice 1000). lia.
Qed.

(** Where [allocate_stack] does not report an error: a failing [mmap]
    answers [MAP_FAILED], which is not the null pointer the code compares with;
    without a guard page the call then succeeds, with a stack that wraps around
    the address space and no memory behind it. *)
Theorem mmap_failure_unnoticed {E : Env} maps a :
  stack_addr a = 0 → stack_guardsize a = 0 → mmap maps (total_size a) = map_failed →
  allocate_stack maps a true =
    mkStackResult 0 (Some (wrap64 (map_failed + total_size a))) (Some (total_size a)) maps.
Proof.
  intros Ha Hg Hm. unfold allocate_stack. rewrite Ha, Hm.
  assert (effective_guardsize a = 0) as -> by (unfold effective_guardsize; by rewrite Hg).
  by rewrite (bool_decide_true (map_failed = map_failed)).
Qed.
