(* ===== verification/MacMemory.v ===== *)
(** * platform/memory_macos.cc: stacks on macOS

    The calls of the Mach kernel are parameters; [MachOk] states what they
    promise.  The stack has the layout of memory_linux.cc, so that what the
    scheduler does with it is the same on both systems. *)

From S2P Require Import Prelude BitTwiddle Platform.

Definition kern_success : Z := 0.
(** [EAGAIN] of macOS *)
Definition eagain : Z := 35.
Definition k_stack_hint : Z := 0xB0000000.

(** Each call answers its [kern_return_t]; the two that map memory also the
    address they leave in [stackaddr]. *)
Class Mach := {
  vm_page_size : Z;
  (** regions mapped so far, [stackaddr] before the call, size, mask *)
  mach_vm_map : list region → Z → Z → Z → Z * Z;
  mach_vm_allocate : list region → Z → Z → Z * Z;
  mach_vm_protect : Z → Z → Z;
  mach_vm_deallocate : list region → Z → Z → Z
}.

(** [mr_guard]: the range without access; [mr_total] is what the caller finds
    in [*total_stack_size]. *)
Record mach_stack := mkMachStack {
  mr_rc : Z;
  mr_stack : option Z;
  mr_total : option Z;
  mr_maps : list region;
  mr_guard : option region
}.

Section mach.
Context {M : Mach}.

(** [None]: the shift in [right_mask] is undefined, for a size of 0. *)
Definition mac_allocate_stack (maps : list region) (a : attr) (want_total : bool) :
    option mach_stack :=
  if bool_decide (stack_addr a ≠ 0) then
    if bool_decide (stack_addr a `mod` vm_page_size ≠ 0)
    then Some (mkMachStack (-1) None None maps None)
    else Some (mkMachStack 0 (Some (stack_addr a)) None maps None)
  else
    let guardsize := effective_guardsize a in
    let total := total_size a in
    let out := if want_total then Some total else None in
    mask ← right_mask total;
    let '(kr, stackaddr) := mach_vm_map maps k_stack_hint total mask in
    let '(kr, stackaddr) :=
      if bool_decide (kr ≠ kern_success) then mach_vm_allocate maps stackaddr total
      else (kr, stackaddr) in
    if bool_decide (kr ≠ kern_success) then Some (mkMachStack eagain None out maps None)
    else
      let guard :=
        if bool_decide (guardsize ≠ 0) then
          if bool_decide (mach_vm_protect stackaddr guardsize = kern_success)
          then Some (stackaddr, guardsize) else None
        else None in
      Some (mkMachStack 0 (Some (wrap64 (stackaddr + total))) out ((stackaddr, total) :: maps) guard).

(** The return code and the regions that remain mapped. *)
Definition mac_free_stack (maps : list region) (stack_base total_stack_size : Z) : Z * list region :=
  if bool_decide (mach_vm_deallocate maps stack_base total_stack_size ≠ 0) then (eagain, maps)
  else (0, filter (λ r, r ≠ (stack_base, total_stack_size)) maps).

End mach.

(** What the Mach calls promise: a new mapping lies in the address space and
    overlaps no other, and [mach_vm_map] respects the mask. *)
Class MachOk (M : Mach) : Prop := {
  map_fresh maps hint len mask :
    (mach_vm_map maps hint len mask).1 = kern_success →
    let base := (mach_vm_map maps hint len mask).2 in
    0 < base ∧ base + len < two64 ∧ Z.land base mask = 0 ∧
    ∀ r, r ∈ maps → disjoint_region r (base, len);
  allocate_fresh maps hint len :
    (mach_vm_allocate maps hint len).1 = kern_success →
    let base := (mach_vm_allocate maps hint len).2 in
    0 < base ∧ base + len < two64 ∧ ∀ r, r ∈ maps → disjoint_region r (base, len);
  deallocate_mapped maps base len : (base, len) ∈ maps → mach_vm_deallocate maps base len = 0
}.

Section stacks.
Context {M : Mach} {MOk : MachOk M}.

(** A new stack of [total] bytes. *)
Record mac_mapped (maps : list region) (a : attr) (r : mach_stack) (base : Z) : Prop := {
  mm_rc : mr_rc r = 0;
  mm_base : 0 < base;
  mm_stack : mr_stack r = Some (base + total_size a);
  mm_maps : mr_maps r = (base, total_size a) :: maps;
  mm_fresh : ∀ r', r' ∈ maps → disjoint_region r' (base, total_size a);
  mm_guard : mr_guard r = None ∨ mr_guard r = Some (base, effective_guardsize a)
}.

Lemma total_size_range a : 0 ≤ total_size a < two64.
Proof. apply wrap64_range. Qed.

(** The end of the call, once [base] was mapped. *)
Lemma mac_mapped_at maps a (want_total : bool) base :
  0 < base → base + total_size a < two64 →
  (∀ r, r ∈ maps → disjoint_region r (base, total_size a)) →
  ∀ guard, guard = None ∨ guard = Some (base, effective_guardsize a) →
  mac_mapped maps a (mkMachStack 0 (Some (wrap64 (base + total_size a)))
    (if want_total then Some (total_size a) else None) ((base, total_size a) :: maps) guard) base.
Proof.
  intros Hb Hlt Hf guard Hg. pose proof (total_size_range a). constructor; simpl; try done.
  by rewrite wrap64_small by lia.
Qed.

Lemma mac_allocate_spec maps a want_total :
  stack_addr a = 0 → 0 < total_size a →
  ∃ r mask, right_mask (total_size a) = Some mask ∧ mac_allocate_stack maps a want_total = Some r ∧
    (r = mkMachStack eagain None (if want_total then Some (total_size a) else None) maps None ∨
     ∃ base, mac_mapped maps a r base ∧
       ((mach_vm_map maps k_stack_hint (total_size a) mask).1 = kern_success →
        base = (mach_vm_map maps k_stack_hint (total_size a) mask).2 ∧ Z.land base mask = 0)).
Proof.
  intros Ha Ht. pose proof (total_size_range a).
  pose proof (right_mask_value (total_size a) ltac:(lia)) as Hmask.
  set (mask := Z.ones (Z.log2 (total_size a) + 1)) in *.
  unfold mac_allocate_stack. rewrite Ha, Hmask. simpl.
  pose proof (map_fresh maps k_stack_hint (total_size a) mask) as Hmap.
  destruct (mach_vm_map maps k_stack_hint (total_size a) mask) as [kr addr] eqn:Emap. simpl in Hmap.
  pose proof (allocate_fresh maps addr (total_size a)) as Halloc.
  set (guard_of := λ base, if bool_decide (effective_guardsize a ≠ 0) then
    if bool_decide (mach_vm_protect base (effective_guardsize a) = kern_success)
    then Some (base, effective_guardsize a) else None else None).
  assert (∀ base, guard_of base = None ∨ guard_of base = Some (base, effective_guardsize a)) as Hg.
  { intros base. unfold guard_of. repeat case_bool_decide; auto. }
  case_bool_decide as Hkr.
  - destruct (mach_vm_allocate maps addr (total_size a)) as [kr2 base]. simpl in Halloc.
    case_bool_decide as Hkr2.
    + eexists _, mask. split_and!; [done..|]. by left.
    + destruct (Halloc Hkr2) as (? & ? & ?).
      eexists _, mask. split_and!; [done..|]. right. exists base.
      rewrite Emap. split; [by apply mac_mapped_at; [..|apply (Hg base)]|done].
  - destruct (Hmap Hkr) as (? & ? & ? & ?).
    rewrite bool_decide_false by (by intros []).
    eexists _, mask. split_and!; [done..|]. right. exists addr.
    rewrite Emap. split; [by apply mac_mapped_at; [..|apply (Hg addr)]|done].
Qed.

(** ** Properties *)

Lemma mac_free_mapped maps a r base :
  0 < total_size a → mac_mapped maps a r base →
  mac_free_stack (mr_maps r) base (total_size a) = (0, maps).
Proof.
  intros Ht [_ _ _ Em Hf _]. unfold mac_free_stack. rewrite Em, deallocate_mapped by (by left).
  rewrite bool_decide_false by (by intros []). f_equal.
  by apply unmap_fresh.
Qed.

(** C33.  Stacks on macOS: a request for a stack of at least one byte either
    fails with EAGAIN, with nothing mapped and [*stack] unwritten, or succeeds;
    then the new region overlaps no other, |stack| is its upper end, a guard lies
    at its lower end or nowhere, and giving the region back leaves exactly the
    regions that were mapped before. *)
Theorem mac_stack_roundtrip maps a :
  stack_addr a = 0 → 0 < total_size a →
  ∃ r, mac_allocate_stack maps a true = Some r ∧ mr_total r = Some (total_size a) ∧
    (mr_rc r = eagain ∧ mr_stack r = None ∧ mr_maps r = maps ∨
     ∃ base, mac_mapped maps a r base ∧
       mac_free_stack (mr_maps r) base (total_size a) = (0, maps)).
Proof.
  intros Ha Ht. destruct (mac_allocate_spec maps a true Ha Ht) as (r & mask & _ & Hr & Hor).
  exists r. split; [done|]. destruct Hor as [->|(base & Hm & _)]; [by auto|]. split.
  - revert Hr. unfold mac_allocate_stack. rewrite Ha. simpl.
    destruct (right_mask _); [simpl|done]. repeat case_match; by intros [= <-].
  - right. exists base. split; [done|by apply mac_free_mapped].
Qed.

(** The mask passed to [mach_vm_map] aligns a stack to a power of two that
    is not smaller than the stack: clearing the bits of the mask in any address
    of the stack gives its lower end. *)
Theorem mac_stack_aligned maps a mask :
  stack_addr a = 0 → right_mask (total_size a) = Some mask →
  (mach_vm_map maps k_stack_hint (total_size a) mask).1 = kern_success →
  ∃ r base, mac_allocate_stack maps a true = Some r ∧ mac_mapped maps a r base ∧
    ∀ x, base ≤ x < base + total_size a → Z.ldiff x mask = base.
Proof.
  intros Ha Hmask Hkr. pose proof (total_size_range a).
  destruct (decide (total_size a = 0)) as [H0|Hne]; [by rewrite H0 in Hmask|].
  destruct (mac_allocate_spec maps a true Ha ltac:(lia)) as (r & mask' & Hmask' & Hr & Hor).
  assert (mask' = mask) as -> by congruence.
  destruct Hor as [->|(base & Hm & Hb)].
  { exfalso. revert Hr. unfold mac_allocate_stack. rewrite Ha, Hmask. simpl.
    destruct (mach_vm_map _ _ _ _) as [kr addr]. simpl in Hkr. subst kr. simpl. done. }
  exists r, base. split_and!; [done..|]. destruct (Hb Hkr) as [_ Hland].
  rewrite right_mask_value in Hmask by lia. injection Hmask as <-.
  set (k := Z.log2 (total_size a) + 1) in *.
  destruct (Z.log2_spec (total_size a)) as [_ Hhi]; [lia|].
  assert (total_size a < 2 ^ k) as Hk by done.
  assert (0 ≤ k) by (unfold k; pose proof (Z.log2_nonneg (total_size a)); lia).
  rewrite Z.land_ones in Hland by done. intros x Hx.
  rewrite Z.ldiff_ones_r, Z.shiftl_mul_pow2, Z.shiftr_div_pow2 by done.
  pose proof (Z.div_mod base (2 ^ k) ltac:(lia)) as Hdm. rewrite Hland in Hdm.
  assert (x / 2 ^ k = base / 2 ^ k) as ->; [|lia].
  symmetry. apply (Z.div_unique x (2 ^ k) (base / 2 ^ k) (x - base)); lia.
Qed.

(** A guard page that could not be set up goes unnoticed: the answer of
    [mach_vm_protect] is stored and never looked at, and the call succeeds with
    a stack that has no guard. *)
Theorem mac_guard_unchecked maps a mask :
  stack_addr a = 0 → right_mask (total_size a) = Some mask →
  (mach_vm_map maps k_stack_hint (total_size a) mask).1 = kern_success →
  mach_vm_protect (mach_vm_map maps k_stack_hint (total_size a) mask).2 (effective_guardsize a)
    ≠ kern_success →
  ∃ r, mac_allocate_stack maps a true = Some r ∧ mr_rc r = 0 ∧ mr_guard r = None.
Proof.
  intros Ha Hmask Hkr Hp. unfold mac_allocate_stack. rewrite Ha, Hmask. simpl.
  destruct (mach_vm_map _ _ _ _) as [kr addr]. simpl in *. subst kr. simpl.
  eexists. split_and!; [done..|]. simpl. case_bool_decide; [|done]. by rewrite bool_decide_false.
Qed.

End stacks.

(** One interface, two systems: when the Mach kernel maps and protects where
    the Linux kernel does, [allocate_stack] of memory_macos.cc leaves behind the
    same code, stack, size and regions as that of memory_linux.cc. *)
Theorem mac_matches_linux {E : Env} {M : Mach} maps a want_total mask :
  vm_page_size = sc_pagesize → right_mask (total_size a) = Some mask →
  mach_vm_map maps k_stack_hint (total_size a) mask = (kern_success, mmap maps (total_size a)) →
  mmap maps (total_size a) ≠ 0 → mmap maps (total_size a) ≠ map_failed →
  mprotect_fails (mmap maps (total_size a)) (effective_guardsize a) = false →
  (λ r, mkStackResult (mr_rc r) (mr_stack r) (mr_total r) (mr_maps r)) <$>
    mac_allocate_stack maps a want_total =
  Some (allocate_stack maps a want_total).
Proof.
  intros Hpage Hmask Hmap H0 Hf Hp. unfold mac_allocate_stack, allocate_stack. rewrite Hpage.
  case_bool_decide; [by case_bool_decide|]. rewrite Hmask. simpl. rewrite Hmap. simpl.
  rewrite Hp, andb_false_r. rewrite (bool_decide_false (mmap _ _ = map_failed)) by done.
  by rewrite (bool_decide_false (mmap _ _ = 0)).
Qed.
