(* ===== verification/MacTls.v ===== *)
(** * platform/tls_macos.cc: thread-local storage on macOS

    On macOS the register [%gs] points to an array of 768 slots inside the
    [pthread_t] of the running thread, whose slot 0 points back to that
    [pthread_t].  A block of the library is a copy of the [pthread_t] followed by
    slots of its own.  Memory holds bytes; a pointer is 8 of them. *)

From S2P Require Import Prelude Platform.

(** ** Words in a memory of bytes *)

Definition mac_memory : Type := Z → Z.

(** A number of [n] bytes, the lowest first. *)
Fixpoint load (n : nat) (m : mac_memory) (a : Z) : Z :=
  match n with O => 0 | S n' => m a + 256 * load n' m (a + 1) end.
Definition store (n : nat) (a v : Z) (m : mac_memory) : mac_memory := λ x,
  if bool_decide (a ≤ x < a + Z.of_nat n) then (v / 256 ^ (x - a)) `mod` 256 else m x.

Definition mac_memcpy (dst src n : Z) (m : mac_memory) : mac_memory := λ x,
  if bool_decide (dst ≤ x < dst + n) then m (src + (x - dst)) else m x.
Definition mac_memset (dst v n : Z) (m : mac_memory) : mac_memory := λ x,
  if bool_decide (dst ≤ x < dst + n) then v else m x.

Lemma load_ext n m m' a : (∀ x, a ≤ x < a + Z.of_nat n → m x = m' x) → load n m a = load n m' a.
Proof.
  revert a. induction n as [|n IH]; intros a H; [done|]. simpl. rewrite (H a) by lia.
  do 2 f_equal. apply IH. intros x Hx. apply H. lia.
Qed.

(** Every byte of the sum is the right one. *)
Lemma load_bytes n m a v :
  (∀ x, a ≤ x < a + Z.of_nat n → m x = (v / 256 ^ (x - a)) `mod` 256) →
  load n m a = v `mod` 256 ^ Z.of_nat n.
Proof.
  revert a v. induction n as [|n IH]; intros a v H; [by rewrite Z.mod_1_r|].
  cbn [load]. rewrite (IH (a + 1) (v / 256)).
  - rewrite H by lia. rewrite Z.sub_diag, Z.pow_0_r, Z.div_1_r, Nat2Z.inj_succ, Z.pow_succ_r by lia.
    rewrite Z.rem_mul_r by lia. done.
  - intros x Hx. rewrite H by lia. rewrite Z.div_div by lia. rewrite <- (Z.pow_succ_r 256) by lia.
    do 3 f_equal. lia.
Qed.

Lemma load_store_eq n m a v : load n (store n a v m) a = v `mod` 256 ^ Z.of_nat n.
Proof. apply load_bytes. intros x Hx. unfold store. by rewrite bool_decide_true. Qed.

Lemma load_store_ne n k m a b v :
  b + Z.of_nat k ≤ a ∨ a + Z.of_nat n ≤ b → load n (store k b v m) a = load n m a.
Proof. intros H. apply load_ext. intros x Hx. unfold store. rewrite bool_decide_false; [done|lia]. Qed.

(** A pointer *)
Definition load64 (m : mac_memory) (a : Z) : Z := load 8 m a.
Definition store64 (a v : Z) (m : mac_memory) : mac_memory := store 8 a v m.

Lemma load64_store64 m a v : 0 ≤ v < two64 → load64 (store64 a v m) a = v.
Proof. intros H. unfold load64, store64. rewrite load_store_eq. by apply Z.mod_small. Qed.

Lemma load64_zero m a : (∀ x, a ≤ x < a + 8 → m x = 0) → load64 m a = 0.
Proof.
  intros H. unfold load64. rewrite (load_bytes 8 m a 0); [done|].
  intros x Hx. rewrite Z.div_0_l by lia. by apply H.
Qed.

(** ** The state *)

Definition k_num_slots : Z := 768.
Definition k_num_copied_slots : Z := 256.
Definition k_thread_slot_a : Z := 6.

(** Memory, the base of [%gs], the static [pthread_t_size] of
    [get_pthread_slots_offset], and what was passed to [free], latest first. *)
Record mac := mkMac {
  mac_mem : mac_memory;
  mac_gs : Z;
  mac_pthread_t_size : Z;
  mac_freed : list Z
}.

Definition set_mem (m : mac_memory) (s : mac) : mac :=
  mkMac m (mac_gs s) (mac_pthread_t_size s) (mac_freed s).
Definition set_gs (v : Z) (s : mac) : mac :=
  mkMac (mac_mem s) v (mac_pthread_t_size s) (mac_freed s).

(** [*g_pthread_self_slot] *)
Definition pthread_self (s : mac) : Z := load64 (mac_mem s) (mac_gs s).

Definition mac_after (this : Z) : Z := this + sizeof_tls.

(** The loop of [get_pthread_slots_offset]; [None] when it needs more steps
    than [fuel]. *)
Fixpoint find_self (fuel : nat) (m : mac_memory) (self search : Z) : option Z :=
  match fuel with
  | O => None
  | S n => if bool_decide (load64 m search = self) then Some search
           else find_self n m self (search + 8)
  end.

Definition get_pthread_slots_offset (fuel : nat) (s : mac) : option (Z * mac) :=
  if bool_decide (mac_pthread_t_size s ≠ 0) then Some (mac_pthread_t_size s, s)
  else
    let self := pthread_self s in
    search ← find_self fuel (mac_mem s) self self;
    let size := search - self in
    Some (size, mkMac (mac_mem s) (mac_gs s) size (mac_freed s)).

(** [tls_slots], and the state after the size was looked up *)
Definition tls_slots (fuel : nat) (this : Z) (s : mac) : option (Z * mac) :=
  r ← get_pthread_slots_offset fuel s; Some (mac_after this + r.1, r.2).

(** [tls::tls()] *)
Definition mac_construct (fuel : nat) (this : Z) (s : mac) : option mac :=
  r ← get_pthread_slots_offset fuel s;
  let '(pthread_t_size, s1) := r in
  let m1 := mac_memcpy (mac_after this) (pthread_self s1) pthread_t_size (mac_mem s1) in
  let m2 := mac_memset (mac_after this + pthread_t_size) 0 (k_num_slots * 8) m1 in
  Some (set_mem (store64 (mac_after this + pthread_t_size) (mac_after this) m2) s1).

(** The loops over the slots from [i] on, [n] of them.  [clear]: whether the
    slot is set to [NULL], as in [reset]. *)
Fixpoint free_slots (clear : bool) (n : nat) (slots i : Z) (s : mac) : mac :=
  match n with
  | O => s
  | S n' =>
      let v := load64 (mac_mem s) (slots + 8 * i) in
      let s1 := if bool_decide (v ≠ 0)
                then mkMac (if clear then store64 (slots + 8 * i) 0 (mac_mem s) else mac_mem s)
                       (mac_gs s) (mac_pthread_t_size s) (v :: mac_freed s)
                else s in
      free_slots clear n' slots (i + 1) s1
  end.
Definition dynamic_slots : nat := Z.to_nat (k_num_slots - k_num_copied_slots).

(** [tls::~tls()] *)
Definition mac_destruct (fuel : nat) (this : Z) (s : mac) : option mac :=
  r ← tls_slots fuel this s; Some (free_slots false dynamic_slots r.1 k_num_copied_slots r.2).

(** [tls::reset()] *)
Definition mac_reset (fuel : nat) (this : Z) (s : mac) : option mac :=
  r ← tls_slots fuel this s; Some (free_slots true dynamic_slots r.1 k_num_copied_slots r.2).

Definition mac_prefix_bytes : Z := 0.
Definition mac_postfix_bytes (fuel : nat) (s : mac) : option (Z * mac) :=
  r ← get_pthread_slots_offset fuel s; Some (sizeof_tls + k_num_slots * 8 + r.1, r.2).

Definition mac_current (s : mac) : Z := pthread_self s - sizeof_tls.

Definition mac_set_thread (fuel : nat) (this thread : Z) (s : mac) : option mac :=
  r ← tls_slots fuel this s;
  Some (set_mem (store64 (r.1 + 8 * k_thread_slot_a) thread (mac_mem r.2)) r.2).

Definition mac_get_thread (fuel : nat) (this : Z) (s : mac) : option (Z * mac) :=
  r ← tls_slots fuel this s; Some (load64 (mac_mem r.2) (r.1 + 8 * k_thread_slot_a), r.2).

(** [tls::use()]: [_thread_set_tsd_base] sets the base of [%gs]. *)
Definition mac_use (fuel : nat) (this : Z) (s : mac) : option mac :=
  r ← tls_slots fuel this s; Some (set_gs r.1 r.2).

(** [tls::current_thread()] (tls_impl_macos.h) *)
Definition mac_current_thread (s : mac) : Z := load64 (mac_mem s) (mac_gs s + 8 * 6).

(** ** The size of [pthread_t] *)

Lemma find_self_spec m self n : ∀ search,
  load64 m (search + 8 * Z.of_nat n) = self →
  ∀ fuel, (n < fuel)%nat → ∃ k, (k ≤ n)%nat ∧
    find_self fuel m self search = Some (search + 8 * Z.of_nat k) ∧
    load64 m (search + 8 * Z.of_nat k) = self ∧
    ∀ j, (j < k)%nat → load64 m (search + 8 * Z.of_nat j) ≠ self.
Proof.
  induction n as [|n IH]; intros search Hn [|fuel] Hf; try lia; simpl.
  - rewrite Z.add_0_r in Hn. rewrite bool_decide_true by done. exists 0%nat.
    rewrite Z.add_0_r. split_and!; [lia|done|done|lia].
  - case_bool_decide as Hs.
    + exists 0%nat. rewrite Z.add_0_r. split_and!; [lia|done|done|lia].
    + destruct (IH (search + 8)) with (fuel := fuel) as (k & Hk & Hfind & Hat & Hfirst);
        [rewrite <-Hn; f_equal; lia|lia|].
      exists (S k). replace (search + 8 * Z.of_nat (S k)) with (search + 8 + 8 * Z.of_nat k) by lia.
      split_and!; [lia|done|done|]. intros [|j] Hj; [by rewrite Z.add_0_r|].
      replace (search + 8 * Z.of_nat (S j)) with (search + 8 + 8 * Z.of_nat j) by lia.
      apply Hfirst. lia.
Qed.

(** C34.  The search for the slots ends: [%gs] points [n] words into the
    [pthread_t], to a word that points back to it, so the loop stops after at
    most [n] steps, at the first word of the [pthread_t] that holds its own
    address; the size is remembered, and the next call answers it at once.  If
    no earlier word holds the address, the size is the distance of the slots. *)
Theorem mac_search_terminates s n fuel :
  mac_pthread_t_size s = 0 → mac_gs s = pthread_self s + 8 * Z.of_nat n → (n < fuel)%nat →
  ∃ k s', (k ≤ n)%nat ∧ get_pthread_slots_offset fuel s = Some (8 * Z.of_nat k, s') ∧
    load64 (mac_mem s) (pthread_self s + 8 * Z.of_nat k) = pthread_self s ∧
    mac_mem s' = mac_mem s ∧ mac_gs s' = mac_gs s ∧
    ((0 < k)%nat → get_pthread_slots_offset 0 s' = Some (8 * Z.of_nat k, s')) ∧
    ((∀ j, (j < n)%nat → load64 (mac_mem s) (pthread_self s + 8 * Z.of_nat j) ≠ pthread_self s) →
     k = n).
Proof.
  intros H0 Hgs Hf.
  destruct (find_self_spec (mac_mem s) (pthread_self s) n (pthread_self s)) with (fuel := fuel)
    as (k & Hk & Hfind & Hat & Hfirst); [by rewrite <-Hgs|done|].
  unfold get_pthread_slots_offset. rewrite H0. simpl. rewrite Hfind. simpl.
  replace (pthread_self s + 8 * Z.of_nat k - pthread_self s) with (8 * Z.of_nat k) by lia.
  eexists k, _. split_and!; [done..| |]; simpl.
  - intros Hpos. by rewrite bool_decide_true by lia.
  - intros Hnone. destruct (decide (k < n)%nat) as [Hlt|]; [by destruct (Hnone k Hlt)|lia].
Qed.

(** ** A block *)

(** The size of the [pthread_t] is known. *)
Definition sized (s : mac) (size : Z) : Prop := mac_pthread_t_size s = size ∧ 0 < size.

Lemma sized_slots s size fuel this :
  sized s size → tls_slots fuel this s = Some (mac_after this + size, s).
Proof.
  intros [Hs Hpos]. unfold tls_slots, get_pthread_slots_offset.
  rewrite bool_decide_true by lia. simpl. by rewrite Hs.
Qed.

Lemma set_mem_sized s size m : sized s size → sized (set_mem m s) size.
Proof. done. Qed.

(** What the constructor leaves in memory. *)
Definition constructed (this size : Z) (s : mac) : mac_memory :=
  store64 (mac_after this + size) (mac_after this)
    (mac_memset (mac_after this + size) 0 (k_num_slots * 8)
       (mac_memcpy (mac_after this) (pthread_self s) size (mac_mem s))).

Lemma sized_construct s size fuel this :
  sized s size → mac_construct fuel this s = Some (set_mem (constructed this size s) s).
Proof.
  intros [Hs Hpos]. unfold mac_construct, get_pthread_slots_offset.
  rewrite bool_decide_true by lia. simpl. by rewrite Hs.
Qed.

Lemma sized_set_thread s size fuel this thread :
  sized s size → mac_set_thread fuel this thread s =
    Some (set_mem (store64 (mac_after this + size + 8 * k_thread_slot_a) thread (mac_mem s)) s).
Proof. intros Hs. unfold mac_set_thread. by rewrite (sized_slots s size). Qed.

Lemma sized_use s size fuel this :
  sized s size → mac_use fuel this s = Some (set_gs (mac_after this + size) s).
Proof. intros Hs. unfold mac_use. by rewrite (sized_slots s size). Qed.

Lemma sized_frees (clear : bool) s size fuel this :
  sized s size →
  (if clear then mac_reset else mac_destruct) fuel this s =
    Some (free_slots clear dynamic_slots (mac_after this + size) k_num_copied_slots s).
Proof.
  intros Hs. destruct clear; unfold mac_reset, mac_destruct; by rewrite (sized_slots s size).
Qed.

(** A block that was constructed, given a thread and put to use is the
    current one: [current()] finds the block, [current_thread()] and
    [get_thread()] its thread.  The block stays within [postfix_bytes()]: memory
    outside is as before. *)
Theorem mac_block_current s size this thread :
  sized s size → 0 ≤ mac_after this < two64 → 0 ≤ thread < two64 →
  ∃ s1 s2 s3, mac_construct 0 this s = Some s1 ∧ mac_set_thread 0 this thread s1 = Some s2 ∧
    mac_use 0 this s2 = Some s3 ∧ mac_current s3 = this ∧ mac_current_thread s3 = thread ∧
    mac_get_thread 0 this s3 = Some (thread, s3) ∧
    (∀ n s', mac_postfix_bytes 0 s = Some (n, s') →
       ∀ x, ¬ (this ≤ x < this + n) → mac_mem s3 x = mac_mem s x).
Proof.
  intros Hs Hthis Hth. pose proof Hs as [Hsz Hpos].
  set (m1 := constructed this size s). set (slots := mac_after this + size).
  set (m2 := store64 (slots + 8 * k_thread_slot_a) thread m1).
  exists (set_mem m1 s), (set_mem m2 s), (set_gs slots (set_mem m2 s)).
  assert (load64 m2 (slots + 8 * k_thread_slot_a) = thread) as Hthread by (by apply load64_store64).
  split_and!; [by apply sized_construct|by erewrite sized_set_thread|by erewrite sized_use|
               |done| |].
  - unfold mac_current, pthread_self. simpl. unfold m2, load64, store64.
    rewrite load_store_ne by (unfold k_thread_slot_a; lia). fold (load64 m1 slots).
    unfold m1, constructed. fold slots. rewrite load64_store64 by done. unfold mac_after. lia.
  - unfold mac_get_thread. rewrite (sized_slots _ size) by done. simpl. fold slots. by rewrite Hthread.
  - unfold mac_postfix_bytes, get_pthread_slots_offset. rewrite bool_decide_true by lia. simpl.
    intros n s' [= <- _] x Hx.
    unfold m2, m1, constructed, store64, store, mac_memset, mac_memcpy.
    unfold slots, mac_after, k_thread_slot_a, k_num_slots, sizeof_tls in *. rewrite Hsz in Hx.
    by repeat (rewrite bool_decide_false by lia).
Qed.

(** ** The slots *)

(** The values of [n] slots from [i] on that are not null. *)
Definition held (m : mac_memory) (slots i : Z) (n : nat) : list Z :=
  filter (λ v, v ≠ 0) ((λ j, load64 m (slots + 8 * (i + Z.of_nat j))) <$> seq 0 n).

Lemma held_cons m slots i n :
  held m slots i (S n) =
    (if bool_decide (load64 m (slots + 8 * i) ≠ 0) then [load64 m (slots + 8 * i)] else []) ++
    held m slots (i + 1) n.
Proof.
  unfold held. cbn [seq fmap list_fmap]. rewrite Z.add_0_r. rewrite <- fmap_S_seq, <- list_fmap_compose.
  rewrite (list_fmap_ext (_ ∘ S) (λ j, load64 m (slots + 8 * (i + 1 + Z.of_nat j)))).
  - case_bool_decide; [by rewrite filter_cons_True|by rewrite filter_cons_False by (by intros [])].
  - intros _ j _. simpl. do 3 f_equal. lia.
Qed.

Lemma held_ext m m' slots i n :
  (∀ x, slots + 8 * i ≤ x → m x = m' x) → held m slots i n = held m' slots i n.
Proof.
  intros H. unfold held. f_equal. apply list_fmap_ext. intros _ j _. apply load_ext.
  intros x Hx. apply H. lia.
Qed.

(** What the loops do. *)
Record freed_slots (clear : bool) (n : nat) (slots i : Z) (s s' : mac) : Prop := {
  fs_gs : mac_gs s' = mac_gs s;
  fs_size : mac_pthread_t_size s' = mac_pthread_t_size s;
  fs_freed : mac_freed s' = rev (held (mac_mem s) slots i n) ++ mac_freed s;
  fs_outside x : ¬ (clear = true ∧ slots + 8 * i ≤ x < slots + 8 * (i + Z.of_nat n)) →
    mac_mem s' x = mac_mem s x;
  fs_cleared j : clear = true → i ≤ j < i + Z.of_nat n → load64 (mac_mem s') (slots + 8 * j) = 0
}.

Lemma free_slots_spec clear n slots : ∀ i s,
  freed_slots clear n slots i s (free_slots clear n slots i s).
Proof.
  induction n as [|n IH]; intros i s; [by constructor; [..|lia]|]. cbn [free_slots].
  set (v := load64 (mac_mem s) (slots + 8 * i)).
  set (s1 := if bool_decide (v ≠ 0) then _ else _).
  assert (mac_gs s1 = mac_gs s ∧ mac_pthread_t_size s1 = mac_pthread_t_size s) as [Hg1 Hs1]
    by (unfold s1; by case_bool_decide).
  assert (mac_freed s1 = (if bool_decide (v ≠ 0) then [v] else []) ++ mac_freed s) as Hf1
    by (unfold s1; by case_bool_decide).
  assert (∀ x, ¬ (clear = true ∧ slots + 8 * i ≤ x < slots + 8 * (i + 1)) →
            mac_mem s1 x = mac_mem s x) as Ho1.
  { intros x Hx. unfold s1. case_bool_decide; [|done]. destruct clear; [|done]. simpl.
    unfold store64, store. rewrite bool_decide_false; [done|]. intros ?. apply Hx. split; [done|lia]. }
  assert (clear = true → load64 (mac_mem s1) (slots + 8 * i) = 0) as Hc1.
  { intros ->. unfold s1. case_bool_decide as Hv; [by apply load64_store64|].
    by destruct (decide (v = 0)). }
  destruct (IH (i + 1) s1) as [Hg Hs Hf Ho Hc]. constructor.
  - congruence.
  - congruence.
  - rewrite Hf, Hf1, held_cons, rev_app_distr, <- app_assoc. fold v.
    rewrite (held_ext (mac_mem s1) (mac_mem s)) by (intros x Hx; apply Ho1; lia).
    f_equal. by case_bool_decide.
  - intros x Hx. rewrite Ho, Ho1; [done|..]; intros [-> ?]; apply Hx; split; [done|lia|done|lia].
  - intros j Hcl Hj. destruct (decide (j = i)) as [->|Hne]; [|apply Hc; [done|lia]].
    rewrite <- Hc1 by done. apply load_ext. intros x Hx. apply Ho. lia.
Qed.

Lemma free_slots_none clear n slots : ∀ i s,
  (∀ j, i ≤ j < i + Z.of_nat n → load64 (mac_mem s) (slots + 8 * j) = 0) →
  free_slots clear n slots i s = s.
Proof.
  induction n as [|n IH]; intros i s H; [done|]. cbn [free_slots].
  rewrite (bool_decide_false (_ ≠ 0)) by (rewrite H; [by intros []|lia]).
  apply IH. intros j Hj. apply H. lia.
Qed.

(** [reset()] frees the dynamic slots of the block, each one that is not
    null exactly once, and clears them; nothing else changes: the thread of the
    block, its pointer to itself, the slots below 256 and all memory around
    them stay as they are.  The destructor finds nothing more to free afterwards. *)
Theorem mac_reset_frees_once s size this :
  sized s size →
  let slots := mac_after this + size in
  ∃ s', mac_reset 0 this s = Some s' ∧
    mac_freed s' = rev (held (mac_mem s) slots 256 512) ++ mac_freed s ∧
    (∀ j, 256 ≤ j < 768 → load64 (mac_mem s') (slots + 8 * j) = 0) ∧
    (∀ x, ¬ (slots + 8 * 256 ≤ x < slots + 8 * 768) → mac_mem s' x = mac_mem s x) ∧
    mac_gs s' = mac_gs s ∧ option_map fst (mac_get_thread 0 this s') = option_map fst (mac_get_thread 0 this s) ∧
    mac_destruct 0 this s' = Some s'.
Proof.
  intros Hs slots. rewrite (sized_frees true s size) by done. fold slots. set (s' := free_slots true dynamic_slots slots k_num_copied_slots s).
  destruct (free_slots_spec true dynamic_slots slots k_num_copied_slots s) as [Hg Hsz Hf Ho Hc].
  fold s' in Hg, Hsz, Hf, Ho, Hc. clearbody s'.
  change (k_num_copied_slots + Z.of_nat dynamic_slots) with 768 in *.
  change k_num_copied_slots with 256 in *.
  assert (sized s' size) as Hs' by (unfold sized in *; by rewrite Hsz).
  exists s'. split_and!; [done|done|by intros j; apply Hc| |done| |].
  - intros x Hx. apply Ho. by intros [_ ?].
  - unfold mac_get_thread. rewrite !(sized_slots _ size) by done. simpl. f_equal. fold slots.
    apply load_ext. intros x Hx. apply Ho. unfold k_thread_slot_a in Hx. lia.
  - unfold mac_destruct. rewrite (sized_slots s' size) by done. cbn [mbind option_bind fst snd].
    fold slots. f_equal. apply free_slots_none. intros j Hj. by apply Hc.
Qed.
