(* ===== verification/World.v ===== *)
(** * The state of the library

    The data of sched/task.h, sched/internal/rq.h, sched/sched_node.h,
    sched/internal/task_freelist.h, platform/alarm.h and
    concur/internal/waiter.h, gathered in one [world]: the C++ code links
    these objects by raw pointers, so they live in one heap.  A pointer is its
    address ([0] is [nullptr]); a dereference of an address that holds no
    object is a fault.

    Saved contexts.  [gthread_switch_to] saves the registers of the running
    task, hence the point where it will continue.  That point is the stack of
    calls that are still to return; [frame] names what each of those calls does
    after the context switch, and [t_ctx] holds them innermost first. *)

From S2P Require Import Prelude Platform.

(** [task::run_state_t] *)
Inductive run_state_t := RUNNING | SUSPENDED | STOPPED | WAITING.
#[global] Instance run_state_eq_dec : EqDecision run_state_t.
Proof. solve_decision. Defined.

(** What remains to be done in a call that was left by a context switch. *)
Inductive frame :=
(** [gthread_task_entry] after its own switch back to the starter *)
| FTaskEntry
(** [task::switch_to_internal] after [gthread_switch_to] *)
| FSwitch (prev_task : Z)
(** [~unlock_guard] and [~guard] in [sched_node::yield] *)
| FRelockSpin
| FUnlockSpin
(** [~lock_guard<preempt_mutex>] *)
| FUnlockPreempt
(** [sched::join(handle, return_value)] after its [yield()] *)
| FJoin (handle : Z) (return_value : Z)
(** [waiter::park_if] after its [sched::yield()], and [waiter::swap] after its
    [switch_to]: both [return true] *)
| FPark (waiter : Z)
| FSwap (waiter : Z)
(** the check of [sched_node::start] after its [yield()] *)
| FStart.
#[global] Instance frame_eq_dec : EqDecision frame.
Proof. solve_decision. Defined.

(** [struct task]; [t_ctx] is [None] when the task has no context to resume. *)
Record task := mkTask {
  t_tls : Z;
  t_ctx : option (list frame);
  t_stack : Z;
  t_stack_begin : Z;
  t_total_stack_size : Z;
  t_run_state : run_state_t;
  t_entry : Z;
  t_arg : Z;
  t_return_value : Z;
  t_joiner : Z;
  t_detached : bool;
  t_vruntime : Z;
  t_priority_boost : Z;
  t_no_preempt_flag : bool
}.

(** The [thread] slot of a [tcbhead], and the [thread_local]
    [g_current_sched_node] (there is one node, so whether it is set). *)
Record tls_block := mkTlsBlock { tb_thread : Z; tb_node : bool }.

(** [class rq]: the multiset in its order, the multimap in its order. *)
Record rq := mkRq {
  runqueue : list Z;
  sleepqueue : list (Z * Z);
  min_vruntime : Z
}.

(** [class sched_node] *)
Record sched_node := mkNode {
  nd_spin_lock : bool;
  nd_running : bool;
  nd_deferred : Z;
  nd_rq : rq;
  nd_last_tick : Z
}.

(** [class task_freelist] *)
Record task_freelist := mkFreelist { fl_l : list Z; fl_max_size : Z }.

(** [class alarm], the process signal disposition and [g_alarm_armed] *)
Record alarm := mkAlarm {
  al_trap : bool;
  al_interval : Z;
  al_signal : bool;
  al_armed : bool
}.

Record world := mkWorld {
  w_tasks : gmap Z task;
  w_maps : list region;
  w_tls : gmap Z tls_block;
  w_fs : Z;
  w_node : sched_node;
  w_freelist : task_freelist;
  w_alarm : alarm;
  (** the function-local static of [sched_context::get] was constructed *)
  w_context : bool;
  (** [task::_end_handler] is set *)
  w_end_handler : bool;
  (** objects of the program: handles, words that receive return values and
      waiters *)
  w_handles : gmap Z Z;
  w_words : gmap Z Z;
  w_waiters : gmap Z Z;
  (** readings of the two clocks so far *)
  w_thread_reads : nat;
  w_system_reads : nat
}.

(** ** Field updates *)

Definition set_tls_ptr (v : Z) (t : task) : task :=
  mkTask v (t_ctx t) (t_stack t) (t_stack_begin t) (t_total_stack_size t) (t_run_state t)
    (t_entry t) (t_arg t) (t_return_value t) (t_joiner t) (t_detached t) (t_vruntime t)
    (t_priority_boost t) (t_no_preempt_flag t).
Definition set_ctx (v : option (list frame)) (t : task) : task :=
  mkTask (t_tls t) v (t_stack t) (t_stack_begin t) (t_total_stack_size t) (t_run_state t)
    (t_entry t) (t_arg t) (t_return_value t) (t_joiner t) (t_detached t) (t_vruntime t)
    (t_priority_boost t) (t_no_preempt_flag t).
Definition set_run_state (v : run_state_t) (t : task) : task :=
  mkTask (t_tls t) (t_ctx t) (t_stack t) (t_stack_begin t) (t_total_stack_size t) v
    (t_entry t) (t_arg t) (t_return_value t) (t_joiner t) (t_detached t) (t_vruntime t)
    (t_priority_boost t) (t_no_preempt_flag t).
Definition set_entry_arg (e a : Z) (t : task) : task :=
  mkTask (t_tls t) (t_ctx t) (t_stack t) (t_stack_begin t) (t_total_stack_size t)
    (t_run_state t) e a (t_return_value t) (t_joiner t) (t_detached t) (t_vruntime t)
    (t_priority_boost t) (t_no_preempt_flag t).
Definition set_return_value (v : Z) (t : task) : task :=
  mkTask (t_tls t) (t_ctx t) (t_stack t) (t_stack_begin t) (t_total_stack_size t)
    (t_run_state t) (t_entry t) (t_arg t) v (t_joiner t) (t_detached t) (t_vruntime t)
    (t_priority_boost t) (t_no_preempt_flag t).
Definition set_joiner (v : Z) (t : task) : task :=
  mkTask (t_tls t) (t_ctx t) (t_stack t) (t_stack_begin t) (t_total_stack_size t)
    (t_run_state t) (t_entry t) (t_arg t) (t_return_value t) v (t_detached t) (t_vruntime t)
    (t_priority_boost t) (t_no_preempt_flag t).
Definition set_detached (v : bool) (t : task) : task :=
  mkTask (t_tls t) (t_ctx t) (t_stack t) (t_stack_begin t) (t_total_stack_size t)
    (t_run_state t) (t_entry t) (t_arg t) (t_return_value t) (t_joiner t) v (t_vruntime t)
    (t_priority_boost t) (t_no_preempt_flag t).
Definition set_vruntime (v : Z) (t : task) : task :=
  mkTask (t_tls t) (t_ctx t) (t_stack t) (t_stack_begin t) (t_total_stack_size t)
    (t_run_state t) (t_entry t) (t_arg t) (t_return_value t) (t_joiner t) (t_detached t) v
    (t_priority_boost t) (t_no_preempt_flag t).
Definition set_no_preempt_flag (v : bool) (t : task) : task :=
  mkTask (t_tls t) (t_ctx t) (t_stack t) (t_stack_begin t) (t_total_stack_size t)
    (t_run_state t) (t_entry t) (t_arg t) (t_return_value t) (t_joiner t) (t_detached t)
    (t_vruntime t) (t_priority_boost t) v.

Definition upd_tasks (f : gmap Z task → gmap Z task) (w : world) : world :=
  mkWorld (f (w_tasks w)) (w_maps w) (w_tls w) (w_fs w) (w_node w) (w_freelist w) (w_alarm w)
    (w_context w) (w_end_handler w) (w_handles w) (w_words w) (w_waiters w)
    (w_thread_reads w) (w_system_reads w).
Definition set_maps (v : list region) (w : world) : world :=
  mkWorld (w_tasks w) v (w_tls w) (w_fs w) (w_node w) (w_freelist w) (w_alarm w)
    (w_context w) (w_end_handler w) (w_handles w) (w_words w) (w_waiters w)
    (w_thread_reads w) (w_system_reads w).
Definition upd_tls (f : gmap Z tls_block → gmap Z tls_block) (w : world) : world :=
  mkWorld (w_tasks w) (w_maps w) (f (w_tls w)) (w_fs w) (w_node w) (w_freelist w) (w_alarm w)
    (w_context w) (w_end_handler w) (w_handles w) (w_words w) (w_waiters w)
    (w_thread_reads w) (w_system_reads w).
Definition set_fs (v : Z) (w : world) : world :=
  mkWorld (w_tasks w) (w_maps w) (w_tls w) v (w_node w) (w_freelist w) (w_alarm w)
    (w_context w) (w_end_handler w) (w_handles w) (w_words w) (w_waiters w)
    (w_thread_reads w) (w_system_reads w).
Definition upd_node (f : sched_node → sched_node) (w : world) : world :=
  mkWorld (w_tasks w) (w_maps w) (w_tls w) (w_fs w) (f (w_node w)) (w_freelist w) (w_alarm w)
    (w_context w) (w_end_handler w) (w_handles w) (w_words w) (w_waiters w)
    (w_thread_reads w) (w_system_reads w).
Definition set_freelist (v : list Z) (w : world) : world :=
  mkWorld (w_tasks w) (w_maps w) (w_tls w) (w_fs w) (w_node w)
    (mkFreelist v (fl_max_size (w_freelist w))) (w_alarm w)
    (w_context w) (w_end_handler w) (w_handles w) (w_words w) (w_waiters w)
    (w_thread_reads w) (w_system_reads w).
Definition set_alarm (v : alarm) (w : world) : world :=
  mkWorld (w_tasks w) (w_maps w) (w_tls w) (w_fs w) (w_node w) (w_freelist w) v
    (w_context w) (w_end_handler w) (w_handles w) (w_words w) (w_waiters w)
    (w_thread_reads w) (w_system_reads w).
Definition set_context (v : bool) (w : world) : world :=
  mkWorld (w_tasks w) (w_maps w) (w_tls w) (w_fs w) (w_node w) (w_freelist w) (w_alarm w)
    v (w_end_handler w) (w_handles w) (w_words w) (w_waiters w)
    (w_thread_reads w) (w_system_reads w).
Definition set_end_handler_flag (v : bool) (w : world) : world :=
  mkWorld (w_tasks w) (w_maps w) (w_tls w) (w_fs w) (w_node w) (w_freelist w) (w_alarm w)
    (w_context w) v (w_handles w) (w_words w) (w_waiters w)
    (w_thread_reads w) (w_system_reads w).
Definition upd_handles (f : gmap Z Z → gmap Z Z) (w : world) : world :=
  mkWorld (w_tasks w) (w_maps w) (w_tls w) (w_fs w) (w_node w) (w_freelist w) (w_alarm w)
    (w_context w) (w_end_handler w) (f (w_handles w)) (w_words w) (w_waiters w)
    (w_thread_reads w) (w_system_reads w).
Definition upd_words (f : gmap Z Z → gmap Z Z) (w : world) : world :=
  mkWorld (w_tasks w) (w_maps w) (w_tls w) (w_fs w) (w_node w) (w_freelist w) (w_alarm w)
    (w_context w) (w_end_handler w) (w_handles w) (f (w_words w)) (w_waiters w)
    (w_thread_reads w) (w_system_reads w).
Definition upd_waiters (f : gmap Z Z → gmap Z Z) (w : world) : world :=
  mkWorld (w_tasks w) (w_maps w) (w_tls w) (w_fs w) (w_node w) (w_freelist w) (w_alarm w)
    (w_context w) (w_end_handler w) (w_handles w) (w_words w) (f (w_waiters w))
    (w_thread_reads w) (w_system_reads w).
Definition set_thread_reads (v : nat) (w : world) : world :=
  mkWorld (w_tasks w) (w_maps w) (w_tls w) (w_fs w) (w_node w) (w_freelist w) (w_alarm w)
    (w_context w) (w_end_handler w) (w_handles w) (w_words w) (w_waiters w)
    v (w_system_reads w).
Definition set_system_reads (v : nat) (w : world) : world :=
  mkWorld (w_tasks w) (w_maps w) (w_tls w) (w_fs w) (w_node w) (w_freelist w) (w_alarm w)
    (w_context w) (w_end_handler w) (w_handles w) (w_words w) (w_waiters w)
    (w_thread_reads w) v.

Definition set_runqueue (v : list Z) (w : world) : world :=
  upd_node (λ n, mkNode (nd_spin_lock n) (nd_running n) (nd_deferred n)
    (mkRq v (sleepqueue (nd_rq n)) (min_vruntime (nd_rq n))) (nd_last_tick n)) w.
Definition set_sleepqueue (v : list (Z * Z)) (w : world) : world :=
  upd_node (λ n, mkNode (nd_spin_lock n) (nd_running n) (nd_deferred n)
    (mkRq (runqueue (nd_rq n)) v (min_vruntime (nd_rq n))) (nd_last_tick n)) w.
Definition set_min_vruntime (v : Z) (w : world) : world :=
  upd_node (λ n, mkNode (nd_spin_lock n) (nd_running n) (nd_deferred n)
    (mkRq (runqueue (nd_rq n)) (sleepqueue (nd_rq n)) v) (nd_last_tick n)) w.
Definition set_spin_lock (v : bool) (w : world) : world :=
  upd_node (λ n, mkNode v (nd_running n) (nd_deferred n) (nd_rq n) (nd_last_tick n)) w.
Definition set_running (v : bool) (w : world) : world :=
  upd_node (λ n, mkNode (nd_spin_lock n) v (nd_deferred n) (nd_rq n) (nd_last_tick n)) w.
Definition set_deferred (v : Z) (w : world) : world :=
  upd_node (λ n, mkNode (nd_spin_lock n) (nd_running n) v (nd_rq n) (nd_last_tick n)) w.
Definition set_last_tick (v : Z) (w : world) : world :=
  upd_node (λ n, mkNode (nd_spin_lock n) (nd_running n) (nd_deferred n) (nd_rq n) v) w.

Definition w_runqueue (w : world) : list Z := runqueue (nd_rq (w_node w)).
Definition w_sleepqueue (w : world) : list (Z * Z) := sleepqueue (nd_rq (w_node w)).
Definition w_min_vruntime (w : world) : Z := min_vruntime (nd_rq (w_node w)).

(** ** Access to objects through pointers *)

Definition P : Type → Type := M world.

(** The fault of dereferencing [p] when no object lives there. *)
Definition bad_pointer (p : Z) : fault := if bool_decide (p = 0) then null_deref else dangling p.

(** [*p] *)
Definition deref (p : Z) : P task := λ w, need (bad_pointer p) (w_tasks w !! p) w.

(** [p->field = ..] *)
Definition write (p : Z) (f : task → task) : P () :=
  t ← deref p; modify (upd_tasks <[p := f t]>).

Definition log_fatal {A} (msg : string) : P A := throw (runtime_error msg).

(** How a call that may switch away ends: it returned to its caller in the same
    task, or the task [prev] was left inside the call. *)
Inductive flow := Returned | Switched (prev : Z).

(** The rest of a function after a call that may switch away: done at once when
    the call returned, left in the saved context when it did not. *)
Definition and_then (m : P flow) (rest : P ()) (later : frame) : P flow :=
  r ← m;
  match r with
  | Returned => rest;; mret Returned
  | Switched prev =>
      t ← deref prev;
      write prev (set_ctx (Some (default [] (t_ctx t) ++ [later])));;
      mret (Switched prev)
  end.

(** A scoped lock around a call that may switch away. *)
Definition guarded (lock unlock : P ()) (later : frame) (m : P flow) : P flow :=
  lock;; and_then (on_throw unlock m) unlock later.

(** ** Lookup lemmas for the accessors *)

Lemma wp_deref p t (Q : task → world → Prop) X U w :
  w_tasks w !! p = Some t → Q t w → wp (deref p) Q X U w.
Proof. unfold wp, deref. by intros ->. Qed.

Lemma wp_write p f t (Q : () → world → Prop) X U w :
  w_tasks w !! p = Some t → Q () (upd_tasks <[p := f t]> w) → wp (write p f) Q X U w.
Proof. unfold wp, write, mbind, M_bind, deref, need. by intros ->. Qed.

(** Two updates of the same object, and an update that changes nothing. *)
Lemma upd_tasks_twice p t t' w : upd_tasks <[p := t']> (upd_tasks <[p := t]> w) = upd_tasks <[p := t']> w.
Proof. unfold upd_tasks. simpl. by rewrite insert_insert_eq. Qed.

Lemma upd_tasks_id w p t : w_tasks w !! p = Some t → upd_tasks <[p := t]> w = w.
Proof. destruct w. simpl. intros Ht. unfold upd_tasks. simpl. by rewrite insert_id. Qed.
