(* ===== verification/Task.v ===== *)
(** * sched/task.cc and sched/task_impl.h: tasks and the switch between them

    A task object sits at the top of its own stack, with its thread-local
    block right below it.  [switch_to_internal] is modelled up to and including
    [gthread_switch_to]; what it does after the switch back is the frame
    [FSwitch], run by [Sched.run_frame]. *)

From S2P Require Import Prelude Platform World.

(** ** Thread-local blocks (platform/tls_linux.cc)

    The two words of a block the scheduler reads and writes; [TlsRefine] shows
    that the operations on the whole block act on them in this way. *)

Definition tls_deref (p : Z) : P tls_block := λ w, need (bad_pointer p) (w_tls w !! p) w.

Definition tls_set_thread (p thread : Z) : P () :=
  b ← tls_deref p; modify (upd_tls <[p := mkTlsBlock thread (tb_node b)]>).

Definition tls_current : P Z := gets w_fs.

(** [tls::current_thread()] reads through the segment register. *)
Definition tls_current_thread : P Z :=
  fs ← gets w_fs; b ← tls_deref fs; mret (tb_thread b).

Definition tls_use (p : Z) : P () := _ ← tls_deref p; modify (set_fs p).

(** [tls::tls()] leaves the thread-local variables at their initial image; the
    memory of a fresh stack is zero. *)
Definition tls_construct (p : Z) : P () := modify (upd_tls <[p := mkTlsBlock 0 false]>).
Definition tls_destruct (p : Z) : P () := _ ← tls_deref p; modify (upd_tls (delete p)).

(** [tls::reset()] brings the thread-local variables back to their image;
    the [thread] slot of the control block stays. *)
Definition tls_reset (p : Z) : P () :=
  b ← tls_deref p; modify (upd_tls <[p := mkTlsBlock (tb_thread b) false]>).

(** ** Tasks *)

Definition current : P Z := tls_current_thread.

Definition has_tls (t : task) : bool := bool_decide (t_tls t ≠ 0).
Definition stack_size_of (t : task) : Z := t_total_stack_size t.

(** [task::task()] *)
Definition default_task : task :=
  mkTask 0 None 0 0 0 RUNNING 0 0 0 0 false 0 0 false.

Definition sixteen_byte_align (p : Z) : Z := Z.land p (Z.lnot 0xF).

Section task.
Context {E : Env}.

(** [task::task(stack, stack_begin, total_stack_size, alloc_tls)] at [this] *)
Definition construct_task (this stack stack_begin total_stack_size : Z) (alloc_tls : bool) : P () :=
  let mk tls sb :=
    mkTask tls None stack (sixteen_byte_align sb) total_stack_size STOPPED 0 0 0 0 false 0 0 false in
  if alloc_tls then
    let tls_begin := stack_begin - tls_postfix_bytes in
    tls_construct tls_begin;;
    tls_set_thread tls_begin this;;
    modify (upd_tasks <[this := mk tls_begin (tls_begin - tls_prefix_bytes)]>)
  else modify (upd_tasks <[this := mk 0 stack_begin]>).

(** [task::create]: the return code of [allocate_stack] is not looked at. *)
Definition create (a : attr) : P Z :=
  maps ← gets w_maps;
  let r := allocate_stack maps a true in
  modify (set_maps (sr_maps r));;
  stack ← need (indeterminate "stack") (sr_stack r);
  total_stack_size ← need (indeterminate "total_stack_size") (sr_total r);
  let task_place := stack - sizeof_task in
  construct_task task_place stack task_place total_stack_size (alloc_tls a);;
  mret task_place.

(** [~task]: a wrapped task has no stack, and its block is not its own.  The
    object is gone then. *)
Definition task_dtor (p : Z) : P () :=
  t ← deref p;
  (if bool_decide (t_stack t ≠ 0) && has_tls t then tls_destruct (t_tls t) else mret ());;
  modify (upd_tasks (delete p)).

(** [task::destroy] *)
Definition destroy (p : Z) : P () :=
  t ← deref p;
  task_dtor p;;
  (if bool_decide (t_stack t ≠ 0) then
     maps ← gets w_maps;
     modify (set_maps (free_stack maps (t_stack t - t_total_stack_size t) (t_total_stack_size t)))
   else mret ()).

Definition reset_fields (t : task) : task :=
  mkTask (t_tls t) (t_ctx t) (t_stack t) (t_stack_begin t) (t_total_stack_size t)
    STOPPED 0 0 0 0 false 0 0 false.

(** [task::reset] *)
Definition reset (p : Z) : P () :=
  t ← deref p;
  (if has_tls t then tls_reset (t_tls t) else mret ());;
  write p reset_fields.

(** [task::start]: runs the new context up to its first switch back, which
    leaves it suspended at the top of [gthread_task_entry].  The context saved
    for the caller is consumed by that switch back. *)
Definition start (p : Z) : P () :=
  t ← deref p;
  assert (bool_decide (t_run_state t = STOPPED)) "run_state == STOPPED";;
  cur ← current;
  assert (bool_decide (p ≠ cur)) "this != cur";;
  write cur (set_ctx None);;
  write p (set_ctx (Some [FTaskEntry]));;
  write p (set_run_state SUSPENDED).

(** [task::switch_to_internal] up to the context switch. *)
Definition switch_to_internal (this : Z) (post_tls_switch_thunk : P ()) : P flow :=
  prev_task ← current;
  assert (bool_decide (this ≠ prev_task)) "switching to current task is a logic error";;
  tp ← deref prev_task;
  (if bool_decide (t_run_state tp = RUNNING)
   then write prev_task (set_run_state SUSPENDED) else mret ());;
  tt ← deref this;
  (if has_tls tt then
     tls_set_thread (t_tls tt) this;; tls_use (t_tls tt)
   else
     cur_tls ← tls_current; tls_set_thread cur_tls this);;
  post_tls_switch_thunk;;
  write prev_task (set_ctx (Some [FSwitch prev_task]));;
  mret (Switched prev_task).

(** [task::stop]; [end_handler] is what [task::_end_handler] holds, if set. *)
Definition stop (end_handler : Z → P flow) (p return_value : Z) : P flow :=
  write p (set_return_value return_value);;
  is_set ← gets w_end_handler;
  r ← (if (is_set : bool) then end_handler p else mret Returned);
  match r with
  | Returned => log_fatal "task end handler did not stop the task!"
  | Switched q => mret (Switched q)
  end.

Definition set_end_handler : P () := modify (set_end_handler_flag true).

(** [task::wrap_current] *)
Definition wrap_current (p : Z) : P () :=
  cur_tls ← tls_current;
  write p (set_tls_ptr cur_tls);;
  write p (set_run_state RUNNING);;
  tls_set_thread cur_tls p.

End task.

(** ** Rules *)

Lemma wp_tls_deref p b (Q : tls_block → world → Prop) X U w :
  w_tls w !! p = Some b → Q b w → wp (tls_deref p) Q X U w.
Proof. unfold wp, tls_deref. by intros ->. Qed.

Lemma wp_tls_set_thread p v b (Q : () → world → Prop) X U w :
  w_tls w !! p = Some b → Q () (upd_tls <[p := mkTlsBlock v (tb_node b)]> w) →
  wp (tls_set_thread p v) Q X U w.
Proof. intros Hb HQ. apply wp_bind, (wp_tls_deref _ b); [done|]. done. Qed.

Lemma wp_current b (Q : Z → world → Prop) X U w :
  w_tls w !! w_fs w = Some b → Q (tb_thread b) w → wp current Q X U w.
Proof.
  intros Hb HQ. unfold current, tls_current_thread.
  apply wp_bind, wp_gets, wp_bind, (wp_tls_deref _ b); done.
Qed.
