(* ===== verification/Tls.v ===== *)
(** * platform/tls_linux.cc: the contents of a thread-local block

    The rest of the development sees a thread-local block as a [tls_block]: its
    [thread] slot and one variable.  Here is what is behind it: the images of
    the thread-local segments of the loaded modules, copied below the control
    block, and the vector [dtv] by which the loader finds them.  Memory is a
    function from addresses to bytes; the vector is the list of its entries 1
    and up (entry 0 holds the number of modules and the base address). *)

From S2P Require Import Prelude Platform.

(** ** The table of images *)

Record phdr := mkPhdr {
  p_is_tls : bool;                  (* p_type == PT_TLS *)
  p_vaddr : Z;
  p_filesz : Z;
  p_memsz : Z;
  p_align : Z
}.

(** [struct dl_phdr_info] *)
Record dl_phdr_info := mkInfo {
  dlpi_addr : Z;
  dlpi_tls_modid : Z;
  dlpi_phdr : list phdr
}.

Definition k_num_slots : nat := 32.

Definition no_image : tls_image := mkTlsImage 0 0 0 0.

Definition image_of (info : dl_phdr_info) (ph : phdr) : tls_image :=
  let mem_offset := Z.land (wrap64 (- p_memsz ph)) (p_align ph - 1) in
  mkTlsImage (wrap64 (dlpi_addr info + p_vaddr ph)) (p_filesz ph) mem_offset
    (wrap64 (mem_offset + p_memsz ph)).

(** The callback: [inl] is its return code when it is not 0, [None] a write
    past the end of the table.  The headers are visited from the last one. *)
Fixpoint init_headers (info : dl_phdr_info) (headers : list phdr) (images : list tls_image) :
    option (Z + list tls_image) :=
  match headers with
  | [] => Some (inr images)
  | ph :: rest =>
      if p_is_tls ph then
        if 0 <? dlpi_tls_modid info then
          let slot := Z.to_nat (dlpi_tls_modid info - 1) in
          if bool_decide (slot < length images)%nat
          then Some (inr (<[slot := image_of info ph]> images))
          else None
        else Some (inl (-1))
      else init_headers info rest images
  end.

Definition dl_iterate_phdr_init_cb (info : dl_phdr_info) (images : list tls_image) :
    option (Z + list tls_image) :=
  init_headers info (rev (dlpi_phdr info)) images.

(** [dl_iterate_phdr]: the callback for every module, until one answers a code
    other than 0. *)
Fixpoint dl_iterate_phdr (infos : list dl_phdr_info) (images : list tls_image) :
    option (Z + list tls_image) :=
  match infos with
  | [] => Some (inr images)
  | info :: rest =>
      r ← dl_iterate_phdr_init_cb info images;
      match r with
      | inl code => Some (inl code)
      | inr images' => dl_iterate_phdr rest images'
      end
  end.

Definition find_tls_images (infos : list dl_phdr_info) : option (Z + list tls_image) :=
  dl_iterate_phdr infos (replicate k_num_slots no_image).

(** ** A block *)

Definition memory : Type := Z → Z.

Definition memcpy (dst src n : Z) (m : memory) : memory := λ a,
  if bool_decide (dst ≤ a < dst + n) then m (src + (a - dst)) else m a.
Definition memset (dst v n : Z) (m : memory) : memory := λ a,
  if bool_decide (dst ≤ a < dst + n) then v else m a.

(** [dtv::pointer] *)
Record dtv_pointer := mkDtv { dtv_v : Z; dtv_is_static : bool }.

Definition tls_dtv_unallocated : Z := two64 - 1.
Definition unallocated : dtv_pointer := mkDtv tls_dtv_unallocated false.

(** The control block [tcbhead] without the padding, and [thread_vector]: its
    head and its entries from 1 on. *)
Record tcbhead := mkTcb {
  tcb_self : Z;
  tcb_num_modules : Z;
  tcb_base : Z;
  tcb_vector : list dtv_pointer;
  tcb_thread : Z;
  tcb_did_ctype_init : bool;
  tcb_magic : Z * Z * Z * Z          (* sysinfo, stack_guard, pointer_guard, glibc_stack_size *)
}.

Definition after (this : Z) : Z := this + sizeof_tls.

(** The loop of the constructor that copies the images, from slot [i] on. *)
Fixpoint construct_images (i : nat) (images : list tls_image) (image_base : Z)
    (m : memory) (vec : list dtv_pointer) : memory * list dtv_pointer :=
  match images with
  | [] => (m, vec)
  | im :: rest =>
      if bool_decide (image_data im = 0) then construct_images (S i) rest image_base m vec
      else
        let base := image_base - image_reserve im in
        construct_images (S i) rest base
          (memcpy (base + image_mem_offset im) (image_data im + image_mem_offset im)
             (image_size im) m)
          (<[i := mkDtv base true]> vec)
  end.

(** [tls::tls()] *)
Definition construct_tls (this thread : Z) (magic : Z * Z * Z * Z) (images : list tls_image)
    (m : memory) : memory * tcbhead :=
  let vec := mkDtv (after this) false :: replicate k_num_slots unallocated in
  let '(m', vec') := construct_images 0 images (after this) m vec in
  (m', mkTcb (after this) (Z.of_nat k_num_slots) (after this - reserved_until_gap images) vec'
         thread false magic).

(** Whether [reset] and the destructor give the entry back. *)
Definition dynamic (d : dtv_pointer) : bool :=
  negb (dtv_is_static d) && negb (bool_decide (dtv_v d = tls_dtv_unallocated)).

(** [tls::~tls()]: what it passes to [free]. *)
Definition destruct_tls (tcb : tcbhead) : list Z :=
  dtv_v <$> filter (λ d, dynamic d = true) (take k_num_slots (drop 1 (tcb_vector tcb))).

(** The loop of [reset] that copies the images; [None] is its fatal error. *)
Fixpoint reset_images (module : nat) (images : list tls_image) (old_base image_base : Z)
    (m : memory) (vec : list dtv_pointer) : option (memory * list dtv_pointer) :=
  match images with
  | [] => Some (m, vec)
  | im :: rest =>
      if image_base <=? old_base then Some (m, vec)
      else if bool_decide (image_data im = 0) then
        reset_images module rest old_base image_base m vec
      else
        let base := image_base - image_reserve im in
        if base <? old_base then None
        else
          reset_images (S module) rest old_base base
            (memcpy base (image_data im) (image_size im) m)
            (<[S module := mkDtv base true]> vec)
  end.

(** [tls::reset()]: what it frees, and the block afterwards. *)
Definition reset_tls (this : Z) (images : list tls_image) (m : memory) (tcb : tcbhead) :
    option (list Z * memory * tcbhead) :=
  let freed := destruct_tls tcb in
  let vec := take 1 (tcb_vector tcb) ++ replicate k_num_slots unallocated in
  let old_base := tcb_base tcb in
  let m1 := memset old_base 0 (after this - old_base) m in
  r ← reset_images 0 images old_base (after this) m1 vec;
  Some (freed, r.1,
        mkTcb (tcb_self tcb) (tcb_num_modules tcb) old_base r.2 (tcb_thread tcb) false
          (tcb_magic tcb)).

(** ** The layout *)

(** The images of the loaded modules, when their numbers leave no gap, and the
    rest of the table. *)
Definition table (real : list tls_image) : list tls_image :=
  real ++ replicate (k_num_slots - length real) no_image.

(** The blocks of the images grow down from [top]. *)
Fixpoint bases (top : Z) (real : list tls_image) : list Z :=
  match real with
  | [] => []
  | im :: rest => (top - image_reserve im) :: bases (top - image_reserve im) rest
  end.

Fixpoint total_reserve (real : list tls_image) : Z :=
  match real with [] => 0 | im :: rest => image_reserve im + total_reserve rest end.

(** The copies, at the offset [off] of each block and of each image. *)
Fixpoint copies (off : tls_image → Z) (real : list tls_image) (top : Z) (m : memory) : memory :=
  match real with
  | [] => m
  | im :: rest =>
      let base := top - image_reserve im in
      copies off rest base (memcpy (base + off im) (image_data im + off im) (image_size im) m)
  end.

Fixpoint set_slots (i : nat) (bs : list Z) (vec : list dtv_pointer) : list dtv_pointer :=
  match bs with
  | [] => vec
  | b :: bs' => set_slots (S i) bs' (<[i := mkDtv b true]> vec)
  end.

(** An image as [dl_iterate_phdr_init_cb] records it. *)
Record image_ok (im : tls_image) : Prop := {
  im_data : image_data im ≠ 0;
  im_size : 0 ≤ image_size im;
  im_offset : 0 ≤ image_mem_offset im;
  im_fits : image_mem_offset im + image_size im ≤ image_reserve im;
  im_some : 0 < image_reserve im
}.

(** The image is not in the block it is copied to. *)
Definition apart (lo hi : Z) (im : tls_image) : Prop :=
  image_data im + image_mem_offset im + image_size im ≤ lo ∨ hi ≤ image_data im.

Lemma construct_no_image i k top m vec :
  construct_images i (replicate k no_image) top m vec = (m, vec).
Proof. revert i. induction k as [|k IH]; intros i; simpl; [done|apply IH]. Qed.

Lemma construct_images_real real k i top m vec :
  Forall image_ok real →
  construct_images i (real ++ replicate k no_image) top m vec =
    (copies image_mem_offset real top m, set_slots i (bases top real) vec).
Proof.
  intros H. revert i top m vec. induction H as [|im real Him _ IH]; intros i top m vec; simpl.
  - apply construct_no_image.
  - rewrite bool_decide_false by apply Him. apply IH.
Qed.

Lemma total_reserve_nonneg real : Forall image_ok real → 0 ≤ total_reserve real.
Proof. induction 1 as [|im real Him _ IH]; simpl; [lia|]. pose proof (im_some _ Him). lia. Qed.

Lemma reset_images_real real k n top m vec :
  Forall image_ok real →
  reset_images n (real ++ replicate k no_image) (top - total_reserve real) top m vec =
    Some (copies (λ _, 0) real top m, set_slots (S n) (bases top real) vec).
Proof.
  intros H. revert n top m vec. induction H as [|im real Him Hreal IH]; intros n top m vec; simpl.
  - replace (top - 0) with top by lia. destruct k as [|k]; simpl; [done|]. by rewrite Z.leb_refl.
  - pose proof (total_reserve_nonneg real Hreal). pose proof (im_some _ Him).
    rewrite (proj2 (Z.leb_gt _ _)) by lia. rewrite bool_decide_false by apply Him.
    rewrite (proj2 (Z.ltb_ge _ _)) by lia.
    replace (top - (image_reserve im + total_reserve real))
      with (top - image_reserve im - total_reserve real) by lia.
    rewrite IH. by rewrite !Z.add_0_r.
Qed.

Lemma reserved_real real k :
  Forall image_ok real → reserved_until_gap (real ++ replicate k no_image) = total_reserve real.
Proof.
  induction 1 as [|im real Him _ IH]; simpl.
  - by destruct k.
  - rewrite bool_decide_false by apply Him. by rewrite IH.
Qed.

(** ** What the copies leave *)

(** The part of a block a copy touches lies inside the block. *)
Definition offset_ok (off : tls_image → Z) (im : tls_image) : Prop :=
  0 ≤ off im ∧ off im ≤ image_mem_offset im.

Lemma memcpy_other dst src n m a : ¬ (dst ≤ a < dst + n) → memcpy dst src n m a = m a.
Proof. intros H. unfold memcpy. by rewrite bool_decide_false. Qed.

Lemma copies_outside off real top m a :
  Forall image_ok real → Forall (offset_ok off) real →
  a < top - total_reserve real ∨ top ≤ a → copies off real top m a = m a.
Proof.
  intros H. revert top m. induction H as [|im real Him Hreal IH]; intros top m Hoff Ha; simpl in *; [done|].
  apply Forall_cons in Hoff as [[Ho1 Ho2] Hoff].
  pose proof (im_fits _ Him). pose proof (im_some _ Him). pose proof (total_reserve_nonneg real Hreal).
  rewrite IH by (auto; lia). apply memcpy_other. lia.
Qed.

Lemma copies_ext off real top m m' :
  (∀ a, m a = m' a) → ∀ a, copies off real top m a = copies off real top m' a.
Proof.
  revert top m m'. induction real as [|im real IH]; intros top m m' H a; simpl; [done|].
  apply IH. intros x. unfold memcpy. by rewrite !H.
Qed.

Lemma bases_below real top i im base :
  Forall image_ok real → real !! i = Some im → bases top real !! i = Some base →
  top - total_reserve real ≤ base ∧ base + image_reserve im ≤ top.
Proof.
  intros H. revert top i. induction H as [|im0 real Him0 Hreal IH]; intros top i Hi Hb.
  - by rewrite lookup_nil in Hi.
  - pose proof (total_reserve_nonneg real Hreal). pose proof (im_some _ Him0).
    destruct i as [|i]; simpl in *; simplify_eq; [lia|].
    specialize (IH _ _ Hi Hb). lia.
Qed.

(** The [i]-th block: the image from [off] on, and nothing else of it is
    touched. *)
Lemma copies_at off real lo top m i im base k :
  Forall image_ok real → Forall (offset_ok off) real → Forall (apart lo top) real →
  lo ≤ top - total_reserve real →
  real !! i = Some im → bases top real !! i = Some base → 0 ≤ k < image_reserve im →
  copies off real top m (base + k) =
    if bool_decide (off im ≤ k < off im + image_size im) then m (image_data im + k) else m (base + k).
Proof.
  intros H. revert top m i. induction H as [|im0 real Him0 Hreal IH]; intros top m i Hoff Hap Hlo Hi Hb Hk.
  - by rewrite lookup_nil in Hi.
  - simpl in *. apply Forall_cons in Hoff as [[Ho1 Ho2] Hoff]. apply Forall_cons in Hap as [Hap0 Hap].
    pose proof (im_fits _ Him0). pose proof (im_some _ Him0). pose proof (im_size _ Him0).
    pose proof (total_reserve_nonneg real Hreal).
    destruct i as [|i]; simpl in *; simplify_eq.
    + rewrite copies_outside by (auto; lia). unfold memcpy.
      do 2 case_bool_decide; try lia. f_equal. lia.
    + assert (Forall (apart lo (top - image_reserve im0)) real) as Hap'.
      { eapply Forall_impl; [exact Hap|]. unfold apart. intros ? [?|?]; [left|right]; lia. }
      rewrite (IH _ _ i) by (auto; lia).
      pose proof (bases_below _ _ _ _ _ Hreal Hi Hb) as [_ Htop].
      pose proof (Forall_lookup_1 _ _ _ _ Hap Hi) as Hsrc.
      case_bool_decide as Hc.
      * apply memcpy_other. unfold apart in Hsrc.
        pose proof (Forall_lookup_1 _ _ _ _ Hoff Hi) as [? ?]. lia.
      * apply memcpy_other. lia.
Qed.

(** ** The vector *)

Lemma length_bases top real : length (bases top real) = length real.
Proof. revert top. induction real as [|im real IH]; intros top; simpl; [done|]. by rewrite IH. Qed.

Lemma set_slots_before i bs vec j : (j < i)%nat → set_slots i bs vec !! j = vec !! j.
Proof.
  revert i vec. induction bs as [|x bs IH]; intros i vec Hj; simpl; [done|].
  rewrite IH by lia. by rewrite list_lookup_insert_ne by lia.
Qed.

Lemma set_slots_at i bs vec j x :
  (i + length bs ≤ length vec)%nat → bs !! j = Some x →
  set_slots i bs vec !! (i + j)%nat = Some (mkDtv x true).
Proof.
  revert i vec j. induction bs as [|y bs IH]; intros i vec j Hlen Hx; simpl in *.
  - by rewrite lookup_nil in Hx.
  - destruct j as [|j]; simpl in *; simplify_eq.
    + rewrite Nat.add_0_r, set_slots_before by lia. apply list_lookup_insert_eq. lia.
    + replace (i + S j)%nat with (S i + j)%nat by lia. apply IH; [|done].
      rewrite length_insert. lia.
Qed.

(** Static entries are never given to [free]. *)
Lemma set_slots_static i bs vec :
  Forall (λ d, dynamic d = false) vec → Forall (λ d, dynamic d = false) (set_slots i bs vec).
Proof.
  revert i vec. induction bs as [|x bs IH]; intros i vec H; simpl; [done|].
  apply IH. by apply Forall_insert.
Qed.

Lemma set_slots_cons i bs x vec : set_slots (S i) bs (x :: vec) = x :: set_slots i bs vec.
Proof. revert i vec. induction bs as [|y bs IH]; intros i vec; simpl; [done|]. by rewrite IH. Qed.

Lemma nothing_dynamic (vec : list dtv_pointer) :
  Forall (λ d, dynamic d = false) vec → filter (λ d, dynamic d = true) vec = [].
Proof.
  induction 1 as [|d vec Hd _ IH]; [done|]. rewrite filter_cons_False; [done|]. by rewrite Hd.
Qed.

(** ** Properties *)

Section block.
Context (this thread : Z) (magic : Z * Z * Z * Z) (real : list tls_image).
Context (Hlen : (length real ≤ k_num_slots)%nat) (Hreal : Forall image_ok real).
Let lo : Z := after this - total_reserve real.
Context (Hapart : Forall (apart lo (after this)) real).


Lemma reset_tls_eq m tcb x rest :
  tcb_base tcb = lo → tcb_vector tcb = x :: rest →
  reset_tls this (table real) m tcb =
    Some (destruct_tls tcb, copies (λ _, 0) real (after this) (memset lo 0 (after this - lo) m),
          mkTcb (tcb_self tcb) (tcb_num_modules tcb) lo
            (x :: set_slots 0 (bases (after this) real) (replicate k_num_slots unallocated))
            (tcb_thread tcb) false (tcb_magic tcb)).
Proof.
  intros Hb Hv. unfold reset_tls. rewrite Hb, Hv. unfold table. fold lo.
  pose proof (reset_images_real real (k_num_slots - length real) 0 (after this)
    (memset lo 0 (after this - lo) m) (x :: replicate k_num_slots unallocated) Hreal) as Hr.
  fold lo in Hr. change (take 1 (x :: rest)) with [x]. cbn [app]. rewrite Hr.
  cbn [mbind option_bind fst snd]. by rewrite set_slots_cons.
Qed.

(** [reset] of a block brings every image back to its initial value, from
    its first byte on, and the rest of each block to zero, whatever a task has
    left there; the [thread] slot stays, and nothing that was allocated
    dynamically is left to free again.  The entries of the vector move up by
    one: the module that [tls()] enters at its number is entered behind it. *)
Theorem tls_reset_reloads m tcb x rest i im base :
  tcb_base tcb = lo → tcb_vector tcb = x :: rest →
  real !! i = Some im → bases (after this) real !! i = Some base →
  ∃ m' tcb', reset_tls this (table real) m tcb = Some (destruct_tls tcb, m', tcb') ∧
    (∀ k, 0 ≤ k < image_size im → m' (base + k) = m (image_data im + k)) ∧
    (∀ k, image_size im ≤ k < image_reserve im → m' (base + k) = 0) ∧
    (∀ a, a < lo ∨ after this ≤ a → m' a = m a) ∧
    tcb_vector tcb' !! S i = Some (mkDtv base true) ∧
    tcb_thread tcb' = tcb_thread tcb ∧ destruct_tls tcb' = [].
Proof.
  intros Hbase Hv Hi Hb. rewrite (reset_tls_eq m tcb x rest) by done.
  eexists _, _. split; [reflexivity|].
  assert (Forall (offset_ok (λ _, 0)) real) as Hoff.
  { eapply Forall_impl; [exact Hreal|]. intros y Hy. split; [done|apply Hy]. }
  pose proof (bases_below _ _ _ _ _ Hreal Hi Hb) as [Hlo Hhi]. fold lo in Hlo.
  pose proof (Forall_lookup_1 _ _ _ _ Hreal Hi) as Him.
  pose proof (im_fits _ Him). pose proof (im_offset _ Him). pose proof (im_size _ Him).
  pose proof (Forall_lookup_1 _ _ _ _ Hapart Hi) as Hsrc. unfold apart in Hsrc.
  split_and!.
  - intros k Hk. rewrite (copies_at _ _ lo _ _ i im) by (auto; unfold lo; lia).
    rewrite bool_decide_true by lia. unfold memset. by rewrite bool_decide_false by lia.
  - intros k Hk. rewrite (copies_at _ _ lo _ _ i im) by (auto; unfold lo; lia).
    rewrite bool_decide_false by lia. unfold memset. by rewrite bool_decide_true by lia.
  - intros a Ha. rewrite copies_outside by done. unfold memset. by rewrite bool_decide_false by lia.
  - cbn [tcb_vector]. change (S i) with (1 + i)%nat. apply (set_slots_at 0); [|done].
    rewrite length_bases, length_replicate. lia.
  - done.
  - unfold destruct_tls. cbn [tcb_vector]. change (drop 1 (?x :: ?l)) with l.
    rewrite nothing_dynamic; [done|]. apply Forall_take, set_slots_static.
    by apply Forall_replicate.
Qed.


End block.

(** ** Finding the images *)

(** The thread-local segment of a module: the last header of that type. *)
Definition tls_header (info : dl_phdr_info) : option phdr :=
  head (filter (λ ph, p_is_tls ph = true) (rev (dlpi_phdr info))).

Definition image_slot (info : dl_phdr_info) : nat := Z.to_nat (dlpi_tls_modid info - 1).

Lemma init_cb_eq info images :
  (is_Some (tls_header info) → 0 < dlpi_tls_modid info ∧ (image_slot info < length images)%nat) →
  dl_iterate_phdr_init_cb info images =
    Some (inr match tls_header info with
              | Some ph => <[image_slot info := image_of info ph]> images
              | None => images
              end).
Proof.
  unfold dl_iterate_phdr_init_cb, tls_header.
  induction (rev (dlpi_phdr info)) as [|ph hs IH]; intros H; [done|]. cbn [init_headers].
  destruct (p_is_tls ph) eqn:Hp.
  - rewrite filter_cons_True in H |- * by done. cbn [head] in *.
    destruct H as [Hpos Hlt]; [done|]. rewrite (proj2 (Z.ltb_lt _ _)) by done.
    unfold image_slot in *. by rewrite bool_decide_true.
  - assert (p_is_tls ph ≠ true) as Hn by (by rewrite Hp).
    rewrite filter_cons_False in H |- * by done. by apply IH.
Qed.

(** The modules have numbers of their own, within the table. *)
Record modules_ok (infos : list dl_phdr_info) : Prop := {
  mods_range info : info ∈ infos → is_Some (tls_header info) →
    0 < dlpi_tls_modid info ≤ Z.of_nat k_num_slots;
  mods_distinct : NoDup (dlpi_tls_modid <$> filter (λ info, is_Some (tls_header info)) infos)
}.

Lemma modules_ok_cons info infos : modules_ok (info :: infos) → modules_ok infos.
Proof.
  intros [Hr Hd]. split.
  - intros i Hi. apply Hr. by right.
  - destruct (decide (is_Some (tls_header info))).
    + rewrite filter_cons_True in Hd by done. by apply NoDup_cons in Hd as [_ ?].
    + by rewrite filter_cons_False in Hd.
Qed.

Lemma modules_ok_head info infos info' :
  modules_ok (info :: infos) → is_Some (tls_header info) → info' ∈ infos →
  is_Some (tls_header info') → image_slot info ≠ image_slot info'.
Proof.
  intros [Hr Hd] Hh Hin Hh' Heq. rewrite filter_cons_True in Hd by done.
  apply NoDup_cons in Hd as [Hni _]. apply Hni. apply list_elem_of_fmap.
  exists info'. split; [|by apply list_elem_of_filter].
  pose proof (Hr info (list_elem_of_here _ _) Hh).
  pose proof (Hr info' (list_elem_of_further _ _ _ Hin) Hh'). unfold image_slot in Heq. lia.
Qed.

Lemma dl_iterate_spec infos images :
  modules_ok infos → length images = k_num_slots →
  ∃ images', dl_iterate_phdr infos images = Some (inr images') ∧ length images' = k_num_slots ∧
    (∀ info ph, info ∈ infos → tls_header info = Some ph →
       images' !! image_slot info = Some (image_of info ph)) ∧
    (∀ j, (∀ info, info ∈ infos → is_Some (tls_header info) → image_slot info ≠ j) →
       images' !! j = images !! j).
Proof.
  revert images. induction infos as [|info infos IH]; intros images Hok Hlen.
  { exists images. split_and!; [done|done|by intros ? ? ?%elem_of_nil|done]. }
  cbn [dl_iterate_phdr]. rewrite init_cb_eq; cbn [mbind option_bind].
  2:{ intros Hs. pose proof (mods_range _ Hok info (list_elem_of_here _ _) Hs).
      unfold image_slot. lia. }
  destruct (IH (match tls_header info with
                | Some ph => <[image_slot info := image_of info ph]> images
                | None => images end)) as (images' & Hrun & Hlen' & Hall & Hrest).
  { by eapply modules_ok_cons. }
  { destruct (tls_header info); [by rewrite length_insert|done]. }
  exists images'. split_and!; [done|done|..].
  - intros info' ph Hin Hph. apply elem_of_cons in Hin as [->|Hin]; [|by apply Hall].
    rewrite Hrest.
    + rewrite Hph. apply list_lookup_insert_eq.
      pose proof (mods_range _ Hok info (list_elem_of_here _ _) (mk_is_Some _ _ Hph)).
      unfold image_slot. lia.
    + intros i Hi Hs Heq. by apply (modules_ok_head info infos i) in Hok; [|eauto|..].
  - intros j Hj. rewrite Hrest by (intros i Hi; apply Hj; by right).
    destruct (tls_header info) as [ph|] eqn:Hph; [|done].
    apply list_lookup_insert_ne. apply Hj; [by left|eauto].
Qed.

(** [find_tls_images] records the thread-local segment of every loaded
    module at its number, and nothing else, when the loader numbers the
    modules apart and there are at most 32. *)
Theorem find_tls_images_complete infos :
  modules_ok infos →
  ∃ images, find_tls_images infos = Some (inr images) ∧ length images = k_num_slots ∧
    (∀ info ph, info ∈ infos → tls_header info = Some ph →
       images !! image_slot info = Some (image_of info ph)) ∧
    (∀ j, (j < k_num_slots)%nat →
       (∀ info, info ∈ infos → is_Some (tls_header info) → image_slot info ≠ j) →
       images !! j = Some no_image).
Proof.
  intros Hok. destruct (dl_iterate_spec infos (replicate k_num_slots no_image) Hok)
    as (images & Hrun & Hlen & Hall & Hrest); [apply length_replicate|].
  exists images. split_and!; [done|done|done|]. intros j Hj Hno. rewrite Hrest by done.
  by apply lookup_replicate_2.
Qed.

(** The space reserved for a segment is the least multiple of its
    alignment that holds it, so that blocks below an aligned control block stay
    aligned. *)
Theorem image_reserve_aligned info ph k :
  0 ≤ k < 64 → p_align ph = 2 ^ k → 0 ≤ p_memsz ph → p_memsz ph + 2 ^ k ≤ two64 →
  let im := image_of info ph in
  p_memsz ph ≤ image_reserve im < p_memsz ph + p_align ph ∧
  image_reserve im `mod` p_align ph = 0 ∧
  image_reserve im = image_mem_offset im + p_memsz ph.
Proof.
  intros Hk Ha Hm Hb im. unfold im, image_of. simpl. rewrite Ha.
  replace (2 ^ k - 1) with (Z.ones k) by (rewrite Z.ones_equiv; lia).
  rewrite Z.land_ones by lia.
  assert (0 < 2 ^ k) by (apply Z.pow_pos_nonneg; lia).
  assert (wrap64 (- p_memsz ph) `mod` 2 ^ k = (- p_memsz ph) `mod` 2 ^ k) as ->.
  { unfold wrap64, two64. replace 64 with (k + (64 - k)) by lia. rewrite Z.pow_add_r by lia.
    assert (0 < 2 ^ (64 - k)) by (apply Z.pow_pos_nonneg; lia).
    rewrite Z.rem_mul_r by lia. rewrite Z.add_mod, (Z.mul_comm (2 ^ k)), Z.mod_mul by lia.
    rewrite Z.add_0_r. by rewrite !Z.mod_mod by lia. }
  pose proof (Z.mod_pos_bound (- p_memsz ph) (2 ^ k)) as Hmod.
  rewrite wrap64_small by lia. split_and!; [lia|lia| |done].
  rewrite Z.add_mod_idemp_l by lia. replace (- p_memsz ph + p_memsz ph) with 0 by lia. done.
Qed.

(** ** Two runs *)

(** Two modules with one initialised byte each, 11 and 22, in 8-byte blocks, the
    images at 100 and 200; the block of thread-local storage is at 1000. *)
Definition two_modules : list tls_image := table [mkTlsImage 100 1 0 8; mkTlsImage 200 1 0 8].
Definition image_bytes : memory := λ a, if a =? 100 then 11 else if a =? 200 then 22 else 0.
Definition no_magic : Z * Z * Z * Z := (0, 0, 0, 0).

(** Where the loader finds module [n]: through entry [n] of the vector. *)
Definition module_byte (m : memory) (tcb : tcbhead) (n : nat) : option Z :=
  (λ d, m (dtv_v d)) <$> tcb_vector tcb !! (n - 1)%nat.

(** After [reset] the loader finds the variables of the first module in
    the place of those of the second: [reset] numbers the modules from 2, the
    constructor from 1. *)
Theorem tls_reset_misdirects :
  let '(m, tcb) := construct_tls 1000 0 no_magic two_modules image_bytes in
  module_byte m tcb 1 = Some 11 ∧ module_byte m tcb 2 = Some 22 ∧
  match reset_tls 1000 two_modules m tcb with
  | Some (_, m', tcb') => module_byte m' tcb' 2 = Some 11 ∧ module_byte m' tcb' 3 = Some 22
  | None => False
  end.
Proof. by vm_compute. Qed.

(** The table when module 2 has no thread-local segment. *)
Definition gap_modules : list tls_image :=
  [mkTlsImage 100 1 0 8; no_image; mkTlsImage 200 1 0 8].

(** When a module number in the middle has no segment, the constructor
    copies an image below the space [prefix_bytes] reserves: the two loops
    disagree on whether to stop or to go on at such a number. *)
Theorem tls_gap_overflows :
  let '(m, tcb) := construct_tls 1000 0 no_magic gap_modules image_bytes in
  tcb_base tcb = 1001 - 8 ∧ m (1001 - 16) = 22 ∧ image_bytes (1001 - 16) = 0.
Proof. by vm_compute. Qed.
