(* ===== verification/TlsProcess.v ===== *)
(** * platform/tls_linux.cc: the class [tls] over a process

    [Tls] models what the operations do to one block.  Here is the state they
    share: the register [%fs], the table of images found on the first call with
    the pointers copied from the first thread, the control blocks, the vectors
    that [new] allocates and [delete] gives back, and the blocks of the modules
    the loader places into a vector later. *)

From S2P Require Import Prelude Platform Tls.

(** ** The state *)

(** [struct tcbhead] without its padding *)
Record control := mkControl {
  c_self : Z;
  c_thread_vector : Z;
  c_thread : Z;
  c_did_ctype_init : bool;
  c_magic : Z * Z * Z * Z
}.

(** An array of [dtv]: the head, and the entries from 1 on *)
Record vector := mkVector {
  v_num_modules : Z;
  v_base : Z;
  v_entries : list dtv_pointer
}.

(** [pr_images] holds the statics [has] and [images] of [find_tls_images], and
    [pr_ctype] the control blocks with which the C library finds its character
    tables: they are thread-local, [__ctype_init] sets them for the block in
    [%fs], and a block that is initialised anew has none. *)
Record process := mkProcess {
  pr_mem : memory;
  pr_fs : Z;
  pr_images : option (list tls_image);
  pr_magic : Z * Z * Z * Z;
  pr_controls : gmap Z control;
  pr_vectors : gmap Z vector;
  pr_dynamic : gset Z;
  pr_ctype : gset Z
}.

Definition upd_mem (m : memory) (s : process) : process :=
  mkProcess m (pr_fs s) (pr_images s) (pr_magic s) (pr_controls s) (pr_vectors s)
    (pr_dynamic s) (pr_ctype s).
Definition upd_fs (a : Z) (s : process) : process :=
  mkProcess (pr_mem s) a (pr_images s) (pr_magic s) (pr_controls s) (pr_vectors s)
    (pr_dynamic s) (pr_ctype s).
Definition upd_images (images : list tls_image) (magic : Z * Z * Z * Z) (s : process) : process :=
  mkProcess (pr_mem s) (pr_fs s) (Some images) magic (pr_controls s) (pr_vectors s)
    (pr_dynamic s) (pr_ctype s).
Definition upd_controls (f : gmap Z control → gmap Z control) (s : process) : process :=
  mkProcess (pr_mem s) (pr_fs s) (pr_images s) (pr_magic s) (f (pr_controls s)) (pr_vectors s)
    (pr_dynamic s) (pr_ctype s).
Definition upd_vectors (f : gmap Z vector → gmap Z vector) (s : process) : process :=
  mkProcess (pr_mem s) (pr_fs s) (pr_images s) (pr_magic s) (pr_controls s) (f (pr_vectors s))
    (pr_dynamic s) (pr_ctype s).
Definition upd_dynamic (f : gset Z → gset Z) (s : process) : process :=
  mkProcess (pr_mem s) (pr_fs s) (pr_images s) (pr_magic s) (pr_controls s) (pr_vectors s)
    (f (pr_dynamic s)) (pr_ctype s).
Definition upd_ctype (f : gset Z → gset Z) (s : process) : process :=
  mkProcess (pr_mem s) (pr_fs s) (pr_images s) (pr_magic s) (pr_controls s) (pr_vectors s)
    (pr_dynamic s) (f (pr_ctype s)).

Definition set_self (a : Z) (c : control) : control :=
  mkControl a (c_thread_vector c) (c_thread c) (c_did_ctype_init c) (c_magic c).
Definition set_thread_slot (a : Z) (c : control) : control :=
  mkControl (c_self c) (c_thread_vector c) a (c_did_ctype_init c) (c_magic c).
Definition set_did_ctype_init (d : bool) (c : control) : control :=
  mkControl (c_self c) (c_thread_vector c) (c_thread c) d (c_magic c).

(** A control block and its vector, as [Tls] has them, and back *)
Definition block_of (c : control) (v : vector) : tcbhead :=
  mkTcb (c_self c) (v_num_modules v) (v_base v) (v_entries v) (c_thread c) (c_did_ctype_init c)
    (c_magic c).
Definition control_of (va : Z) (b : tcbhead) : control :=
  mkControl (tcb_self b) va (tcb_thread b) (tcb_did_ctype_init b) (tcb_magic b).
Definition vector_of (b : tcbhead) : vector :=
  mkVector (tcb_num_modules b) (tcb_base b) (tcb_vector b).

(** ** The operations *)

Section operations.

(** The loaded modules as [dl_iterate_phdr] visits them, and [operator new[]]:
    given the arrays that are allocated, the address of another one, or a
    failure, which throws [std::bad_alloc]. *)
Context (infos : list dl_phdr_info) (new_dtv : gset Z → option Z).

Definition get_tcb : M process Z := gets pr_fs.
Definition set_tcb (a : Z) : M process () := modify (upd_fs a).

Definition control_at (a : Z) : M process control :=
  cs ← gets pr_controls; need (dangling a) (cs !! a).
Definition vector_at (a : Z) : M process vector :=
  vs ← gets pr_vectors; need (dangling a) (vs !! a).
Definition put_control (a : Z) (c : control) : M process () := modify (upd_controls <[a := c]>).

(** [find_tls_images()]; [None] is [NULL].  Only a table that was found is kept. *)
Definition find_images : M process (option (list tls_image)) :=
  cached ← gets pr_images;
  match cached with
  | Some images => mret (Some images)
  | None =>
      match find_tls_images infos with
      | None => stuck (undefined "a module number past the end of the table")
      | Some (inl _) => mret None
      | Some (inr images) =>
          og_tcb_head ← get_tcb;
          c ← control_at og_tcb_head;
          modify (upd_images images (c_magic c));;
          mret (Some images)
      end
  end.

(** The callers index the table without a test for [NULL]. *)
Definition images_deref : M process (list tls_image) :=
  images ← find_images; need null_deref images.

Definition prefix_bytes : M process Z :=
  images ← images_deref; mret (reserved_until_gap images).

(** [tls::tls()].  The [thread] slot keeps what the storage held. *)
Definition tls_ctor (this : Z) : M process () :=
  let tcb := after this in
  c0 ← control_at tcb;
  put_control tcb (set_self tcb c0);;
  live ← gets (λ s, dom (pr_vectors s));
  match new_dtv live with
  | None => throw bad_alloc
  | Some va =>
      images ← images_deref;
      magic ← gets pr_magic;
      m ← gets pr_mem;
      let '(m', b) := construct_tls this (c_thread c0) magic images m in
      modify (upd_mem m');;
      modify (upd_vectors <[va := vector_of b]>);;
      put_control tcb (control_of va b);;
      modify (upd_ctype (.∖ {[tcb]}))
  end.

(** [free]: of a null pointer nothing, of anything not allocated a fault *)
Definition free (p : Z) : M process () :=
  if bool_decide (p = 0) then mret ()
  else
    live ← gets pr_dynamic;
    if bool_decide (p ∈ live) then modify (upd_dynamic (.∖ {[p]})) else stuck (dangling p).
Fixpoint free_all (ps : list Z) : M process () :=
  match ps with
  | [] => mret ()
  | p :: rest => free p;; free_all rest
  end.

(** [tls::~tls()] *)
Definition tls_dtor (this : Z) : M process () :=
  c ← control_at (after this);
  v ← vector_at (c_thread_vector c);
  free_all (destruct_tls (block_of c v));;
  modify (upd_vectors (delete (c_thread_vector c))).

(** [tls::reset()] *)
Definition tls_reset_block (this : Z) : M process () :=
  c ← control_at (after this);
  v ← vector_at (c_thread_vector c);
  free_all (destruct_tls (block_of c v));;
  images ← images_deref;
  m ← gets pr_mem;
  match reset_tls this images m (block_of c v) with
  | None => throw (runtime_error "tls images inconsistent")
  | Some (_, m', b) =>
      modify (upd_mem m');;
      modify (upd_vectors <[c_thread_vector c := vector_of b]>);;
      put_control (after this) (control_of (c_thread_vector c) b);;
      modify (upd_ctype (.∖ {[after this]}))
  end.

Definition set_thread (this thread : Z) : M process () :=
  c ← control_at (after this); put_control (after this) (set_thread_slot thread c).
Definition get_thread (this : Z) : M process Z :=
  c ← control_at (after this); mret (c_thread c).

(** [tls::current()] *)
Definition current : M process Z := cur ← get_tcb; mret (cur - sizeof_tls).
(** [tls::current_thread()]: the word at [%fs:16] *)
Definition current_thread : M process Z := cur ← get_tcb; c ← control_at cur; mret (c_thread c).

(** [__ctype_init] of the C library *)
Definition ctype_init : M process () :=
  cur ← get_tcb; modify (upd_ctype ({[cur]} ∪.)).

(** [tls::use()] *)
Definition use (this : Z) : M process () :=
  set_tcb (after this);;
  c ← control_at (after this);
  if c_did_ctype_init c then mret ()
  else ctype_init;; put_control (after this) (set_did_ctype_init true c).

(** ** Histories *)

Definition zero_control : control := mkControl 0 0 0 false (0, 0, 0, 0).

(** What happens to the blocks of a process: a task is created in fresh storage
    and destroyed with it (task.cc), a block is reset, labelled and made
    current; and the loader allocates module [S n] for a block, whose entry
    must be free. *)
Inductive op :=
| Create (this : Z)
| Destroy (this : Z)
| Reset (this : Z)
| SetThread (this thread : Z)
| Use (this : Z)
| LoadModule (this : Z) (n : nat) (p : Z).

Definition load_module (this : Z) (n : nat) (p : Z) : M process () :=
  c ← control_at (after this);
  v ← vector_at (c_thread_vector c);
  modify (upd_dynamic ({[p]} ∪.));;
  modify (upd_vectors <[c_thread_vector c :=
    mkVector (v_num_modules v) (v_base v) (<[S n := mkDtv p false]> (v_entries v))]>).

Definition exec (o : op) : M process () :=
  match o with
  | Create this => put_control (after this) zero_control;; tls_ctor this
  | Destroy this => tls_dtor this;; modify (upd_controls (delete (after this)))
  | Reset this => tls_reset_block this
  | SetThread this thread => set_thread this thread
  | Use this => use this
  | LoadModule this n p => load_module this n p
  end.

End operations.

(** ** The heap of vectors *)

(** Entry [S n] of the vector is the block [p] of a module loaded later: what
    [reset] and the destructor give to [free]. *)
Definition holds (v : vector) (n : nat) (p : Z) : Prop :=
  ∃ d, v_entries v !! S n = Some d ∧ dynamic d = true ∧ dtv_v d = p.

(** The blocks of modules are allocated, each in one place, and none is lost. *)
Record heap_ok (vs : gmap Z vector) (dyn : gset Z) : Prop := {
  h_length va v : vs !! va = Some v → length (v_entries v) = S k_num_slots;
  h_live va v n p : vs !! va = Some v → holds v n p → p ∈ dyn;
  h_held p : p ∈ dyn → ∃ va v n, vs !! va = Some v ∧ holds v n p;
  h_once va v n va' v' n' p : vs !! va = Some v → holds v n p →
    vs !! va' = Some v' → holds v' n' p → va = va' ∧ n = n';
  h_null : 0 ∉ dyn
}.

(** What [free] is called with for a vector *)
Definition frees (v : vector) : list Z :=
  dtv_v <$> filter (λ d, dynamic d = true) (take k_num_slots (drop 1 (v_entries v))).

Lemma destruct_frees c v : destruct_tls (block_of c v) = frees v.
Proof. done. Qed.

Lemma frees_holds v p :
  length (v_entries v) = S k_num_slots → p ∈ frees v ↔ ∃ n, holds v n p.
Proof.
  intros Hlen. unfold frees. rewrite take_ge by (rewrite length_drop; lia).
  rewrite list_elem_of_fmap. setoid_rewrite list_elem_of_filter.
  setoid_rewrite list_elem_of_lookup. setoid_rewrite lookup_drop. split.
  - intros (d & -> & Hd & n & Hn). exists n, d. done.
  - intros (n & d & Hn & Hd & <-). exists d. split_and!; [done|done|]. by exists n.
Qed.

(** A list whose chosen elements have keys of their own has them once. *)
Lemma filter_keys_NoDup (l : list dtv_pointer) :
  (∀ i j d d', l !! i = Some d → l !! j = Some d' → dynamic d = true → dynamic d' = true →
     dtv_v d = dtv_v d' → i = j) →
  NoDup (dtv_v <$> filter (λ d, dynamic d = true) l).
Proof.
  induction l as [|x l IH]; intros H; [by apply NoDup_nil|].
  assert (NoDup (dtv_v <$> filter (λ d, dynamic d = true) l)) as Hl.
  { apply IH. intros i j d d' Hi Hj Hd Hd' E.
    apply Nat.succ_inj. by eapply (H (S i) (S j) d d'). }
  destruct (decide (dynamic x = true)) as [Hx|Hx]; [|by rewrite filter_cons_False].
  rewrite filter_cons_True by done. rewrite fmap_cons. apply NoDup_cons. split; [|done].
  intros (d & E & [Hd [i Hi]%list_elem_of_lookup]%list_elem_of_filter)%list_elem_of_fmap.
  by specialize (H 0%nat (S i) x d eq_refl Hi Hx Hd E).
Qed.

Lemma frees_NoDup vs dyn va v : heap_ok vs dyn → vs !! va = Some v → NoDup (frees v).
Proof.
  intros H Hv. unfold frees. pose proof (h_length _ _ H va v Hv).
  rewrite take_ge by (rewrite length_drop; lia). apply filter_keys_NoDup.
  intros i j d d' Hi Hj Hd Hd' E. rewrite lookup_drop in Hi, Hj.
  destruct (h_once _ _ H va v i va v j (dtv_v d)) as [_ ?]; [done|by exists d|done| |done].
  exists d'. split_and!; [done|done|by rewrite E].
Qed.

Lemma heap_delete vs dyn va v :
  heap_ok vs dyn → vs !! va = Some v →
  heap_ok (delete va vs) (dyn ∖ list_to_set (frees v)).
Proof.
  intros H Hv. pose proof (h_length _ _ H va v Hv) as Hlen.
  split; try setoid_rewrite lookup_delete_Some.
  - intros x y [_ Hy]. by apply (h_length _ _ H x).
  - intros x y n p [Hx Hy] Hp. apply elem_of_difference. split; [by eapply h_live|].
    rewrite elem_of_list_to_set, frees_holds by done. intros [n' Hp'].
    by destruct (h_once _ _ H x y n va v n' p) as [-> _].
  - intros p [Hp Hnot]%elem_of_difference. rewrite elem_of_list_to_set, frees_holds in Hnot by done.
    destruct (h_held _ _ H p Hp) as (x & y & n & Hy & Hn). exists x, y, n.
    split_and!; try done. intros <-. assert (v = y) as -> by congruence. by destruct Hnot; exists n.
  - intros x y n x' y' n' p [_ Hy] Hp [_ Hy'] Hp'. by eapply (h_once _ _ H x y n x' y' n').
  - intros [H0 _]%elem_of_difference. by apply (h_null _ _ H).
Qed.

Lemma heap_insert vs dyn va v :
  heap_ok vs dyn → vs !! va = None → length (v_entries v) = S k_num_slots →
  (∀ n p, ¬ holds v n p) → heap_ok (<[va := v]> vs) dyn.
Proof.
  intros H Hnone Hlen Hno. split; try setoid_rewrite lookup_insert_Some.
  - intros x y [[<- <-]|[_ Hy]]; [done|by apply (h_length _ _ H x)].
  - intros x y n p [[<- <-]|[_ Hy]] Hp; [by destruct (Hno n p)|by eapply h_live].
  - intros p Hp. destruct (h_held _ _ H p Hp) as (x & y & n & Hy & Hn). exists x, y, n.
    split; [|done]. right. split; [|done]. intros <-. by rewrite Hnone in Hy.
  - intros x y n x' y' n' p [[<- <-]|[_ Hy]] Hp; [by destruct (Hno n p)|].
    intros [[<- <-]|[_ Hy']] Hp'; [by destruct (Hno n' p)|].
    by eapply (h_once _ _ H x y n x' y' n').
  - apply H.
Qed.

(** The vector is replaced by one with nothing to free, after the frees. *)
Lemma heap_reset vs dyn va v v' :
  heap_ok vs dyn → vs !! va = Some v → length (v_entries v') = S k_num_slots →
  (∀ n p, ¬ holds v' n p) → heap_ok (<[va := v']> vs) (dyn ∖ list_to_set (frees v)).
Proof.
  intros H Hv Hlen Hno. rewrite <- insert_delete_eq.
  apply heap_insert; [by apply heap_delete|apply lookup_delete_eq|done..].
Qed.

Definition load_entry (n : nat) (p : Z) (v : vector) : vector :=
  mkVector (v_num_modules v) (v_base v) (<[S n := mkDtv p false]> (v_entries v)).

Lemma holds_load v n p k q :
  (S n < length (v_entries v))%nat → p ≠ tls_dtv_unallocated →
  holds (load_entry n p v) k q ↔ (k = n ∧ q = p) ∨ (k ≠ n ∧ holds v k q).
Proof.
  intros Hn Hp. unfold holds, load_entry. simpl. destruct (decide (k = n)) as [->|Hne].
  - rewrite list_lookup_insert_eq by done. split.
    + intros (d & [= <-] & _ & <-). by left.
    + intros [[_ ->]|[]]; [|done]. exists (mkDtv p false). split_and!; [done| |done].
      unfold dynamic. simpl. by rewrite bool_decide_false.
  - rewrite list_lookup_insert_ne by lia. split; [by right|by intros [[]|[_ ?]]].
Qed.

Lemma heap_load vs dyn va v n p :
  heap_ok vs dyn → vs !! va = Some v → v_entries v !! S n = Some unallocated →
  p ∉ dyn → p ≠ 0 → p ≠ tls_dtv_unallocated →
  heap_ok (<[va := load_entry n p v]> vs) ({[p]} ∪ dyn).
Proof.
  intros H Hv Hn Hp Hp0 Hpu. pose proof (lookup_lt_Some _ _ _ Hn) as Hlt.
  assert (∀ k q, holds (load_entry n p v) k q ↔ (k = n ∧ q = p) ∨ (k ≠ n ∧ holds v k q)) as Hl
    by (intros; by apply holds_load).
  assert (∀ x y k, vs !! x = Some y → ¬ holds y k p) as Hnew.
  { intros x y k Hy Hk. by apply Hp, (h_live _ _ H x y k p). }
  assert (∀ q, ¬ holds v n q) as Hfree by (intros q (d & Hd & Hdyn & _); simplify_eq).
  split; try setoid_rewrite lookup_insert_Some.
  - intros x y [[<- <-]|[_ Hy]]; [|by apply (h_length _ _ H x)].
    simpl. rewrite length_insert. by apply (h_length _ _ H va).
  - intros x y k q [[<- <-]|[_ Hy]]; rewrite ?Hl; [intros [[-> ->]|[_ Hq]]|intros Hq]; [set_solver| |].
    + apply elem_of_union_r. by eapply (h_live _ _ H va).
    + apply elem_of_union_r. by eapply (h_live _ _ H x).
  - intros q [->%elem_of_singleton|Hq]%elem_of_union.
    { exists va, (load_entry n p v), n. split; [by left|]. apply Hl. by left. }
    destruct (h_held _ _ H q Hq) as (x & y & k & Hy & Hk). destruct (decide (va = x)) as [<-|Hne].
    + exists va, (load_entry n p v), k. split; [by left|]. simplify_eq. apply Hl. right.
      split; [|done]. intros ->. by destruct (Hfree q).
    + exists x, y, k. split; [by right|done].
  - intros x y k x' y' k' q [[<- <-]|[Hx Hy]]; rewrite ?Hl;
      [intros [[-> ->]|[Hk Hq]]|intros Hq]; (intros [[<- <-]|[Hx' Hy']]; rewrite ?Hl;
      [intros [[-> ?]|[Hk' Hq']]|intros Hq']); try done; subst;
      try (by edestruct Hnew; eauto); by eapply (h_once _ _ H); eauto.
  - pose proof (h_null _ _ H). set_solver.
Qed.

Lemma free_all_spec ps s :
  NoDup ps → (∀ p, p ∈ ps → p ∈ pr_dynamic s) → 0 ∉ pr_dynamic s →
  free_all ps s = Ret () (upd_dynamic (.∖ list_to_set ps) s).
Proof.
  revert s. induction ps as [|p ps IH]; intros s Hnd Hin H0; cbn [free_all].
  - unfold mret, M_ret, upd_dynamic. f_equal. destruct s; simpl in *. f_equal. set_solver.
  - apply NoDup_cons in Hnd as [Hp Hnd].
    assert (p ∈ pr_dynamic s) as Hps by (apply Hin; by left).
    unfold free. rewrite bool_decide_false by (intros ->; done).
    unfold mbind, M_bind, gets, modify. rewrite bool_decide_true by done.
    rewrite IH; [|done| |]; simpl.
    + unfold upd_dynamic. f_equal. simpl. f_equal. set_solver.
    + intros q Hq. apply elem_of_difference. split; [apply Hin; by right|set_solver].
    + set_solver.
Qed.

(** ** The invariant *)

Section invariant.
Context (infos : list dl_phdr_info) (new_dtv : gset Z → option Z).
Context (real : list tls_image) (host : Z) (magic : Z * Z * Z * Z).
(** The modules that were loaded at the start are numbered without a gap. *)
Context (Hfind : find_tls_images infos = Some (inr (table real))).
Context (Hreal : Forall image_ok real).
(** [operator new[]] does not hand out an array twice. *)
Context (Hnew : ∀ live va, new_dtv live = Some va → va ∉ live).

(** The first thread runs with the block [host] of the C library. *)
Definition starts (s : process) : Prop :=
  pr_images s = None ∧ pr_fs s = host ∧ pr_vectors s = ∅ ∧ pr_dynamic s = ∅ ∧
  ∃ c, pr_controls s = {[host := c]} ∧ c_magic c = magic.

(** A block that is reset or destroyed is not the one that runs. *)
Definition resting (s : process) (this : Z) : Prop :=
  is_Some (pr_controls s !! after this) ∧ after this ≠ host ∧ after this ≠ pr_fs s.

Definition allowed (s : process) (o : op) : Prop :=
  match o with
  | Create this => pr_controls s !! after this = None
  | Destroy this | Reset this => resting s this
  | SetThread this _ | Use this => is_Some (pr_controls s !! after this)
  | LoadModule this n p =>
      after this ≠ host ∧ (p ∉ pr_dynamic s) ∧ p ≠ 0 ∧ p ≠ tls_dtv_unallocated ∧
      ∃ c v, pr_controls s !! after this = Some c ∧
        pr_vectors s !! c_thread_vector c = Some v ∧ v_entries v !! S n = Some unallocated
  end.

Inductive reach : process → Prop :=
| reach_start s : starts s → reach s
| reach_step s o s' : reach s → allowed s o → exec infos new_dtv o s = Ret () s' → reach s'.

Record ok (s : process) : Prop := {
  ok_host : is_Some (pr_controls s !! host);
  ok_fs : is_Some (pr_controls s !! pr_fs s);
  ok_images : pr_images s = None ∨ (pr_images s = Some (table real) ∧ pr_magic s = magic);
  ok_magic a c : pr_controls s !! a = Some c → c_magic c = magic;
  ok_block a c : pr_controls s !! a = Some c → a ≠ host →
    c_self c = a ∧ ∃ v, pr_vectors s !! c_thread_vector c = Some v ∧
      v_base v = a - total_reserve real;
  ok_inj a1 c1 a2 c2 : pr_controls s !! a1 = Some c1 → pr_controls s !! a2 = Some c2 →
    a1 ≠ host → a2 ≠ host → c_thread_vector c1 = c_thread_vector c2 → a1 = a2;
  ok_owned va : is_Some (pr_vectors s !! va) →
    ∃ a c, a ≠ host ∧ pr_controls s !! a = Some c ∧ c_thread_vector c = va;
  ok_heap : heap_ok (pr_vectors s) (pr_dynamic s);
  ok_ctype a c : pr_controls s !! a = Some c → a ≠ host →
    (c_did_ctype_init c = true ↔ a ∈ pr_ctype s);
  ok_running c : pr_controls s !! pr_fs s = Some c → pr_fs s ≠ host → c_did_ctype_init c = true
}.

Lemma starts_ok s : starts s → ok s.
Proof.
  intros (Hi & Hf & Hv & Hd & c & Hc & Hm).
  split; rewrite ?Hi, ?Hf, ?Hv, ?Hd, ?Hc; try setoid_rewrite lookup_singleton_Some;
    rewrite ?lookup_singleton_eq; eauto.
  - intros a c' [_ <-]. done.
  - intros a c' [<- _] []. done.
  - intros a1 c1 a2 c2 [<- _] [<- _]. done.
  - intros va. rewrite lookup_empty. by intros [].
  - split; try setoid_rewrite lookup_empty; try done; try set_solver.
  - intros a c' [<- _] []. done.
Qed.

(** The table is found, or can be: the running block has the pointers to copy. *)
Definition images_ready (s : process) : Prop :=
  (pr_images s = None ∧ ∃ c, pr_controls s !! pr_fs s = Some c ∧ c_magic c = magic) ∨
  (pr_images s = Some (table real) ∧ pr_magic s = magic).

Lemma ok_ready s : ok s → images_ready s.
Proof.
  intros H. destruct (ok_images _ H) as [Hi|Hi]; [left|by right].
  destruct (ok_fs _ H) as [c Hc]. split; [done|]. exists c. split; [done|]. by eapply ok_magic.
Qed.

Lemma images_deref_eq s : images_ready s →
  images_deref infos s = Ret (table real) (upd_images (table real) magic s).
Proof.
  unfold images_deref, find_images, mbind, M_bind, gets. cbn beta iota.
  intros [(-> & c & Hc & Hm)|[Hi Hm]].
  - rewrite Hfind. unfold get_tcb, control_at, mbind, M_bind, gets. cbn beta iota.
    rewrite Hc. simpl. by rewrite Hm.
  - rewrite Hi. simpl. unfold mret, M_ret. f_equal. destruct s; simpl in *. by subst.
Qed.

(** A block whose entries behind the first are static or free holds nothing. *)
Lemma holds_nothing nm base x vec n p :
  Forall (λ d, dynamic d = false) vec → ¬ holds (mkVector nm base (x :: vec)) n p.
Proof.
  intros Hv (d & Hd & Hdyn & _). simpl in Hd.
  pose proof (Forall_lookup_1 _ _ _ _ Hv Hd) as Hf. simpl in Hf. congruence.
Qed.

Lemma length_set_slots i bs vec : length (set_slots i bs vec) = length vec.
Proof. revert i vec. induction bs as [|b bs IH]; intros i vec; simpl; [done|]. by rewrite IH, length_insert. Qed.

(** The vector of a new block: its first entry, and nothing to free behind it. *)
Lemma constructed_entries top y :
  ∃ x rest, set_slots 0 (bases top real) (y :: replicate k_num_slots unallocated) = x :: rest ∧
    length rest = k_num_slots ∧ Forall (λ d, dynamic d = false) rest.
Proof.
  destruct (bases top real) as [|base bs]; cbn [set_slots].
  - eexists _, _. split_and!; [reflexivity|apply length_replicate|by apply Forall_replicate].
  - change (<[0%nat := mkDtv base true]> (y :: ?l)) with (mkDtv base true :: l).
    rewrite set_slots_cons. eexists _, _. split_and!; [reflexivity| |].
    + rewrite length_set_slots. apply length_replicate.
    + apply set_slots_static. by apply Forall_replicate.
Qed.

(** ** Every operation keeps it *)

(** A control block is rewritten; its vector, its magic and its flag stay. *)
Lemma ok_control s a c c' :
  ok s → pr_controls s !! a = Some c → c_thread_vector c' = c_thread_vector c →
  c_magic c' = c_magic c → c_self c' = c_self c → c_did_ctype_init c' = c_did_ctype_init c →
  ok (upd_controls <[a := c']> s).
Proof.
  intros H Ha Ev Em Es Ed.
  assert (∀ x cx, <[a := c']> (pr_controls s) !! x = Some cx →
    ∃ cx', pr_controls s !! x = Some cx' ∧ c_thread_vector cx = c_thread_vector cx' ∧
      c_magic cx = c_magic cx' ∧ c_self cx = c_self cx' ∧
      c_did_ctype_init cx = c_did_ctype_init cx') as Hold.
  { intros x cx [[<- <-]|[_ Hx]]%lookup_insert_Some; [by exists c|by exists cx]. }
  assert (∀ x, is_Some (pr_controls s !! x) → is_Some (<[a := c']> (pr_controls s) !! x)) as Hdom.
  { intros x Hx. rewrite lookup_insert_is_Some. destruct (decide (a = x)); auto. }
  split; simpl.
  - apply Hdom, H.
  - apply Hdom, H.
  - apply H.
  - intros x cx (cx' & Hx & _ & -> & _)%Hold. by eapply ok_magic.
  - intros x cx (cx' & Hx & -> & _ & -> & _)%Hold. by apply (ok_block _ H).
  - intros x1 cx1 x2 cx2 (? & ? & -> & _)%Hold (? & ? & -> & _)%Hold. by apply (ok_inj _ H).
  - intros va Hva. destruct (ok_owned _ H va Hva) as (x & cx & Hx & Hcx & Hv).
    destruct (decide (a = x)) as [->|Hne].
    + exists x, c'. rewrite lookup_insert_eq. split_and!; [done..|congruence].
    + exists x, cx. by rewrite lookup_insert_ne.
  - apply H.
  - intros x cx (cx' & Hx & _ & _ & _ & ->)%Hold. by apply (ok_ctype _ H).
  - intros cx (cx' & Hx & _ & _ & _ & ->)%Hold. by apply (ok_running _ H).
Qed.

(** The threads the control blocks belong to. *)
Definition threads (s : process) : gmap Z Z := c_thread <$> pr_controls s.

(** What an operation does to them and to [%fs]. *)
Definition turns (s s' : process) (f : gmap Z Z → gmap Z Z) (fs : Z) : Prop :=
  ok s' ∧ threads s' = f (threads s) ∧ pr_fs s' = fs.

Lemma threads_lookup s a c : pr_controls s !! a = Some c → threads s !! a = Some (c_thread c).
Proof. intros Hc. unfold threads. by rewrite lookup_fmap, Hc. Qed.

Lemma threads_kept s a c : pr_controls s !! a = Some c → <[a := c_thread c]> (threads s) = threads s.
Proof. intros Hc. by apply insert_id, threads_lookup. Qed.

Lemma exec_set_thread s this thread :
  ok s → is_Some (pr_controls s !! after this) →
  ∃ s', exec infos new_dtv (SetThread this thread) s = Ret () s' ∧
    turns s s' <[after this := thread]> (pr_fs s).
Proof.
  intros H [c Hc]. exists (upd_controls <[after this := set_thread_slot thread c]> s). split.
  - cbn [exec]. unfold set_thread, control_at, mbind, M_bind, gets. by rewrite Hc.
  - split_and!; [by eapply ok_control| |done]. unfold threads. simpl. by rewrite fmap_insert.
Qed.

(** [use]: the flag of the block and its tables are set, and it runs. *)
Definition used (this : Z) (c : control) (s : process) : process :=
  if c_did_ctype_init c then upd_fs (after this) s
  else upd_controls <[after this := set_did_ctype_init true c]>
         (upd_ctype ({[after this]} ∪.) (upd_fs (after this) s)).

Lemma use_eq s this c :
  pr_controls s !! after this = Some c → use this s = Ret () (used this c s).
Proof.
  intros Hc. unfold use, used, set_tcb, control_at, mbind, M_bind, gets, modify. simpl.
  rewrite Hc. simpl. by destruct (c_did_ctype_init c).
Qed.

Lemma used_ok s this c : ok s → pr_controls s !! after this = Some c → ok (used this c s).
Proof.
  intros H Hc. unfold used. destruct (c_did_ctype_init c) eqn:Hd.
  { destruct H. split; simpl; try done. intros c'. congruence. }
  split; simpl.
  - rewrite lookup_insert_is_Some. destruct (decide (after this = host)); [by left|]. right.
    split; [done|apply H].
  - rewrite lookup_insert_eq. done.
  - apply H.
  - intros x cx [[<- <-]|[_ Hx]]%lookup_insert_Some;
      [by apply (ok_magic _ H (after this) c)|by eapply (ok_magic _ H)].
  - intros x cx [[<- <-]|[_ Hx]]%lookup_insert_Some;
      [by apply (ok_block _ H (after this) c)|by apply (ok_block _ H)].
  - intros x1 c1 x2 c2 [[<- <-]|[_ H1]]%lookup_insert_Some [[<- <-]|[_ H2]]%lookup_insert_Some;
      [done|by apply (ok_inj _ H (after this) c)|by apply (ok_inj _ H x1 c1 (after this) c)
      |by apply (ok_inj _ H)].
  - intros va Hva. destruct (ok_owned _ H va Hva) as (x & cx & Hx & Hcx & Hv).
    destruct (decide (after this = x)) as [Heq|Hne].
    + exists x, (set_did_ctype_init true c). rewrite Heq, lookup_insert_eq. split_and!; [done..|].
      simpl. congruence.
    + exists x, cx. by rewrite lookup_insert_ne.
  - apply H.
  - intros x cx [[<- <-]|[Hne Hx]]%lookup_insert_Some Hh; simpl; [set_solver|].
    rewrite (ok_ctype _ H x cx Hx Hh). set_solver.
  - intros cx. rewrite lookup_insert_eq. by intros [= <-].
Qed.

Lemma exec_use s this :
  ok s → is_Some (pr_controls s !! after this) →
  ∃ s', exec infos new_dtv (Use this) s = Ret () s' ∧ turns s s' id (after this).
Proof.
  intros H [c Hc]. exists (used this c s). split; [by apply use_eq|].
  split_and!; [by apply used_ok| |]; unfold used; destruct (c_did_ctype_init c); try done.
  unfold threads. simpl. rewrite fmap_insert. exact (threads_kept s _ c Hc).
Qed.

Lemma exec_load s this n p :
  ok s → allowed s (LoadModule this n p) →
  ∃ s', exec infos new_dtv (LoadModule this n p) s = Ret () s' ∧ ok s'.
Proof.
  intros H (Hh & Hp & Hp0 & Hpu & c & v & Hc & Hv & Hn).
  exists (upd_vectors <[c_thread_vector c := load_entry n p v]> (upd_dynamic ({[p]} ∪.) s)). split.
  - cbn [exec]. unfold load_module, control_at, vector_at, mbind, M_bind, gets, modify.
    rewrite Hc. simpl. by rewrite Hv.
  - pose proof (heap_load _ _ _ _ _ _ (ok_heap _ H) Hv Hn Hp Hp0 Hpu). destruct H.
    split; simpl; try done.
    + intros a ca Ha Hah. destruct (ok_block0 a ca Ha Hah) as [Hs (va & Hva & Hb)]. split; [done|].
      destruct (decide (c_thread_vector c = c_thread_vector ca)) as [E|E].
      * rewrite E, lookup_insert_eq. eexists. split; [done|]. simpl. congruence.
      * rewrite lookup_insert_ne by done. eauto.
    + intros va. rewrite lookup_insert_is_Some. intros [<-|[_ Hva]]; [|by apply ok_owned0]. eauto.
Qed.

(** The frees of a live block succeed. *)
Lemma free_block s a c v :
  ok s → pr_controls s !! a = Some c → pr_vectors s !! c_thread_vector c = Some v →
  free_all (frees v) s = Ret () (upd_dynamic (.∖ list_to_set (frees v)) s).
Proof.
  intros H Hc Hv. pose proof (ok_heap _ H) as Hh. apply free_all_spec.
  - by eapply frees_NoDup.
  - intros p [n Hn]%frees_holds; [|by apply (h_length _ _ Hh _ _ Hv)]. by eapply (h_live _ _ Hh).
  - apply Hh.
Qed.

Lemma exec_destroy s this :
  ok s → resting s this →
  ∃ s', exec infos new_dtv (Destroy this) s = Ret () s' ∧
    turns s s' (delete (after this)) (pr_fs s).
Proof.
  intros H ([c Hc] & Hh & Hf). destruct (ok_block _ H _ c Hc Hh) as [Hs (v & Hv & Hb)].
  exists (upd_controls (delete (after this)) (upd_vectors (delete (c_thread_vector c))
            (upd_dynamic (.∖ list_to_set (frees v)) s))). split.
  - cbn [exec]. unfold tls_dtor, control_at, vector_at, mbind, M_bind, gets, modify.
    rewrite Hc. simpl. rewrite Hv. simpl. rewrite destruct_frees. by rewrite (free_block s (after this) c v).
  - pose proof (heap_delete _ _ _ _ (ok_heap _ H) Hv).
    split; [|split; [|done]; unfold threads; simpl; by rewrite fmap_delete].
    split; simpl; try setoid_rewrite lookup_delete_Some; try done.
    + rewrite lookup_delete_ne by done. apply H.
    + rewrite lookup_delete_ne by done. apply H.
    + apply H.
    + intros a ca [_ Ha]. by eapply (ok_magic _ H).
    + intros a ca [Hne Ha] Hah. destruct (ok_block _ H a ca Ha Hah) as [? (va & Hva & Hba)].
      split; [done|]. exists va. split; [|done]. split; [|done]. intros E.
      by apply Hne, (ok_inj _ H _ c a ca).
    + intros a1 c1 a2 c2 [_ H1] [_ H2]. by apply (ok_inj _ H).
    + intros va [x [Hne Hx]%lookup_delete_Some].
      destruct (ok_owned _ H va) as (a & ca & Ha & Hca & Eva); [by exists x|].
      exists a, ca. split_and!; try done. intros <-. congruence.
    + intros a ca [_ Ha]. by apply (ok_ctype _ H).
    + intros ca [_ Ha]. by apply (ok_running _ H).
Qed.

(** A block gets a vector of its own with nothing to free, its flag and its
    tables are cleared: what [reset] and the constructor have in common. *)
Lemma ok_fresh s s' a va nm base y rest thread :
  ok s → a ≠ host → a ≠ pr_fs s → base = a - total_reserve real →
  length rest = k_num_slots → Forall (λ d, dynamic d = false) rest →
  (∀ x c, pr_controls s !! x = Some c → x ≠ host → c_thread_vector c = va → x = a) →
  (∀ c x, pr_controls s !! a = Some c → is_Some (pr_vectors s !! x) → c_thread_vector c = x → x = va) →
  pr_fs s' = pr_fs s → pr_images s' = Some (table real) → pr_magic s' = magic →
  pr_controls s' = <[a := mkControl a va thread false magic]> (pr_controls s) →
  pr_vectors s' = <[va := mkVector nm base (y :: rest)]> (pr_vectors s) →
  heap_ok (pr_vectors s') (pr_dynamic s') → pr_ctype s' = pr_ctype s ∖ {[a]} → ok s'.
Proof.
  intros H Hh Hf -> Hl Hst Hva Hold Ef Ei Em Ec Ev Hheap Ect.
  split; rewrite ?Ef, ?Ei, ?Em, ?Ec, ?Ev, ?Ect; try setoid_rewrite lookup_insert_Some; auto.
  - rewrite lookup_insert_ne by done. apply H.
  - rewrite lookup_insert_ne by done. apply H.
  - intros x cx [[<- <-]|[_ Hx]]; [done|by eapply (ok_magic _ H)].
  - intros x cx [[<- <-]|[Hne Hx]] Hxh; simpl.
    + split; [done|]. eexists. split; [by left|done].
    + destruct (ok_block _ H x cx Hx Hxh) as [? (v & Hv & Hb)]. split; [done|]. exists v.
      split; [|done]. right. split; [|done]. intros E.
      by apply Hne, eq_sym, (Hva x cx).
  - intros x1 c1 x2 c2 [[<- <-]|[? H1]] [[<- <-]|[? H2]] Hn1 Hn2 E; simpl in E;
      [done|by eapply eq_sym, Hva|by eapply Hva|by eapply (ok_inj _ H)].
  - intros x. rewrite lookup_insert_is_Some. intros [<-|[Hne Hx]].
    + exists a, (mkControl a va thread false magic). split_and!; [done|by left|done].
    + destruct (ok_owned _ H x Hx) as (b & cb & Hb & Hcb & E). exists b, cb.
      split_and!; [done| |done]. right. split; [|done]. intros <-.
      by destruct Hne; rewrite (Hold cb x).
  - by rewrite <- Ev.
  - intros x cx [[<- <-]|[Hne Hx]] Hxh; simpl; [set_solver|].
    rewrite (ok_ctype _ H x cx Hx Hxh). set_solver.
  - intros cx [[? <-]|[_ Hx]]; [done|by apply (ok_running _ H)].
Qed.

Lemma exec_reset s this :
  ok s → resting s this →
  ∃ s', exec infos new_dtv (Reset this) s = Ret () s' ∧ turns s s' id (pr_fs s).
Proof.
  intros H ([c Hc] & Hh & Hf). destruct (ok_block _ H _ c Hc Hh) as [Hs (v & Hv & Hb)].
  pose proof (h_length _ _ (ok_heap _ H) _ _ Hv) as Hl.
  destruct (v_entries v) as [|x r] eqn:Ev; [done|].
  cbn [exec]. unfold tls_reset_block, control_at, vector_at.
  unfold mbind at 1 2, M_bind at 1 2, gets, modify. unfold mbind, M_bind. cbn beta iota.
  rewrite Hc. cbn [need mret M_ret]. rewrite Hv. simpl. rewrite destruct_frees.
  rewrite (free_block s (after this) c v) by done.
  rewrite images_deref_eq by apply (ok_ready _ H).
  rewrite (reset_tls_eq this real Hreal _ (block_of c v) x r) by done.
  eexists. split; [reflexivity|].
  split; [|split; [|done]; unfold threads; simpl; rewrite fmap_insert; exact (threads_kept s _ c Hc)].
  set (rest := set_slots 0 (bases (after this) real) (replicate k_num_slots unallocated)).
  assert (Forall (λ d, dynamic d = false) rest) as Hst
    by (apply set_slots_static; by apply Forall_replicate).
  assert (length rest = k_num_slots) as Hlr
    by (unfold rest; rewrite length_set_slots; apply length_replicate).
  eapply (ok_fresh s _ (after this) (c_thread_vector c) (v_num_modules v)
            (after this - total_reserve real) x rest (c_thread c));
    try done.
  - intros a ca Ha Hah E. by apply (ok_inj _ H a ca _ c).
  - intros c' y Hc' _ <-. congruence.
  - simpl. rewrite Hs. by rewrite (ok_magic _ H _ _ Hc).
  - simpl. apply heap_reset; [apply H|done|simpl; lia|]. intros n p. by apply holds_nothing.
Qed.

Lemma exec_create s this va :
  ok s → pr_controls s !! after this = None → new_dtv (dom (pr_vectors s)) = Some va →
  ∃ s', exec infos new_dtv (Create this) s = Ret () s' ∧
    turns s s' <[after this := 0]> (pr_fs s).
Proof.
  intros H Hnone Hva. pose proof (Hnew _ _ Hva) as Hfresh%not_elem_of_dom.
  assert (after this ≠ pr_fs s) as Hf by (intros E; destruct (ok_fs _ H); congruence).
  assert (after this ≠ host) as Hh by (intros E; destruct (ok_host _ H); congruence).
  destruct (constructed_entries (after this) (mkDtv (after this) false)) as (y & rest & Ey & Hl & Hst).
  set (s1 := upd_controls <[after this := set_self (after this) zero_control]>
               (upd_controls <[after this := zero_control]> s)).
  assert (images_ready s1) as Hr.
  { destruct (ok_ready _ H) as [(Hi & c & Hc & Hm)|Hi]; [left|by right]. split; [done|].
    exists c. split; [|done]. simpl. by rewrite !lookup_insert_ne. }
  cbn [exec]. unfold tls_ctor, put_control, control_at, gets, modify, mbind, M_bind. cbn beta iota.
  cbn [upd_controls pr_controls pr_vectors]. rewrite lookup_insert_eq. cbn [need mret M_ret].
  cbn [upd_controls pr_controls pr_vectors]. rewrite Hva. fold s1.
  rewrite (images_deref_eq s1 Hr). unfold construct_tls, table.
  rewrite construct_images_real by done. rewrite Ey.
  eexists. split; [reflexivity|].
  split; [|split; [|done]; unfold threads; simpl; by rewrite !insert_insert_eq, fmap_insert].
  eapply (ok_fresh s _ (after this) va _ (after this - total_reserve real) y rest 0); try done.
  - intros x c Hx Hxh E. destruct (ok_block _ H x c Hx Hxh) as [_ (v & Hv & _)]. congruence.
  - intros c x Hc. congruence.
  - simpl. by rewrite !insert_insert_eq.
  - simpl. unfold vector_of. simpl. rewrite reserved_real by done. done.
  - simpl. apply heap_insert; [apply H|done|simpl; lia|]. intros n p. by apply holds_nothing.
Qed.

Lemma create_fails s this :
  pr_controls s !! after this = None → new_dtv (dom (pr_vectors s)) = None →
  ∃ s', exec infos new_dtv (Create this) s = Throw bad_alloc s'.
Proof.
  intros Hnone Hva. cbn [exec].
  unfold tls_ctor, put_control, control_at, gets, modify, mbind, M_bind. cbn beta iota.
  cbn [upd_controls pr_controls pr_vectors]. rewrite lookup_insert_eq. cbn [need mret M_ret].
  cbn [upd_controls pr_controls pr_vectors]. rewrite Hva. by eexists.
Qed.

(** An operation that is allowed answers, or [new] throws. *)
Lemma history_step s o :
  ok s → allowed s o →
  (∃ s', exec infos new_dtv o s = Ret () s' ∧ ok s') ∨
  (∃ this s', o = Create this ∧ new_dtv (dom (pr_vectors s)) = None ∧
     exec infos new_dtv o s = Throw bad_alloc s').
Proof.
  intros H. destruct o as [this|this|this|this thread|this|this n p]; intros Ha.
  - destruct (new_dtv (dom (pr_vectors s))) as [va|] eqn:Hva; [left|right].
    + destruct (exec_create s this va) as (s' & Hs & Hok & _); [done..|]. by exists s'.
    + destruct (create_fails s this Ha Hva) as [s' Hs]. by exists this, s'.
  - left. destruct (exec_destroy s this) as (s' & Hs & Hok & _); [done..|]. by exists s'.
  - left. destruct (exec_reset s this) as (s' & Hs & Hok & _); [done..|]. by exists s'.
  - left. destruct (exec_set_thread s this thread) as (s' & Hs & Hok & _); [done..|]. by exists s'.
  - left. destruct (exec_use s this) as (s' & Hs & Hok & _); [done..|]. by exists s'.
  - left. by apply exec_load.
Qed.

Lemma reach_ok s : reach s → ok s.
Proof.
  induction 1 as [s H|s o s' _ IH Ha He]; [by apply starts_ok|].
  destruct (history_step s o IH Ha) as [(s1 & E & Hok)|(? & s1 & _ & _ & E)]; congruence.
Qed.

Lemma get_thread_eq s this c :
  pr_controls s !! after this = Some c → get_thread this s = Ret (c_thread c) s.
Proof. intros Hc. unfold get_thread, control_at, mbind, M_bind, gets. by rewrite Hc. Qed.

(** ** Properties *)

(** C29.  Blocks of thread-local storage are used safely: along every history in
    which tasks are created, labelled, made current, reset and destroyed while
    they do not run, and modules are loaded, no operation touches a vector that
    was deleted, frees a module twice or finds the images inconsistent.  The
    only failure is [std::bad_alloc] of a constructor, when there is no memory. *)
Theorem tls_histories_safe s o :
  reach s → allowed s o →
  (∃ s', exec infos new_dtv o s = Ret () s' ∧ reach s') ∨
  (∃ this s', o = Create this ∧ new_dtv (dom (pr_vectors s)) = None ∧
     exec infos new_dtv o s = Throw bad_alloc s').
Proof.
  intros Hr Ha. destruct (history_step s o (reach_ok s Hr) Ha) as [(s' & He & _)|Hb]; [left|by right].
  exists s'. split; [done|]. by eapply reach_step.
Qed.

(** C30.  Nothing is lost: at every moment each vector belongs to exactly one block
    and each module loaded later to one entry of one vector; when every task is
    destroyed, none is left. *)
Theorem tls_nothing_leaks s :
  reach s →
  (∀ va, is_Some (pr_vectors s !! va) →
     exists! a, a ≠ host ∧ ∃ c, pr_controls s !! a = Some c ∧ c_thread_vector c = va) ∧
  (∀ p, p ∈ pr_dynamic s →
     exists! va_n, ∃ v, pr_vectors s !! va_n.1 = Some v ∧ holds v va_n.2 p) ∧
  (dom (pr_controls s) = {[host]} → pr_vectors s = ∅ ∧ pr_dynamic s = ∅).
Proof.
  intros H%reach_ok. pose proof (ok_heap _ H) as Hh. split_and!.
  - intros va Hva. destruct (ok_owned _ H va Hva) as (a & c & Ha & Hc & <-). exists a.
    split; [by eauto|]. intros a' (Ha' & c' & Hc' & E). by apply (ok_inj _ H a c a' c').
  - intros p Hp. destruct (h_held _ _ Hh p Hp) as (va & v & n & Hv & Hn). exists (va, n).
    split; [by eauto|]. intros [va' n'] (v' & Hv' & Hn').
    by destruct (h_once _ _ Hh va v n va' v' n' p) as [-> ->].
  - intros Hdom. assert (pr_vectors s = ∅) as Hv.
    { apply map_empty. intros va. apply eq_None_not_Some. intros Hva.
      destruct (ok_owned _ H va Hva) as (a & c & Ha & Hc%elem_of_dom_2 & _). set_solver. }
    split; [done|]. apply set_eq. intros p. split; [|set_solver]. intros Hp.
    destruct (h_held _ _ Hh p Hp) as (va & v & n & Hva & _). by rewrite Hv, lookup_empty in Hva.
Qed.

(** [use] takes effect: [current()] is then the block, [current_thread()] what
    [set_thread] stored in it, the block points to itself and has the guards of
    the first thread whichever block ran when it was made, and the C library
    has its character tables. *)
Theorem tls_use_current s this thread :
  reach s → get_thread this s = Ret thread s →
  ∃ s', use this s = Ret () s' ∧ current s' = Ret this s' ∧
    current_thread s' = Ret thread s' ∧
    ∃ c, pr_controls s' !! after this = Some c ∧ c_magic c = magic ∧
      (after this ≠ host → c_self c = after this ∧ after this ∈ pr_ctype s').
Proof.
  unfold get_thread, control_at, mbind, M_bind, gets. cbn beta iota. intros H%reach_ok Hg.
  destruct (pr_controls s !! after this) as [c|] eqn:Hc; [|done]. injection Hg as Hg.
  pose proof (used_ok s this c H Hc) as H'. exists (used this c s).
  assert (pr_fs (used this c s) = after this) as Ef by (unfold used; by destruct (c_did_ctype_init c)).
  assert (∃ c', pr_controls (used this c s) !! after this = Some c' ∧ c_thread c' = thread ∧
    c_did_ctype_init c' = true) as (c' & Hc' & Ht & Hd).
  { unfold used. destruct (c_did_ctype_init c) eqn:Hd; simpl; [by exists c|].
    rewrite lookup_insert_eq. by eexists. }
  split_and!; [by apply use_eq| | |].
  - unfold current, get_tcb, mbind, M_bind, gets. rewrite Ef. unfold mret, M_ret, after. f_equal. lia.
  - unfold current_thread, get_tcb, control_at, mbind, M_bind, gets. rewrite Ef, Hc'. simpl.
    by rewrite Ht.
  - exists c'. split_and!; [done|by eapply (ok_magic _ H')|]. intros Hh.
    split; [by apply (ok_block _ H')|]. by apply (ok_ctype _ H' _ c').
Qed.

End invariant.
