(* ===== verification/TlsRefine.v ===== *)
(** * The thread-local block as the scheduler sees it

    [Task] keeps of a block only its [thread] slot and whether
    [g_current_sched_node] is set.  [view] reads both from the block of [Tls];
    the operations of [Tls] on the block are the operations of [Task] on its
    view. *)

From S2P Require Import Prelude Platform World Task Tls.

(** Whether the 8-byte word at [a] is other than 0. *)
Definition word_set (m : memory) (a : Z) : bool :=
  existsb (λ j, negb (m (a + j) =? 0)) (seqZ 0 8).

Lemma word_clear m a : (∀ j, 0 ≤ j < 8 → m (a + j) = 0) → word_set m a = false.
Proof.
  intros H. unfold word_set. apply not_true_is_false. intros [j [Hj Hne]]%existsb_exists.
  apply list_elem_of_In, elem_of_seqZ in Hj. rewrite H in Hne by lia. done.
Qed.

(** The variable [g_current_sched_node] is at offset [k] of the block [base]. *)
Definition view (base k : Z) (m : memory) (tcb : tcbhead) : tls_block :=
  mkTlsBlock (tcb_thread tcb) (word_set m (base + k)).

(** [tls::set_thread] on the control block. *)
Definition set_tcb_thread (thread : Z) (tcb : tcbhead) : tcbhead :=
  mkTcb (tcb_self tcb) (tcb_num_modules tcb) (tcb_base tcb) (tcb_vector tcb) thread
    (tcb_did_ctype_init tcb) (tcb_magic tcb).

Section refine.
Context (this : Z) (real : list tls_image) (i : nat) (im : tls_image) (base k : Z).
Context (Hreal : Forall image_ok real).
Let lo : Z := after this - total_reserve real.
Context (Hapart : Forall (apart lo (after this)) real).
Context (Him : real !! i = Some im) (Hbase : bases (after this) real !! i = Some base).
(** The variable has no initial value of its own: it lies behind the image. *)
Context (Hk : image_mem_offset im + image_size im ≤ k) (Hk8 : k + 8 ≤ image_reserve im).

Lemma node_word_clear off m j :
  Forall (offset_ok off) real → 0 ≤ j < 8 → m (base + k + j) = 0 →
  copies off real (after this) m (base + k + j) = 0.
Proof.
  intros Hoff Hj Hm. pose proof (Forall_lookup_1 _ _ _ _ Hreal Him) as Hok.
  pose proof (Forall_lookup_1 _ _ _ _ Hoff Him) as [Ho1 Ho2].
  pose proof (im_size _ Hok). pose proof (im_offset _ Hok).
  rewrite <- Z.add_assoc in *. rewrite (copies_at off real lo _ _ i im) by (auto; unfold lo; lia).
  rewrite bool_decide_false by lia. done.
Qed.

(** C32.  The blocks refine what the scheduler assumes of them: in a world that
    shows the view of a block, [tls::reset] and [tls::set_thread] on the block
    are [tls_reset] and [tls_set_thread] on its view, and a block constructed
    in zeroed memory has the view of [tls_construct]. *)
Theorem tls_block_refines p w m tcb x rest :
  tcb_base tcb = lo → tcb_vector tcb = x :: rest → w_tls w !! p = Some (view base k m tcb) →
  (∃ freed m' tcb', reset_tls this (table real) m tcb = Some (freed, m', tcb') ∧
     tls_reset p w = Ret () (upd_tls <[p := view base k m' tcb']> w)) ∧
  (∀ thread, tls_set_thread p thread w =
     Ret () (upd_tls <[p := view base k m (set_tcb_thread thread tcb)]> w)) ∧
  (∀ magic m0, (∀ a, lo ≤ a < after this → m0 a = 0) →
     let '(m', tcb') := construct_tls this 0 magic (table real) m0 in
     tls_construct p w = Ret () (upd_tls <[p := view base k m' tcb']> w)).
Proof.
  intros Hb Hv Hw. pose proof (bases_below _ _ _ _ _ Hreal Him Hbase) as [Hlo Hhi].
  pose proof (Forall_lookup_1 _ _ _ _ Hreal Him) as Hok.
  pose proof (im_size _ Hok). pose proof (im_offset _ Hok). fold lo in Hlo. split_and!.
  - rewrite (reset_tls_eq this real Hreal m tcb x rest) by done. fold lo.
    eexists _, _, _. split; [reflexivity|].
    unfold tls_reset, tls_deref, mbind, M_bind, modify. rewrite Hw. simpl.
    unfold view. rewrite word_clear; [done|]. intros j Hj. apply node_word_clear; [|done|].
    + eapply Forall_impl; [exact Hreal|]. intros y Hy. split; [done|apply Hy].
    + unfold memset. by rewrite bool_decide_true by lia.
  - intros thread. unfold tls_set_thread, tls_deref, mbind, M_bind, modify. by rewrite Hw.
  - intros magic m0 Hzero. unfold construct_tls, table. rewrite construct_images_real by done.
    cbn beta iota. unfold view. rewrite word_clear; [done|]. intros j Hj.
    apply node_word_clear; [|done|apply Hzero; lia].
    eapply Forall_impl; [exact Hreal|]. intros y Hy. split; [apply Hy|done].
Qed.

End refine.
