(* ===== verification/TlsInterface.v ===== *)
(** * platform/tls.h: the class [tls] as its users see it

    The interface of the class, with an implementation per platform, and what
    it promises: there is a registry of blocks, each with a thread, of which one
    is current.  A program that uses the class as the comments of tls.h ask for
    gets the answers of the registry from every implementation of the laws, so
    the same ones on every platform. *)

From S2P Require Import Prelude.

(** The member functions of the class over the state [S]; [this] is passed. *)
Class TlsOps (S : Type) := {
  op_construct : Z → M S ();                (* tls(), in place *)
  op_destruct : Z → M S ();                 (* ~tls(), called directly *)
  op_prefix_bytes : M S Z;
  op_postfix_bytes : M S Z;
  op_reset : Z → M S ();
  op_set_thread : Z → Z → M S ();
  op_get_thread : Z → M S Z;
  op_current_thread : M S Z;
  op_current : M S Z;
  op_use : Z → M S ()
}.

(** The blocks with their threads, the one in use, and the one the process was
    started with, which no user constructed. *)
Record registry := mkRegistry {
  r_blocks : gmap Z Z;
  r_current : Z;
  r_host : Z
}.

Definition set_blocks (f : gmap Z Z → gmap Z Z) (r : registry) : registry :=
  mkRegistry (f (r_blocks r)) (r_current r) (r_host r).
Definition set_current (this : Z) (r : registry) : registry :=
  mkRegistry (r_blocks r) this (r_host r).

(** There are [pre] bytes before and [post] bytes from [this] on that are part
    of no other block. *)
Definition room (pre post : Z) (r : registry) (this : Z) : Prop :=
  0 ≤ this - pre ∧ this + post < two64 ∧
  map_Forall (λ x _, this + post ≤ x - pre ∨ x + post ≤ this - pre) (r_blocks r).

(** A block that a user constructed and that does not run. *)
Definition at_rest (r : registry) (this : Z) : Prop :=
  is_Some (r_blocks r !! this) ∧ this ≠ r_current r ∧ this ≠ r_host r.

#[global] Instance room_dec pre post r this : Decision (room pre post r this).
Proof. apply _. Defined.
#[global] Instance at_rest_dec r this : Decision (at_rest r this).
Proof. apply _. Defined.

(** ** What an implementation promises *)

Class TlsLaws (S : Type) {ops : TlsOps S} := {
  prefix : Z;
  postfix : Z;
  (** [operator new] has nothing left for a constructor. *)
  no_memory : S → Prop;
  models : S → registry → Prop;
  law_sizes : 0 ≤ prefix ∧ 0 < postfix;
  law_prefix s r : models s r → ∃ s', op_prefix_bytes s = Ret prefix s' ∧ models s' r;
  law_postfix s r : models s r → ∃ s', op_postfix_bytes s = Ret postfix s' ∧ models s' r;
  law_construct s r this : models s r → room prefix postfix r this →
    (∃ s', op_construct this s = Ret () s' ∧ models s' (set_blocks <[this := 0]> r)) ∨
    (no_memory s ∧ ∃ s', op_construct this s = Throw bad_alloc s');
  law_destruct s r this : models s r → at_rest r this →
    ∃ s', op_destruct this s = Ret () s' ∧ models s' (set_blocks (delete this) r);
  law_reset s r this : models s r → at_rest r this →
    ∃ s', op_reset this s = Ret () s' ∧ models s' r;
  law_set_thread s r this thread : models s r → is_Some (r_blocks r !! this) →
    0 ≤ thread < two64 →
    ∃ s', op_set_thread this thread s = Ret () s' ∧ models s' (set_blocks <[this := thread]> r);
  law_get_thread s r this thread : models s r → r_blocks r !! this = Some thread →
    op_get_thread this s = Ret thread s;
  law_current s r : models s r → op_current s = Ret (r_current r) s;
  law_current_thread s r thread : models s r → r_blocks r !! r_current r = Some thread →
    op_current_thread s = Ret thread s;
  law_use s r this : models s r → is_Some (r_blocks r !! this) →
    ∃ s', op_use this s = Ret () s' ∧ models s' (set_current this r)
}.

(** ** Programs that use the class *)

Inductive tls_call :=
| CConstruct (this : Z)
| CDestruct (this : Z)
| CReset (this : Z)
| CSetThread (this thread : Z)
| CGetThread (this : Z)
| CCurrentThread
| CCurrent
| CUse (this : Z).

(** The answers of the calls that have one. *)
Definition call_tls {S} `{TlsOps S} (c : tls_call) : M S (list Z) :=
  match c with
  | CConstruct this => op_construct this;; mret []
  | CDestruct this => op_destruct this;; mret []
  | CReset this => op_reset this;; mret []
  | CSetThread this thread => op_set_thread this thread;; mret []
  | CGetThread this => v ← op_get_thread this; mret [v]
  | CCurrentThread => v ← op_current_thread; mret [v]
  | CCurrent => v ← op_current; mret [v]
  | CUse this => op_use this;; mret []
  end.

Fixpoint calls_tls {S} `{TlsOps S} (cs : list tls_call) : M S (list Z) :=
  match cs with
  | [] => mret []
  | c :: cs => a ← call_tls c; b ← calls_tls cs; mret (a ++ b)
  end.

(** The same on the registry; [None] where the comments do not allow the call. *)
Definition registry_call (pre post : Z) (c : tls_call) (r : registry) : option (list Z * registry) :=
  match c with
  | CConstruct this =>
      if decide (room pre post r this) then Some ([], set_blocks <[this := 0]> r) else None
  | CDestruct this =>
      if decide (at_rest r this) then Some ([], set_blocks (delete this) r) else None
  | CReset this => if decide (at_rest r this) then Some ([], r) else None
  | CSetThread this thread =>
      if decide (is_Some (r_blocks r !! this) ∧ 0 ≤ thread < two64)
      then Some ([], set_blocks <[this := thread]> r) else None
  | CGetThread this => v ← r_blocks r !! this; Some ([v], r)
  | CCurrentThread => v ← r_blocks r !! r_current r; Some ([v], r)
  | CCurrent => Some ([r_current r], r)
  | CUse this => if decide (is_Some (r_blocks r !! this)) then Some ([], set_current this r) else None
  end.

Fixpoint registry_calls (pre post : Z) (cs : list tls_call) (r : registry)
    : option (list Z * registry) :=
  match cs with
  | [] => Some ([], r)
  | c :: cs =>
      '(a, r1) ← registry_call pre post c r;
      '(b, r2) ← registry_calls pre post cs r1;
      Some (a ++ b, r2)
  end.

(** ** Every implementation follows the registry *)

Section programs.
Context {S : Type} `{TlsLaws S}.
Implicit Types (s : S) (r : registry).

Lemma call_follows c s r a r' :
  registry_call prefix postfix c r = Some (a, r') → models s r →
  (∃ s', call_tls c s = Ret a s' ∧ models s' r') ∨
  (no_memory s ∧ ∃ s', call_tls c s = Throw bad_alloc s').
Proof.
  intros Hc Hm. destruct c as [this|this|this|this thread|this| | |this];
    cbn [registry_call call_tls] in *; unfold mbind, M_bind; try case_decide; simplify_option_eq;
    destruct_and?.
  - destruct (law_construct s r this) as [(s' & E & ?)|(? & s' & E)]; [done..| |]; rewrite E; eauto.
  - left. destruct (law_destruct s r this) as (s' & E & ?); [done..|]. rewrite E. eauto.
  - left. destruct (law_reset s r' this) as (s' & E & ?); [done..|]. rewrite E. eauto.
  - left. destruct (law_set_thread s r this thread) as (s' & E & ?); [done..|]. rewrite E. eauto.
  - left. erewrite law_get_thread by done. eauto.
  - left. erewrite law_current_thread by done. eauto.
  - left. erewrite law_current by done. eauto.
  - left. destruct (law_use s r this) as (s' & E & ?); [done..|]. rewrite E. eauto.
Qed.

(** Some calls of the program were made, and there is no memory for the next. *)
Definition starved (cs : list tls_call) s : Prop :=
  ∃ cs1 a s1, cs1 `prefix_of` cs ∧ calls_tls cs1 s = Ret a s1 ∧ no_memory s1.

Lemma starved_cons c cs s s1 a : call_tls c s = Ret a s1 → starved cs s1 → starved (c :: cs) s.
Proof.
  intros E (cs1 & b & s2 & Hp & E2 & Hn). exists (c :: cs1), (a ++ b), s2.
  split_and!; [by apply prefix_cons| |done]. cbn [calls_tls]. unfold mbind, M_bind. by rewrite E, E2.
Qed.

(** The answers are those of the registry, and so is the state afterwards. *)
Lemma calls_follow cs s r a r' :
  registry_calls prefix postfix cs r = Some (a, r') → models s r →
  wp (calls_tls cs) (λ out s', out = a ∧ models s' r')
    (λ e _, e = bad_alloc ∧ starved cs s) (λ _, False) s.
Proof.
  revert s r a. induction cs as [|c cs IH]; intros s r a Hc Hm; cbn [registry_calls calls_tls] in *.
  { by simplify_eq. }
  destruct (registry_call prefix postfix c r) as [[a1 r1]|] eqn:E1; [|done].
  cbn [mbind option_bind] in Hc.
  destruct (registry_calls prefix postfix cs r1) as [[a2 r2]|] eqn:E2; simplify_eq/=.
  apply wp_bind. destruct (call_follows c s r a1 r1 E1 Hm) as [(s1 & Es & Hm1)|(Hn & s1 & Es)];
    unfold wp at 1; rewrite Es.
  - apply wp_bind. eapply wp_mono; [by eapply IH|..|done].
    + intros out s' [-> ?]. done.
    + intros e s' [-> ?]. split; [done|by eapply starved_cons].
  - split; [done|]. exists [], [], s. split_and!; [apply prefix_nil|done|done].
Qed.

(** An implementation that needs no memory answers every call. *)
Lemma calls_answer cs s r a r' :
  (∀ s, ¬ no_memory s) → registry_calls prefix postfix cs r = Some (a, r') → models s r →
  ∃ s', calls_tls cs s = Ret a s' ∧ models s' r'.
Proof.
  intros Hn Hc Hm. pose proof (calls_follow cs s r a r' Hc Hm) as Hw. unfold wp in Hw.
  destruct (calls_tls cs s) as [out s'|e s'|f]; [|by destruct Hw as [_ (? & ? & s1 & _ & _ & []%Hn)]|done].
  destruct Hw as [-> ?]. by exists s'.
Qed.

End programs.
