(* ===== verification/TlsLinux.v ===== *)
(** * The class [tls] on Linux keeps the promises of tls.h

    The registry of a process is the map of its control blocks, and the block
    in use the one [%fs] points to. *)

From S2P Require Import Prelude Platform Tls TlsProcess TlsInterface.

(** A block comes into fresh storage, which goes with it. *)
Definition linux_ops (infos : list dl_phdr_info) (new_dtv : gset Z → option Z)
    : TlsOps process := {|
  op_construct this := exec infos new_dtv (Create this);
  op_destruct this := exec infos new_dtv (Destroy this);
  op_prefix_bytes := prefix_bytes infos;
  op_postfix_bytes := mret tls_postfix_bytes;
  op_reset this := tls_reset_block infos this;
  op_set_thread := set_thread;
  op_get_thread := get_thread;
  op_current_thread := current_thread;
  op_current := current;
  op_use := use
|}.

Section laws.
Context (infos : list dl_phdr_info) (new_dtv : gset Z → option Z).
Context (real : list tls_image) (host : Z) (magic : Z * Z * Z * Z).
Context (Hfind : find_tls_images infos = Some (inr (table real))).
Context (Hreal : Forall image_ok real).
Context (Hnew : ∀ live va, new_dtv live = Some va → va ∉ live).

Record linux_models (s : process) (r : registry) : Prop := {
  lm_ok : ok real host magic s;
  lm_blocks this : r_blocks r !! this = threads s !! after this;
  lm_current : pr_fs s = after (r_current r);
  lm_host : host = after (r_host r)
}.

Lemma after_inj a b : after a = after b → a = b.
Proof. unfold after. lia. Qed.

Lemma block_control s r this thread :
  linux_models s r → r_blocks r !! this = Some thread →
  ∃ c, pr_controls s !! after this = Some c ∧ c_thread c = thread.
Proof.
  intros Hm Hb. rewrite (lm_blocks _ _ Hm) in Hb. unfold threads in Hb.
  apply lookup_fmap_Some in Hb as (c & ? & ?). eauto.
Qed.

Lemma block_live s r this :
  linux_models s r → is_Some (r_blocks r !! this) → is_Some (pr_controls s !! after this).
Proof. intros Hm [t Ht]. destruct (block_control s r this t Hm Ht) as (c & -> & _). eauto. Qed.

Lemma block_resting s r this : linux_models s r → at_rest r this → resting host s this.
Proof.
  intros Hm (Hb & Hc & Hh). split_and!; [by eapply block_live|..].
  - rewrite (lm_host _ _ Hm). by intros ?%after_inj.
  - rewrite (lm_current _ _ Hm). by intros ?%after_inj.
Qed.

(** The operation on the control blocks is the one on the registry. *)
Lemma models_turn s s' r r' f fs :
  linux_models s r → turns real host magic s s' f fs →
  (∀ this, r_blocks r' !! this = f (threads s) !! after this) →
  fs = after (r_current r') → r_host r' = r_host r → linux_models s' r'.
Proof.
  intros Hm (Hok & Ht & Hf) Hb Hc Hh. split; [done| |congruence|].
  - intros this. by rewrite Hb, Ht.
  - by rewrite Hh, (lm_host _ _ Hm).
Qed.

Lemma ok_images_found s : ok real host magic s → ok real host magic (upd_images (table real) magic s).
Proof. intros []. split; simpl; auto. Qed.

Lemma blocks_insert s r this thread :
  linux_models s r → ∀ x, <[this := thread]> (r_blocks r) !! x =
    <[after this := thread]> (threads s) !! after x.
Proof.
  intros Hm x. destruct (decide (this = x)) as [<-|Hne]; [by rewrite !lookup_insert_eq|].
  rewrite !lookup_insert_ne by (try intros ?%after_inj; done). apply Hm.
Qed.

Lemma blocks_delete s r this :
  linux_models s r → ∀ x, delete this (r_blocks r) !! x = delete (after this) (threads s) !! after x.
Proof.
  intros Hm x. destruct (decide (this = x)) as [<-|Hne]; [by rewrite !lookup_delete_eq|].
  rewrite !lookup_delete_ne by (try intros ?%after_inj; done). apply Hm.
Qed.

Lemma linux_construct s r this :
  linux_models s r → room (total_reserve real) tls_postfix_bytes r this →
  (∃ s', exec infos new_dtv (Create this) s = Ret () s' ∧
     linux_models s' (set_blocks <[this := 0]> r)) ∨
  (new_dtv (dom (pr_vectors s)) = None ∧
     ∃ s', exec infos new_dtv (Create this) s = Throw bad_alloc s').
Proof.
  intros Hm (_ & _ & Hroom).
  assert (pr_controls s !! after this = None) as Hnone.
  { destruct (pr_controls s !! after this) as [c|] eqn:Hc; [|done].
    pose proof (threads_lookup s _ _ Hc) as Ht. rewrite <- (lm_blocks _ _ Hm) in Ht.
    pose proof (total_reserve_nonneg real Hreal). specialize (Hroom _ _ Ht).
    unfold tls_postfix_bytes, sizeof_tls, sizeof_tcbhead in Hroom. simpl in Hroom. lia. }
  destruct (new_dtv (dom (pr_vectors s))) as [va|] eqn:Hva; [left|right].
  - destruct (exec_create infos new_dtv real host magic Hfind Hreal Hnew s this va)
      as (s' & E & Ht); [apply Hm|done..|]. exists s'. split; [done|].
    eapply models_turn; [done..|by apply blocks_insert|apply Hm|done].
  - by split; [|apply create_fails].
Qed.

Definition linux_laws : TlsLaws process (ops := linux_ops infos new_dtv).
Proof.
  refine {| prefix := total_reserve real; postfix := tls_postfix_bytes;
            no_memory s := new_dtv (dom (pr_vectors s)) = None; models := linux_models |}.
  - split; [by apply total_reserve_nonneg|done].
  - intros s r Hm. exists (upd_images (table real) magic s). split.
    + simpl. unfold prefix_bytes, mbind, M_bind.
      rewrite (images_deref_eq infos real magic Hfind) by (eapply ok_ready, Hm).
      unfold table. by rewrite reserved_real.
    + destruct Hm. split; [by apply ok_images_found|done..].
  - intros s r Hm. by exists s.
  - apply linux_construct.
  - intros s r this Hm Hr. pose proof (block_resting _ _ _ Hm Hr) as Hrest.
    destruct (exec_destroy infos new_dtv real host magic s this) as (s' & E & Ht); [apply Hm|done|].
    exists s'. split; [done|]. eapply models_turn; [done..|by apply blocks_delete|apply Hm|done].
  - intros s r this Hm Hr. pose proof (block_resting _ _ _ Hm Hr) as Hrest.
    destruct (exec_reset infos new_dtv real host magic Hfind Hreal Hnew s this) as (s' & E & Ht);
      [apply Hm|done|].
    exists s'. split; [done|]. eapply models_turn; [done..|apply Hm|apply Hm|done].
  - intros s r this thread Hm Hb _.
    destruct (exec_set_thread infos new_dtv real host magic s this thread) as (s' & E & Ht);
      [apply Hm|by eapply block_live|].
    exists s'. split; [done|]. eapply models_turn; [done..|by apply blocks_insert|apply Hm|done].
  - intros s r this thread Hm Hb. destruct (block_control _ _ _ _ Hm Hb) as (c & Hc & <-).
    by apply get_thread_eq.
  - intros s r Hm. simpl. unfold current, get_tcb, mbind, M_bind, gets. rewrite (lm_current _ _ Hm).
    unfold mret, M_ret, after. f_equal. lia.
  - intros s r thread Hm Hb. destruct (block_control _ _ _ _ Hm Hb) as (c & Hc & <-).
    simpl. unfold current_thread, get_tcb, control_at, mbind, M_bind, gets.
    by rewrite (lm_current _ _ Hm), Hc.
  - intros s r this Hm Hb.
    destruct (exec_use infos new_dtv real host magic Hfind Hreal Hnew s this) as (s' & E & Ht);
      [apply Hm|by eapply block_live|].
    exists s'. split; [done|]. eapply models_turn; [done..|apply Hm|done|done].
Defined.

(** The process starts with the block of the first thread. *)
Lemma linux_starts s c :
  starts host magic s → pr_controls s = {[host := c]} →
  linux_models s (mkRegistry {[host - sizeof_tls := c_thread c]} (host - sizeof_tls) (host - sizeof_tls)).
Proof.
  intros Hs Hc. assert (after (host - sizeof_tls) = host) as Hh by (unfold after; lia).
  split; simpl; [by eapply starts_ok| | |done].
  - intros this. unfold threads. rewrite Hc, map_fmap_singleton.
    destruct (decide (host - sizeof_tls = this)) as [<-|Hne].
    + by rewrite Hh, !lookup_singleton_eq.
    + rewrite !lookup_singleton_ne; [done| |done]. intros E. by apply Hne, after_inj; rewrite Hh.
  - destruct Hs as (_ & -> & _). done.
Qed.

End laws.
