(* ===== verification/TlsMac.v ===== *)
(** * The class [tls] on macOS keeps the promises of tls.h

    The registry is what memory holds: a block of the registry has its own
    address in slot 0 and its thread in slot 6, and no two blocks overlap. *)

From S2P Require Import Prelude Platform MacTls TlsInterface.

Definition lift {A} (o : option (A * mac)) : outcome mac A :=
  match o with
  | Some (a, s') => Ret a s'
  | None => Stuck (undefined "the search for the slots runs on")
  end.
Definition lift_unit (o : option mac) : outcome mac () := lift (pair () <$> o).

Lemma lift_unit_Some s : lift_unit (Some s) = Ret () s.
Proof. done. Qed.

Definition mac_ops (fuel : nat) : TlsOps mac := {|
  op_construct this s := lift_unit (mac_construct fuel this s);
  op_destruct this s := lift_unit (mac_destruct fuel this s);
  op_prefix_bytes := mret mac_prefix_bytes;
  op_postfix_bytes s := lift (mac_postfix_bytes fuel s);
  op_reset this s := lift_unit (mac_reset fuel this s);
  op_set_thread this thread s := lift_unit (mac_set_thread fuel this thread s);
  op_get_thread this s := lift (mac_get_thread fuel this s);
  op_current_thread := gets mac_current_thread;
  op_current := gets mac_current;
  op_use this s := lift_unit (mac_use fuel this s)
|}.

Section laws.
Context (fuel : nat) (size : Z).

Definition mac_postfix : Z := sizeof_tls + k_num_slots * 8 + size.
Definition slots_of (this : Z) : Z := mac_after this + size.

(** The words of a block that the library reads. *)
Definition labelled (m : mac_memory) (this thread : Z) : Prop :=
  0 ≤ mac_after this < two64 ∧ load64 m (slots_of this) = mac_after this ∧
  load64 m (slots_of this + 8 * k_thread_slot_a) = thread.

Record mac_models (s : mac) (r : registry) : Prop := {
  mm_sized : sized s size;
  mm_block this thread : r_blocks r !! this = Some thread → labelled (mac_mem s) this thread;
  mm_apart a b : is_Some (r_blocks r !! a) → is_Some (r_blocks r !! b) → a ≠ b →
    a + mac_postfix ≤ b ∨ b + mac_postfix ≤ a;
  mm_live : is_Some (r_blocks r !! r_current r);
  mm_gs : mac_gs s = slots_of (r_current r)
}.

Lemma labelled_ext m m' this thread :
  0 < size → (∀ x, this ≤ x < this + mac_postfix → m' x = m x) →
  labelled m this thread → labelled m' this thread.
Proof.
  unfold labelled, mac_postfix, slots_of, mac_after, load64, k_thread_slot_a, k_num_slots, sizeof_tls.
  intros Hpos Hx (H0 & H1 & H2). split_and!; [lia..| |].
  - etrans; [|exact H1]. apply load_ext. intros x Hr. apply Hx. lia.
  - etrans; [|exact H2]. apply load_ext. intros x Hr. apply Hx. lia.
Qed.

(** One block is written, and no memory outside it. *)
Lemma models_write s r this thread m' :
  mac_models s r → labelled m' this thread →
  (∀ x, ¬ (this ≤ x < this + mac_postfix) → m' x = mac_mem s x) →
  (∀ b, is_Some (r_blocks r !! b) → b ≠ this →
     this + mac_postfix ≤ b ∨ b + mac_postfix ≤ this) →
  mac_models (set_mem m' s) (set_blocks <[this := thread]> r).
Proof.
  intros [Hs Hb Ha Hc Hg] Hl Hout Hapart. split; simpl; [done| | | |done].
  - intros b t [[<- <-]|[Hne Hbt]]%lookup_insert_Some; [done|].
    apply (labelled_ext (mac_mem s)); [apply Hs| |by apply Hb]. intros x Hx. apply Hout.
    destruct (Hapart b) as [?|?]; [by eexists|done|lia|lia].
  - intros a b. rewrite !lookup_insert_is_Some. intros [<-|[Hne1 H1]] [<-|[Hne2 H2]] Hne; try done.
    + by apply Hapart.
    + destruct (Hapart a); [done..|by right|by left].
    + by apply Ha.
  - rewrite lookup_insert_is_Some. destruct (decide (this = r_current r)); auto.
Qed.

Lemma block_apart s r this :
  mac_models s r → is_Some (r_blocks r !! this) →
  ∀ b, is_Some (r_blocks r !! b) → b ≠ this → this + mac_postfix ≤ b ∨ b + mac_postfix ≤ this.
Proof. intros Hm Ht b Hb Hne. by apply (mm_apart _ _ Hm). Qed.

Ltac layout := unfold mac_postfix, slots_of, mac_after, k_thread_slot_a, k_num_slots, sizeof_tls in *.

Lemma mac_constructs s r this :
  mac_models s r → room 0 mac_postfix r this →
  mac_models (set_mem (constructed this size s) s) (set_blocks <[this := 0]> r).
Proof.
  intros Hm (H0 & H1 & Hroom). pose proof (mm_sized _ _ Hm) as [_ Hpos].
  apply models_write; [done| | |].
  - split_and!; [layout; lia..| |].
    + apply load64_store64. layout. lia.
    + unfold constructed, load64, store64. rewrite load_store_ne by (layout; lia).
      apply load64_zero. intros x Hx. unfold mac_memset. rewrite bool_decide_true; [done|layout; lia].
  - intros x Hx. unfold constructed, store64, store, mac_memset, mac_memcpy. layout.
    by repeat (rewrite bool_decide_false by lia).
  - intros b [t Hb] Hne. specialize (Hroom b t Hb). simpl in Hroom. lia.
Qed.

Lemma mac_labels s r this thread :
  mac_models s r → is_Some (r_blocks r !! this) → 0 ≤ thread < two64 →
  mac_models (set_mem (store64 (slots_of this + 8 * k_thread_slot_a) thread (mac_mem s)) s)
    (set_blocks <[this := thread]> r).
Proof.
  intros Hm Hb Ht. pose proof (mm_sized _ _ Hm) as [_ Hpos].
  apply models_write; [done| | |by eapply block_apart].
  - destruct Hb as [t Hb]. destruct (mm_block _ _ Hm this t Hb) as (H0 & H1 & _).
    split_and!; [lia..| |by apply load64_store64].
    etrans; [|exact H1]. apply load_store_ne. layout. lia.
  - intros x Hx. unfold store64, store. rewrite bool_decide_false; [done|layout; lia].
Qed.

Lemma num_dynamic_slots : Z.of_nat dynamic_slots = 512.
Proof. reflexivity. Qed.

(** The loops of [reset] and of the destructor leave the label alone. *)
Lemma models_freed clear s s' r this :
  mac_models s r → is_Some (r_blocks r !! this) →
  freed_slots clear dynamic_slots (slots_of this) k_num_copied_slots s s' → mac_models s' r.
Proof.
  intros Hm [t Hb] [Hg Hsz _ Hout _]. pose proof (mm_sized _ _ Hm) as [_ Hpos].
  rewrite num_dynamic_slots in Hout. unfold k_num_copied_slots in Hout.
  assert (labelled (mac_mem s') this t) as Hl.
  { destruct (mm_block _ _ Hm this t Hb) as (H0 & H1 & H2). split_and!; [lia..| |].
    - etrans; [|exact H1]. apply load_ext. intros x Hx. apply Hout. layout. lia.
    - etrans; [|exact H2]. apply load_ext. intros x Hx. apply Hout. layout. lia. }
  destruct (models_write s r this t (mac_mem s')) as [_ Hbl Hap _ _]; [done..| | |].
  - intros x Hx. apply Hout. layout. lia.
  - eapply block_apart; [done|by eexists].
  - simpl in Hbl, Hap. rewrite insert_id in Hbl, Hap by done. destruct Hm as [Hs _ _ Hc Hgs].
    split; [|done|done|done|congruence]. unfold sized in *. by rewrite Hsz.
Qed.

Lemma mac_frees clear s r this :
  mac_models s r → is_Some (r_blocks r !! this) →
  mac_models (free_slots clear dynamic_slots (slots_of this) k_num_copied_slots s) r.
Proof. intros Hm Hb. by eapply models_freed, free_slots_spec. Qed.

Lemma models_forget s r this :
  mac_models s r → this ≠ r_current r → mac_models s (set_blocks (delete this) r).
Proof.
  intros [Hs Hb Ha Hc Hg] Hne. split; simpl; [done| | |by rewrite lookup_delete_ne|done].
  - intros x t [_ Hx]%lookup_delete_Some. by apply Hb.
  - intros a b [x [_ Hx]%lookup_delete_Some] [y [_ Hy]%lookup_delete_Some]. apply Ha; by eexists.
Qed.

Lemma models_use s r this :
  mac_models s r → is_Some (r_blocks r !! this) →
  mac_models (set_gs (slots_of this) s) (set_current this r).
Proof. by intros [] Hb. Qed.

Definition mac_laws : 0 < size → TlsLaws mac (ops := mac_ops fuel).
Proof.
  intros Hpos.
  refine {| prefix := mac_prefix_bytes; postfix := mac_postfix; no_memory _ := False;
            models := mac_models |}.
  - split; [done|]. layout. lia.
  - intros s r Hm. by exists s.
  - intros s r Hm. exists s. split; [|done]. destruct (mm_sized _ _ Hm) as [Hs _].
    simpl. unfold mac_postfix_bytes, get_pthread_slots_offset.
    rewrite bool_decide_true by lia. simpl. by rewrite Hs.
  - intros s r this Hm Hroom. left. eexists. split; [|by apply mac_constructs].
    simpl. by rewrite (sized_construct s size) by apply Hm.
  - intros s r this Hm (Hb & Hne & _). eexists. split; [|by apply models_forget; [apply mac_frees|]].
    cbn [op_destruct mac_ops]. rewrite (sized_frees false s size) by apply Hm. apply lift_unit_Some.
  - intros s r this Hm (Hb & _). eexists. split; [|by apply mac_frees].
    cbn [op_reset mac_ops]. rewrite (sized_frees true s size) by apply Hm. apply lift_unit_Some.
  - intros s r this thread Hm Hb Ht. eexists. split; [|by apply mac_labels].
    simpl. by rewrite (sized_set_thread s size) by apply Hm.
  - intros s r this thread Hm Hb. destruct (mm_block _ _ Hm this thread Hb) as (_ & _ & Ht).
    simpl. unfold mac_get_thread. rewrite (sized_slots s size) by apply Hm. simpl.
    by unfold slots_of in Ht; rewrite Ht.
  - intros s r Hm. destruct (mm_live _ _ Hm) as [t Hc].
    destruct (mm_block _ _ Hm _ t Hc) as (_ & H1 & _).
    simpl. unfold gets, mac_current, pthread_self. rewrite (mm_gs _ _ Hm), H1. f_equal. layout. lia.
  - intros s r thread Hm Hc. destruct (mm_block _ _ Hm _ thread Hc) as (_ & _ & H2).
    simpl. unfold gets, mac_current_thread. rewrite (mm_gs _ _ Hm).
    by unfold k_thread_slot_a in H2; rewrite H2.
  - intros s r this Hm Hb. eexists. split; [|by apply models_use].
    simpl. by rewrite (sized_use s size) by apply Hm.
Defined.

End laws.

(** The process starts with the block of the first thread: [%gs] points [n]
    words behind its start.  The first call of [postfix_bytes()], with which a
    task is created, finds the size, if no earlier word has that address. *)
Lemma mac_starts fuel s n thread :
  let this := pthread_self s - sizeof_tls in
  mac_pthread_t_size s = 0 → mac_gs s = pthread_self s + 8 * Z.of_nat n → (0 < n < fuel)%nat →
  (∀ j, (j < n)%nat → load64 (mac_mem s) (pthread_self s + 8 * Z.of_nat j) ≠ pthread_self s) →
  0 ≤ pthread_self s < two64 → mac_current_thread s = thread →
  ∃ s', op_postfix_bytes (TlsOps := mac_ops fuel) s = Ret (mac_postfix (8 * Z.of_nat n)) s' ∧
    mac_models (8 * Z.of_nat n) s' (mkRegistry {[this := thread]} this this).
Proof.
  intros this H0 Hgs Hf Hnone Hself Ht.
  destruct (find_self_spec (mac_mem s) (pthread_self s) n (pthread_self s)) with (fuel := fuel)
    as (k & Hk & Hfind & Hat & Hfirst); [by rewrite <- Hgs|lia|].
  assert (k = n) as -> by (destruct (decide (k < n)%nat) as [Hlt|]; [by destruct (Hnone k Hlt)|lia]).
  simpl. unfold mac_postfix_bytes, get_pthread_slots_offset. rewrite H0. simpl. rewrite Hfind. simpl.
  replace (pthread_self s + 8 * Z.of_nat n - pthread_self s) with (8 * Z.of_nat n) by lia.
  eexists. split; [reflexivity|]. split; simpl.
  - split; [done|lia].
  - intros x t [<- <-]%lookup_singleton_Some.
    unfold labelled, slots_of, mac_after, this. simpl. rewrite !Z.sub_add, <- Hgs. done.
  - intros a b [x [<- _]%lookup_singleton_Some] [y [<- _]%lookup_singleton_Some]. done.
  - rewrite lookup_singleton_eq. by eexists.
  - unfold slots_of, mac_after, this. lia.
Qed.
