(* ===== verification/TlsWorld.v ===== *)
(** * The class [tls] as the scheduler has it keeps the promises of tls.h *)

From S2P Require Import Prelude Platform World Task TlsInterface.

Section world.
Context `{Env}.

Definition tls_get_thread (p : Z) : P Z := b ← tls_deref p; mret (tb_thread b).

#[export] Instance world_ops : TlsOps world := {|
  op_construct := tls_construct;
  op_destruct := tls_destruct;
  op_prefix_bytes := mret tls_prefix_bytes;
  op_postfix_bytes := mret tls_postfix_bytes;
  op_reset := tls_reset;
  op_set_thread := tls_set_thread;
  op_get_thread := tls_get_thread;
  op_current_thread := tls_current_thread;
  op_current := tls_current;
  op_use := tls_use
|}.

Definition world_models (w : world) (r : registry) : Prop :=
  r_blocks r = tb_thread <$> w_tls w ∧ r_current r = w_fs w.

Lemma models_deref w r this :
  world_models w r → is_Some (r_blocks r !! this) → ∃ b, tls_deref this w = Ret b w ∧
    w_tls w !! this = Some b ∧ r_blocks r !! this = Some (tb_thread b).
Proof.
  intros [-> _] [t (b & _ & Hb)%lookup_fmap_Some]. exists b. unfold tls_deref.
  by rewrite lookup_fmap, Hb.
Qed.

Ltac deref Hm Hb b :=
  destruct (models_deref _ _ _ Hm Hb) as (b & E & Hw & Hr); simpl;
  unfold tls_destruct, tls_reset, tls_set_thread, tls_get_thread, tls_current_thread, tls_use,
    gets, modify, mbind, M_bind.

#[export] Instance world_laws : TlsLaws world.
Proof.
  refine {| prefix := tls_prefix_bytes; postfix := tls_postfix_bytes;
            no_memory _ := False; models := world_models |}.
  - split; [apply wrap64_range|done].
  - intros w r Hm. by exists w.
  - intros w r Hm. by exists w.
  - intros w r this [Hb Hc] _. left. eexists. split; [reflexivity|]. split; [|done].
    simpl. by rewrite fmap_insert, Hb.
  - intros w r this Hm (Hb & _). deref Hm Hb b. rewrite E. eexists. split; [reflexivity|].
    destruct Hm as [Hm Hc]. split; [|done]. simpl. by rewrite fmap_delete, Hm.
  - intros w r this Hm (Hb & _). deref Hm Hb b. rewrite E. eexists. split; [reflexivity|].
    destruct Hm as [Hm Hc]. split; [|done]. simpl. rewrite fmap_insert, <- Hm. by rewrite insert_id.
  - intros w r this thread Hm Hb _. deref Hm Hb b. rewrite E. eexists. split; [reflexivity|].
    destruct Hm as [Hm Hc]. split; [|done]. simpl. by rewrite fmap_insert, Hm.
  - intros w r this thread Hm Ht. assert (is_Some (r_blocks r !! this)) as Hb by eauto.
    deref Hm Hb b. rewrite E. unfold mret, M_ret. congruence.
  - intros w r [_ Hc]. simpl. unfold tls_current, gets. by rewrite Hc.
  - intros w r thread Hm Ht. assert (is_Some (r_blocks r !! r_current r)) as Hb by eauto.
    deref Hm Hb b. destruct Hm as [_ Hc]. rewrite <- Hc, E. unfold mret, M_ret. congruence.
  - intros w r this Hm Hb. deref Hm Hb b. rewrite E. eexists. split; [reflexivity|].
    destruct Hm as [Hm Hc]. by split.
Defined.

End world.
