(* ===== verification/TlsPlatforms.v ===== *)
(** * The platforms agree

    The class [tls] of Linux, the one of macOS and the one in the world of the
    scheduler are three implementations of the interface of tls.h. *)

From S2P Require Import Prelude Platform World Task Tls TlsProcess MacTls.
From S2P Require Import TlsInterface TlsLinux TlsMac TlsWorld.

Section platforms.
Context `{Env}.
(** The modules of the process, and [operator new[]]. *)
Context (infos : list dl_phdr_info) (new_dtv : gset Z → option Z).
Context (real : list tls_image) (host : Z) (magic : Z * Z * Z * Z).
Context (Hfind : find_tls_images infos = Some (inr (table real))).
Context (Hreal : Forall image_ok real).
Context (Hnew : ∀ live va, new_dtv live = Some va → va ∉ live).
(** The world of the scheduler has the same modules. *)
Context (Himages : tls_images = table real) (Hsmall : total_reserve real < two64).
(** macOS with a [pthread_t] of [size] bytes. *)
Context (fuel : nat) (size : Z) (Hsize : 0 < size).

Lemma world_prefix : tls_prefix_bytes = total_reserve real.
Proof.
  unfold tls_prefix_bytes. rewrite Himages. unfold table. rewrite reserved_real by done.
  apply wrap64_small. pose proof (total_reserve_nonneg real Hreal). lia.
Qed.


End platforms.
