(* ===== verification/Raii.v ===== *)
(** * platform/timer.h, util/close_wrapper.h and concur/channel_impl.h: objects
    that release something when they go out of scope

    A [timer] holds the function it calls with the elapsed time, a
    [close_wrapper] the resource it closes.  Both are move only: the object
    moved from holds nothing.  What they share is modelled once: a set of
    objects, each of which holds a payload or nothing, with construction, move
    construction, move assignment and destruction.  The history of the payloads
    ([made], [released], [dropped]) is there for the statements. *)

From S2P Require Import Prelude.

Section holder.
Context {A : Type}.

Record holders := mkHolders {
  live : gmap nat (option A);
  made : list A;
  released : list (A * Z);        (* by a destructor, with the time *)
  dropped : list A                (* overwritten by a move assignment *)
}.

Definition no_holders : holders := mkHolders ∅ [] [] [].

Inductive hop :=
| Make (id : nat) (a : A)               (* constructor *)
| MoveTo (dst src : nat)                (* move constructor *)
| Assign (dst src : nat)                (* move assignment *)
| Destroy (id : nat) (now : Z).         (* destructor *)

(** Operations on objects that are not there, or over objects that are, have no
    effect: the language does not let a program write them. *)
Definition hact (o : hop) (s : holders) : holders :=
  match o with
  | Make id a =>
      match live s !! id with
      | None => mkHolders (<[id := Some a]> (live s)) (made s ++ [a]) (released s) (dropped s)
      | Some _ => s
      end
  | MoveTo dst src =>
      match live s !! src, live s !! dst with
      | Some x, None => mkHolders (<[dst := x]> (<[src := None]> (live s))) (made s) (released s) (dropped s)
      | _, _ => s
      end
  | Assign dst src =>
      match live s !! src, live s !! dst with
      | Some x, Some y =>
          if bool_decide (dst = src) then s
          else mkHolders (<[dst := x]> (<[src := None]> (live s))) (made s) (released s)
                 (dropped s ++ option_list y)
      | _, _ => s
      end
  | Destroy id now =>
      match live s !! id with
      | Some x => mkHolders (delete id (live s)) (made s)
                    (released s ++ ((λ a, (a, now)) <$> option_list x)) (dropped s)
      | None => s
      end
  end.

Definition hacts (os : list hop) (s : holders) : holders := foldl (λ s o, hact o s) s os.

(** The payloads that are held. *)
Definition held_in (l : gmap nat (option A)) : list A := omap snd (map_to_list l).

Definition balanced (s : holders) : Prop :=
  made s ≡ₚ held_in (live s) ++ (released s).*1 ++ dropped s.

Lemma omap_perm {B C} (f : B → option C) (l l' : list B) : l ≡ₚ l' → omap f l ≡ₚ omap f l'.
Proof. by intros ->. Qed.

Lemma held_insert l id x : l !! id = None → held_in (<[id := x]> l) ≡ₚ option_list x ++ held_in l.
Proof.
  intros H. unfold held_in. rewrite (omap_perm _ _ _ (map_to_list_insert _ _ _ H)). simpl.
  by destruct x.
Qed.

Lemma held_delete l id x : l !! id = Some x → held_in l ≡ₚ option_list x ++ held_in (delete id l).
Proof.
  intros H. rewrite <- (insert_delete_id l id x H) at 1. apply held_insert, lookup_delete_eq.
Qed.

Lemma held_clear l id x : l !! id = Some x → held_in l ≡ₚ option_list x ++ held_in (<[id := None]> l).
Proof.
  intros H. rewrite (held_delete l id x H). rewrite <- insert_delete_eq.
  by rewrite held_insert by apply lookup_delete_eq.
Qed.

Lemma hact_balanced o s : balanced s → balanced (hact o s).
Proof.
  unfold balanced, hact. intros Hb. destruct o as [id a|dst src|dst src|id now].
  - destruct (live s !! id) eqn:E; [done|]. simpl. rewrite held_insert by done.
    rewrite Hb. simpl. by rewrite Permutation_app_comm.
  - destruct (live s !! src) as [x|] eqn:Es; [|done]. destruct (live s !! dst) eqn:Ed; [done|].
    assert (dst ≠ src) by congruence. simpl.
    rewrite held_insert by (by rewrite lookup_insert_ne).
    rewrite Hb. by rewrite (held_clear _ _ _ Es), <- app_assoc.
  - destruct (live s !! src) as [x|] eqn:Es; [|done].
    destruct (live s !! dst) as [y|] eqn:Ed; [|done]. case_bool_decide as Hne; [done|]. simpl.
    assert (<[src := None]> (live s) !! dst = Some y) as Ed' by (by rewrite lookup_insert_ne).
    rewrite <- insert_delete_eq, held_insert by apply lookup_delete_eq.
    rewrite Hb, (held_clear _ _ _ Es), (held_delete _ _ _ Ed').
    rewrite <- !app_assoc. apply Permutation_app_head. rewrite Permutation_app_swap_app.
    apply Permutation_app_head. rewrite (Permutation_app_comm (option_list y)).
    by rewrite <- app_assoc.
  - destruct (live s !! id) as [x|] eqn:E; [|done]. simpl.
    rewrite Hb, (held_delete _ _ _ E), fmap_app. destruct x as [a|]; simpl; [|by rewrite app_nil_r].
    rewrite <- app_assoc. simpl. by rewrite !app_assoc, Permutation_middle.
Qed.

Lemma hacts_balanced os s : balanced s → balanced (hacts os s).
Proof. revert s. induction os as [|o os IH]; intros s H; [done|]. apply IH, hact_balanced, H. Qed.

Lemma reached_balanced os : balanced (hacts os no_holders).
Proof.
  apply hacts_balanced. unfold balanced, held_in. simpl. by rewrite map_to_list_empty.
Qed.

Definition assigns (o : hop) : bool := match o with Assign _ _ => true | _ => false end.

Lemma hacts_dropped os s :
  Forall (λ o, assigns o = false) os → dropped (hacts os s) = dropped s.
Proof.
  intros H. revert s. induction H as [|o os Ho _ IH]; intros s; [done|].
  change (hacts (o :: os) s) with (hacts os (hact o s)). rewrite IH.
  unfold hact. destruct o; try done; by repeat case_match.
Qed.

(** A release carries the time of a destructor. *)
Lemma hacts_released os s e :
  e ∈ released (hacts os s) → e ∈ released s ∨ ∃ id, Destroy id e.2 ∈ os.
Proof.
  revert s. induction os as [|o os IH]; intros s H; [by left|].
  change (hacts (o :: os) s) with (hacts os (hact o s)) in H.
  apply IH in H as [H|[id H]]; [|right; exists id; by right].
  unfold hact in H. destruct o as [id a|dst src|dst src|id now]; try by (repeat case_match; left).
  destruct (live s !! id) as [x|]; [|by left]. simpl in H.
  apply elem_of_app in H as [H|H]; [by left|]. right. exists id.
  destruct x as [a|]; simpl in H; [|by apply elem_of_nil in H].
  apply list_elem_of_singleton in H as ->. by left.
Qed.

End holder.
Arguments holders : clear implicits.
Arguments hop : clear implicits.

(** ** [timer] *)

(** The payload: the start of the measurement and the function to call. *)
Definition timer_payload : Type := Z * Z.

(** The calls the destructors made: which function, with which duration. *)
Definition end_calls (s : holders timer_payload) : list (Z * Z) :=
  (λ e : timer_payload * Z, (e.1.2, e.2 - e.1.1)) <$> released s.

(** C36.  A timer calls its function once: however the timers are moved around,
    when all of them are gone the calls made are those of the functions the
    timers were constructed with, once each, and each call gets the time from
    the construction of a timer with that function to the destruction of an
    object. *)
Theorem timer_calls_once (os : list (hop timer_payload)) :
  Forall (λ o, assigns o = false) os → live (hacts os no_holders) = ∅ →
  let s := hacts os no_holders in
  (end_calls s).*1 ≡ₚ (made s).*2 ∧
  ∀ f d, (f, d) ∈ end_calls s →
    ∃ start now id, (start, f) ∈ made s ∧ Destroy id now ∈ os ∧ d = now - start.
Proof.
  intros Ha Hl s.
  assert (made s ≡ₚ (released s).*1) as Hp.
  { pose proof (reached_balanced os) as Hb. fold s in Hb. unfold balanced in Hb.
    rewrite Hb. unfold s at 1 3. rewrite Hl, hacts_dropped by done. by rewrite app_nil_r. }
  split.
  - rewrite Hp. unfold end_calls. by rewrite <- !list_fmap_compose.
  - intros f d Hin. unfold end_calls in Hin.
    apply list_elem_of_fmap in Hin as ([[start g] now] & [= -> ->] & Hin).
    pose proof (hacts_released _ _ _ Hin) as [H|[id H]]; [by apply elem_of_nil in H|].
    exists start, now, id. split_and!; [|done|done].
    rewrite Hp. by apply (list_elem_of_fmap_2 fst) in Hin.
Qed.

(** ** [close_wrapper] *)

(** Every resource given to a [close_wrapper] is held by exactly one
    wrapper, or its [close()] was called exactly once for it, or it was
    overwritten by a move assignment, which does not close it. *)
Theorem wrapper_closes_once (os : list (hop Z)) :
  let s := hacts os no_holders in
  made s ≡ₚ held_in (live s) ++ (released s).*1 ++ dropped s.
Proof. apply reached_balanced. Qed.

(** The move assignment that loses a [close()]: the wrapper of the resource 7 is
    assigned from that of the resource 8, and both are destroyed. *)
Definition assigned_over : list (hop Z) :=
  [Make 0 7; Make 1 8; Assign 0 1; Destroy 1 0; Destroy 0 0].

(** The move assignment, which the class allows, loses a [close()]. *)
Theorem wrapper_assignment_loses :
  let s := hacts assigned_over no_holders in
  live s = ∅ ∧ (released s).*1 = [8] ∧ dropped s = [7].
Proof. by vm_compute. Qed.

(** ** [make_wishbone_channel] *)

(** Both ends wrap the one monitor: the wrappers are made (0 and 1), captured by
    the two closures (2 and 3) and moved into the channel (4 and 5); the ones
    moved from are destroyed on return. *)
Definition make_wishbone_channel (monitor : Z) : list (hop Z) :=
  [Make 0 monitor; MoveTo 2 0; Destroy 0 0; Make 1 monitor; MoveTo 3 1; Destroy 1 0;
   MoveTo 4 2; MoveTo 5 3; Destroy 3 0; Destroy 2 0].

(** A channel starts open, and is closed by each of its ends: nothing is
    closed while it is made, and destroying either end closes the monitor once,
    destroying both closes it twice. *)
Theorem channel_closes monitor :
  let s := hacts (make_wishbone_channel monitor) no_holders in
  released s = [] ∧ live s = {[ 4%nat := Some monitor; 5%nat := Some monitor ]} ∧
  (released (hact (Destroy 4 0) s)).*1 = [monitor] ∧
  (released (hact (Destroy 5 0) s)).*1 = [monitor] ∧
  (released (hact (Destroy 5 0) (hact (Destroy 4 0) s))).*1 = [monitor; monitor].
Proof. by vm_compute. Qed.
