(* ===== verification/RingBuffer.v ===== *)
(** * concur/internal/ring_buffer: the buffer of a buffered channel

    One reader and one writer share the buffer; the timer can preempt either of
    them between any two atomic operations, so an execution is an interleaving
    of the steps below, one atomic operation (or one access to a slot) each.
    [pc_r] and [pc_w] say where [read()] and [write()] are, with the values of
    their local variables; either end may also run [close()].

    The waiter [_stalled] is the cell of [waiter.h]: [park_if] takes it by a
    compare-exchange, runs its check, then waits; [unpark] takes the context
    out of it once that context waits.  A context that waits does not step.

    [sent] and [got] are the history of the values stored and taken; the code
    does not have them. *)

From S2P Require Import Prelude.

Section ring_buffer.
Context {T : Type} (Size : Z).

Inductive side := Reader | Writer.

(** [read()]: [lr], [lw] are [loaded_r], [loaded_w]. *)
Inductive pc_r :=
| RIdle (ret : option (option T))       (* not in the call; what the last one returned *)
| RLoadR                               (* auto loaded_r = _r.load() *)
| RLoadW (lr : Z)                      (* loaded_w = _w.load() *)
| RTest (lr lw : Z)                    (* loaded_w - loaded_r == 0 *)
| RParkCas (lr : Z)                    (* park_if: compare_exchange *)
| RParkCheck (lr : Z)                  (* park_if: check_thunk() *)
| RParkUndo                            (* park_if: _waiter.store(nullptr) *)
| RParkWait (lr : Z)                   (* park_if: run_state = WAITING; yield() *)
| RParked (lr : Z)
| RTake (lr : Z)                       (* move out of and destroy the slot *)
| RStoreR (lr : Z) (v : T)             (* _r.store(loaded_r + 1) *)
| RWake (ret : option T)               (* while (_stalled && *)
| RUnpark (ret : option T).            (*        !_stalled.unpark()) yield() *)

(** [write(u)] *)
Inductive pc_w :=
| WIdle (ret : option (option T))
| WClosed (u : T)                      (* if (_closed.load()) *)
| WLoadW (u : T)                       (* auto loaded_w = _w.load() *)
| WLoadR (u : T) (lw : Z)              (* loaded_r = _r.load() *)
| WTest (u : T) (lw lr : Z)            (* loaded_w - loaded_r == Size *)
| WParkCas (u : T) (lw : Z)
| WParkCheck (u : T) (lw : Z)
| WParkUndo (u : T)
| WParkWait (u : T) (lw : Z)
| WParked (u : T) (lw : Z)
| WPut (u : T) (lw : Z)                (* construct in the slot *)
| WStoreW (u : T) (lw : Z)             (* _w.store(loaded_w + 1) *)
| WWake (ret : option T)
| WUnpark (ret : option T).

Record ring := mkRing {
  slots : gmap Z T;
  rb_r : Z;
  rb_w : Z;
  closed : bool;
  stalled : option side;
  at_r : pc_r;
  at_w : pc_w;
  sent : list T;
  got : list T
}.

Definition ring_init : ring :=
  mkRing ∅ 0 0 false None (RIdle None) (WIdle None) [] [].

(** [i & _mask] *)
Definition index (i : Z) : Z := Z.land i (Size - 1).

Definition go_r (p : pc_r) (s : ring) : ring :=
  mkRing (slots s) (rb_r s) (rb_w s) (closed s) (stalled s) p (at_w s) (sent s) (got s).
Definition go_w (p : pc_w) (s : ring) : ring :=
  mkRing (slots s) (rb_r s) (rb_w s) (closed s) (stalled s) (at_r s) p (sent s) (got s).
Definition set_stalled (v : option side) (s : ring) : ring :=
  mkRing (slots s) (rb_r s) (rb_w s) (closed s) v (at_r s) (at_w s) (sent s) (got s).
Definition set_slots (v : gmap Z T) (s : ring) : ring :=
  mkRing v (rb_r s) (rb_w s) (closed s) (stalled s) (at_r s) (at_w s) (sent s) (got s).
Definition set_closed (s : ring) : ring :=
  mkRing (slots s) (rb_r s) (rb_w s) true (stalled s) (at_r s) (at_w s) (sent s) (got s).

(** What a step of a context leads to: it has nothing to do, it touches a slot
    in the wrong state, or it goes on. *)
Inductive next := Blocked | Fault | Next (s : ring).

(** [unpark()] of the other side: whether it waits, and the state when it is
    taken out and made runnable. *)
Definition unpark_other (s : ring) : option ring :=
  match stalled s, at_r s, at_w s with
  | Some Reader, RParked lr, _ => Some (go_r (RLoadW lr) (set_stalled None s))
  | Some Writer, _, WParked u lw => Some (go_w (WLoadR u lw) (set_stalled None s))
  | _, _, _ => None
  end.

Definition step_r (s : ring) : next :=
  match at_r s with
  | RIdle _ | RParked _ => Blocked
  | RLoadR => Next (go_r (RLoadW (rb_r s)) s)
  | RLoadW lr => Next (go_r (RTest lr (rb_w s)) s)
  | RTest lr lw => Next (go_r (if wrap64 (lw - lr) =? 0 then RParkCas lr else RTake lr) s)
  | RParkCas lr =>
      match stalled s with
      | None => Next (go_r (RParkCheck lr) (set_stalled (Some Reader) s))
      | Some _ => Next (go_r (RLoadW lr) s)
      end
  | RParkCheck lr => Next (go_r (if closed s then RParkUndo else RParkWait lr) s)
  | RParkUndo => Next (go_r (RIdle (Some None)) (set_stalled None s))
  | RParkWait lr => Next (go_r (RParked lr) s)
  | RTake lr =>
      match slots s !! index lr with
      | Some v => Next (go_r (RStoreR lr v) (set_slots (delete (index lr) (slots s)) s))
      | None => Fault
      end
  | RStoreR lr v =>
      Next (mkRing (slots s) (wrap64 (lr + 1)) (rb_w s) (closed s) (stalled s)
              (RWake (Some v)) (at_w s) (sent s) (got s ++ [v]))
  | RWake ret => Next (go_r (match stalled s with Some _ => RUnpark ret | None => RIdle (Some ret) end) s)
  | RUnpark ret =>
      match unpark_other s with
      | Some s' => Next (go_r (RIdle (Some ret)) s')
      | None => Next (go_r (RWake ret) s)
      end
  end.

Definition step_w (s : ring) : next :=
  match at_w s with
  | WIdle _ | WParked _ _ => Blocked
  | WClosed u => Next (go_w (if closed s then WIdle (Some (Some u)) else WLoadW u) s)
  | WLoadW u => Next (go_w (WLoadR u (rb_w s)) s)
  | WLoadR u lw => Next (go_w (WTest u lw (rb_r s)) s)
  | WTest u lw lr => Next (go_w (if wrap64 (lw - lr) =? Size then WParkCas u lw else WPut u lw) s)
  | WParkCas u lw =>
      match stalled s with
      | None => Next (go_w (WParkCheck u lw) (set_stalled (Some Writer) s))
      | Some _ => Next (go_w (WLoadR u lw) s)
      end
  | WParkCheck u lw => Next (go_w (if closed s then WParkUndo u else WParkWait u lw) s)
  | WParkUndo u => Next (go_w (WIdle (Some (Some u))) (set_stalled None s))
  | WParkWait u lw => Next (go_w (WParked u lw) s)
  | WPut u lw =>
      match slots s !! index lw with
      | None => Next (go_w (WStoreW u lw) (set_slots (<[index lw := u]> (slots s)) s))
      | Some _ => Fault
      end
  | WStoreW u lw =>
      Next (mkRing (slots s) (rb_r s) (wrap64 (lw + 1)) (closed s) (stalled s)
              (at_r s) (WWake None) (sent s ++ [u]) (got s))
  | WWake ret => Next (go_w (match stalled s with Some _ => WUnpark ret | None => WIdle (Some ret) end) s)
  | WUnpark ret =>
      match unpark_other s with
      | Some s' => Next (go_w (WIdle (Some ret)) s')
      | None => Next (go_w (WWake ret) s)
      end
  end.

(** What happens next: a context steps, or one that is idle makes a call.
    [close()] stores the flag and then runs the same loop as the end of
    [read()] and [write()]. *)
Inductive event := StepR | StepW | CallRead | CallWrite (u : T) | CloseR | CloseW.

Definition act (e : event) (s : ring) : next :=
  match e, at_r s, at_w s with
  | StepR, _, _ => step_r s
  | StepW, _, _ => step_w s
  | CallRead, RIdle _, _ => Next (go_r RLoadR s)
  | CallWrite u, _, WIdle _ => Next (go_w (WClosed u) s)
  | CloseR, RIdle _, _ => Next (go_r (RWake None) (set_closed s))
  | CloseW, _, WIdle _ => Next (go_w (WWake None) (set_closed s))
  | _, _, _ => Blocked
  end.

(** Run a sequence of events; those that find their context blocked have no
    effect. *)
Fixpoint acts (es : list event) (s : ring) : next :=
  match es with
  | [] => Next s
  | e :: es' =>
      match act e s with
      | Next s' => acts es' s'
      | Blocked => acts es' s
      | Fault => Fault
      end
  end.

(** ** The invariant *)

Definition n_sent (s : ring) : Z := Z.of_nat (length (sent s)).
Definition n_got (s : ring) : Z := Z.of_nat (length (got s)).

(** The reader has emptied a slot and not yet moved on; the writer has filled
    one and not yet moved on. *)
Definition taking (s : ring) : bool := match at_r s with RStoreR _ _ => true | _ => false end.
Definition putting (s : ring) : option T := match at_w s with WStoreW u _ => Some u | _ => None end.

(** What the slot of the [i]-th value holds. *)
Definition content (s : ring) (i : Z) : option T :=
  if i <? n_sent s then
    if taking s && (i =? n_got s) then None else sent s !! Z.to_nat i
  else if i =? n_sent s then putting s else None.

Definition r_ok (s : ring) (p : pc_r) : Prop :=
  match p with
  | RIdle _ | RLoadR | RParkUndo | RWake _ | RUnpark _ => True
  | RLoadW lr | RParkCas lr | RParkCheck lr | RParkWait lr | RParked lr => lr = wrap64 (n_got s)
  | RTest lr lw => lr = wrap64 (n_got s) ∧ ∃ m, lw = wrap64 m ∧ n_got s ≤ m ≤ n_sent s
  | RTake lr => lr = wrap64 (n_got s) ∧ n_got s < n_sent s
  | RStoreR lr v => lr = wrap64 (n_got s) ∧ sent s !! length (got s) = Some v
  end.

Definition w_ok (s : ring) (p : pc_w) : Prop :=
  match p with
  | WIdle _ | WClosed _ | WLoadW _ | WParkUndo _ | WWake _ | WUnpark _ => True
  | WLoadR _ lw | WParkCas _ lw | WParkCheck _ lw | WParkWait _ lw | WParked _ lw =>
      lw = wrap64 (n_sent s)
  | WTest _ lw lr => lw = wrap64 (n_sent s) ∧
      ∃ j, lr = wrap64 j ∧ 0 ≤ j ≤ n_got s ∧ n_sent s - j ≤ Size
  | WPut _ lw | WStoreW _ lw => lw = wrap64 (n_sent s) ∧ n_sent s < n_got s + Size
  end.

Record ring_ok (s : ring) : Prop := {
  ok_window : n_got s ≤ n_sent s ≤ n_got s + Size;
  ok_fifo : got s = take (length (got s)) (sent s);
  ok_r : rb_r s = wrap64 (n_got s);
  ok_w : rb_w s = wrap64 (n_sent s);
  ok_at_r : r_ok s (at_r s);
  ok_at_w : w_ok s (at_w s);
  ok_slots i : n_got s ≤ i < n_got s + Size → slots s !! (i `mod` Size) = content s i
}.

Context (b : Z) (Hb : 0 ≤ b < 64) (HSize : Size = 2 ^ b).

Lemma size_pos : 0 < Size < two64.
Proof.
  rewrite HSize. split; [apply Z.pow_pos_nonneg; lia|].
  unfold two64. apply Z.pow_lt_mono_r; lia.
Qed.

Lemma index_wrap i : index (wrap64 i) = i `mod` Size.
Proof.
  unfold index. rewrite HSize at 1. replace (2 ^ b - 1) with (Z.ones b) by (rewrite Z.ones_equiv; lia).
  rewrite Z.land_ones, <-HSize by lia. unfold wrap64. apply Z.mod_mod_divide.
  exists (2 ^ (64 - b)). rewrite HSize, <-Z.pow_add_r by lia. unfold two64. f_equal. lia.
Qed.

Lemma wrap_diff i j : 0 ≤ i - j < two64 → wrap64 (wrap64 i - wrap64 j) = i - j.
Proof.
  intros H. unfold wrap64. rewrite <-Zminus_mod. by apply Z.mod_small.
Qed.

Lemma slot_distinct i j k : k ≤ i < k + Size → k ≤ j < k + Size → i ≠ j → i `mod` Size ≠ j `mod` Size.
Proof.
  intros Hi Hj Hne Heq. pose proof size_pos.
  pose proof (Z.div_mod i Size). pose proof (Z.div_mod j Size).
  assert (i / Size = j / Size ∨ i / Size < j / Size ∨ j / Size < i / Size) as [?|[?|?]] by lia; nia.
Qed.

(** Moves that touch neither slots nor counters. *)
Lemma ok_go_r p s :
  ring_ok s → taking s = false → (∀ lr v, p ≠ RStoreR lr v) → r_ok s p → ring_ok (go_r p s).
Proof.
  intros [] Ht Hp Hr. constructor; try done. intros i Hi. rewrite ok_slots0 by done.
  unfold content, taking in *. simpl. rewrite Ht. by destruct p; try done; destruct (Hp _ _ eq_refl).
Qed.

Lemma ok_go_w p s :
  ring_ok s → putting s = None → (∀ u lw, p ≠ WStoreW u lw) → w_ok s p → ring_ok (go_w p s).
Proof.
  intros [] Ht Hp Hr. constructor; try done. intros i Hi. rewrite ok_slots0 by done.
  unfold content, putting in *. simpl. rewrite Ht. by destruct p; try done; destruct (Hp _ _ eq_refl).
Qed.

Lemma ok_set_stalled v s : ring_ok s → ring_ok (set_stalled v s).
Proof. intros []. by constructor. Qed.
Lemma ok_set_closed s : ring_ok s → ring_ok (set_closed s).
Proof. intros []. by constructor. Qed.

Lemma ok_unpark s s' :
  ring_ok s → unpark_other s = Some s' →
  ring_ok s' ∧ (stalled s = Some Reader → at_w s' = at_w s) ∧ (stalled s = Some Writer → at_r s' = at_r s).
Proof.
  intros Hok H. unfold unpark_other in H. pose proof (ok_at_r _ Hok). pose proof (ok_at_w _ Hok).
  destruct (stalled s) as [[]|]; [| |done].
  - destruct (at_r s) eqn:Hr; try done. injection H as <-. split_and!; [|done..].
    apply (ok_go_r _ (set_stalled None s)); [by apply ok_set_stalled| |done|done].
    unfold taking. simpl. by rewrite Hr.
  - destruct (at_r s) eqn:Hr, (at_w s) eqn:Hw; try done; injection H as <-; split_and!; try done;
    (apply (ok_go_w _ (set_stalled None s)); [by apply ok_set_stalled| |done|done];
     unfold putting; simpl; by rewrite Hw).
Qed.

(** The step is taken and the invariant holds again. *)
Definition good (r : next) : Prop :=
  match r with Next s => ring_ok s | Blocked => True | Fault => False end.

Lemma content_sent s i :
  ring_ok s → n_got s ≤ i < n_sent s → taking s = false → ∃ v, content s i = Some v ∧ sent s !! Z.to_nat i = Some v.
Proof.
  intros Hok Hi Ht. unfold content. rewrite Ht, (proj2 (Z.ltb_lt _ _)) by lia. simpl.
  assert (is_Some (sent s !! Z.to_nat i)) as [v Hv]; [|eauto].
  apply lookup_lt_is_Some_2. unfold n_got, n_sent in *. lia.
Qed.

Lemma good_take s lr : ring_ok s → at_r s = RTake lr → good (step_r s).
Proof.
  intros Hok Hat. pose proof (ok_at_r _ Hok) as Hr. rewrite Hat in Hr. destruct Hr as [-> Hlt].
  pose proof (ok_window _ Hok) as Hw. pose proof size_pos as Hsz.
  assert (taking s = false) as Ht by (unfold taking; by rewrite Hat).
  destruct (content_sent s (n_got s) Hok) as (v & Hc & Hv); [lia|done|].
  unfold step_r. rewrite Hat, index_wrap, (ok_slots _ Hok), Hc by lia.
  destruct Hok. constructor; try done.
  - simpl. split; [done|]. unfold n_got in Hv. by rewrite Nat2Z.id in Hv.
  - intros i Hi. change (n_got (go_r _ _)) with (n_got s) in Hi. simpl.
    unfold content. cbn [taking at_r go_r andb]. change (n_sent (go_r _ _)) with (n_sent s).
    change (n_got (go_r _ _)) with (n_got s). change (putting (go_r _ _)) with (putting s).
    destruct (Z.eqb_spec i (n_got s)) as [->|Hne].
    + rewrite lookup_delete_eq. by rewrite (proj2 (Z.ltb_lt _ _)) by lia.
    + rewrite lookup_delete_ne by (apply not_eq_sym; by eapply (slot_distinct i (n_got s) (n_got s)); lia).
      rewrite ok_slots0 by lia. unfold content. by rewrite Ht.
Qed.

(** The writer's view gets no worse when the reader moves on, and the reverse. *)
Lemma w_ok_got s s' p : n_sent s' = n_sent s → n_got s ≤ n_got s' → w_ok s p → w_ok s' p.
Proof.
  intros Hs Hg. destruct p; simpl; rewrite ?Hs; try done.
  - intros (? & j & ? & ? & ?). split; [done|]. exists j. split_and!; [done|lia..].
  - intros [? ?]. split; [done|lia].
  - intros [? ?]. split; [done|lia].
Qed.

Lemma r_ok_sent s s' p :
  got s' = got s → (∃ l, sent s' = sent s ++ l) → r_ok s p → r_ok s' p.
Proof.
  intros Hg [l Hl]. assert (n_got s' = n_got s) as Eg by (unfold n_got; by rewrite Hg).
  assert (n_sent s ≤ n_sent s') as Es by (unfold n_sent; rewrite Hl, length_app; lia).
  destruct p; simpl; rewrite ?Eg; try done.
  - intros (? & m & ? & ?). split; [done|]. exists m. split; [done|lia].
  - intros [? ?]. split; [done|lia].
  - intros [? ?]. split; [done|]. rewrite Hg, Hl. by apply lookup_app_l_Some.
Qed.

Lemma good_store_r s lr v : ring_ok s → at_r s = RStoreR lr v → good (step_r s).
Proof.
  intros Hok Hat. pose proof (ok_at_r _ Hok) as Hr. rewrite Hat in Hr. destruct Hr as [-> Hv].
  pose proof size_pos as Hsz. assert (taking s = true) as Ht by (unfold taking; by rewrite Hat).
  assert (n_got s < n_sent s) as Hlt.
  { apply lookup_lt_Some in Hv. unfold n_got, n_sent. lia. }
  unfold step_r. rewrite Hat. destruct Hok. unfold good. set (s' := mkRing _ _ _ _ _ _ _ _ _).
  assert (n_got s' = n_got s + 1) as Hg by (unfold n_got, s'; simpl; rewrite length_app; simpl; lia).
  change (n_sent s) with (n_sent s') in *. constructor.
  - rewrite Hg. change (n_sent s) with (n_sent s') in ok_window0. lia.
  - simpl. rewrite length_app. simpl. rewrite ok_fifo0 at 1.
    rewrite Nat.add_1_r. symmetry. by apply take_S_r.
  - rewrite Hg. apply wrap64_add.
  - done.
  - done.
  - apply (w_ok_got s); [done|lia|done].
  - intros i Hi. rewrite Hg in Hi. change (slots s') with (slots s).
    unfold content. change (taking s') with false. change (putting s') with (putting s). simpl.
    destruct (Z.eq_dec i (n_got s + Size)) as [->|Hne].
    + (* the slot that the reader gave up *)
      assert ((n_got s + Size) `mod` Size = n_got s `mod` Size) as ->.
      { replace (n_got s + Size) with (n_got s + 1 * Size) by lia. apply Z.mod_add. lia. }
      rewrite ok_slots0 by lia. unfold content. rewrite Ht, Z.eqb_refl.
      change (n_sent s) with (n_sent s'). rewrite (proj2 (Z.ltb_lt (n_got s) _)) by done. simpl.
      change (n_sent s) with (n_sent s') in ok_window0.
      rewrite (proj2 (Z.ltb_ge (n_got s + Size) _)) by lia.
      destruct (Z.eqb_spec (n_got s + Size) (n_sent s')); [|done].
      unfold putting. unfold w_ok in ok_at_w0. destruct (at_w s); try done. destruct ok_at_w0.
      change (n_sent s) with (n_sent s') in *. lia.
    + rewrite ok_slots0 by lia. unfold content. change (n_sent s) with (n_sent s').
      rewrite Ht, (proj2 (Z.eqb_neq i (n_got s))) by lia. done.
Qed.

Lemma good_r s : ring_ok s → good (step_r s).
Proof.
  intros Hok. pose proof (ok_at_r _ Hok) as Hr. pose proof (ok_window _ Hok) as Hw.
  pose proof size_pos as Hsz. destruct (at_r s) eqn:Hat;
    try (by eapply good_take); try (by eapply good_store_r);
    unfold step_r; rewrite Hat; simpl in Hr |- *; try done;
    assert (taking s = false) as Ht by (unfold taking; by rewrite Hat).
  - apply ok_go_r; [done..|]. simpl. apply Hok.
  - apply ok_go_r; [done..|]. simpl. split; [done|]. exists (n_sent s). split; [apply Hok|lia].
  - destruct Hr as (-> & m & -> & Hm). rewrite wrap_diff by lia.
    destruct (Z.eqb_spec (m - n_got s) 0); (apply ok_go_r; [done..|]); simpl; [done|]. split; [done|lia].
  - destruct (stalled s); [by apply ok_go_r|]. simpl.
    by apply (ok_go_r _ (set_stalled (Some Reader) s)); [apply ok_set_stalled|..].
  - apply ok_go_r; [done|done|by destruct (closed s)|by destruct (closed s)].
  - by apply (ok_go_r _ (set_stalled None s)); [apply ok_set_stalled|..].
  - by apply ok_go_r.
  - apply ok_go_r; [done|done|by destruct (stalled s)|by destruct (stalled s)].
  - destruct (unpark_other s) as [s'|] eqn:Hu; simpl; [|by apply ok_go_r].
    destruct (ok_unpark s s' Hok Hu) as (Hok' & _ & Hsame). apply ok_go_r; [done| |done|done].
    unfold unpark_other in Hu. rewrite Hat in Hu. destruct (stalled s) as [[]|]; try done.
    unfold taking. rewrite Hsame by done. by rewrite Hat.
Qed.

Lemma good_put s u lw : ring_ok s → at_w s = WPut u lw → good (step_w s).
Proof.
  intros Hok Hat. pose proof (ok_at_w _ Hok) as Hw. rewrite Hat in Hw. destruct Hw as [-> Hlt].
  pose proof (ok_window _ Hok) as Hwin. pose proof size_pos as Hsz.
  assert (putting s = None) as Hp by (unfold putting; by rewrite Hat).
  assert (content s (n_sent s) = None) as Hc.
  { unfold content. by rewrite Z.ltb_irrefl, Z.eqb_refl. }
  unfold step_w. rewrite Hat, index_wrap, (ok_slots _ Hok), Hc by lia.
  destruct Hok. constructor; try done.
  intros i Hi. change (n_got (go_w _ _)) with (n_got s) in Hi. simpl.
  unfold content. cbn [putting at_w go_w]. change (n_sent (go_w _ _)) with (n_sent s).
  change (n_got (go_w _ _)) with (n_got s). change (taking (go_w _ _)) with (taking s).
  destruct (Z.eqb_spec i (n_sent s)) as [->|Hne].
  - by rewrite lookup_insert_eq, Z.ltb_irrefl.
  - rewrite lookup_insert_ne by (apply not_eq_sym; by apply (slot_distinct i (n_sent s) (n_got s)); lia).
    rewrite ok_slots0 by lia. unfold content. by rewrite (proj2 (Z.eqb_neq _ _) Hne).
Qed.

Lemma good_store_w s u lw : ring_ok s → at_w s = WStoreW u lw → good (step_w s).
Proof.
  intros Hok Hat. pose proof (ok_at_w _ Hok) as Hw. rewrite Hat in Hw. destruct Hw as [-> Hlt].
  pose proof size_pos as Hsz. assert (putting s = Some u) as Hp by (unfold putting; by rewrite Hat).
  unfold step_w. rewrite Hat. destruct Hok. unfold good. set (s' := mkRing _ _ _ _ _ _ _ _ _).
  assert (n_sent s' = n_sent s + 1) as Hs by (unfold n_sent, s'; simpl; rewrite length_app; simpl; lia).
  constructor.
  - rewrite Hs. change (n_got s') with (n_got s). lia.
  - change (got s = take (length (got s)) (sent s ++ [u])).
    rewrite take_app_le; [done|]. unfold n_got, n_sent in *. lia.
  - done.
  - rewrite Hs. apply wrap64_add.
  - apply (r_ok_sent s); [done|by exists [u]|done].
  - done.
  - intros i Hi. change (n_got s') with (n_got s) in Hi. change (slots s') with (slots s).
    rewrite ok_slots0 by done. unfold content. change (taking s') with (taking s).
    change (n_got s') with (n_got s). change (putting s') with (@None T). rewrite Hs, Hp.
    change (sent s') with (sent s ++ [u]). destruct (Z.ltb_spec i (n_sent s)).
    + rewrite (proj2 (Z.ltb_lt _ _)) by lia. destruct (taking s && (i =? n_got s)); [done|].
      rewrite lookup_app_l; [done|]. unfold n_got, n_sent in *. lia.
    + destruct (Z.eqb_spec i (n_sent s)) as [->|Hne].
      * rewrite (proj2 (Z.ltb_lt _ _)) by lia.
        assert (taking s && (n_sent s =? n_got s) = false) as ->.
        { unfold taking. unfold r_ok in ok_at_r0. destruct (at_r s); try done. simpl.
          destruct ok_at_r0 as [_ Hv]. apply lookup_lt_Some in Hv. apply Z.eqb_neq.
          unfold n_sent, n_got. lia. }
        unfold n_sent. rewrite Nat2Z.id. by rewrite lookup_app_r, Nat.sub_diag by done.
      * rewrite (proj2 (Z.ltb_ge _ _)) by lia. by destruct (i =? n_sent s + 1).
Qed.

Lemma good_w s : ring_ok s → good (step_w s).
Proof.
  intros Hok. pose proof (ok_at_w _ Hok) as Hr. pose proof (ok_window _ Hok) as Hw.
  pose proof size_pos as Hsz. destruct (at_w s) eqn:Hat;
    try (by eapply good_put); try (by eapply good_store_w);
    unfold step_w; rewrite Hat; simpl in Hr |- *; try done;
    assert (putting s = None) as Ht by (unfold putting; by rewrite Hat).
  - apply ok_go_w; [done|done|by destruct (closed s)|by destruct (closed s)].
  - apply ok_go_w; [done..|]. simpl. apply Hok.
  - apply ok_go_w; [done..|]. simpl. split; [done|]. exists (n_got s).
    split_and!; [apply Hok|unfold n_got; lia|lia|lia].
  - destruct Hr as (-> & j & -> & Hj & Hle). rewrite wrap_diff by lia.
    destruct (Z.eqb_spec (n_sent s - j) Size); (apply ok_go_w; [done..|]); simpl; [done|]. split; [done|lia].
  - destruct (stalled s); [by apply ok_go_w|]. simpl.
    by apply (ok_go_w _ (set_stalled (Some Writer) s)); [apply ok_set_stalled|..].
  - apply ok_go_w; [done|done|by destruct (closed s)|by destruct (closed s)].
  - by apply (ok_go_w _ (set_stalled None s)); [apply ok_set_stalled|..].
  - by apply ok_go_w.
  - apply ok_go_w; [done|done|by destruct (stalled s)|by destruct (stalled s)].
  - destruct (unpark_other s) as [s'|] eqn:Hu; simpl; [|by apply ok_go_w].
    destruct (ok_unpark s s' Hok Hu) as (Hok' & Hsame & _). apply ok_go_w; [done| |done|done].
    unfold unpark_other in Hu. rewrite Hat in Hu.
    destruct (stalled s) as [[]|]; [|by destruct (at_r s)|done].
    unfold putting. rewrite Hsame by done. by rewrite Hat.
Qed.

Lemma good_act e s : ring_ok s → good (act e s).
Proof.
  intros Hok. pose proof (ok_at_r _ Hok). pose proof (ok_at_w _ Hok).
  destruct e; simpl; [by apply good_r|by apply good_w|..].
  - destruct (at_r s) eqn:Hr; try done. apply ok_go_r; [done| |done|done]. unfold taking. by rewrite Hr.
  - destruct (at_r s), (at_w s) eqn:Hw; try done;
      (apply ok_go_w; [done| |done|done]; unfold putting; by rewrite Hw).
  - destruct (at_r s) eqn:Hr; try done. apply (ok_go_r _ (set_closed s)); [by apply ok_set_closed| |done|done].
    unfold taking. simpl. by rewrite Hr.
  - destruct (at_r s), (at_w s) eqn:Hw; try done;
      (apply (ok_go_w _ (set_closed s)); [by apply ok_set_closed| |done|done];
       unfold putting; simpl; by rewrite Hw).
Qed.

Lemma good_acts es s : ring_ok s → ∃ s', acts es s = Next s' ∧ ring_ok s'.
Proof.
  revert s. induction es as [|e es IH]; intros s Hok; simpl; [eauto|].
  pose proof (good_act e s Hok) as Hg. destruct (act e s); [by apply IH|done|by apply IH].
Qed.

Lemma ring_init_ok : ring_ok ring_init.
Proof.
  pose proof size_pos. constructor; try done.
  - unfold n_got, n_sent. simpl. lia.
  - intros i Hi. unfold content, n_sent in *. simpl in *. rewrite lookup_empty.
    destruct (i <? Z.of_nat 0); [by rewrite lookup_nil|]. by destruct (i =? Z.of_nat 0).
Qed.

(** ** Properties *)

(** However the reader, the writer and the timer interleave, and although
    the counters wrap around at 2^64: the values read are the values written,
    in their order, none lost, doubled or invented in between; at most [Size]
    values are in the buffer; no context ever constructs a value over another
    or reads a slot that holds none, so that the two ends never meet in a
    slot. *)
Theorem ring_is_fifo es :
  ∃ s, acts es ring_init = Next s ∧
    got s `prefix_of` sent s ∧
    Z.of_nat (length (sent s)) - Z.of_nat (length (got s)) ≤ Size ∧
    (∀ lr lw u v, at_r s = RStoreR lr v → at_w s = WStoreW u lw → index lr ≠ index lw).
Proof.
  destruct (good_acts es ring_init ring_init_ok) as (s & Hs & Hok). exists s.
  pose proof Hok as []. split_and!; [done| | |].
  - exists (drop (length (got s)) (sent s)). rewrite ok_fifo0 at 1. by rewrite take_drop.
  - unfold n_got, n_sent in *. lia.
  - intros lr lw u v Hr Hw. rewrite Hr in ok_at_r0. rewrite Hw in ok_at_w0. simpl in *.
    destruct ok_at_r0 as [-> Hv], ok_at_w0 as [-> ?]. rewrite !index_wrap.
    apply lookup_lt_Some in Hv. unfold n_got, n_sent in *.
    apply (slot_distinct _ _ (Z.of_nat (length (got s)))); lia.
Qed.

End ring_buffer.

(** ** Two interleavings *)

(** The steps of a context to the end of its call. *)
Definition reader {T} (n : nat) : list (@event T) := replicate n StepR.
Definition writer {T} (n : nat) : list (@event T) := replicate n StepW.

(** The reader reads [_r] and [_w] of an empty buffer and is preempted there. *)
Definition reader_sees_empty : list (@event Z) := CallRead :: reader 3.

(** A lost wakeup: the writer stores a value and finds nobody parked after
    the reader has seen the buffer empty, and before it parks; [park_if] checks
    again only that the buffer was not closed.  The reader is then parked, the
    writer is done, and the value sits in the buffer until the writer happens
    to write or close again. *)
Theorem ring_lost_wakeup :
  ∃ s, acts 2 (reader_sees_empty ++ CallWrite 7 :: writer 7 ++ reader 4) ring_init = Next s ∧
    at_r s = RParked 0 ∧ at_w s = WIdle (Some None) ∧ sent s = [7] ∧ got s = [] ∧
    step_r 2 s = Blocked.
Proof. eexists. split; [vm_compute; reflexivity|]. by vm_compute. Qed.

(** A value lost at close: the same interleaving, but the writer also
    closes before the reader parks.  The reader then answers the end of the
    stream although the value was accepted and is still in the buffer. *)
Theorem ring_close_drops :
  ∃ s, acts 2 (reader_sees_empty ++ CallWrite 7 :: writer 7 ++ CloseW :: writer 2 ++ reader 4)
         ring_init = Next s ∧
    at_r s = RIdle (Some None) ∧ at_w s = WIdle (Some None) ∧ sent s = [7] ∧ got s = [] ∧
    slots s !! 0 = Some 7.
Proof. eexists. split; [vm_compute; reflexivity|]. by vm_compute. Qed.
