(* ===== verification/Mutex.v ===== *)
(** * concur/mutex.cc and concur/internal/spin_lock.h: the mutex

    Any number of tasks call [lock()] and [unlock()]; the timer can preempt
    them, so an execution is an interleaving of the steps below.  The state of
    the mutex is only touched while its spin lock is held, so what a task does
    between taking and releasing the spin lock is one step, except for the loop
    that waits for the front waiter to be unparked, which yields with the spin
    lock held.

    A waiter of the queue goes from fresh to taken ([park] has stored the task)
    to waiting ([WAITING] is set and the task is switched out): only then can
    it be unparked. *)

From S2P Require Import Prelude.

(** Where a task is. *)
Inductive mpc :=
| MIdle                        (* holds nothing *)
| MThrew                       (* the last unlock threw logic_error *)
| LSpin                        (* lock(): _lock.lock() *)
| LTest                        (* lock(): spin lock held, while (_owner != nullptr) *)
| LPark (id : nat)             (* lock(): waiter.park(), compare_exchange *)
| LWait (id : nat)             (* park: run_state = WAITING; yield() *)
| LParked (id : nat)           (* switched out *)
| LRelock                      (* lock(): l.lock() after the park *)
| MOwner                       (* lock() has returned *)
| USpin                        (* unlock(): take the spin lock *)
| UTest                        (* unlock(): spin lock held *)
| UWake.                       (* unlock(): while (!waiter->unpark()) yield() *)

Inductive wstate := Fresh | Taken (t : Z) | Waiting (t : Z).

Record mutex := mkMutex {
  m_spin : bool;                      (* the flag of _lock *)
  m_owner : Z;                        (* 0 is nullptr *)
  m_waitqueue : list (nat * wstate);
  m_boost : Z;                        (* _priority_boost *)
  m_task_boost : gmap Z Z;            (* priority_boost of the tasks *)
  m_next : nat;                       (* names for the waiters *)
  m_pcs : gmap Z mpc
}.

Definition mutex_init : mutex := mkMutex false 0 [] 0 ∅ 0 ∅.

Definition at_pc (s : mutex) (t : Z) : mpc := default MIdle (m_pcs s !! t).
Definition boost_of (s : mutex) (t : Z) : Z := default 0 (m_task_boost s !! t).

Definition goto (t : Z) (p : mpc) (s : mutex) : mutex :=
  mkMutex (m_spin s) (m_owner s) (m_waitqueue s) (m_boost s) (m_task_boost s) (m_next s)
    (<[t := p]> (m_pcs s)).
Definition set_spin (v : bool) (s : mutex) : mutex :=
  mkMutex v (m_owner s) (m_waitqueue s) (m_boost s) (m_task_boost s) (m_next s) (m_pcs s).
Definition set_owner (v : Z) (s : mutex) : mutex :=
  mkMutex (m_spin s) v (m_waitqueue s) (m_boost s) (m_task_boost s) (m_next s) (m_pcs s).
Definition set_waitqueue (v : list (nat * wstate)) (s : mutex) : mutex :=
  mkMutex (m_spin s) (m_owner s) v (m_boost s) (m_task_boost s) (m_next s) (m_pcs s).
Definition add_boost (d : Z) (s : mutex) : mutex :=
  mkMutex (m_spin s) (m_owner s) (m_waitqueue s) (wrap64 (m_boost s + d)) (m_task_boost s)
    (m_next s) (m_pcs s).
Definition set_boost_of (t v : Z) (s : mutex) : mutex :=
  mkMutex (m_spin s) (m_owner s) (m_waitqueue s) (m_boost s) (<[t := v]> (m_task_boost s))
    (m_next s) (m_pcs s).

(** The cell of the waiter [id]. *)
Definition set_waiter (id : nat) (v : wstate) (s : mutex) : mutex :=
  set_waitqueue ((λ e, if bool_decide (e.1 = id) then (id, v) else e) <$> m_waitqueue s) s.

(** [_waitqueue.emplace_back()] *)
Definition emplace_back (s : mutex) : mutex :=
  mkMutex (m_spin s) (m_owner s) (m_waitqueue s ++ [(m_next s, Fresh)]) (m_boost s)
    (m_task_boost s) (S (m_next s)) (m_pcs s).

(** The body of the [while] of [lock()], and its end. *)
Definition lock_test (t : Z) (s : mutex) : mutex :=
  if bool_decide (m_owner s ≠ 0) then
    let id := m_next s in
    goto t (LPark id) (set_spin false (emplace_back
      (set_boost_of (m_owner s) (wrap64 (boost_of s (m_owner s) + 1)) (add_boost 1 s))))
  else
    goto t MOwner (set_spin false (set_boost_of t (m_boost s) (set_owner t s))).

(** [unlock()] with the spin lock held. *)
Definition unlock_test (t : Z) (s : mutex) : mutex :=
  if bool_decide (m_owner s ≠ t) then goto t MThrew (set_spin false s)
  else match m_waitqueue s with
       | [] => goto t MIdle (set_spin false (set_owner 0 s))
       | _ => goto t UWake s
       end.

(** One step of [t] inside a call; [None] when it is switched out or not in a
    call. *)
Definition mstep (t : Z) (s : mutex) : option mutex :=
  match at_pc s t with
  | MIdle | MThrew | MOwner | LParked _ => None
  | LSpin => Some (if m_spin s then s else goto t LTest (set_spin true s))
  | LTest => Some (lock_test t s)
  | LPark id => Some (goto t (LWait id) (set_waiter id (Taken t) s))
  | LWait id => Some (goto t (LParked id) (set_waiter id (Waiting t) s))
  | LRelock => Some (if m_spin s then s else goto t LTest (add_boost (-1) (set_spin true s)))
  | USpin => Some (if m_spin s then s else goto t UTest (set_spin true s))
  | UTest => Some (unlock_test t s)
  | UWake =>
      Some match m_waitqueue s with
           | (id, Waiting t') :: rest =>
               goto t MIdle (goto t' LRelock (set_spin false
                 (set_boost_of t 0 (set_owner 0 (set_waitqueue rest s)))))
           | _ => s
           end
  end.

Inductive mevent := MStep (t : Z) | CallLock (t : Z) | CallUnlock (t : Z).

(** A task may lock when it is in no call (or owns the mutex, and waits for
    itself), and may call [unlock] at any time outside a call. *)
Definition mact (e : mevent) (s : mutex) : mutex :=
  match e with
  | MStep t => default s (mstep t s)
  | CallLock t =>
      match at_pc s t with MIdle | MThrew | MOwner => goto t LSpin s | _ => s end
  | CallUnlock t =>
      match at_pc s t with MIdle | MThrew | MOwner => goto t USpin s | _ => s end
  end.

Definition macts (es : list mevent) (s : mutex) : mutex := foldl (λ s e, mact e s) s es.

Definition event_task (e : mevent) : Z :=
  match e with MStep t | CallLock t | CallUnlock t => t end.

(** ** The invariant *)

Definition holds_spin (p : mpc) : bool :=
  match p with LTest | UTest | UWake => true | _ => false end.

Definition about_to_lock (p : mpc) : Prop := p = LRelock ∨ p = LTest.

(** What is known of a task by where it is; [h] is the task that holds the spin
    lock, [g] the task that created each waiter. *)
Definition task_ok (h : option Z) (g : nat → Z) (s : mutex) (t : Z) (p : mpc) : Prop :=
  (holds_spin p = true ↔ h = Some t) ∧
  match p with
  | MOwner => m_owner s = t
  | UWake => m_owner s = t ∧ m_waitqueue s ≠ []
  | LPark id => (id, Fresh) ∈ m_waitqueue s ∧ g id = t
  | LWait id => (id, Taken t) ∈ m_waitqueue s
  | LParked id => (id, Waiting t) ∈ m_waitqueue s
  | _ => True
  end.

(** Every waiter of the queue belongs to a task that is on its way to park. *)
Definition waiter_ok (g : nat → Z) (s : mutex) (id : nat) (w : wstate) : Prop :=
  match w with
  | Fresh => at_pc s (g id) = LPark id
  | Taken t => at_pc s t = LWait id
  | Waiting t => at_pc s t = LParked id
  end.

Record mutex_okg (h : option Z) (g : nat → Z) (s : mutex) : Prop := {
  mo_spin : m_spin s = bool_decide (h ≠ None);
  mo_task t : task_ok h g s t (at_pc s t);
  mo_waiter id w : (id, w) ∈ m_waitqueue s → waiter_ok g s id w;
  mo_stranded : m_waitqueue s ≠ [] → m_owner s = 0 → ∃ t, about_to_lock (at_pc s t);
  mo_fresh id w : (id, w) ∈ m_waitqueue s → (id < m_next s)%nat;
  mo_nodup : NoDup (m_waitqueue s).*1;
  mo_null : at_pc s 0 = MIdle
}.

Definition mutex_ok (s : mutex) : Prop := ∃ h g, mutex_okg h g s.

Lemma mutex_init_ok : mutex_ok mutex_init.
Proof.
  exists None, (λ _, 0). constructor; try done.
  - intros id w H. by apply elem_of_nil in H.
  - intros id w H. by apply elem_of_nil in H.
  - constructor.
Qed.

Lemma at_goto t p s t' : at_pc (goto t p s) t' = if decide (t' = t) then p else at_pc s t'.
Proof.
  unfold at_pc, goto. simpl. destruct (decide (t' = t)) as [->|Hne].
  - by rewrite lookup_insert_eq.
  - by rewrite lookup_insert_ne.
Qed.

Lemma at_goto_eq t p s : at_pc (goto t p s) t = p.
Proof. rewrite at_goto. by rewrite decide_True. Qed.

Lemma at_goto_ne t p s t' : t' ≠ t → at_pc (goto t p s) t' = at_pc s t'.
Proof. intros. rewrite at_goto. by rewrite decide_False. Qed.

(** An id names one waiter. *)
Lemma waiter_unique (q : list (nat * wstate)) id w w' :
  NoDup q.*1 → (id, w) ∈ q → (id, w') ∈ q → w = w'.
Proof.
  induction q as [|[i x] q IH]; simpl; intros Hnd H H'.
  - by apply elem_of_nil in H.
  - apply NoDup_cons in Hnd as [Hni Hnd].
    apply elem_of_cons in H as [H|H], H' as [H'|H'].
    + congruence.
    + exfalso. simplify_eq. apply Hni. apply (list_elem_of_fmap_2 fst) in H'. done.
    + exfalso. simplify_eq. apply Hni. apply (list_elem_of_fmap_2 fst) in H. done.
    + by apply IH.
Qed.

(** The state but for the positions of the tasks is that of [s']. *)
Record same_data (s s' : mutex) : Prop := {
  sd_owner : m_owner s' = m_owner s;
  sd_queue : m_waitqueue s' = m_waitqueue s;
  sd_next : m_next s' = m_next s
}.

(** A task whose position no waiter mentions moves between positions that name
    no waiter and are not the owner's: taking, releasing or spinning on the
    spin lock. *)
Definition plain (p : mpc) : bool :=
  match p with
  | MIdle | MThrew | LSpin | LTest | LRelock | MOwner | USpin | UTest | UWake => true
  | _ => false
  end.

Lemma waiter_other t p g s s' id w :
  plain (at_pc s t) = true → (∀ t', at_pc s' t' = if decide (t' = t) then p else at_pc s t') →
  waiter_ok g s id w → waiter_ok g s' id w.
Proof.
  intros Hp Hat. unfold waiter_ok. destruct w as [|u|u]; rewrite Hat;
    intros Hw; case_decide as Heq; try done; rewrite <- Heq, Hw in Hp; done.
Qed.

Lemma ok_plain t p h g s s' h' :
  mutex_okg h g s → t ≠ 0 → same_data s s' →
  (∀ t', at_pc s' t' = if decide (t' = t) then p else at_pc s t') →
  plain (at_pc s t) = true → plain p = true →
  m_spin s' = bool_decide (h' ≠ None) → (holds_spin p = true ↔ h' = Some t) →
  (h' = h ∨ (h = None ∨ h = Some t) ∧ (h' = None ∨ h' = Some t)) →
  (p = MOwner ∨ p = UWake → m_owner s = t) → (p = UWake → m_waitqueue s ≠ []) →
  (about_to_lock (at_pc s t) → about_to_lock p) →
  mutex_okg h' g s'.
Proof.
  intros [Hspin Htask Hwait Hstr Hfresh Hnd Hnull] Ht [Ho Hq Hn] Hat Hpl Hpl' Hspin' Hh Hmove Hown
    Hwake Habout.
  constructor.
  - done.
  - intros t'. rewrite Hat. case_decide as Heq.
    + subst t'. split; [done|]. rewrite Ho, Hq. destruct p; try done; auto.
    + destruct (Htask t') as [Hht Hrest]. unfold task_ok. rewrite Ho, Hq. split; [|done].
      rewrite Hht. destruct Hmove as [->|[[->| ->] [->| ->]]]; split; congruence.
  - rewrite Hq. intros id w Hin. eapply waiter_other; eauto.
  - rewrite Hq, Ho. intros H1 H2. destruct (Hstr H1 H2) as [u Hu]. exists u. rewrite Hat.
    case_decide; subst; auto.
  - rewrite Hq, Hn. done.
  - by rewrite Hq.
  - rewrite Hat. by rewrite decide_False.
Qed.

(** The holder of the spin lock sets [_owner] from null or itself and releases
    the spin lock. *)
Lemma ok_set_owner t p o g s s' :
  mutex_okg (Some t) g s → t ≠ 0 →
  m_owner s = 0 ∨ m_owner s = t → m_owner s' = o → m_waitqueue s' = m_waitqueue s →
  m_next s' = m_next s → m_spin s' = false →
  (∀ t', at_pc s' t' = if decide (t' = t) then p else at_pc s t') →
  plain (at_pc s t) = true → p = MIdle ∨ p = MOwner ∧ o = t →
  (m_waitqueue s ≠ [] → o ≠ 0) →
  mutex_okg None g s'.
Proof.
  intros [Hspin Htask Hwait Hstr Hfresh Hnd Hnull] Ht Hold Ho Hq Hn Hs' Hat Hpl Hp Hq0.
  constructor.
  - done.
  - intros t'. rewrite Hat. case_decide as Heq.
    + subst t'. destruct Hp as [-> | [-> ->]]; by split.
    + destruct (Htask t') as [Hht Hrest]. unfold task_ok. rewrite Ho, Hq.
      split; [rewrite Hht; split; congruence|].
      assert (at_pc s t' = MOwner ∨ at_pc s t' = UWake → False) as Hno.
      { intros H. assert (m_owner s = t') as E
          by (destruct H as [H|H]; rewrite H in Hrest; [done|apply Hrest]).
        destruct Hold as [H0|H0]; [|congruence].
        rewrite <- E, H0, Hnull in H. by destruct H. }
      destruct (at_pc s t'); try done; exfalso; auto.
  - rewrite Hq. intros id w Hin. eapply waiter_other; eauto.
  - rewrite Hq, Ho. intros H1 H2. by destruct (Hq0 H1).
  - rewrite Hq, Hn. done.
  - by rewrite Hq.
  - rewrite Hat. by rewrite decide_False.
Qed.

Lemma elem_of_set_waiter id v s j w :
  (j, w) ∈ m_waitqueue (set_waiter id v s) →
  (j = id ∧ w = v) ∨ (j ≠ id ∧ (j, w) ∈ m_waitqueue s).
Proof.
  unfold set_waiter, set_waitqueue. simpl. intros H.
  apply list_elem_of_fmap_1 in H as ([i x] & Hx & Hin). simpl in Hx.
  destruct (decide (i = id)) as [->|Hne].
  - rewrite bool_decide_true in Hx by done. left. by simplify_eq.
  - rewrite bool_decide_false in Hx by done. right. by simplify_eq.
Qed.

Lemma elem_of_set_waiter_ne id v s j w :
  j ≠ id → (j, w) ∈ m_waitqueue s → (j, w) ∈ m_waitqueue (set_waiter id v s).
Proof.
  intros Hne Hin. unfold set_waiter, set_waitqueue. simpl. apply list_elem_of_fmap.
  exists (j, w). simpl. by rewrite bool_decide_false.
Qed.

Lemma elem_of_set_waiter_eq id v s w :
  (id, w) ∈ m_waitqueue s → (id, v) ∈ m_waitqueue (set_waiter id v s).
Proof.
  intros Hin. unfold set_waiter, set_waitqueue. simpl. apply list_elem_of_fmap.
  exists (id, w). simpl. by rewrite bool_decide_true.
Qed.

Lemma set_waiter_ids id v s : (m_waitqueue (set_waiter id v s)).*1 = (m_waitqueue s).*1.
Proof.
  unfold set_waiter, set_waitqueue. simpl. rewrite <- list_fmap_compose.
  apply list_fmap_ext. intros i x Hx. simpl. by case_bool_decide.
Qed.

(** [park]: the waiter goes from fresh to taken, from taken to waiting. *)
Lemma ok_park t id v v' h g s :
  mutex_okg h g s → t ≠ 0 →
  (id, v) ∈ m_waitqueue s → (v = Fresh → g id = t) → (v ≠ Fresh → v = Taken t) →
  (at_pc s t = LPark id ∧ v = Fresh ∧ v' = Taken t ∨
   at_pc s t = LWait id ∧ v = Taken t ∧ v' = Waiting t) →
  mutex_okg h g (goto t (match v' with Waiting _ => LParked id | _ => LWait id end)
                   (set_waiter id v' s)).
Proof.
  intros Hok Ht Hin Hfr Hnfr Hcase.
  destruct Hok as [Hspin Htask Hwait Hstr Hfresh Hnd Hnull].
  set (p := match v' with Waiting _ => LParked id | _ => LWait id end).
  assert (∀ t', at_pc (goto t p (set_waiter id v' s)) t' = if decide (t' = t) then p else at_pc s t')
    as Hat by (intros; by rewrite at_goto).
  assert (waiter_ok g s id v) as Hv by auto.
  constructor.
  - done.
  - intros t'. rewrite Hat. case_decide as Heq.
    + subst t'. destruct (Htask t) as [Hht _]. unfold task_ok, p.
      destruct Hcase as [(Hpc & -> & ->)|(Hpc & -> & ->)]; rewrite Hpc in Hht;
        (split; [done|by eapply elem_of_set_waiter_eq]).
    + destruct (Htask t') as [Hht Hrest]. split; [done|].
      assert (∀ j w, (j, w) ∈ m_waitqueue s → j ≠ id ∨ w = v) as Hq.
      { intros j w Hjw. destruct (decide (j = id)) as [->|]; [right|by left].
        by eapply waiter_unique. }
      destruct (at_pc s t') as [| | | |j|j|j| | | | |] eqn:Epc; try done.
      * destruct Hrest as [Hj Hg]. split; [|done].
        apply elem_of_set_waiter_ne; [|done]. intros ->.
        destruct (Hq _ _ Hj) as [|Hv']; [done|]. apply Heq. rewrite <- Hg. auto.
      * apply elem_of_set_waiter_ne; [|done]. intros ->.
        destruct (Hq _ _ Hrest) as [|Hv']; [done|]. rewrite <- Hv' in Hnfr.
        assert (Taken t' = Taken t) by (by apply Hnfr). congruence.
      * apply elem_of_set_waiter_ne; [|done]. intros ->.
        destruct (Hq _ _ Hrest) as [|Hv']; [done|]. rewrite <- Hv' in Hnfr.
        assert (Waiting t' = Taken t) by (by apply Hnfr). congruence.
      * destruct Hrest as [Hown Hne]. split; [done|]. intros E. apply Hne.
        change (m_waitqueue (set_waiter id v' s) = []) in E.
        apply (fmap_nil_inv fst). rewrite <- (set_waiter_ids id v'). by rewrite E.
  - intros j w Hj. apply elem_of_set_waiter in Hj as [[-> ->]|[Hne Hj]].
    + unfold waiter_ok. destruct Hcase as [(_ & _ & ->)|(_ & _ & ->)]; by rewrite at_goto_eq.
    + pose proof (Hwait _ _ Hj) as Hw. unfold waiter_ok in *.
      destruct w as [|u|u]; rewrite Hat; case_decide as Heq; try done; subst;
        destruct Hcase as [(Hpc & _)|(Hpc & _)]; congruence.
  - intros Hq Ho. destruct Hstr as [u Hu]; [|done|].
    + intros E. rewrite E in Hin. by apply elem_of_nil in Hin.
    + exists u. rewrite Hat. case_decide; [subst u|done]. unfold about_to_lock in Hu.
      destruct Hcase as [(Hpc & _)|(Hpc & _)]; destruct Hu; congruence.
  - intros j w Hj. apply elem_of_set_waiter in Hj as [[-> ->]|[Hne Hj]]; eauto.
  - change (NoDup (m_waitqueue (set_waiter id v' s)).*1). by rewrite set_waiter_ids.
  - rewrite Hat. by rewrite decide_False.
Qed.

(** The slow path of [lock()]: the caller enqueues a waiter and releases the
    spin lock. *)
Lemma ok_enqueue t g s s' :
  mutex_okg (Some t) g s → t ≠ 0 → plain (at_pc s t) = true →
  m_owner s ≠ 0 → m_owner s' = m_owner s →
  m_waitqueue s' = m_waitqueue s ++ [(m_next s, Fresh)] → m_next s' = S (m_next s) →
  m_spin s' = false →
  (∀ t', at_pc s' t' = if decide (t' = t) then LPark (m_next s) else at_pc s t') →
  mutex_okg None (λ id, if decide (id = m_next s) then t else g id) s'.
Proof.
  intros [Hspin Htask Hwait Hstr Hfresh Hnd Hnull] Ht Hpl Hown Ho Hq Hn Hs' Hat.
  assert (∀ id w, (id, w) ∈ m_waitqueue s → id ≠ m_next s) as Hne.
  { intros id w Hin ->. apply Hfresh in Hin. lia. }
  constructor.
  - done.
  - intros t'. rewrite Hat. case_decide as Heq.
    + subst t'. split; [done|]. rewrite Hq, decide_True by done. split; [|done].
      apply elem_of_app. right. by apply list_elem_of_singleton.
    + destruct (Htask t') as [Hht Hrest]. unfold task_ok. rewrite Ho, Hq.
      split; [rewrite Hht; split; congruence|].
      destruct (at_pc s t') as [| | | |j|j|j| | | | |] eqn:Epc; try done.
      * destruct Hrest as [Hj Hg]. rewrite decide_False by eauto.
        split; [|done]. apply elem_of_app. by left.
      * apply elem_of_app. by left.
      * apply elem_of_app. by left.
      * split; [apply Hrest|]. intros E. by apply app_nil in E as [].
  - rewrite Hq. intros id w Hin. apply elem_of_app in Hin as [Hin|Hin].
    + pose proof (waiter_other t _ g s s' id w Hpl Hat (Hwait _ _ Hin)) as Hw.
      unfold waiter_ok in *. rewrite decide_False by eauto. apply Hw.
    + apply list_elem_of_singleton in Hin. simplify_eq. unfold waiter_ok.
      rewrite decide_True by done. rewrite Hat. by rewrite decide_True.
  - rewrite Ho. done.
  - rewrite Hq, Hn. intros id w Hin. apply elem_of_app in Hin as [Hin|Hin].
    + apply Hfresh in Hin. lia.
    + apply list_elem_of_singleton in Hin. simplify_eq. lia.
  - rewrite Hq, fmap_app. apply NoDup_app. split; [done|]. split; [|apply NoDup_singleton].
    intros id Hin Hid. apply list_elem_of_singleton in Hid. simpl in Hid.
    apply list_elem_of_fmap in Hin as ([j w] & Hj & Hin). apply Hne in Hin. simpl in Hj. congruence.
  - rewrite Hat. by rewrite decide_False.
Qed.

(** The slow path of [unlock()]: the front waiter is unparked and removed. *)
Lemma ok_wake t u id q g s s' :
  mutex_okg (Some t) g s → t ≠ 0 → at_pc s t = UWake →
  m_waitqueue s = (id, Waiting u) :: q →
  m_owner s' = 0 → m_waitqueue s' = q → m_next s' = m_next s → m_spin s' = false →
  (∀ t', at_pc s' t' = if decide (t' = t) then MIdle
                       else if decide (t' = u) then LRelock else at_pc s t') →
  mutex_okg None g s'.
Proof.
  intros [Hspin Htask Hwait Hstr Hfresh Hnd Hnull] Ht Hpc Hq Ho Hq' Hn Hs' Hat.
  rewrite Hq in *. apply NoDup_cons in Hnd as Hnd'. destruct Hnd' as [Hid Hnd'].
  assert (at_pc s u = LParked id) as Hu by (apply (Hwait id (Waiting u)), list_elem_of_here).
  assert (u ≠ t ∧ u ≠ 0) as [Hut Hu0] by (split; intros ->; congruence).
  assert (∀ j w, (j, w) ∈ (id, Waiting u) :: q → w ≠ Waiting u → (j, w) ∈ q) as Htail.
  { intros j w Hin Hw. apply elem_of_cons in Hin as [Hin|Hin]; [|done]. congruence. }
  assert (∀ j w, (j, w) ∈ q → j ≠ id) as Hnid.
  { intros j w Hin ->. apply Hid. by apply (list_elem_of_fmap_2 fst) in Hin. }
  pose proof (Htask t) as Htt. rewrite Hpc in Htt. destruct Htt as [_ [Hown _]].
  constructor.
  - done.
  - intros t'. rewrite Hat. destruct (decide (t' = t)) as [->|Hne]; [by split|].
    destruct (decide (t' = u)) as [->|Hneu]; [by split|].
    destruct (Htask t') as [Hht Hrest]. unfold task_ok. rewrite Ho, Hq'. rewrite Hq in Hrest.
    split; [rewrite Hht; split; congruence|].
    destruct (at_pc s t') as [| | | |j|j|j| | | | |] eqn:Epc; try done; try congruence.
    + destruct Hrest as [Hj Hg]. split; [by apply Htail|done].
    + by apply Htail.
    + apply Htail; [done|congruence].
    + destruct Hrest. congruence.
  - rewrite Hq'. intros j w Hin. pose proof (Hnid _ _ Hin) as Hj.
    assert (waiter_ok g s j w) as Hw by (apply Hwait; by apply list_elem_of_further).
    unfold waiter_ok in *. destruct w as [|v|v]; rewrite Hat;
      (rewrite decide_False by congruence); (rewrite decide_False by congruence); done.
  - intros _ _. exists u. left. rewrite Hat.
    rewrite decide_False by done. by rewrite decide_True.
  - rewrite Hq', Hn. intros j w Hin. apply (Hfresh j w). by apply list_elem_of_further.
  - by rewrite Hq'.
  - rewrite Hat. rewrite decide_False by done. by rewrite decide_False.
Qed.

(** A holder of the spin lock is the [h] of the invariant. *)
Lemma holder_is h g s t : mutex_okg h g s → holds_spin (at_pc s t) = true → h = Some t.
Proof. intros Hok H. by apply (mo_task _ _ _ Hok t). Qed.

Lemma spin_free h g s : mutex_okg h g s → m_spin s = false → h = None.
Proof.
  intros Hok Hs. pose proof (mo_spin _ _ _ Hok) as H. rewrite Hs in H.
  destruct h; [|done]. by rewrite bool_decide_true in H.
Qed.

(** Taking the free spin lock, from any of the three places that wait for it. *)
Lemma ok_acquire t p h g s s' :
  mutex_okg h g s → t ≠ 0 → m_spin s = false → same_data s s' → m_spin s' = true →
  (∀ t', at_pc s' t' = if decide (t' = t) then p else at_pc s t') →
  (at_pc s t = LSpin ∨ at_pc s t = LRelock) ∧ p = LTest ∨ at_pc s t = USpin ∧ p = UTest →
  mutex_okg (Some t) g s'.
Proof.
  intros Hok Ht Hs Hsd Hs' Hat Hcase. pose proof (spin_free _ _ _ Hok Hs) as ->.
  assert (plain (at_pc s t) = true ∧ holds_spin p = true ∧ (p = LTest ∨ p = UTest)
          ∧ (about_to_lock (at_pc s t) → about_to_lock p)) as (H1 & H2 & H3 & H4).
  { unfold about_to_lock. destruct Hcase as [[[-> | ->] ->]|[-> ->]]; repeat split; auto.
    intros [?|?]; congruence. }
  eapply (ok_plain t p None); eauto.
  - by destruct H3 as [-> | ->].
  - done.
  - destruct H3 as [-> | ->]; intros []; done.
  - by destruct H3 as [-> | ->].
Qed.

Lemma lock_test_ok t h g s :
  mutex_okg h g s → t ≠ 0 → at_pc s t = LTest → mutex_ok (lock_test t s).
Proof.
  intros Hok Ht Hpc.
  assert (h = Some t) as -> by (eapply holder_is; [done|by rewrite Hpc]).
  unfold lock_test. case_bool_decide as Ho.
  - eexists None, _. eapply (ok_enqueue t g s); try done.
    + by rewrite Hpc.
    + intros t'. by rewrite at_goto.
  - exists None, g. eapply (ok_set_owner t MOwner t g s); try done.
    + by left.
    + intros t'. by rewrite at_goto.
    + by rewrite Hpc.
    + by right.
Qed.

Lemma unlock_test_ok t h g s :
  mutex_okg h g s → t ≠ 0 → at_pc s t = UTest → mutex_ok (unlock_test t s).
Proof.
  intros Hok Ht Hpc.
  assert (h = Some t) as -> by (eapply holder_is; [done|by rewrite Hpc]).
  unfold unlock_test. case_bool_decide as Ho.
  - exists None, g. eapply (ok_plain t MThrew); try done.
    + intros t'. by rewrite at_goto.
    + by rewrite Hpc.
    + right. auto.
    + by intros [].
    + rewrite Hpc. by intros [].
  - destruct (m_waitqueue s) as [|e q] eqn:Eq.
    + exists None, g. eapply (ok_set_owner t MIdle 0 g s); try done.
      * by right.
      * intros t'. by rewrite at_goto.
      * by rewrite Hpc.
      * by left.
    + exists (Some t), g. eapply (ok_plain t UWake); try done.
      * intros t'. by rewrite at_goto.
      * by rewrite Hpc.
      * apply (mo_spin _ _ _ Hok).
      * by left.
      * intros _. by rewrite Eq.
      * rewrite Hpc. by intros [].
Qed.

Lemma wake_ok t h g s s' :
  mutex_okg h g s → t ≠ 0 → at_pc s t = UWake → mstep t s = Some s' → mutex_ok s'.
Proof.
  intros Hok Ht Hpc. unfold mstep. rewrite Hpc.
  assert (h = Some t) as -> by (eapply holder_is; [done|by rewrite Hpc]).
  destruct (m_waitqueue s) as [|[id [|u|u]] q] eqn:Eq; intros [= <-];
    try (by exists (Some t), g).
  exists None, g. eapply (ok_wake t u id q g s); try done.
  intros t'. by rewrite !at_goto.
Qed.

Lemma mstep_ok t s s' : mutex_ok s → t ≠ 0 → mstep t s = Some s' → mutex_ok s'.
Proof.
  intros (h & g & Hok) Ht Hs. pose proof Hs as Hs0. unfold mstep in Hs.
  pose proof (mo_task _ _ _ Hok t) as [_ Htask].
  destruct (at_pc s t) as [| | | |id|id|id| | | | |] eqn:Hpc; try done.
  - destruct (m_spin s) eqn:Es; simplify_eq; [by exists h, g|].
    exists (Some t), g. eapply (ok_acquire t LTest h); eauto; try done.
    intros t'. by rewrite at_goto.
  - simplify_eq. by eapply lock_test_ok.
  - simplify_eq. destruct Htask as [Hin Hg]. exists h, g.
    apply (ok_park t id Fresh (Taken t)); auto. by intros.
  - simplify_eq. exists h, g. apply (ok_park t id (Taken t) (Waiting t)); auto. by intros.
  - destruct (m_spin s) eqn:Es; simplify_eq; [by exists h, g|].
    exists (Some t), g. eapply (ok_acquire t LTest h); eauto; try done.
    intros t'. by rewrite at_goto.
  - destruct (m_spin s) eqn:Es; simplify_eq; [by exists h, g|].
    exists (Some t), g. eapply (ok_acquire t UTest h); eauto; try done.
    intros t'. by rewrite at_goto.
  - simplify_eq. by eapply unlock_test_ok.
  - by eapply wake_ok.
Qed.

(** A call starts outside of any other. *)
Lemma mcall_ok t p s :
  mutex_ok s → t ≠ 0 → at_pc s t = MIdle ∨ at_pc s t = MThrew ∨ at_pc s t = MOwner →
  p = LSpin ∨ p = USpin → mutex_ok (goto t p s).
Proof.
  intros (h & g & Hok) Ht Hold Hp. pose proof (mo_task _ _ _ Hok t) as [Hh _].
  exists h, g. eapply (ok_plain t p h); eauto.
  - done.
  - intros t'. by rewrite at_goto.
  - by destruct Hold as [-> | [-> | ->]].
  - by destruct Hp as [-> | ->].
  - apply (mo_spin _ _ _ Hok).
  - rewrite <- Hh. destruct Hold as [-> | [-> | ->]], Hp as [-> | ->]; done.
  - destruct Hp as [-> | ->]; by intros [].
  - by destruct Hp as [-> | ->].
  - unfold about_to_lock. destruct Hold as [-> | [-> | ->]]; intros []; done.
Qed.

Lemma mact_ok e s : mutex_ok s → event_task e ≠ 0 → mutex_ok (mact e s).
Proof.
  intros Hok. destruct e as [t|t|t]; simpl; intros Ht.
  - destruct (mstep t s) as [s'|] eqn:E; simpl; [by eapply mstep_ok|done].
  - destruct (at_pc s t) eqn:E; try done; apply mcall_ok; rewrite ?E; auto.
  - destruct (at_pc s t) eqn:E; try done; apply mcall_ok; rewrite ?E; auto.
Qed.

Lemma macts_ok es s :
  mutex_ok s → Forall (λ e, event_task e ≠ 0) es → mutex_ok (macts es s).
Proof.
  intros Hok H. revert s Hok. induction H as [|e es He _ IH]; intros s Hok; [done|].
  apply IH. by apply mact_ok.
Qed.

Lemma reachable_ok es :
  Forall (λ e, event_task e ≠ 0) es → mutex_ok (macts es mutex_init).
Proof. apply macts_ok, mutex_init_ok. Qed.

(** ** What the mutex promises *)

(** Mutual exclusion and no stranded waiter, for every interleaving of
    any number of tasks: two tasks whose [lock()] has returned are the same
    task, and it is [_owner]; a task parked by [lock()] has its waiter in the
    queue, and while the queue has waiters there is an owner, or a woken task
    that takes the mutex when it runs. *)
Theorem mutex_excludes es :
  Forall (λ e, event_task e ≠ 0) es →
  let s := macts es mutex_init in
  (∀ t1 t2, at_pc s t1 = MOwner → at_pc s t2 = MOwner → t1 = t2 ∧ m_owner s = t1) ∧
  (∀ t id, at_pc s t = LParked id → (id, Waiting t) ∈ m_waitqueue s) ∧
  (m_waitqueue s ≠ [] → m_owner s ≠ 0 ∨ ∃ t, about_to_lock (at_pc s t)).
Proof.
  intros Hes s. destruct (reachable_ok es Hes) as (h & g & Hok). fold s in Hok.
  split; [|split].
  - intros t1 t2 H1 H2. pose proof (mo_task _ _ _ Hok t1) as [_ Ht1].
    pose proof (mo_task _ _ _ Hok t2) as [_ Ht2]. rewrite H1 in Ht1. rewrite H2 in Ht2.
    split; congruence.
  - intros t id H. pose proof (mo_task _ _ _ Hok t) as [_ Ht]. by rewrite H in Ht.
  - intros Hq. destruct (decide (m_owner s = 0)) as [H0|H0]; [right|by left].
    by apply (mo_stranded _ _ _ Hok).
Qed.

Lemma set_waiter_front id v w q s :
  m_waitqueue s = (id, w) :: q → ∃ q', m_waitqueue (set_waiter id v s) = (id, v) :: q'.
Proof.
  intros Hq. unfold set_waiter, set_waitqueue. simpl. rewrite Hq. simpl.
  rewrite bool_decide_true by done. eauto.
Qed.

(** The front waiter's task makes one step of [park]. *)
Lemma front_parks t u id v v' q s :
  at_pc s t = UWake → m_waitqueue s = (id, v) :: q →
  at_pc s u = LPark id ∧ v' = Taken u ∨ at_pc s u = LWait id ∧ v' = Waiting u →
  let s' := mact (MStep u) s in
  at_pc s' t = UWake ∧ (∃ q', m_waitqueue s' = (id, v') :: q') ∧
  at_pc s' u = match v' with Waiting _ => LParked id | _ => LWait id end.
Proof.
  intros Ht Hq Hu. assert (t ≠ u) as Hne by (intros <-; destruct Hu as [[]|[]]; congruence).
  pose proof (set_waiter_front id v' v q s Hq) as Hf.
  unfold mact, mstep. destruct Hu as [[-> ->]|[-> ->]]; simpl;
    (split; [by rewrite at_goto_ne|split; [done|by rewrite at_goto_eq]]).
Qed.

(** The loop of [unlock()] when the front waiter is parked. *)
Lemma front_wakes t u id q s :
  at_pc s t = UWake → m_waitqueue s = (id, Waiting u) :: q → t ≠ u →
  let s' := mact (MStep t) s in
  at_pc s' t = MIdle ∧ at_pc s' u = LRelock ∧ m_owner s' = 0 ∧ m_spin s' = false.
Proof.
  intros Ht Hq Hne. unfold mact, mstep. rewrite Ht, Hq. simpl.
  rewrite at_goto_eq, at_goto_ne, at_goto_eq by done. done.
Qed.

Lemma wakes_from_taken t u id q s :
  at_pc s t = UWake → m_waitqueue s = (id, Taken u) :: q → at_pc s u = LWait id →
  let s' := macts [MStep u; MStep t] s in
  at_pc s' t = MIdle ∧ at_pc s' u = LRelock ∧ m_owner s' = 0 ∧ m_spin s' = false.
Proof.
  intros Ht Hq Hu.
  destruct (front_parks t u id (Taken u) (Waiting u) q s) as (Ht' & [q' Hq'] & Hu'); auto.
  apply (front_wakes t u id q'); [done|done|]. intros <-. congruence.
Qed.


(** A call with nobody else running reaches its test with the spin lock held. *)
Lemma unlock_runs t s :
  at_pc s t = MIdle ∨ at_pc s t = MOwner → m_spin s = false →
  macts [CallUnlock t; MStep t; MStep t] s = unlock_test t (goto t UTest (set_spin true s)).
Proof.
  intros Hpc Hs. unfold macts. cbn [foldl].
  assert (mact (CallUnlock t) s = goto t USpin s) as ->
    by (unfold mact; by destruct Hpc as [-> | ->]).
  unfold mact, mstep. rewrite at_goto_eq. simpl m_spin. rewrite Hs. cbn [default id from_option].
  rewrite at_goto_eq. simpl. unfold goto, set_spin. simpl. by rewrite insert_insert_eq.
Qed.

Lemma lock_runs t s :
  at_pc s t = MIdle ∨ at_pc s t = MOwner → m_spin s = false →
  macts [CallLock t; MStep t; MStep t] s = lock_test t (goto t LTest (set_spin true s)).
Proof.
  intros Hpc Hs. unfold macts. cbn [foldl].
  assert (mact (CallLock t) s = goto t LSpin s) as ->
    by (unfold mact; by destruct Hpc as [-> | ->]).
  unfold mact, mstep. rewrite at_goto_eq. simpl m_spin. rewrite Hs. cbn [default id from_option].
  rewrite at_goto_eq. simpl. unfold goto, set_spin. simpl. by rewrite insert_insert_eq.
Qed.

(** Where the spin lock is free, [unlock()] by a task that is not the
    owner throws and leaves the owner, the queue, the boosts and every other
    task as they were; a [lock()] of the free mutex returns with the caller as
    the owner, and its [unlock()] gives the mutex back. *)
Theorem lock_then_unlock t s :
  t ≠ 0 → at_pc s t = MIdle → m_spin s = false →
  (m_owner s ≠ t →
   macts [CallUnlock t; MStep t; MStep t] s = goto t MThrew s) ∧
  (m_owner s = 0 →
   let s1 := macts [CallLock t; MStep t; MStep t] s in
   at_pc s1 t = MOwner ∧ m_owner s1 = t ∧ m_spin s1 = false ∧
   m_waitqueue s1 = m_waitqueue s ∧ boost_of s1 t = m_boost s ∧
   (m_waitqueue s = [] →
    let s2 := macts [CallUnlock t; MStep t; MStep t] s1 in
    at_pc s2 t = MIdle ∧ m_owner s2 = 0 ∧ m_spin s2 = false)).
Proof.
  intros Ht Hpc Hs. split.
  - intros Ho. rewrite unlock_runs by auto. unfold unlock_test.
    rewrite bool_decide_true by done. unfold goto, set_spin. simpl.
    by rewrite insert_insert_eq, Hs.
  - intros Ho. cbv zeta. rewrite lock_runs by auto. unfold lock_test.
    rewrite bool_decide_false by (simpl; auto).
    split; [by rewrite at_goto_eq|]. repeat (split; [done|]).
    split; [unfold boost_of; simpl; by rewrite lookup_insert_eq|]. intros Hq.
    rewrite unlock_runs by (rewrite ?at_goto_eq; auto). unfold unlock_test.
    rewrite bool_decide_false by (simpl; auto). simpl. rewrite Hq.
    by rewrite at_goto_eq.
Qed.

(** Task 1 owns the mutex, task 2 parks on it, task 1 unlocks; task 3 locks and
    unlocks before task 2 has counted itself out; then task 2 locks and
    unlocks. *)
Definition barging : list mevent :=
  [CallLock 1; MStep 1; MStep 1] ++
  CallLock 2 :: replicate 4 (MStep 2) ++
  CallUnlock 1 :: replicate 3 (MStep 1) ++
  CallLock 3 :: replicate 2 (MStep 3) ++
  CallUnlock 3 :: replicate 2 (MStep 3) ++
  replicate 2 (MStep 2) ++
  CallUnlock 2 :: replicate 2 (MStep 2).

(** The boost of a task outlives its lock: after this run the mutex is
    free with no waiter and no boost of its own, every task is out of it, and
    task 3, which was never waited for, keeps a [priority_boost] of 1, because
    the fast path of [unlock()] does not reset it. *)
Theorem boost_outlives_lock :
  let s := macts barging mutex_init in
  m_owner s = 0 ∧ m_spin s = false ∧ m_waitqueue s = [] ∧ m_boost s = 0 ∧
  at_pc s 1 = MIdle ∧ at_pc s 2 = MIdle ∧ at_pc s 3 = MIdle ∧
  boost_of s 1 = 0 ∧ boost_of s 2 = 0 ∧ boost_of s 3 = 1.
Proof. vm_compute. by repeat split. Qed.
