(* ===== verification/WaiterClient.v ===== *)
(** * concur/internal/waiter_benchmark.cc: two contexts that hand over to each other

    [benchmark_waiter]: a background thread parks on a waiter, and it and the
    main thread pass the processor to each other with [swap()], until the main
    thread sets [done_flag], takes the background thread out with [unpark()]
    and joins it.

    The timer can preempt either thread between any two steps, so that a run is
    any interleaving of the steps of both; a step is one access to [_waiter],
    to a [run_state] or to [done_flag], or a critical section under the
    preemption lock.  A thread in [WAITING] does not run: its steps do nothing.
    A [yield()] that finds the thread runnable is no step of its own. *)

From S2P Require Import Prelude FairRounds.

Inductive party := Main | Bg.
#[global] Instance party_eq_dec : EqDecision party.
Proof. solve_decision. Defined.

(** Where a thread is in [while (!w.swap()) {}]; [parked] is the local of
    [swap()]. *)
Inductive spc :=
| SLoad                           (* parked = _waiter.load() *)
| STest (parked : option party)   (* parked == nullptr || run_state != WAITING *)
| SCas (parked : party)           (* compare_exchange_strong(parked, current) *)
| SSwitch (parked : party)        (* under the lock: WAITING; switch_to(parked) *)
| SParked.

(** Where a thread is in [while (!w.unpark()) {}]. *)
Inductive upc :=
| ULoad
| UTest (parked : option party)
| UCas (parked : party)           (* compare_exchange_strong(parked, nullptr) *)
| UWake (parked : party).         (* under the lock: SUSPENDED; schedule(parked) *)

(** The background thread. *)
Inductive bpc :=
| BParkCas                        (* park_if: compare_exchange_strong(nullptr, current) *)
| BParkWait                       (* current->run_state = WAITING *)
| BParked
| BTest                           (* while (!done_flag) *)
| BSwap (c : spc)
| BEnd.

(** The main thread; [k] rounds of the loop are to come. *)
Inductive mpc :=
| MLoop (k : nat)
| MSwap (k : nat) (c : spc)
| MSetDone                        (* done_flag = true *)
| MUnpark (c : upc)
| MJoin                           (* bg.join() *)
| MEnd.

Record bench := mkBench {
  b_cell : option party;          (* _waiter *)
  b_done : bool;                  (* done_flag *)
  b_main : mpc;
  b_bg : bpc;
  b_switches : nat                (* calls of switch_to, for the statements *)
}.

Definition set_cell (v : option party) (s : bench) : bench :=
  mkBench v (b_done s) (b_main s) (b_bg s) (b_switches s).
Definition set_done (s : bench) : bench :=
  mkBench (b_cell s) true (b_main s) (b_bg s) (b_switches s).
Definition set_main (p : mpc) (s : bench) : bench :=
  mkBench (b_cell s) (b_done s) p (b_bg s) (b_switches s).
Definition set_bg (p : bpc) (s : bench) : bench :=
  mkBench (b_cell s) (b_done s) (b_main s) p (b_switches s).
Definition count (s : bench) : bench :=
  mkBench (b_cell s) (b_done s) (b_main s) (b_bg s) (S (b_switches s)).

(** [run_state == WAITING]. *)
Definition waits (p : party) (s : bench) : bool :=
  match p with
  | Main => match b_main s with MSwap _ SParked => true | _ => false end
  | Bg => match b_bg s with BParked | BSwap SParked => true | _ => false end
  end.

(** The thread is made runnable: the call it is parked in returns true, and the
    loop around it ends. *)
Definition wakes (p : party) (s : bench) : bench :=
  match p with
  | Main => match b_main s with MSwap k SParked => set_main (MLoop k) s | _ => s end
  | Bg => match b_bg s with BParked | BSwap SParked => set_bg BTest s | _ => s end
  end.

Definition same (a b : party) : bool :=
  match a, b with Main, Main | Bg, Bg => true | _, _ => false end.

(** The test and the exchange of [swap()] and [unpark()]: whether [parked] is
    still the content of [_waiter]. *)
Definition holds (parked : party) (s : bench) : bool :=
  match b_cell s with Some q => same q parked | None => false end.

(** One step of [while (!w.swap()) {}] by [me], and where it then is. *)
Definition swap_step (me : party) (c : spc) (s : bench) : spc * bench :=
  match c with
  | SLoad => (STest (b_cell s), s)
  | STest None => (SLoad, s)
  | STest (Some q) => (if waits q s then SCas q else SLoad, s)
  | SCas q => if holds q s then (SSwitch q, set_cell (Some me) s) else (SLoad, s)
  | SSwitch q => (SParked, count (wakes q s))
  | SParked => (SParked, s)
  end.

(** One step of [while (!w.unpark()) {}]; nothing when the loop is over. *)
Definition unpark_step (c : upc) (s : bench) : option upc * bench :=
  match c with
  | ULoad => (Some (UTest (b_cell s)), s)
  | UTest None => (Some ULoad, s)
  | UTest (Some q) => (Some (if waits q s then UCas q else ULoad), s)
  | UCas q => if holds q s then (Some (UWake q), set_cell None s) else (Some ULoad, s)
  | UWake q => (None, wakes q s)
  end.

Definition bg_step (s : bench) : bench :=
  match b_bg s with
  | BParkCas =>
      match b_cell s with
      | None => set_bg BParkWait (set_cell (Some Bg) s)
      | Some _ => s
      end
  | BParkWait => set_bg BParked s
  | BTest => set_bg (if b_done s then BEnd else BSwap SLoad) s
  | BSwap c => let '(c', s') := swap_step Bg c s in set_bg (BSwap c') s'
  | BParked | BEnd => s
  end.

Definition main_step (s : bench) : bench :=
  match b_main s with
  | MLoop 0 => set_main MSetDone s
  | MLoop (S k) => set_main (MSwap k SLoad) s
  | MSwap k c => let '(c', s') := swap_step Main c s in set_main (MSwap k c') s'
  | MSetDone => set_main (MUnpark ULoad) (set_done s)
  | MUnpark c =>
      let '(c', s') := unpark_step c s in
      set_main (match c' with Some c' => MUnpark c' | None => MJoin end) s'
  | MJoin => match b_bg s with BEnd => set_main MEnd s | _ => s end
  | MEnd => s
  end.

Definition step (s : bench) (p : party) : bench :=
  match p with Main => main_step s | Bg => bg_step s end.

(** [benchmark_waiter] with [n] rounds. *)
Definition waiter_bench (n : nat) : bench := mkBench None false (MLoop n) BParkCas 0.

Example two_rounds :
  fold_left step (concat (replicate 60 [Main; Bg])) (waiter_bench 2) =
    mkBench None true MEnd BEnd 4.
Proof. reflexivity. Qed.

(** ** What holds at every step *)

(** The background thread has not parked yet, or is parked: as long as the main
    thread runs. *)
Definition bg_ready (s : bench) : Prop :=
  match b_bg s with
  | BParkCas => b_cell s = None
  | BParkWait | BParked | BSwap SParked => b_cell s = Some Bg
  | _ => False
  end.

Definition loaded (parked : option party) (s : bench) : Prop :=
  match parked with
  | None => True
  | Some q => q = Bg ∧ b_bg s ≠ BParkCas
  end.

Definition taken (parked : party) (s : bench) : Prop := parked = Bg ∧ waits Bg s = true.

(** The background thread runs and the main one is parked in [_waiter]. *)
Definition bg_runs (s : bench) : Prop :=
  match b_bg s with
  | BTest | BSwap SLoad | BSwap (STest (Some Main)) | BSwap (SCas Main) => b_cell s = Some Main
  | BSwap (SSwitch Main) => b_cell s = Some Bg
  | _ => False
  end.

Definition main_ok (n : nat) (s : bench) : Prop :=
  match b_main s with
  | MLoop k => bg_ready s ∧ (b_switches s + 2 * k = 2 * n)%nat
  | MSwap k SParked => bg_runs s ∧ (b_switches s + 2 * k + 1 = 2 * n)%nat
  | MSwap k c => (b_switches s + 2 * k + 2 = 2 * n)%nat ∧
      match c with
      | SLoad => bg_ready s
      | STest q => bg_ready s ∧ loaded q s
      | SCas q => bg_ready s ∧ taken q s
      | SSwitch q => b_cell s = Some Main ∧ taken q s
      | SParked => False
      end
  | MSetDone => bg_ready s ∧ b_switches s = (2 * n)%nat
  | MUnpark c => b_switches s = (2 * n)%nat ∧
      match c with
      | ULoad => bg_ready s
      | UTest q => bg_ready s ∧ loaded q s
      | UCas q => bg_ready s ∧ taken q s
      | UWake q => b_cell s = None ∧ taken q s
      end
  | MJoin => b_switches s = (2 * n)%nat ∧ b_cell s = None ∧
      match b_bg s with BTest | BEnd => True | _ => False end
  | MEnd => b_switches s = (2 * n)%nat ∧ b_cell s = None ∧ b_bg s = BEnd
  end.

Definition past_loop (s : bench) : bool :=
  match b_main s with MUnpark _ | MJoin | MEnd => true | _ => false end.

Definition bench_ok (n : nat) (s : bench) : Prop := b_done s = past_loop s ∧ main_ok n s.

Lemma bg_ready_inv s : bg_ready s →
  b_bg s = BParkCas ∧ b_cell s = None ∨ b_bg s = BParkWait ∧ b_cell s = Some Bg ∨
  b_bg s = BParked ∧ b_cell s = Some Bg ∨ b_bg s = BSwap SParked ∧ b_cell s = Some Bg.
Proof. unfold bg_ready. destruct (b_bg s) as [| | | |[]|]; tauto. Qed.

Lemma bg_runs_inv s : bg_runs s →
  b_bg s = BTest ∧ b_cell s = Some Main ∨ b_bg s = BSwap SLoad ∧ b_cell s = Some Main ∨
  b_bg s = BSwap (STest (Some Main)) ∧ b_cell s = Some Main ∨
  b_bg s = BSwap (SCas Main) ∧ b_cell s = Some Main ∨
  b_bg s = BSwap (SSwitch Main) ∧ b_cell s = Some Bg.
Proof. unfold bg_runs. destruct (b_bg s) as [| | | |[|[[]|]|[]|[]|]|]; tauto. Qed.

Lemma taken_inv q s : taken q s → q = Bg ∧ (b_bg s = BParked ∨ b_bg s = BSwap SParked).
Proof. unfold taken. cbn. destruct (b_bg s) as [| | | |[]|]; intros [??]; simplify_eq; auto. Qed.

(** Case analysis on the two program counters, along the invariant [H]. *)
Ltac bench_cases s H :=
  unfold bench_ok, main_ok, past_loop in H; destruct s as [cell dn m b sw];
  cbn [b_cell b_done b_main b_bg b_switches] in H;
  destruct m as [[|k]|k [|[q|]|q|q|]| |[|[q|]|q|q]| |];
  cbn beta iota in H; destruct_and?;
  repeat match goal with
  | H : bg_ready _ |- _ => apply bg_ready_inv in H; cbn in H
  | H : bg_runs _ |- _ => apply bg_runs_inv in H; cbn in H
  | H : taken _ _ |- _ => apply taken_inv in H; cbn in H
  | H : loaded _ _ |- _ => unfold loaded in H; cbn in H
  end;
  destruct_and?; destruct_or?; destruct_and?; simplify_eq/=;
  repeat match goal with H : match ?b with _ => _ end |- _ => destruct b; try contradiction end.

(** The pieces of the invariant again. *)
Ltac bench_split :=
  unfold bench_ok, main_ok, past_loop, bg_ready, bg_runs, taken, loaded; cbn; repeat split;
  try done; try lia.

Lemma step_ok n s p : bench_ok n s → bench_ok n (step s p).
Proof. intros H. destruct p; bench_cases s H; bench_split. Qed.

(** ** The way to the end *)

(** What the background thread still has to do until it waits or has ended. *)
Definition bg_left (s : bench) : nat :=
  match b_bg s with
  | BParkCas => 2 | BParkWait => 1
  | BTest => if b_done s then 1 else 10
  | BSwap SLoad => 9 | BSwap (STest _) => 8 | BSwap (SCas _) => 7 | BSwap (SSwitch _) => 6
  | BParked | BSwap SParked | BEnd => 0
  end.

(** Where the main thread is in a loop around [swap()] or [unpark()]; while the
    background thread is not parked it goes round in the loop. *)
Definition spin_left (at_waiting : nat) (s : bench) : nat :=
  if waits Bg s then at_waiting else 5.

Definition main_left (s : bench) : nat :=
  match b_main s with
  | MLoop k => 20 * k + 18
  | MSwap k SLoad => 20 * k + 32 + spin_left 3 s
  | MSwap k (STest None) => 20 * k + 32 + spin_left 4 s
  | MSwap k (STest (Some _)) => 20 * k + 32 + spin_left 2 s
  | MSwap k (SCas _) => 20 * k + 32 + spin_left 1 s
  | MSwap k (SSwitch _) => 20 * k + 30
  | MSwap k SParked => 20 * k + 19
  | MSetDone => 17
  | MUnpark ULoad => 10 + spin_left 3 s
  | MUnpark (UTest None) => 10 + spin_left 4 s
  | MUnpark (UTest (Some _)) => 10 + spin_left 2 s
  | MUnpark (UCas _) => 10 + spin_left 1 s
  | MUnpark (UWake _) => 9
  | MJoin => 1
  | MEnd => 0
  end.

Definition bench_left (s : bench) : nat := main_left s + bg_left s.
#[local] Arguments bench_left : simpl never.

(** Whose step brings the program on. *)
Definition due (s : bench) : party := if decide (bg_left s = 0%nat) then Main else Bg.

Lemma step_left n s p : bench_ok n s →
  (bench_left (step s p) < bench_left s)%nat ∨
  bench_left (step s p) = bench_left s ∧ due (step s p) = due s ∧
    (bench_left s = 0%nat ∨ due s ≠ p).
Proof.
  intros H. destruct p; bench_cases s H; unfold bench_left; cbn -[Nat.mul];
    first [left; lia|right; split_and!; [lia|done|auto]].
Qed.

Lemma waiter_start_ok n : bench_ok n (waiter_bench n).
Proof. repeat split. Qed.

Lemma left_le n s : bench_ok n s → (bench_left s ≤ 20 * n + 20)%nat.
Proof.
  intros H. bench_cases s H; unfold bench_left; cbn -[Nat.mul]; lia.
Qed.

Lemma left_0 n s : bench_ok n s → bench_left s = 0%nat →
  s = mkBench None true MEnd BEnd (2 * n).
Proof.
  intros H H0. bench_cases s H; unfold bench_left in H0; cbn -[Nat.mul] in H0; try done; lia.
Qed.

Lemma wake_waits n s q : bench_ok n s → b_main s = MUnpark (UWake q) → waits q s = true.
Proof. intros [_ Hm] Hq. unfold main_ok in Hm. rewrite Hq in Hm. by destruct Hm as (_ & _ & -> & ?). Qed.

(** C11.  The threads of the waiter benchmark hand over to each other and end.
    For any number [n] of rounds and after any interleaving [es] at all of the
    steps of the two threads, the benchmark is not stuck: [20 * n + 20] rounds
    in each of which both threads step, in any order and as often as may be,
    bring it to its end, with the waiter empty, [done_flag] set and the
    background thread joined, and the processor has been handed over exactly
    twice per round of the loop: no [park()], [swap()] or [unpark()] loses a
    wake-up or parks both.  And the assertion of [unpark()] holds: the thread it
    has taken out of the waiter and is about to schedule is WAITING. *)
Theorem waiter_bench_ends n es rs :
  Forall fair rs → (20 * n + 20 ≤ length rs)%nat →
  (∀ q, b_main (fold_left step es (waiter_bench n)) = MUnpark (UWake q) →
    waits q (fold_left step es (waiter_bench n)) = true) ∧
  fold_left step (es ++ concat rs) (waiter_bench n) = mkBench None true MEnd BEnd (2 * n).
Proof.
  intros Hf Hlen. rewrite fold_left_app.
  assert (bench_ok n (fold_left step es (waiter_bench n))) as Hs.
  { apply (steps_keep step (bench_ok n)); [apply step_ok|apply waiter_start_ok]. }
  split; [intros q; by apply (wake_waits n)|].
  destruct (fair_rounds step (bench_ok n) bench_left due) with (rs := rs)
    (s := fold_left step es (waiter_bench n)) as [Hok H0]; [..|by eapply left_0]; [| | |done..|].
  - apply step_ok.
  - intros s Hi H0. destruct (step_left n s (due s) Hi) as [?|(_ & _ & [?|?])]; [done..|].
    done.
  - intros s p Hi. destruct (step_left n s p Hi) as [?|(? & ? & _)]; auto.
  - pose proof (left_le n _ Hs). lia.
Qed.

(** Two rounds of the loop, after the main thread has spun for a while. *)
Lemma waiter_bench_ends_witness :
  (∀ q, b_main (fold_left step (replicate 7 Main) (waiter_bench 2)) = MUnpark (UWake q) →
    waits q (fold_left step (replicate 7 Main) (waiter_bench 2)) = true) ∧
  fold_left step (replicate 7 Main ++ concat (replicate 60 [Bg; Main; Main])) (waiter_bench 2) =
    mkBench None true MEnd BEnd 4.
Proof.
  apply (waiter_bench_ends 2 (replicate 7 Main) (replicate 60 [Bg; Main; Main])).
  - apply Forall_replicate. intros []; rewrite !elem_of_cons; auto.
  - rewrite length_replicate. lia.
Defined.
