(* ===== verification/MutexRefine.v ===== *)
(** * The mutex implements a lock

    The abstract lock is its owner alone: it is acquired when free, released by
    its owner, and refuses to be released by anybody else.  The queue of waiters,
    the spin lock and the boosts of the mutex are invisible in it. *)

From S2P Require Import Prelude Mutex.

Inductive mlabel := Acquire (t : Z) | Release (t : Z) | Refuse (t : Z).

(** The lock is free when its owner is 0. *)
Inductive lock_step : Z → mlabel → Z → Prop :=
| lk_acquire t : t ≠ 0 → lock_step 0 (Acquire t) t
| lk_release t : t ≠ 0 → lock_step t (Release t) 0
| lk_refuse t o : o ≠ t → lock_step o (Refuse t) o.

Inductive lock_steps : Z → list mlabel → Z → Prop :=
| lks_nil o : lock_steps o [] o
| lks_cons o l o' ls o'' : lock_step o l o' → lock_steps o' ls o'' → lock_steps o (l :: ls) o''.

(** What an event does to the lock. *)
Definition mutex_label (e : mevent) (s : mutex) : list mlabel :=
  match e with
  | MStep t =>
      match at_pc s t with
      | LTest => if bool_decide (m_owner s ≠ 0) then [] else [Acquire t]
      | UTest => if bool_decide (m_owner s ≠ t) then [Refuse t]
                 else match m_waitqueue s with [] => [Release t] | _ => [] end
      | UWake => match m_waitqueue s with (_, Waiting _) :: _ => [Release t] | _ => [] end
      | _ => []
      end
  | _ => []
  end.

(** The trace of a run. *)
Fixpoint mutex_trace (es : list mevent) (s : mutex) : list mlabel :=
  match es with
  | [] => []
  | e :: es' => mutex_label e s ++ mutex_trace es' (mact e s)
  end.

Lemma lock_steps_one o l o' : lock_step o l o' → lock_steps o [l] o'.
Proof. intros H. econstructor; [done|constructor]. Qed.

Lemma lock_steps_app o ls o' ls' o'' :
  lock_steps o ls o' → lock_steps o' ls' o'' → lock_steps o (ls ++ ls') o''.
Proof. induction 1; [done|]. simpl. econstructor; eauto. Qed.

Lemma mact_owner e s :
  mutex_ok s → event_task e ≠ 0 → lock_steps (m_owner s) (mutex_label e s) (m_owner (mact e s)).
Proof.
  intros (h & g & Hok) He. destruct e as [t|t|t]; simpl in *.
  - unfold mstep. pose proof (mo_task _ _ _ Hok t) as [_ Ht]. destruct (at_pc s t); simpl; try constructor.
    + destruct (m_spin s); constructor.
    + unfold lock_test. case_bool_decide as Ho; [constructor|].
      rewrite Ho. apply lock_steps_one. by constructor.
    + destruct (m_spin s); constructor.
    + destruct (m_spin s); constructor.
    + unfold unlock_test. case_bool_decide as Ho; [by apply lock_steps_one; constructor|].
      destruct (m_waitqueue s); [|constructor].
      rewrite Ho. apply lock_steps_one. by constructor.
    + destruct Ht as [Ho _]. destruct (m_waitqueue s) as [|[id []] q]; [constructor..|].
      rewrite Ho. apply lock_steps_one. by constructor.
  - destruct (at_pc s t); constructor.
  - destruct (at_pc s t); constructor.
Qed.

(** C10.  The mutex implements the abstract lock: for every interleaving of any
    number of tasks in [lock()] and [unlock()], what happens to [_owner] is a
    run of the lock, in which every acquisition finds it free and every release
    is made by its owner, and an [unlock()] by anybody else is refused. *)
Theorem mutex_refines_lock es :
  Forall (λ e, event_task e ≠ 0) es →
  lock_steps 0 (mutex_trace es mutex_init) (m_owner (macts es mutex_init)).
Proof.
  intros Hes. change 0 with (m_owner mutex_init). pose proof mutex_init_ok as Hok. revert Hok.
  generalize mutex_init as s. induction Hes as [|e es He _ IH]; intros s Hok; [constructor|].
  simpl. eapply lock_steps_app; [by apply mact_owner|]. by apply IH, mact_ok.
Qed.
