(* ===== verification/MutexClient.v ===== *)
(** * concur/mutex_benchmark.cc: a mailbox guarded by a mutex

    Two tasks hand numbers over through [mail] and [mail_flag], which are plain
    variables: each is only touched with the mutex held.  The program aborts
    when a number is not the expected one. *)

From S2P Require Import Prelude Mutex.

#[global] Instance mpc_eq_dec : EqDecision mpc.
Proof. solve_decision. Defined.

(** ** A user of the mutex *)

(** Outside of it, inside [lock()], between [lock()] and [unlock()], or inside
    [unlock()]. *)
Inductive phase := Out | Locking | Inside | Unlocking.

Definition locking (p : mpc) : bool :=
  match p with
  | LSpin | LTest | LPark _ | LWait _ | LParked _ | LRelock | MOwner => true
  | _ => false
  end.
Definition unlocking (p : mpc) : bool := match p with USpin | UTest | UWake => true | _ => false end.

(** Where the mutex sees the user [t]; [lock()] and [unlock()] may have come to
    their end. *)
Definition user_ok (s : mutex) (t : Z) (ph : phase) : Prop :=
  match ph with
  | Out => at_pc s t = MIdle
  | Locking => locking (at_pc s t) = true
  | Inside => at_pc s t = MOwner
  | Unlocking => at_pc s t = MIdle ∨ unlocking (at_pc s t) = true ∧ m_owner s = t
  end.

Lemma user_calls_lock s t : user_ok s t Out → user_ok (mact (CallLock t) s) t Locking.
Proof. simpl. intros H. by rewrite H, at_goto_eq. Qed.

Lemma user_calls_unlock s t :
  mutex_ok s → user_ok s t Inside → user_ok (mact (CallUnlock t) s) t Unlocking.
Proof.
  simpl. intros (h & g & Hok) H. pose proof (mo_task _ _ _ Hok t) as [_ Ht]. rewrite H in *.
  right. by rewrite at_goto_eq.
Qed.

Lemma user_locks s t :
  user_ok s t Locking → at_pc s t ≠ MOwner → user_ok (mact (MStep t) s) t Locking.
Proof.
  simpl. unfold mstep. destruct (at_pc s t) eqn:E; try done; intros _ _; simpl.
  - destruct (m_spin s); [by rewrite E|by rewrite at_goto_eq].
  - unfold lock_test. case_bool_decide; by rewrite at_goto_eq.
  - by rewrite at_goto_eq.
  - by rewrite at_goto_eq.
  - by rewrite E.
  - destruct (m_spin s); [by rewrite E|by rewrite at_goto_eq].
Qed.

Lemma user_unlocks s t :
  t ≠ 0 → user_ok s t Unlocking → at_pc s t ≠ MIdle → user_ok (mact (MStep t) s) t Unlocking.
Proof.
  simpl. intros Ht [?|[Hu Ho]] Hne; [done|]. unfold mstep. destruct (at_pc s t) eqn:E; try done; simpl.
  - destruct (m_spin s); [right; by rewrite E|right; by rewrite at_goto_eq].
  - unfold unlock_test. rewrite bool_decide_false by (by intros []). destruct (m_waitqueue s).
    + left. by rewrite at_goto_eq.
    + right. by rewrite at_goto_eq.
  - destruct (m_waitqueue s) as [|[id []] q]; try (right; by rewrite E). left. by rewrite at_goto_eq.
Qed.

(** The events of the others: nobody takes the mutex from its owner, *)
Lemma owner_undisturbed s e :
  mutex_ok s → m_owner s ≠ 0 → event_task e ≠ m_owner s → m_owner (mact e s) = m_owner s.
Proof.
  intros (h & g & Hok) Ho He. destruct e as [t'|t'|t']; simpl in *; [|by destruct (at_pc s t')..].
  pose proof (mo_task _ _ _ Hok t') as [_ Ht']. unfold mstep.
  destruct (at_pc s t'); simpl; try done; try (by destruct (m_spin s)).
  - unfold lock_test. by rewrite bool_decide_true.
  - unfold unlock_test. by rewrite bool_decide_true by congruence.
  - destruct Ht' as [Ht' _]. congruence.
Qed.

(** and a user that is parked may be woken. *)
Lemma place_undisturbed s t e :
  mutex_ok s → event_task e ≠ t →
  at_pc (mact e s) t = at_pc s t ∨ (∃ id, at_pc s t = LParked id) ∧ at_pc (mact e s) t = LRelock.
Proof.
  intros (h & g & Hok) He. destruct e as [t'|t'|t']; simpl in *.
  2, 3: left; destruct (at_pc s t'); rewrite ?at_goto_ne by done; done.
  unfold mstep. destruct (at_pc s t'); simpl; try (by left);
    try (left; destruct (m_spin s); rewrite ?at_goto_ne by done; done);
    try (left; rewrite at_goto_ne by done; done).
  - left. unfold lock_test. case_bool_decide; by rewrite at_goto_ne.
  - left. unfold unlock_test. case_bool_decide; [by rewrite at_goto_ne|].
    destruct (m_waitqueue s); by rewrite at_goto_ne.
  - destruct (m_waitqueue s) as [|[id [|u|u]] q] eqn:Eq; [by left..|].
    rewrite at_goto_ne by done. destruct (decide (t = u)) as [->|Hne].
    + right. rewrite at_goto_eq. split; [|done]. exists id.
      apply (mo_waiter _ _ _ Hok id (Waiting u)). rewrite Eq. left.
    + left. by rewrite at_goto_ne.
Qed.

Lemma user_undisturbed s t e ph :
  mutex_ok s → t ≠ 0 → event_task e ≠ t → user_ok s t ph → user_ok (mact e s) t ph.
Proof.
  intros Hok Ht He Hu. destruct (place_undisturbed s t e Hok He) as [Hpc|[[id Hpk] Hpc]];
    destruct ph; simpl in *; rewrite Hpc; try done; try congruence.
  - destruct Hu as [?|[? Ho]]; [by left|right]. split; [done|].
    rewrite owner_undisturbed; [done|done|congruence|congruence].
  - rewrite Hpk in Hu. by destruct Hu as [?|[? _]].
Qed.

(** Two users are not inside at the same time. *)
Lemma users_exclude s t u : mutex_ok s → user_ok s t Inside → user_ok s u Inside → t = u.
Proof.
  intros (h & g & Hok) Ht Hu. simpl in *.
  pose proof (mo_task _ _ _ Hok t) as [_ H1]. pose proof (mo_task _ _ _ Hok u) as [_ H2].
  rewrite Ht in H1. rewrite Hu in H2. congruence.
Qed.

(** ** The mailbox *)

(** Where the writer is, *)
Inductive wplace :=
| WFor                          (* for (auto i = 0; !done.load(); ++i) *)
| WWhile                        (* while (true && !done.load()) *)
| WLock                         (* std::unique_lock<Mutex> l{mu} *)
| WTest                         (* if (!mail_flag) *)
| WMail | WFlag                 (* mail = i; mail_flag = true *)
| WUnlock (delivered : bool)    (* break, or l.unlock(); yield() *)
| WEnd | WThrew.
(** and the reader. *)
Inductive rplace :=
| RFor                          (* for (auto _ : state) *)
| RLock | RTest                 (* std::unique_lock<Mutex> l{mu}; if (mail_flag) *)
| RCheck | RClear               (* if (mail != i) abort(); mail_flag = false *)
| RUnlock (taken : bool)        (* break, or l.unlock(); yield() *)
| RStop                         (* done.store(true) *)
| REnd | RThrew | RAbort.

#[global] Instance rplace_eq_dec : EqDecision rplace.
Proof. solve_decision. Defined.

(** [mb_left]: the iterations [state] still has. *)
Record mailbox := mkMailbox {
  mb_mutex : mutex;
  mb_done : bool;
  mb_flag : bool;
  mb_mail : Z;
  mb_wi : Z;
  mb_ri : Z;
  mb_left : nat;
  mb_w : wplace;
  mb_r : rplace
}.

Definition mailbox_init (n : nat) : mailbox := mkMailbox mutex_init false false 0 0 0 n WFor RFor.

Definition writer_id : Z := 1.
Definition reader_id : Z := 2.

Definition w_at (p : wplace) (s : mailbox) : mailbox :=
  mkMailbox (mb_mutex s) (mb_done s) (mb_flag s) (mb_mail s) (mb_wi s) (mb_ri s) (mb_left s) p (mb_r s).
Definition r_at (p : rplace) (s : mailbox) : mailbox :=
  mkMailbox (mb_mutex s) (mb_done s) (mb_flag s) (mb_mail s) (mb_wi s) (mb_ri s) (mb_left s) (mb_w s) p.
Definition on_mutex (e : mevent) (s : mailbox) : mailbox :=
  mkMailbox (mact e (mb_mutex s)) (mb_done s) (mb_flag s) (mb_mail s) (mb_wi s) (mb_ri s)
    (mb_left s) (mb_w s) (mb_r s).
Definition set_flag (v : bool) (s : mailbox) : mailbox :=
  mkMailbox (mb_mutex s) (mb_done s) v (mb_mail s) (mb_wi s) (mb_ri s) (mb_left s) (mb_w s) (mb_r s).
Definition set_mail (v : Z) (s : mailbox) : mailbox :=
  mkMailbox (mb_mutex s) (mb_done s) (mb_flag s) v (mb_wi s) (mb_ri s) (mb_left s) (mb_w s) (mb_r s).
Definition next_wi (s : mailbox) : mailbox :=
  mkMailbox (mb_mutex s) (mb_done s) (mb_flag s) (mb_mail s) (mb_wi s + 1) (mb_ri s) (mb_left s)
    (mb_w s) (mb_r s).
Definition next_ri (s : mailbox) : mailbox :=
  mkMailbox (mb_mutex s) (mb_done s) (mb_flag s) (mb_mail s) (mb_wi s) (mb_ri s + 1)
    (pred (mb_left s)) (mb_w s) (mb_r s).
Definition set_done (s : mailbox) : mailbox :=
  mkMailbox (mb_mutex s) true (mb_flag s) (mb_mail s) (mb_wi s) (mb_ri s) (mb_left s) (mb_w s) (mb_r s).

(** The thread [writer] *)
Definition writer_step (s : mailbox) : mailbox :=
  let pc := at_pc (mb_mutex s) writer_id in
  match mb_w s with
  | WFor => w_at (if mb_done s then WEnd else WWhile) s
  | WWhile => if mb_done s then w_at WFor (next_wi s)
              else w_at WLock (on_mutex (CallLock writer_id) s)
  | WLock => if bool_decide (pc = MOwner) then w_at WTest s else on_mutex (MStep writer_id) s
  | WTest => if mb_flag s then w_at (WUnlock false) (on_mutex (CallUnlock writer_id) s)
             else w_at WMail s
  | WMail => w_at WFlag (set_mail (mb_wi s) s)
  | WFlag => w_at (WUnlock true) (on_mutex (CallUnlock writer_id) (set_flag true s))
  | WUnlock delivered =>
      if bool_decide (pc = MIdle) then
        if delivered then w_at WFor (next_wi s) else w_at WWhile s
      else if bool_decide (pc = MThrew) then w_at WThrew s
      else on_mutex (MStep writer_id) s
  | WEnd | WThrew => s
  end.

(** The body of the benchmark *)
Definition reader_step (s : mailbox) : mailbox :=
  let pc := at_pc (mb_mutex s) reader_id in
  match mb_r s with
  | RFor => if bool_decide (mb_left s = O) then r_at RStop s
            else r_at RLock (on_mutex (CallLock reader_id) s)
  | RLock => if bool_decide (pc = MOwner) then r_at RTest s else on_mutex (MStep reader_id) s
  | RTest => if mb_flag s then r_at RCheck s
             else r_at (RUnlock false) (on_mutex (CallUnlock reader_id) s)
  | RCheck => r_at (if bool_decide (mb_mail s ≠ mb_ri s) then RAbort else RClear) s
  | RClear => r_at (RUnlock true) (on_mutex (CallUnlock reader_id) (set_flag false s))
  | RUnlock taken =>
      if bool_decide (pc = MIdle) then
        if taken then r_at RFor (next_ri s) else r_at RLock (on_mutex (CallLock reader_id) s)
      else if bool_decide (pc = MThrew) then r_at RThrew s
      else on_mutex (MStep reader_id) s
  | RStop => r_at REnd (set_done s)
  | REnd | RThrew | RAbort => s
  end.

(** Any interleaving of the two; [true] is a step of the writer. *)
Definition mailbox_run (who : list bool) (s : mailbox) : mailbox :=
  foldl (λ s b, if (b : bool) then writer_step s else reader_step s) s who.

(** ** The invariant *)

Definition w_phase (p : wplace) : phase :=
  match p with
  | WFor | WWhile | WEnd | WThrew => Out
  | WLock => Locking
  | WTest | WMail | WFlag => Inside
  | WUnlock _ => Unlocking
  end.
Definition r_phase (p : rplace) : phase :=
  match p with
  | RFor | RStop | REnd | RThrew | RAbort => Out
  | RLock => Locking
  | RTest | RCheck | RClear => Inside
  | RUnlock _ => Unlocking
  end.

(** The numbers delivered and taken so far. *)
Definition n_delivered (s : mailbox) : Z :=
  mb_wi s + match mb_w s with WUnlock true => 1 | _ => 0 end.
Definition n_taken (s : mailbox) : Z :=
  mb_ri s + match mb_r s with RUnlock true => 1 | _ => 0 end.

Record mail_ok (s : mailbox) : Prop := {
  ml_full : mb_flag s = true → n_delivered s = n_taken s + 1 ∧ mb_mail s = n_taken s;
  ml_empty : mb_flag s = false → n_delivered s = n_taken s;
  ml_w : match mb_w s with
         | WMail => mb_flag s = false
         | WFlag => mb_flag s = false ∧ mb_mail s = mb_wi s
         | _ => True
         end;
  ml_r : match mb_r s with RCheck | RClear => mb_flag s = true | _ => True end
}.

Record mailbox_ok (s : mailbox) : Prop := {
  mk_mutex : mutex_ok (mb_mutex s);
  mk_w : user_ok (mb_mutex s) writer_id (w_phase (mb_w s));
  mk_r : user_ok (mb_mutex s) reader_id (r_phase (mb_r s));
  mk_threw : mb_w s ≠ WThrew ∧ mb_r s ≠ RThrew;
  mk_abort : mb_r s ≠ RAbort;
  mk_done : mb_done s = true → mb_r s = REnd;
  mk_mail : mb_done s = false → mail_ok s
}.

Lemma mailbox_init_ok n : mailbox_ok (mailbox_init n).
Proof. constructor; try done. apply mutex_init_ok. Qed.

(** An event of one user on the mutex. *)
Lemma on_mutex_ok s e t u ph ph' :
  mutex_ok s → event_task e = t → t ≠ 0 → u ≠ 0 → t ≠ u →
  user_ok s u ph → user_ok (mact e s) t ph' →
  mutex_ok (mact e s) ∧ user_ok (mact e s) u ph ∧ user_ok (mact e s) t ph'.
Proof.
  intros Hok He Ht Hu Hne Hou Hot. split_and!; [|by apply user_undisturbed; [..|congruence|]|done].
  apply mact_ok; [done|congruence].
Qed.

(** [unlock()] of a user that is inside does not throw. *)
Lemma unlock_returns s t :
  user_ok s t Unlocking → at_pc s t ≠ MIdle → at_pc s t ≠ MThrew.
Proof. simpl. intros [?|[H _]] ? Heq; [done|]. by rewrite Heq in H. Qed.

(** The numbers, from one state to the next. *)
Ltac mail_step H :=
  destruct H as [Hfull Hempty Hmw Hmr]; unfold n_delivered, n_taken in *; simpl in *; destruct_and?;
  constructor; unfold n_delivered, n_taken; simpl; intros; try done;
  repeat match goal with
  | Hf : ?f = true → _, E : ?f = true |- _ => specialize (Hf E)
  | Hf : ?f = false → _, E : ?f = false |- _ => specialize (Hf E)
  | Hf : true = true → _ |- _ => specialize (Hf eq_refl)
  | Hf : false = false → _ |- _ => specialize (Hf eq_refl)
  end; destruct_and?; split_and?; try lia; try congruence;
  repeat match goal with |- match ?p with _ => _ end => destruct p end;
  destruct_and?; try done; try congruence.

Lemma writer_step_ok s : mailbox_ok s → mailbox_ok (writer_step s).
Proof.
  destruct s as [m d f ml wi ri left pw pr].
  intros [Hm Hw Hr [Hwt Hrt] Hab Hd Hmail]. simpl in *.
  assert (∀ e ph', event_task e = writer_id → user_ok (mact e m) writer_id ph' →
    mutex_ok (mact e m) ∧ user_ok (mact e m) reader_id (r_phase pr) ∧
    user_ok (mact e m) writer_id ph') as Hon by (intros; by eapply on_mutex_ok).
  unfold writer_step. simpl. destruct pw as [| | | | | |dl| |]; simpl in Hw; simpl.
  - destruct d; constructor; simpl; try done. intros _. specialize (Hmail eq_refl). by mail_step Hmail.
  - destruct d; [by constructor|].
    destruct (Hon (CallLock writer_id) Locking) as (? & ? & ?); [done|by apply user_calls_lock|].
    constructor; simpl; try done. intros _. specialize (Hmail eq_refl). by mail_step Hmail.
  - case_bool_decide as Ho.
    + constructor; simpl; try done. intros Ed. specialize (Hmail Ed). by mail_step Hmail.
    + destruct (Hon (MStep writer_id) Locking) as (? & ? & ?); [done|by apply user_locks|].
      constructor; simpl; try done. intros Ed. specialize (Hmail Ed). by mail_step Hmail.
  - destruct f.
    + destruct (Hon (CallUnlock writer_id) Unlocking) as (? & ? & ?); [done|by apply user_calls_unlock|].
      constructor; simpl; try done. intros Ed. specialize (Hmail Ed). by mail_step Hmail.
    + constructor; simpl; try done. intros Ed. specialize (Hmail Ed). by mail_step Hmail.
  - constructor; simpl; try done. intros Ed. specialize (Hmail Ed). by mail_step Hmail.
  - destruct (Hon (CallUnlock writer_id) Unlocking) as (? & ? & ?); [done|by apply user_calls_unlock|].
    constructor; simpl; try done. intros Ed. specialize (Hmail Ed). by mail_step Hmail.
  - case_bool_decide as Hidle.
    + destruct dl; constructor; simpl; try done; intros Ed; specialize (Hmail Ed); by mail_step Hmail.
    + rewrite bool_decide_false by (by apply unlock_returns).
      destruct (Hon (MStep writer_id) Unlocking) as (? & ? & ?); [done|by apply user_unlocks|].
      constructor; simpl; try done. intros Ed. specialize (Hmail Ed). by mail_step Hmail.
  - by constructor.
  - by constructor.
Qed.

Lemma reader_step_ok s : mailbox_ok s → mailbox_ok (reader_step s).
Proof.
  destruct s as [m d f ml wi ri left pw pr].
  intros [Hm Hw Hr [Hwt Hrt] Hab Hd Hmail]. simpl in *.
  assert (∀ e ph', event_task e = reader_id → user_ok (mact e m) reader_id ph' →
    mutex_ok (mact e m) ∧ user_ok (mact e m) writer_id (w_phase pw) ∧
    user_ok (mact e m) reader_id ph') as Hon by (intros; by eapply on_mutex_ok).
  unfold reader_step. simpl. destruct (decide (pr = REnd)) as [->|Hend]; [by constructor|].
  destruct d; [by specialize (Hd eq_refl)|]. specialize (Hmail eq_refl). clear Hd.
  destruct pr as [| | | | |tk| | | |]; simpl in Hr; simpl; try done.
  - case_bool_decide; [by constructor; simpl; try done; intros _; mail_step Hmail|].
    destruct (Hon (CallLock reader_id) Locking) as (? & ? & ?); [done|by apply user_calls_lock|].
    constructor; simpl; try done. intros _. by mail_step Hmail.
  - case_bool_decide as Ho.
    + constructor; simpl; try done. intros _. by mail_step Hmail.
    + destruct (Hon (MStep reader_id) Locking) as (? & ? & ?); [done|by apply user_locks|].
      constructor; simpl; try done. intros _. by mail_step Hmail.
  - destruct f; [by constructor; simpl; try done; intros _; mail_step Hmail|].
    destruct (Hon (CallUnlock reader_id) Unlocking) as (? & ? & ?); [done|by apply user_calls_unlock|].
    constructor; simpl; try done. intros _. by mail_step Hmail.
  - assert (ml = ri) as ->.
    { destruct Hmail as [Hfull _ _ Hmr]. simpl in *. destruct (Hfull Hmr) as [_ Heq].
      unfold n_taken in Heq. simpl in Heq. lia. }
    rewrite bool_decide_false by (by intros []). constructor; simpl; try done. intros _. by mail_step Hmail.
  - destruct (Hon (CallUnlock reader_id) Unlocking) as (? & ? & ?); [done|by apply user_calls_unlock|].
    constructor; simpl; try done. intros _. by mail_step Hmail.
  - case_bool_decide as Hidle.
    + destruct tk; [by constructor; simpl; try done; intros _; mail_step Hmail|].
      destruct (Hon (CallLock reader_id) Locking) as (? & ? & ?); [done|by apply user_calls_lock|].
      constructor; simpl; try done. intros _. by mail_step Hmail.
    + rewrite bool_decide_false by (by apply unlock_returns).
      destruct (Hon (MStep reader_id) Unlocking) as (? & ? & ?); [done|by apply user_unlocks|].
      constructor; simpl; try done. intros _. by mail_step Hmail.
Qed.

Lemma mailbox_run_ok who s : mailbox_ok s → mailbox_ok (mailbox_run who s).
Proof.
  revert s. induction who as [|[] who IH]; intros s Hok; simpl; [done|..]; apply IH.
  - by apply writer_step_ok.
  - by apply reader_step_ok.
Qed.

(** ** What the program can rely on *)

(** The writer or the reader is about to touch [mail] or [mail_flag]. *)
Definition w_touches (s : mailbox) : Prop := w_phase (mb_w s) = Inside.
Definition r_touches (s : mailbox) : Prop := r_phase (mb_r s) = Inside.


(** The two tasks in turn, for long enough: three numbers arrive and both end. *)
Example mailbox_runs :
  let s := mailbox_run (concat (replicate 120 [true; false])) (mailbox_init 3) in
  mb_ri s = 3 ∧ mb_r s = REnd ∧ mb_w s = WEnd.
Proof. vm_compute. done. Qed.
