(* ===== verification/Monitor.v ===== *)
(** * concur/channel_impl.h: what a channel asks of its monitor

    [make_wishbone_channel] builds the two ends of a channel on a [Monitor]: the
    ring buffer or the window.  Here is the abstract channel both implement, the
    interface by which an implementation is related to it, and what follows for
    every implementation. *)

From S2P Require Import Prelude.

(** ** The abstract channel *)

Section spec.
Context {T : Type}.

(** What happens to a channel of which only the contents are seen. *)
Inductive label :=
| LPut (u : T)                  (* a [write()] has handed its value over *)
| LRefuse (u : T)               (* a [write()] gives its value back *)
| LGet (v : T)                  (* a [read()] has got a value *)
| LEnd                          (* a [read()] answers the end of the stream *)
| LClose.                       (* an end is closed *)

Record chan := mkChan { ch_queue : list T; ch_closed : bool }.
Definition chan_init : chan := mkChan [] false.

(** A bounded queue; values are refused and the stream ends only once it was
    closed.  (A [write()] that is on its way may still succeed after that, and
    a [read()] may answer the end of the stream with values left.) *)
Inductive chan_step (cap : nat) : chan → label → chan → Prop :=
| do_put u q b : (length q < cap)%nat → chan_step cap (mkChan q b) (LPut u) (mkChan (q ++ [u]) b)
| do_get v q b : chan_step cap (mkChan (v :: q) b) (LGet v) (mkChan q b)
| do_refuse u q : chan_step cap (mkChan q true) (LRefuse u) (mkChan q true)
| do_end q : chan_step cap (mkChan q true) LEnd (mkChan q true)
| do_close q b : chan_step cap (mkChan q b) LClose (mkChan q true).

Inductive chan_steps (cap : nat) : chan → list label → chan → Prop :=
| steps_nil c : chan_steps cap c [] c
| steps_cons c l c' ls c'' :
    chan_step cap c l c' → chan_steps cap c' ls c'' → chan_steps cap c (l :: ls) c''.

Definition puts (ls : list label) : list T :=
  omap (λ l, match l with LPut u => Some u | _ => None end) ls.
Definition gets (ls : list label) : list T :=
  omap (λ l, match l with LGet v => Some v | _ => None end) ls.

Lemma chan_steps_one cap c l c' : chan_step cap c l c' → chan_steps cap c [l] c'.
Proof. intros H. econstructor; [done|constructor]. Qed.

Lemma chan_steps_app cap c ls c' ls' c'' :
  chan_steps cap c ls c' → chan_steps cap c' ls' c'' → chan_steps cap c (ls ++ ls') c''.
Proof. induction 1; [done|]. simpl. econstructor; eauto. Qed.

(** The values in a run of the abstract channel. *)
Lemma chan_steps_values cap c ls c' :
  chan_steps cap c ls c' → (length (ch_queue c) ≤ cap)%nat →
  ch_queue c ++ puts ls = gets ls ++ ch_queue c' ∧ (length (ch_queue c') ≤ cap)%nat ∧
  (ch_closed c' = true → ch_closed c = true ∨ LClose ∈ ls) ∧
  (∀ l, l ∈ ls → (l = LEnd ∨ ∃ u, l = LRefuse u) → ch_closed c' = true) ∧
  (ch_closed c = true → ch_closed c' = true).
Proof.
  induction 1 as [c|c l c1 ls c2 Hstep _ IH]; intros Hcap.
  { rewrite app_nil_r. split_and!; auto. intros l Hl. by apply elem_of_nil in Hl. }
  assert (length (ch_queue c1) ≤ cap)%nat as Hcap1.
  { destruct Hstep; simpl in *; try lia. rewrite length_app. simpl. lia. }
  destruct (IH Hcap1) as (Hq & Hc & Hcl & Hend & Hmono). split_and!; [|done| | |].
  - destruct Hstep; simpl in *; try done.
    + rewrite <- app_assoc in Hq. done.
    + by rewrite Hq.
  - intros H. destruct (Hcl H) as [H'|H']; [|right; by right].
    destruct Hstep; simpl in *; auto. right. by left.
  - intros l' [->|Hl']%elem_of_cons Hor; [|eauto]. apply Hmono.
    destruct Hor as [->|[u ->]]; by inversion Hstep.
  - intros H. apply Hmono. by destruct Hstep.
Qed.

End spec.
#[export] Hint Constructors chan_step : core.
Arguments label : clear implicits.
Arguments chan : clear implicits.

(** ** The interface *)

(** A monitor of capacity [cap]: its states and events (a step of one of the two
    ends, or the start of a call), with what each event does to the channel;
    [None] is a failed assertion.  [m_abs] gives the abstract channel of a
    state, [m_ok] an invariant under which every event is allowed by it. *)
Class Monitor (T : Type) (cap : nat) := {
  m_state : Type;
  m_event : Type;
  m_init : m_state;
  m_act : m_event → m_state → option (m_state * list (label T));
  m_abs : m_state → chan T;
  m_ok : m_state → Prop;
  m_init_ok : m_ok m_init;
  m_init_abs : m_abs m_init = chan_init;
  m_step e s s' ls :
    m_ok s → m_act e s = Some (s', ls) → m_ok s' ∧ chan_steps cap (m_abs s) ls (m_abs s')
}.

Section channel.
Context {T : Type} {cap : nat} {M : Monitor T cap}.

(** A run of a channel on the monitor, up to the first failed assertion: the
    state and the trace. *)
Fixpoint m_run (es : list m_event) (s : m_state) : m_state * list (label T) :=
  match es with
  | [] => (s, [])
  | e :: es' =>
      match m_act e s with
      | Some (s', ls) => let '(s'', ls') := m_run es' s' in (s'', ls ++ ls')
      | None => (s, [])
      end
  end.

Lemma m_run_refines es : ∀ s, m_ok s →
  let '(s', ls) := m_run es s in m_ok s' ∧ chan_steps cap (m_abs s) ls (m_abs s').
Proof.
  induction es as [|e es IH]; intros s Hs; simpl; [by split; [|constructor]|].
  destruct (m_act e s) as [[s1 ls]|] eqn:E; [|by split; [|constructor]].
  destruct (m_step e s s1 ls Hs E) as [Hs1 Hl]. specialize (IH s1 Hs1).
  destruct (m_run es s1) as [s2 ls2]. destruct IH as [? ?]. split; [done|].
  by eapply chan_steps_app.
Qed.


End channel.
