(* ===== verification/ChannelClient.v ===== *)
(** * concur/channel_benchmark.cc: a stream of integers

    The four programs of the benchmark are one program on four channels: the
    main context writes [0], [1], ... and closes its end, a second context reads
    until the stream ends.  They turn the timer off, so that a context runs until
    it waits or yields (but for the first of them in a process:
    [first_use_enables_timer] of [Safety]).  The program is written here for any monitor that says
    how its two ends are driven; [RingStream] and [WindowStream] run it on the
    ring buffer and on the window. *)

From S2P Require Import Prelude Monitor.

(** [unsigned i] is converted to the [int] of the channel. *)
Definition two32 : Z := 2 ^ 32.
Definition int_of_unsigned (i : Z) : Z := if i <? 2 ^ 31 then i else i - two32.

(** The values of [n] rounds of [c.write(i++)]. *)
Definition ints (n : nat) : list Z := (λ j, int_of_unsigned (Z.of_nat j mod two32)) <$> seq 0 n.

Lemma ints_S n : ints (S n) = ints n ++ [int_of_unsigned (Z.of_nat n mod two32)].
Proof. unfold ints. by rewrite seq_S, fmap_app. Qed.

Lemma length_ints n : length (ints n) = n.
Proof. unfold ints. by rewrite length_fmap, length_seq. Qed.

Lemma next_int N k :
  (S k ≤ N)%nat →
  ints (N - S k) ++ [int_of_unsigned (Z.of_nat (N - S k) mod two32)] = ints (N - k) ∧
  (Z.of_nat (N - S k) mod two32 + 1) mod two32 = Z.of_nat (N - k) mod two32.
Proof.
  intros ?. replace (N - k)%nat with (S (N - S k)) by lia. split; [by rewrite ints_S|].
  rewrite Zplus_mod_idemp_l. f_equal. lia.
Qed.

(** How the ends of a monitor are driven: the calls, the steps of a call, and
    whether an end is between two calls, waits in the waiter, or is about to
    call [yield()]. *)
Class Ends {cap : nat} (M : Monitor Z cap) := {
  call_read : m_event;
  call_write : Z → m_event;
  close_read : m_event;
  close_write : m_event;
  step_read : m_event;
  step_write : m_event;
  idle_r : m_state → bool;
  idle_w : m_state → bool;
  parked_r : m_state → bool;
  parked_w : m_state → bool;
  yields_r : m_state → bool;
  yields_w : m_state → bool
}.

Inductive party := Sender | Receiver.
#[global] Instance party_eq_dec : EqDecision party.
Proof. solve_decision. Defined.

(** Where the main context is: before a round of the loop with [k] rounds to
    come, in the [write()] of a round, in the destructor of the write end, in
    [reader.join()], or at the end. *)
Inductive main_pc := SLoop (k : nat) | SWrite (k : nat) | SClose | SJoin | SDone.

(** Where the second context is: before a [read()], in one (with the value it
    has got), in the destructor of the read end, or finished. *)
Inductive reader_pc := GCall | GRead (val : option Z) | GClose | GDone.

Section bench.
Context {cap : nat} {M : Monitor Z cap} {D : Ends M}.

(** [bn_vals] are the values of [val], one after the other. *)
Record bench := mkBench {
  bn_mon : m_state;
  bn_turn : party;
  bn_i : Z;
  bn_main : main_pc;
  bn_reader : reader_pc;
  bn_vals : list Z
}.

Definition bench_start (n : nat) : bench := mkBench m_init Sender 0 (SLoop n) GCall [].

Definition set_turn (p : party) (s : bench) : bench :=
  mkBench (bn_mon s) p (bn_i s) (bn_main s) (bn_reader s) (bn_vals s).

(** The main context performs an event of its end and is at [p] then. *)
Definition main_event (e : m_event) (p : main_pc) (i : Z) (s : bench) : option bench :=
  '(m, _) ← m_act e (bn_mon s); Some (mkBench m (bn_turn s) i p (bn_reader s) (bn_vals s)).
Definition main_at (p : main_pc) (s : bench) : option bench :=
  Some (mkBench (bn_mon s) (bn_turn s) (bn_i s) p (bn_reader s) (bn_vals s)).

Definition main_step (s : bench) : option bench :=
  match bn_main s with
  | SLoop (S k) =>
      main_event (call_write (int_of_unsigned (bn_i s))) (SWrite k) ((bn_i s + 1) mod two32) s
  | SLoop O => main_event close_write SClose (bn_i s) s
  | SWrite k =>
      if idle_w (bn_mon s) then main_at (SLoop k) s
      else main_event step_write (SWrite k) (bn_i s) s
  | SClose =>
      if idle_w (bn_mon s) then main_at SJoin s else main_event step_write SClose (bn_i s) s
  | SJoin => main_at SDone s
  | SDone => Some s
  end.

(** What the steps of a [read()] tell of its result. *)
Definition result (val : option Z) (ls : list (label Z)) : option Z :=
  foldl (λ r l, match l with LGet v => Some v | LEnd => None | _ => r end) val ls.

Definition reader_event (e : m_event) (p : list (label Z) → reader_pc) (s : bench) : option bench :=
  '(m, ls) ← m_act e (bn_mon s);
  Some (mkBench m (bn_turn s) (bn_i s) (bn_main s) (p ls) (bn_vals s)).

Definition reader_step (s : bench) : option bench :=
  match bn_reader s with
  | GCall => reader_event call_read (λ _, GRead None) s
  | GRead val =>
      if idle_r (bn_mon s) then
        match val with
        | Some v =>
            Some (mkBench (bn_mon s) (bn_turn s) (bn_i s) (bn_main s) GCall (bn_vals s ++ [v]))
        | None => reader_event close_read (λ _, GClose) s
        end
      else reader_event step_read (λ ls, GRead (result val ls)) s
  | GClose =>
      if idle_r (bn_mon s) then
        Some (mkBench (bn_mon s) (bn_turn s) (bn_i s) (bn_main s) GDone (bn_vals s))
      else reader_event step_read (λ _, GClose) s
  | GDone => Some s
  end.

(** [join()] waits for the second context to finish. *)
Definition runnable (p : party) (s : bench) : bool :=
  match p with
  | Sender =>
      match bn_main s with
      | SJoin => match bn_reader s with GDone => true | _ => false end
      | SWrite _ | SClose => negb (parked_w (bn_mon s))
      | SLoop _ | SDone => true
      end
  | Receiver =>
      match bn_reader s with
      | GDone => false
      | GRead _ | GClose => negb (parked_r (bn_mon s))
      | GCall => true
      end
  end.

Definition other (p : party) : party := match p with Sender => Receiver | Receiver => Sender end.

Definition finished (s : bench) : bool := match bn_main s with SDone => true | _ => false end.

(** Without the timer: the context whose turn it is makes a step, and lets the
    other one run only if it calls [yield()] ([elected]: the scheduler chooses
    the other one) or has to wait.  [None] is a failed assertion, or that both
    wait. *)
Definition coop_step (elected : bool) (s : bench) : option bench :=
  let p := bn_turn s in
  if runnable p s then
    s' ← match p with Sender => main_step s | Receiver => reader_step s end;
    let y := match p with Sender => yields_w (bn_mon s) | Receiver => yields_r (bn_mon s) end in
    Some (if y && elected && runnable (other p) s' then set_turn (other p) s' else s')
  else if runnable (other p) s then Some (set_turn (other p) s)
  else None.

Fixpoint coop (es : list bool) (s : bench) : option bench :=
  match es with
  | [] => Some s
  | e :: es' => if finished s then Some s else s' ← coop_step e s; coop es' s'
  end.

(** The program has ended, and the read end has delivered the values of the [n]
    rounds in their order. *)
Definition delivered (n : nat) (r : option bench) : Prop :=
  ∃ s, r = Some s ∧ bn_main s = SDone ∧ bn_reader s = GDone ∧ bn_vals s = ints n.

(** A program with an invariant and a measure comes to its end. *)
Lemma coop_ends (I : bench → Prop) (f : bench → nat) es : ∀ s,
  (∀ e s, I s → finished s = false → ∃ s', coop_step e s = Some s' ∧ I s' ∧ (f s' < f s)%nat) →
  I s → (f s ≤ length es)%nat → ∃ s', coop es s = Some s' ∧ finished s' = true ∧ I s'.
Proof.
  intros s Hstep. revert s. induction es as [|e es IH]; intros s Hs Hlen; simpl.
  - exists s. split_and!; [done| |done]. destruct (finished s) eqn:E; [done|].
    destruct (Hstep true s Hs E) as (s' & _ & _ & ?). simpl in Hlen. lia.
  - destruct (finished s) eqn:E; [by exists s|].
    destruct (Hstep e s Hs E) as (s' & -> & Hs' & ?). simpl. apply IH; [done|]. simpl in Hlen. lia.
Qed.

(** A step that does not depend on the scheduler. *)
Definition tick (s s' : bench) : Prop := finished s = false ∧ ∀ e, coop_step e s = Some s'.

Lemma coop_ticks k s s' es :
  nsteps tick k s s' → (k ≤ length es)%nat → coop es s = coop (drop k es) s'.
Proof.
  intros H. revert es. induction H as [s|k s s1 s' [Hf Hs] _ IH]; intros es Hlen; [done|].
  destruct es as [|e es]; simpl in *; [lia|]. rewrite Hf, Hs. apply IH. lia.
Qed.

End bench.
Arguments bench {cap} M.
