(* ===== verification/RingMonitor.v ===== *)
(** * The ring buffer is a monitor *)

From S2P Require Import Prelude RingBuffer Monitor.

Section ring.
Context {T : Type} (Size : Z).
Implicit Types (s : @ring T) (e : @event T).

(** What an event does to the channel: the values change hands when the counters
    are stored. *)
Definition ring_label e s : list (label T) :=
  match e, at_r s, at_w s with
  | StepR, RStoreR _ v, _ => [LGet v]
  | StepR, RParkUndo, _ => [LEnd]
  | StepW, _, WStoreW u _ => [LPut u]
  | StepW, _, WClosed u => if closed s then [LRefuse u] else []
  | StepW, _, WParkUndo u => [LRefuse u]
  | CloseR, RIdle _, _ | CloseW, _, WIdle _ => [LClose]
  | _, _, _ => []
  end.

Definition ring_act e s : option (ring * list (label T)) :=
  match act Size e s with
  | Next s' => Some (s', ring_label e s)
  | Blocked => Some (s, [])
  | Fault => None
  end.

Definition ring_abs s : chan T := mkChan (drop (length (got s)) (sent s)) (closed s).

(** A call that leaves the waiter again does so because of a close. *)
Definition undo_ok s : Prop :=
  (at_r s = RParkUndo → closed s = true) ∧ (∀ u, at_w s = WParkUndo u → closed s = true).

Lemma undo_act e s s' : undo_ok s → act Size e s = Next s' → undo_ok s'.
Proof.
  destruct s as [sl r w c st pr pw se go]. intros [Hr Hw] H. simpl in *.
  destruct e; simpl in H; [destruct pr|destruct pw|destruct pr|destruct pw|destruct pr|destruct pw];
    unfold step_r, step_w, unpark_other in H; simpl in H; repeat case_match; simplify_eq;
    split; simpl in *; try done; intros; simplify_eq; eauto.
Qed.

Lemma get_step s lr v :
  ring_ok Size s → at_r s = RStoreR lr v →
  drop (length (got s)) (sent s) = v :: drop (length (got s ++ [v])) (sent s).
Proof.
  intros Hok Hat. pose proof (ok_at_r _ _ Hok) as Hr. rewrite Hat in Hr. destruct Hr as [_ Hv].
  rewrite length_app, Nat.add_1_r. by apply drop_S.
Qed.

Lemma put_step s u lw c :
  ring_ok Size s → at_w s = WStoreW u lw →
  chan_step (Z.to_nat Size) (mkChan (drop (length (got s)) (sent s)) c) (LPut u)
    (mkChan (drop (length (got s)) (sent s ++ [u])) c).
Proof.
  intros Hok Hat. pose proof (ok_at_w _ _ Hok) as Hw. rewrite Hat in Hw. destruct Hw as [_ Hlt].
  pose proof (ok_window _ _ Hok). unfold n_sent, n_got in *.
  rewrite drop_app_le by lia. constructor. rewrite length_drop. lia.
Qed.

(** Every event is allowed by the abstract channel. *)
Lemma ring_step_abs e s s' :
  ring_ok Size s → undo_ok s → act Size e s = Next s' →
  chan_steps (Z.to_nat Size) (ring_abs s) (ring_label e s) (ring_abs s').
Proof.
  intros Hok [Hur Huw] H. pose proof (get_step s) as Hget. pose proof (put_step s) as Hput.
  unfold ring_abs. destruct s as [sl r w c st pr pw se go]. simpl in *.
  destruct e; simpl in H; [destruct pr|destruct pw|destruct pr|destruct pw|destruct pr|destruct pw];
    unfold step_r, step_w, unpark_other in H; simpl in H; repeat case_match; simplify_eq; simpl;
    try (by constructor); try (by apply chan_steps_one; constructor).
  - rewrite Hur by done. apply chan_steps_one. constructor.
  - erewrite Hget by done. apply chan_steps_one. constructor.
  - erewrite Huw by done. apply chan_steps_one. constructor.
  - apply chan_steps_one. by eapply Hput.
Qed.

Context (b : Z) (Hb : 0 ≤ b < 64) (HSize : Size = 2 ^ b).

#[export] Instance ring_monitor : Monitor T (Z.to_nat Size).
Proof.
  refine {| m_state := ring; m_event := event; m_init := ring_init; m_act := ring_act;
            m_abs := ring_abs; m_ok s := ring_ok Size s ∧ undo_ok s |}.
  - split; [by eapply ring_init_ok|done].
  - done.
  - intros e s s' ls [Hok Hu] H. unfold ring_act in H. pose proof (good_act Size b Hb HSize e s Hok) as Hg.
    destruct (act Size e s) as [| |s1] eqn:E; [|done|]; injection H as <- <-; [by split; [|constructor]|].
    split; [split; [done|by eapply undo_act]|by eapply ring_step_abs].
Defined.


End ring.
