(* ===== verification/RingStream.v ===== *)
(** * The stream of integers through a buffered channel

    bench_buffered_channel_sending_ints_64, _1024 and _4096: without the timer
    no wake-up is lost and nothing is dropped at the close (with it both happen:
    [ring_lost_wakeup] and [ring_close_drops]). *)

From S2P Require Import Prelude RingBuffer Monitor RingMonitor ChannelClient.

Section stream.
Context (Size b : Z) (Hb : 0 ≤ b < 64) (HSize : Size = 2 ^ b).
Abbreviation ring := (@ring Z).
Implicit Types (m : ring).

#[export] Instance ring_ends : Ends (ring_monitor (T := Z) Size b Hb HSize).
Proof.
  refine {|
    call_read := CallRead : @m_event _ _ (ring_monitor (T := Z) Size b Hb HSize); call_write u := CallWrite u;
    close_read := CloseR; close_write := CloseW;
    step_read := StepR; step_write := StepW;
    idle_r m := match at_r m with RIdle _ => true | _ => false end;
    idle_w m := match at_w m with WIdle _ => true | _ => false end;
    parked_r m := match at_r m with RParked _ => true | _ => false end;
    parked_w m := match at_w m with WParked _ _ => true | _ => false end;
    yields_r m := match at_r m, unpark_other m with RUnpark _, None => true | _, _ => false end;
    yields_w m := match at_w m, unpark_other m with WUnpark _, None => true | _, _ => false end
  |}.
Defined.

Abbreviation RM := (ring_monitor (T := Z) Size b Hb HSize).
Abbreviation bench := (bench RM).

(** ** Where the two contexts can be *)

Definition full m : bool := n_sent m =? n_got m + Size.
Definition empty m : bool := n_sent m =? n_got m.

(** The value of the [write()] in progress that is not in the buffer yet. *)
Definition held (p : @pc_w Z) : option Z :=
  match p with
  | WClosed u | WLoadW u | WLoadR u _ | WTest u _ _ | WParkCas u _ | WParkCheck u _ | WParkUndo u
  | WParkWait u _ | WParked u _ | WPut u _ | WStoreW u _ => Some u
  | WIdle _ | WWake _ | WUnpark _ => None
  end.

Definition waking_w (p : @pc_w Z) : bool :=
  match p with WWake _ | WUnpark _ => true | _ => false end.
Definition waking_r (p : @pc_r Z) : bool :=
  match p with RWake _ | RUnpark _ => true | _ => false end.

(** The main context, in its loop or at the end. *)
Definition main_ok (N : nat) m (i : Z) (p : main_pc) : Prop :=
  match p with
  | SLoop k => (k ≤ N)%nat ∧ held (at_w m) = None ∧ waking_w (at_w m) = false ∧
      sent m = ints (N - k) ∧ i = Z.of_nat (N - k) mod two32 ∧ closed m = false
  | SWrite k => (k < N)%nat ∧ sent m ++ option_list (held (at_w m)) = ints (N - k) ∧
      i = Z.of_nat (N - k) mod two32 ∧ closed m = false
  | SClose => held (at_w m) = None ∧ sent m = ints N ∧ closed m = true
  | SJoin | SDone => held (at_w m) = None ∧ waking_w (at_w m) = false ∧ sent m = ints N ∧ closed m = true
  end.

(** The context that reads, in a call or between two. *)
Definition reader_ok m (g : reader_pc) (vals : list Z) : Prop :=
  match g, at_r m with
  | GCall, RIdle _ => got m = vals
  | GRead None, RIdle _ => got m = vals ∧ empty m = true ∧ closed m = true
  | GRead None, (RWake _ | RUnpark _) => False
  | GRead None, _ => got m = vals
  | GRead (Some v), (RIdle _ | RWake _ | RUnpark _) => got m = vals ++ [v]
  | GClose, (RIdle _ | RWake _ | RUnpark _) | GDone, RIdle _ =>
      got m = vals ∧ empty m = true ∧ closed m = true
  | _, _ => False
  end.

(** Whoever does not run waits, was woken, or has not begun. *)
Definition reader_rests m (g : reader_pc) (p : main_pc) : Prop :=
  (p = SDone → g = GDone) ∧
  match g, at_r m with
  | GCall, RIdle _ => True
  | GRead None, RParked _ => (empty m = true ∧ closed m = false) ∨ waking_w (at_w m) = true
  | GRead None, RLoadW _ => True
  | GDone, _ => match p with SJoin | SDone => True | _ => False end
  | _, _ => False
  end.

Definition main_rests m (p : main_pc) : Prop :=
  match p, at_w m with
  | SWrite _, WParked _ _ => full m = true ∨ waking_r (at_r m) = true
  | SWrite _, WLoadR _ _ | SJoin, WIdle _ => True
  | _, _ => False
  end.

(** What the context that runs knows: nobody has come in between. *)
Definition reader_knows m : Prop :=
  match at_r m with
  | RTest _ lw => lw = rb_w m
  | RParkCas _ | RParkCheck _ => empty m = true
  | RParkWait _ | RParked _ => empty m = true ∧ closed m = false
  | RParkUndo => empty m = true ∧ closed m = true
  | RWake _ => full m = false ∨ closed m = true
  | RUnpark _ => (full m = false ∨ closed m = true) ∧ stalled m = Some Writer
  | _ => True
  end.
Definition main_knows m : Prop :=
  match at_w m with
  | WTest _ _ lr => lr = rb_r m
  | WParkCas _ _ | WParkCheck _ _ | WParkWait _ _ | WParked _ _ => full m = true
  | WParkUndo _ => False
  | WWake _ => empty m = false ∨ closed m = true
  | WUnpark _ => (empty m = false ∨ closed m = true) ∧ stalled m = Some Reader
  | _ => True
  end.

(** Who is in the waiter. *)
Definition in_waiter m : option side :=
  match at_r m, at_w m with
  | (RParkCheck _ | RParkUndo | RParkWait _ | RParked _), _ => Some Reader
  | _, (WParkCheck _ _ | WParkWait _ _ | WParked _ _) => Some Writer
  | _, _ => None
  end.

Record stream_ok (N : nat) (s : bench) : Prop := {
  so_ring : ring_ok Size (bn_mon s);
  so_main : main_ok N (bn_mon s) (bn_i s) (bn_main s);
  so_reader : reader_ok (bn_mon s) (bn_reader s) (bn_vals s);
  so_waiter : stalled (bn_mon s : ring) = in_waiter (bn_mon s);
  so_turn :
    match bn_turn s with
    | Sender => reader_rests (bn_mon s) (bn_reader s) (bn_main s) ∧ main_knows (bn_mon s)
    | Receiver => main_rests (bn_mon s) (bn_main s) ∧ reader_knows (bn_mon s)
    end
}.

(** ** The steps to come *)

Definition cost_w m : nat :=
  match at_w m with
  | WIdle _ => 0 | WUnpark _ => 1 | WWake _ => 2 | WStoreW _ _ => 3 | WPut _ _ => 4
  | WTest _ _ _ => if full m then 12 else 5
  | WLoadR _ _ => if full m then 13 else 6
  | WParked _ _ => 7 | WParkUndo _ => 1 | WParkWait _ _ => 9 | WParkCheck _ _ => 10
  | WParkCas _ _ => 11 | WLoadW _ => 14 | WClosed _ => 15
  end.
Definition cost_r m : nat :=
  match at_r m with
  | RIdle _ => 0 | RUnpark _ => 1 | RWake _ => 2 | RStoreR _ _ => 3 | RTake _ => 4
  | RTest _ _ => if empty m then 12 else 5
  | RLoadW _ => if empty m then 13 else 6
  | RParked _ => 7 | RParkUndo => 5 | RParkWait _ => 9 | RParkCheck _ => 10
  | RParkCas _ => 11 | RLoadR => 14
  end.

Definition cost_main m (p : main_pc) : nat :=
  match p with
  | SLoop k => 20 * k + 29
  | SWrite k => 20 * k + 30 + cost_w m
  | SClose => 4 + 10 * cost_w m
  | SJoin => 2
  | SDone => 0
  end.
Definition cost_reader (N : nat) m (g : reader_pc) : nat :=
  40 * (N - length (got m)) +
  match g with
  | GCall => 23
  | GRead None => 8 + cost_r m
  | GRead (Some _) => 25 + cost_r m
  | GClose => 3 + cost_r m
  | GDone => 0
  end.
Definition cost (N : nat) (s : bench) : nat :=
  cost_main (bn_mon s) (bn_main s) + cost_reader N (bn_mon s) (bn_reader s) +
  Nat.b2n (negb (runnable (bn_turn s) s)).

(** ** Slots and counters *)

Lemma take_slot m lr :
  ring_ok Size m → at_r m = RTake lr → ∃ v, slots m !! index Size lr = Some v.
Proof.
  intros Hok Hat. pose proof (good_take Size b Hb HSize m lr Hok Hat) as Hg.
  unfold step_r in Hg. rewrite Hat in Hg. destruct (slots m !! index Size lr); [eauto|done].
Qed.

Lemma put_slot m u lw :
  ring_ok Size m → at_w m = WPut u lw → slots m !! index Size lw = None.
Proof.
  intros Hok Hat. pose proof (good_put Size b Hb HSize m u lw Hok Hat) as Hg.
  unfold step_w in Hg. rewrite Hat in Hg. by destruct (slots m !! index Size lw).
Qed.

(** The tests of [read()] and [write()], when the other side does not move. *)
Lemma test_r m lr lw :
  ring_ok Size m → at_r m = RTest lr lw → lw = rb_w m → (wrap64 (lw - lr) =? 0) = empty m.
Proof.
  intros Hok Hat ->. pose proof (ok_at_r _ _ Hok) as Hr. rewrite Hat in Hr. destruct Hr as [-> _].
  pose proof (ok_window _ _ Hok). pose proof (size_pos Size b Hb HSize).
  rewrite (ok_w _ _ Hok), wrap_diff by lia. unfold empty.
  destruct (Z.eqb_spec (n_sent m - n_got m) 0), (Z.eqb_spec (n_sent m) (n_got m)); lia.
Qed.

Lemma test_w m u lw lr :
  ring_ok Size m → at_w m = WTest u lw lr → lr = rb_r m → (wrap64 (lw - lr) =? Size) = full m.
Proof.
  intros Hok Hat ->. pose proof (ok_at_w _ _ Hok) as Hr. rewrite Hat in Hr. destruct Hr as [-> _].
  pose proof (ok_window _ _ Hok). pose proof (size_pos Size b Hb HSize).
  rewrite (ok_r _ _ Hok), wrap_diff by lia. unfold full.
  destruct (Z.eqb_spec (n_sent m - n_got m) Size), (Z.eqb_spec (n_sent m) (n_got m + Size)); lia.
Qed.

Lemma ring_act_ok e m m' : ring_ok Size m → act Size e m = Next m' → ring_ok Size m'.
Proof.
  intros Hok H. pose proof (good_act Size b Hb HSize e m Hok) as Hg. by rewrite H in Hg.
Qed.

(** ** One step *)

Definition advances (N : nat) (e : bool) (s : bench) : Prop :=
  ∃ s', coop_step e s = Some s' ∧ stream_ok N s' ∧ (cost N s' < cost N s)%nat.

(** A step of the end that runs, in a call and without a [yield()]. *)
Lemma write_step e m m' i k g vals :
  act Size StepW m = Next m' → idle_w (M := RM) m = false → parked_w (M := RM) m = false → yields_w (M := RM) m = false →
  coop_step e (mkBench (M := RM) m Sender i (SWrite k) g vals) =
  Some (mkBench (M := RM) m' Sender i (SWrite k) g vals).
Proof.
  intros Ha Hi Hp Hy. unfold coop_step, runnable, main_step, main_event. cbn [bn_turn bn_main bn_mon].
  rewrite Hi, Hp, Hy. cbn. unfold ring_act. by rewrite Ha.
Qed.

Lemma read_step e m m' i p g vals :
  act Size StepR m = Next m' → idle_r (M := RM) m = false → parked_r (M := RM) m = false → yields_r (M := RM) m = false →
  coop_step e (mkBench (M := RM) m Receiver i p (GRead g) vals) =
  Some (mkBench (M := RM) m' Receiver i p
          (GRead (result g (ring_label StepR m))) vals).
Proof.
  intros Ha Hi Hp Hy. unfold coop_step, runnable, reader_step, reader_event. cbn [bn_turn bn_reader bn_mon].
  rewrite Hi, Hp, Hy. cbn. unfold ring_act. by rewrite Ha.
Qed.

Lemma step_test_w m u lw lr :
  ring_ok Size m → at_w m = WTest u lw lr → lr = rb_r m →
  act Size StepW m = Next (go_w (if full m then WParkCas u lw else WPut u lw) m).
Proof.
  intros Hok Hat Hl. pose proof (test_w m u lw lr Hok Hat Hl) as Ht.
  simpl. unfold step_w. by rewrite Hat, Ht.
Qed.

Lemma step_put m u lw :
  ring_ok Size m → at_w m = WPut u lw →
  act Size StepW m = Next (go_w (WStoreW u lw) (set_slots (<[index Size lw := u]> (slots m)) m)).
Proof.
  intros Hok Hat. simpl. unfold step_w. by rewrite Hat, (put_slot m u lw).
Qed.

Ltac count :=
  unfold cost, cost_main, cost_reader, cost_w, cost_r, full, empty, n_sent, n_got in *; simpl in *;
  rewrite ?length_app in *; simpl in *; repeat case_match; simplify_eq;
  rewrite ?Z.eqb_eq, ?Z.eqb_neq in *; lia.

Lemma stepped N e s s' :
  coop_step e s = Some s' → ring_ok Size (bn_mon s') → main_ok N (bn_mon s') (bn_i s') (bn_main s') →
  reader_ok (bn_mon s') (bn_reader s') (bn_vals s') →
  stalled (bn_mon s' : ring) = in_waiter (bn_mon s') →
  match bn_turn s' with
  | Sender => reader_rests (bn_mon s') (bn_reader s') (bn_main s') ∧ main_knows (bn_mon s')
  | Receiver => main_rests (bn_mon s') (bn_main s') ∧ reader_knows (bn_mon s')
  end → (cost N s' < cost N s)%nat → advances N e s.
Proof. intros. exists s'. split_and!; [done|by constructor|done]. Qed.

Lemma sender_advances N e s :
  stream_ok N s → bn_turn s = Sender → runnable Sender s = true → finished s = false → advances N e s.
Proof.
  intros [Hr Hm Hg Hw Ht] Hturn Hrun Hfin.
  destruct s as [m t i p g vals]. simpl in *. subst t. destruct Ht as [[Hdone Hrest] Hk].
  pose proof (ok_window _ _ Hr) as Hwin.
  destruct m as [sl r w c st pr pw se go]. simpl in *.
  destruct g as [|[]| |], pr; try done; destruct p as [[|k]|k| | |], pw; try done;
    try (destruct Hm as (? & ? & Hm); done);
    unfold main_knows, in_waiter in *; simpl in *.
  all: subst; try done; unfold advances; simpl.
  all: repeat match goal with H : _ ∧ _ |- _ => destruct H end; subst.
  all: first
    [ pose proof (step_test_w _ _ _ _ Hr eq_refl eq_refl) as Ha; destruct (full _) eqn:?;
      apply (stepped N e _ _ (write_step e _ _ _ _ _ _ Ha eq_refl eq_refl eq_refl)
               (ring_act_ok _ _ _ Hr Ha)); clear Ha
    | pose proof (step_put _ _ _ Hr eq_refl) as Ha;
      apply (stepped N e _ _ (write_step e _ _ _ _ _ _ Ha eq_refl eq_refl eq_refl)
               (ring_act_ok _ _ _ Hr Ha)); clear Ha
    | eapply stepped;
      [ reflexivity
      | first [ exact Hr | by apply (ring_act_ok StepW _ _ Hr) | by apply (ring_act_ok CloseW _ _ Hr)
              | by eapply (ring_act_ok (CallWrite _) _ _ Hr) ] |..] ].
  all: unfold main_knows, reader_rests, in_waiter in *; simpl in *; try done.
  all: try (destruct (next_int N k); [done|]; done).
  all: try (split_and!; try done; eauto using Nat.lt_le_incl; by rewrite ?Nat.sub_0_r, ?app_nil_r in * ).
  all: try (split; [split; [done|by eauto]|]).
  all: try count.
Qed.

Lemma step_test_r m lr lw :
  ring_ok Size m → at_r m = RTest lr lw → lw = rb_w m →
  act Size StepR m = Next (go_r (if empty m then RParkCas lr else RTake lr) m).
Proof.
  intros Hok Hat Hl. pose proof (test_r m lr lw Hok Hat Hl) as Ht.
  simpl. unfold step_r. by rewrite Hat, Ht.
Qed.

Lemma step_take m lr :
  ring_ok Size m → at_r m = RTake lr → ∃ v,
  act Size StepR m = Next (go_r (RStoreR lr v) (set_slots (delete (index Size lr) (slots m)) m)).
Proof.
  intros Hok Hat. destruct (take_slot m lr Hok Hat) as [v Hv]. exists v.
  simpl. unfold step_r. by rewrite Hat, Hv.
Qed.

Lemma main_sent N m i p : main_ok N m i p → (length (sent m) ≤ N)%nat.
Proof.
  destruct p; simpl.
  - intros (? & _ & _ & -> & _). rewrite length_ints. lia.
  - intros (? & Hs & _). apply (f_equal length) in Hs. rewrite length_app, length_ints in Hs. lia.
  - intros (_ & -> & _). by rewrite length_ints.
  - intros (_ & _ & -> & _). by rewrite length_ints.
  - intros (_ & _ & -> & _). by rewrite length_ints.
Qed.

Lemma receiver_advances N e s :
  stream_ok N s → bn_turn s = Receiver → runnable Receiver s = true → finished s = false → advances N e s.
Proof.
  intros [Hr Hm Hg Hw Ht] Hturn Hrun Hfin.
  destruct s as [m t i p g vals]. simpl in *. subst t. destruct Ht as [Hrest Hk].
  pose proof (ok_window _ _ Hr) as Hwin. pose proof (main_sent N m i p Hm) as Hlen.
  pose proof (ok_at_r _ _ Hr) as Hat.
  destruct m as [sl r w c st pr pw se go]. simpl in *.
  destruct p, pw; try done; destruct g as [|[]| |], pr; try done;
    unfold reader_knows, main_rests, in_waiter in *; simpl in *.
  all: subst; try done; unfold advances; simpl.
  all: repeat match goal with H : _ ∧ _ |- _ => destruct H end; subst; try done.
  all: first
    [ pose proof (step_test_r _ _ _ Hr eq_refl eq_refl) as Ha; destruct (empty _) eqn:?;
      apply (stepped N e _ _ (read_step e _ _ _ _ _ _ Ha eq_refl eq_refl eq_refl)
               (ring_act_ok _ _ _ Hr Ha)); clear Ha
    | destruct (step_take _ _ Hr eq_refl) as [v Ha];
      apply (stepped N e _ _ (read_step e _ _ _ _ _ _ Ha eq_refl eq_refl eq_refl)
               (ring_act_ok _ _ _ Hr Ha)); clear Ha
    | eapply stepped;
      [ reflexivity
      | first [ exact Hr | by apply (ring_act_ok StepR _ _ Hr) | by apply (ring_act_ok CloseR _ _ Hr)
              | by eapply (ring_act_ok CallRead _ _ Hr) ] |..] ].
  all: unfold reader_knows, reader_ok, main_rests, in_waiter in *; simpl in *; try done.
  all: try (split_and!; try done; by eauto).
  all: try count.
  all: match goal with H : _ !! _ = Some _ |- _ => apply lookup_lt_Some in H; count end.
Qed.

(** The context that cannot go on lets the other one run. *)
Lemma switch_advances N e s :
  stream_ok N s → runnable (bn_turn s) s = false → finished s = false → advances N e s.
Proof.
  intros [Hr Hm Hg Hw Ht] Hrun Hfin. pose proof (size_pos Size b Hb HSize) as Hsize.
  destruct s as [m t i p g vals]. destruct m as [sl r w c st pr pw se go]. simpl in *.
  destruct t; [destruct Ht as [[Hdone Hrest] Hk]|destruct Ht as [Hrest Hk]];
    destruct p, pw; try done; destruct g as [|[]| |], pr; try done;
    unfold reader_knows, main_knows, main_rests, reader_ok, in_waiter in *; simpl in *; subst; try done;
    repeat match goal with H : _ ∧ _ |- _ => destruct H end; subst; try done.
  all: try (exfalso; destruct Hrest as [Hrest|?]; [|done];
    match type of Hrest with _ ∧ _ => destruct Hrest | _ => idtac end; count).
  all: eapply stepped; [reflexivity|exact Hr|..]; try done.
  all: unfold reader_knows, main_knows, reader_ok, reader_rests, in_waiter; simpl; try done.
  all: try (split_and!; try done; by eauto).
  all: unfold cost; simpl; lia.
Qed.

Lemma stream_advances N e s : stream_ok N s → finished s = false → advances N e s.
Proof.
  intros Hs Hf. destruct (runnable (bn_turn s) s) eqn:Hr; [|by apply switch_advances].
  destruct (bn_turn s) eqn:Ht; [by apply sender_advances|by apply receiver_advances].
Qed.

Lemma start_ok N : stream_ok N (bench_start N).
Proof.
  constructor; simpl; try done.
  - by eapply ring_init_ok.
  - rewrite Nat.sub_diag. split_and!; [lia|done..].
Qed.

(** The program on a channel of [Size] values: [es] says whom the scheduler
    elects when a context yields. *)
Definition buffered_stream (n : nat) (es : list bool) : option bench := coop es (bench_start n).

Lemma stream_delivered n es :
  (60 * n + 52 ≤ length es)%nat → delivered n (buffered_stream n es).
Proof.
  intros Hlen. destruct (coop_ends (stream_ok n) (cost n) es (bench_start n)) as (s & Hs & Hf & Hok).
  - intros e s Hok Hf. exact (stream_advances n e s Hok Hf).
  - apply start_ok.
  - unfold cost, cost_main, cost_reader. simpl. lia.
  - exists s. split; [exact Hs|]. destruct Hok as [Hr Hm Hg _ Ht]. pose proof (ok_fifo _ _ Hr) as Hq.
    destruct s as [m t i p g vals]. unfold finished in Hf. simpl in *. destruct p; try done.
    destruct t; [|by destruct Ht]. destruct Ht as [[Hdone _] _]. rewrite Hdone in * by done.
    unfold reader_ok in Hg. destruct (at_r m); try done. destruct Hg as (<- & Hempty & _).
    destruct Hm as (_ & _ & Hsent & _). split_and!; [done..|]. simpl. rewrite Hq, <-Hsent.
    apply take_ge. apply Z.eqb_eq in Hempty. unfold n_sent, n_got in Hempty. lia.
Qed.

End stream.

(** ** The three sizes of the benchmark *)

Lemma bits_64 : 0 ≤ 6 < 64 ∧ 64 = 2 ^ 6.
Proof. by split. Qed.
Lemma bits_1024 : 0 ≤ 10 < 64 ∧ 1024 = 2 ^ 10.
Proof. by split. Qed.
Lemma bits_4096 : 0 ≤ 12 < 64 ∧ 4096 = 2 ^ 12.
Proof. by split. Qed.

Definition bench_buffered_channel_sending_ints_64 :=
  buffered_stream 64 6 (proj1 bits_64) (proj2 bits_64).
Definition bench_buffered_channel_sending_ints_1024 :=
  buffered_stream 1024 10 (proj1 bits_1024) (proj2 bits_1024).
Definition bench_buffered_channel_sending_ints_4096 :=
  buffered_stream 4096 12 (proj1 bits_4096) (proj2 bits_4096).

(** C15.  A stream of integers through a buffered channel arrives.  With the
    timer off, the benchmark with any number [n] of rounds comes to its end in
    at most [60 * n + 52] steps, on each of its three channels and whomever the
    scheduler elects: the read end has delivered the [n] integers in the order
    in which they were written, and the stream has ended after them. *)
Theorem buffered_streams_arrive n es :
  (60 * n + 52 ≤ length es)%nat →
  delivered n (bench_buffered_channel_sending_ints_64 n es) ∧
  delivered n (bench_buffered_channel_sending_ints_1024 n es) ∧
  delivered n (bench_buffered_channel_sending_ints_4096 n es).
Proof. intros H. split_and!; by apply stream_delivered. Qed.
