(* ===== verification/ChannelWindow.v ===== *)
(** * concur/internal/channel_window: the unbuffered channel

    One reader and one writer meet in the window; the timer can preempt either
    of them between any two steps.  A step is one atomic operation or one access
    to [_reader].  [unpark] and [swap] of [waiter.h] take the other side out of
    the waiter once it waits; while they do, that side does not run, so they are
    one step each.

    [_reader] points to the [ret] of the [read()] in progress; when that call
    returns without clearing it, it dangles.  Each end calls [close()] once, when
    it is destroyed, and makes no call after it.

    The control of the two sides is finite: the invariant is found by exploring
    all the states in which the values are left out, and carried over to the
    real ones. *)

From S2P Require Import Prelude.

Inductive side := Reader | Writer.
#[global] Instance side_eq_dec : EqDecision side.
Proof. solve_decision. Defined.

(** What [_reader] holds. *)
Inductive rptr := RNull | RLive | RDead.
#[global] Instance rptr_eq_dec : EqDecision rptr.
Proof. solve_decision. Defined.

(** Where the reader is. *)
Inductive rpc :=
| RIdle
| RAssert                       (* assert(_reader == nullptr) *)
| RSet                          (* _reader = &ret *)
| RClosed                       (* if (_closed.load()) *)
| RParkCas | RParkCheck | RParkUndo | RParkWait | RParked      (* park_if *)
| RWoken                        (* assert(_reader == nullptr) after the park *)
| RWake | RUnpark               (* while (_waiter && !_waiter.unpark()) yield() *)
| RSwap | RSwapParked           (* _waiter.swap() *)
| RReturn                       (* after the swap *)
| RCloseStore | RCloseNull | RCloseWake | RCloseUnpark | RGone.   (* close() *)
#[global] Instance rpc_eq_dec : EqDecision rpc.
Proof. solve_decision. Defined.

(** The assertions and accesses that can fail. *)
Inductive wfault :=
| ReadAssert        (* read(): _reader == nullptr, at its start *)
| WokenAssert       (* read(): _reader == nullptr, after the park *)
| WriteAssert       (* write(): _reader != nullptr *)
| BadEmplace        (* _reader->emplace through a null or dangling pointer *)
| Overwrite.        (* ... over a value nobody has taken *)
#[global] Instance wfault_eq_dec : EqDecision wfault.
Proof. solve_decision. Defined.

Section window.
Context {T : Type}.

(** Where the writer is; [u] is the value it was given. *)
Inductive wpc :=
| WIdle
| WClosed (u : T)                                   (* if (_closed.load()) *)
| WParkCas (u : T) | WParkCheck (u : T) | WParkUndo (u : T) | WParkWait (u : T) | WParked (u : T)
| WWoken (u : T)                                    (* if (_closed.load()) after the park *)
| WRefuse (u : T)                                   (* _reader = nullptr; return t *)
| WAssert (u : T)                                   (* assert(_reader != nullptr) *)
| WEmplace (u : T) | WNull                          (* emplace; _reader = nullptr *)
| WSwap | WSwapParked                               (* while (!_waiter.swap()) yield() *)
| WTestWaiter (u : T) | WTestReader (u : T)         (* else if (_waiter && _reader != nullptr) *)
| WEmplace2 (u : T) | WNull2                        (* emplace; _reader = nullptr *)
| WWake | WUnpark                                   (* while (_waiter && !_waiter.unpark()) yield() *)
| WReturn                                           (* return nullopt *)
| WCloseStore | WCloseNull | WCloseWake | WCloseUnpark | WGone.

Record window := mkWindow {
  w_closed : bool;
  w_reader : rptr;
  w_waiter : option side;
  w_ret : option T;
  w_r : rpc;
  w_w : wpc
}.

Definition window_init : window := mkWindow false RNull None None RIdle WIdle.

(** What is seen of a step from outside. *)
Inductive obs :=
| Offered (u : T)               (* write(u) is called *)
| Accepted (u : T)              (* its value is put into the reader's [ret] *)
| Refused (u : T)               (* it is handed back *)
| Returned (v : option T).      (* read() returns *)

Inductive next := Blocked | Fault (f : wfault) | Next (s : window) (o : option obs).

Definition set_r (p : rpc) (s : window) : window :=
  mkWindow (w_closed s) (w_reader s) (w_waiter s) (w_ret s) p (w_w s).
Definition set_w (p : wpc) (s : window) : window :=
  mkWindow (w_closed s) (w_reader s) (w_waiter s) (w_ret s) (w_r s) p.
Definition set_waiter (v : option side) (s : window) : window :=
  mkWindow (w_closed s) (w_reader s) v (w_ret s) (w_r s) (w_w s).
Definition set_reader (v : rptr) (s : window) : window :=
  mkWindow (w_closed s) v (w_waiter s) (w_ret s) (w_r s) (w_w s).
Definition set_closed (s : window) : window :=
  mkWindow true (w_reader s) (w_waiter s) (w_ret s) (w_r s) (w_w s).

Definition step (s : window) : next := Next s None.

(** [read()] returns: its [ret] is gone, and a pointer to it dangles. *)
Definition read_returns (s : window) : next :=
  Next (mkWindow (w_closed s) (match w_reader s with RLive => RDead | p => p end) (w_waiter s)
          None RIdle (w_w s))
    (Some (Returned (w_ret s))).

(** The writer is taken out of the waiter when it waits there, and [v] put in. *)
Definition take_writer (v : option side) (s : window) : option window :=
  match w_waiter s, w_w s with
  | Some Writer, WParked u => Some (set_w (WWoken u) (set_waiter v s))
  | Some Writer, WSwapParked => Some (set_w WReturn (set_waiter v s))
  | _, _ => None
  end.

Definition take_reader (v : option side) (s : window) : option window :=
  match w_waiter s, w_r s with
  | Some Reader, RParked => Some (set_r RWoken (set_waiter v s))
  | Some Reader, RSwapParked => Some (set_r RReturn (set_waiter v s))
  | _, _ => None
  end.

Definition step_r (s : window) : next :=
  match w_r s with
  | RIdle | RParked | RSwapParked | RGone => Blocked
  | RAssert => match w_reader s with RNull => step (set_r RSet s) | _ => Fault ReadAssert end
  | RSet => step (set_r RClosed (set_reader RLive s))
  | RClosed => if w_closed s then read_returns s else step (set_r RParkCas s)
  | RParkCas =>
      match w_waiter s with
      | None => step (set_r RParkCheck (set_waiter (Some Reader) s))
      | Some _ => step (set_r RSwap s)
      end
  | RParkCheck => step (set_r (if w_closed s then RParkUndo else RParkWait) s)
  | RParkUndo => step (set_r RSwap (set_waiter None s))
  | RParkWait => step (set_r RParked s)
  | RWoken => match w_reader s with RNull => step (set_r RWake s) | _ => Fault WokenAssert end
  | RWake => match w_waiter s with Some _ => step (set_r RUnpark s) | None => read_returns s end
  | RUnpark =>
      match take_writer None s with
      | Some s' => read_returns s'
      | None => step (set_r RWake s)
      end
  | RSwap =>
      match take_writer (Some Reader) s with
      | Some s' => step (set_r RSwapParked s')
      | None => step (set_r RClosed s)
      end
  | RReturn => read_returns s
  | RCloseStore => step (set_r RCloseNull (set_closed s))
  | RCloseNull => step (set_r RCloseWake (set_reader RNull s))
  | RCloseWake => step (set_r (match w_waiter s with Some _ => RCloseUnpark | None => RGone end) s)
  | RCloseUnpark =>
      match take_writer None s with
      | Some s' => step (set_r RGone s')
      | None => step (set_r RCloseWake s)
      end
  end.

(** [_reader->emplace(u)] *)
Definition emplace (u : T) (p : wpc) (s : window) : next :=
  match w_reader s, w_ret s with
  | RLive, None =>
      Next (mkWindow (w_closed s) (w_reader s) (w_waiter s) (Some u) (w_r s) p) (Some (Accepted u))
  | RLive, Some _ => Fault Overwrite
  | _, _ => Fault BadEmplace
  end.

Definition step_w (s : window) : next :=
  match w_w s with
  | WIdle | WParked _ | WSwapParked | WGone => Blocked
  | WClosed u =>
      if w_closed s then Next (set_w WIdle s) (Some (Refused u)) else step (set_w (WParkCas u) s)
  | WParkCas u =>
      match w_waiter s with
      | None => step (set_w (WParkCheck u) (set_waiter (Some Writer) s))
      | Some _ => step (set_w (WTestWaiter u) s)
      end
  | WParkCheck u => step (set_w (if w_closed s then WParkUndo u else WParkWait u) s)
  | WParkUndo u => step (set_w (WTestWaiter u) (set_waiter None s))
  | WParkWait u => step (set_w (WParked u) s)
  | WWoken u => step (set_w (if w_closed s then WRefuse u else WAssert u) s)
  | WRefuse u => Next (set_w WIdle (set_reader RNull s)) (Some (Refused u))
  | WAssert u => match w_reader s with RNull => Fault WriteAssert | _ => step (set_w (WEmplace u) s) end
  | WEmplace u => emplace u WNull s
  | WNull => step (set_w WSwap (set_reader RNull s))
  | WSwap =>
      match take_reader (Some Writer) s with
      | Some s' => step (set_w WSwapParked s')
      | None => step s
      end
  | WTestWaiter u =>
      step (set_w (match w_waiter s with Some _ => WTestReader u | None => WClosed u end) s)
  | WTestReader u =>
      step (set_w (match w_reader s with RNull => WClosed u | _ => WEmplace2 u end) s)
  | WEmplace2 u => emplace u WNull2 s
  | WNull2 => step (set_w WWake (set_reader RNull s))
  | WWake => step (set_w (match w_waiter s with Some _ => WUnpark | None => WReturn end) s)
  | WUnpark =>
      match take_reader None s with
      | Some s' => step (set_w WReturn s')
      | None => step (set_w WWake s)
      end
  | WReturn => step (set_w WIdle s)
  | WCloseStore => step (set_w WCloseNull (set_closed s))
  | WCloseNull => step (set_w WCloseWake (set_reader RNull s))
  | WCloseWake => step (set_w (match w_waiter s with Some _ => WCloseUnpark | None => WGone end) s)
  | WCloseUnpark =>
      match take_reader None s with
      | Some s' => step (set_w WGone s')
      | None => step (set_w WCloseWake s)
      end
  end.

(** What happens next: a side steps, or one that is idle makes a call. *)
Inductive event := StepR | StepW | CallRead | CallWrite (u : T) | CloseR | CloseW.

Definition act (e : event) (s : window) : next :=
  match e with
  | StepR => step_r s
  | StepW => step_w s
  | CallRead => match w_r s with RIdle => step (set_r RAssert s) | _ => Blocked end
  | CallWrite u =>
      match w_w s with WIdle => Next (set_w (WClosed u) s) (Some (Offered u)) | _ => Blocked end
  | CloseR => match w_r s with RIdle => step (set_r RCloseStore s) | _ => Blocked end
  | CloseW => match w_w s with WIdle => step (set_w WCloseStore s) | _ => Blocked end
  end.

(** A run: the state and what was seen, or the fault and the state before it. *)
Fixpoint acts (es : list event) (s : window) (tr : list obs) : (window * list obs) * option wfault :=
  match es with
  | [] => (s, tr, None)
  | e :: es' =>
      match act e s with
      | Next s' o => acts es' s' (tr ++ option_list o)
      | Blocked => acts es' s tr
      | Fault f => (s, tr, Some f)
      end
  end.

(** The values in what was seen. *)
Definition accepted (tr : list obs) : list T :=
  omap (λ o, match o with Accepted u => Some u | _ => None end) tr.
Definition received (tr : list obs) : list T :=
  omap (λ o, match o with Returned v => v | _ => None end) tr.
Definition offered (tr : list obs) : list T :=
  omap (λ o, match o with Offered u => Some u | _ => None end) tr.
Definition refused (tr : list obs) : list T :=
  omap (λ o, match o with Refused u => Some u | _ => None end) tr.

(** The value of a [write()] in progress that is in nobody's hands yet. *)
Definition pending (p : wpc) : option T :=
  match p with
  | WClosed u | WParkCas u | WParkCheck u | WParkUndo u | WParkWait u | WParked u | WWoken u
  | WRefuse u | WAssert u | WEmplace u | WTestWaiter u | WTestReader u | WEmplace2 u => Some u
  | _ => None
  end.

End window.
Arguments wpc : clear implicits.
Arguments window : clear implicits.
Arguments obs : clear implicits.
Arguments next : clear implicits.
Arguments event : clear implicits.

(** ** Leaving the values out *)

Definition pc_map {A B} (f : A → B) (p : wpc A) : wpc B :=
  match p with
  | WIdle => WIdle | WClosed u => WClosed (f u) | WParkCas u => WParkCas (f u)
  | WParkCheck u => WParkCheck (f u) | WParkUndo u => WParkUndo (f u)
  | WParkWait u => WParkWait (f u) | WParked u => WParked (f u) | WWoken u => WWoken (f u)
  | WRefuse u => WRefuse (f u) | WAssert u => WAssert (f u) | WEmplace u => WEmplace (f u)
  | WNull => WNull | WSwap => WSwap | WSwapParked => WSwapParked
  | WTestWaiter u => WTestWaiter (f u) | WTestReader u => WTestReader (f u)
  | WEmplace2 u => WEmplace2 (f u) | WNull2 => WNull2 | WWake => WWake | WUnpark => WUnpark
  | WReturn => WReturn | WCloseStore => WCloseStore | WCloseNull => WCloseNull
  | WCloseWake => WCloseWake | WCloseUnpark => WCloseUnpark | WGone => WGone
  end.

Definition window_map {A B} (f : A → B) (s : window A) : window B :=
  mkWindow (w_closed s) (w_reader s) (w_waiter s) (f <$> w_ret s) (w_r s) (pc_map f (w_w s)).

Definition obs_map {A B} (f : A → B) (o : obs A) : obs B :=
  match o with
  | Offered u => Offered (f u) | Accepted u => Accepted (f u)
  | Refused u => Refused (f u) | Returned v => Returned (f <$> v)
  end.

Definition next_map {A B} (f : A → B) (n : next A) : next B :=
  match n with
  | Blocked => Blocked | Fault x => Fault x | Next s o => Next (window_map f s) (obs_map f <$> o)
  end.

Definition event_map {A B} (f : A → B) (e : event A) : event B :=
  match e with
  | StepR => StepR | StepW => StepW | CallRead => CallRead | CallWrite u => CallWrite (f u)
  | CloseR => CloseR | CloseW => CloseW
  end.

(** No step looks at a value. *)
Lemma act_map {A B} (f : A → B) e s :
  act (event_map f e) (window_map f s) = next_map f (act e s).
Proof.
  destruct s as [c r wt ret pr pw]. destruct e; simpl.
  - destruct pr; try done; destruct c, r, wt as [[]|], pw; try done; by destruct ret.
  - destruct pw; try done; destruct c, r, wt as [[]|], pr; try done; by destruct ret.
  - by destruct pr.
  - by destruct pw.
  - by destruct pr.
  - by destruct pw.
Qed.

#[global] Instance wpc_eq_dec `{EqDecision A} : EqDecision (wpc A).
Proof. solve_decision. Defined.
#[global] Instance window_eq_dec `{EqDecision A} : EqDecision (window A).
Proof. solve_decision. Defined.

(** ** All the states of the control *)

Definition control : Type := window ().
Definition all_events : list (event ()) := [StepR; StepW; CallRead; CallWrite (); CloseR; CloseW].

Definition successors (c : control) : list control :=
  omap (λ e, match act e c with Next c' _ => Some c' | _ => None end) all_events.

(** Breadth first; [seen] contains [todo]. *)
Fixpoint explore (fuel : nat) (todo seen : list control) : list control :=
  match fuel, todo with
  | S n, c :: rest =>
      let new := remove_dups (filter (λ c', c' ∉ seen) (successors c)) in
      explore n (rest ++ new) (new ++ seen)
  | _, _ => seen
  end.

Definition control_states : list control := explore 500 [window_init] [window_init].

(** The faults that remain: [read()] asserts after a close, [write()] asserts. *)
Definition fault_ok (closed : bool) (f : wfault) : bool :=
  match f with ReadAssert => closed | WriteAssert => true | _ => false end.

(** What is checked of a step: it stays within the explored states, only these
    faults occur, and a [read()] returns nothing, or a value is handed back, only
    when the channel is closed. *)
Definition control_next_ok (c : control) (e : event ()) : bool :=
  match act e c with
  | Blocked => true
  | Fault f => fault_ok (w_closed c) f
  | Next c' o =>
      bool_decide (c' ∈ control_states) &&
      match o with Some (Returned None | Refused _) => w_closed c | _ => true end
  end.

Lemma control_closed : forallb (λ c, forallb (control_next_ok c) all_events) control_states = true.
Proof. vm_compute. reflexivity. Qed.

Lemma control_step c e :
  c ∈ control_states → control_next_ok c e = true.
Proof.
  intros Hc. pose proof control_closed as H. rewrite forallb_forall in H.
  specialize (H c (proj1 (list_elem_of_In _ _) Hc)). rewrite forallb_forall in H.
  apply H. destruct e as [| | |[]| |]; simpl; tauto.
Qed.

(** ** The invariant *)

Definition erase {T} : T → () := λ _, ().

Section invariant.
Context {T : Type}.
Implicit Types (s : window T) (e : event T) (tr : list (obs T)).

Record window_ok s tr : Prop := {
  ok_control : window_map erase s ∈ control_states;
  ok_order : accepted tr = received tr ++ option_list (w_ret s);
  ok_offered : offered tr ≡ₚ accepted tr ++ refused tr ++ option_list (pending (w_w s))
}.

Lemma window_init_ok : window_ok window_init [].
Proof. split; [|done..]. apply (bool_decide_unpack _). by vm_compute. Qed.

(** A step one knows the outcome of, by cases on the control. *)
Ltac act_cases s e H :=
  destruct s as [c r wt ret pr pw]; destruct e; simpl in H;
  [destruct pr|destruct pw|destruct pr|destruct pw|destruct pr|destruct pw]; try done;
  unfold step_r, step_w, step, read_returns, emplace, take_writer, take_reader in H; simpl in H;
  repeat (case_match; simplify_eq; try done); simplify_eq; try done.

(** The values, step by step: what is accepted goes through [ret] to the reader,
    what is offered is accepted, handed back, or pending. *)
Lemma act_order e s s' o :
  act e s = Next s' o →
  option_list (w_ret s) ++ accepted (option_list o) =
  received (option_list o) ++ option_list (w_ret s').
Proof.
  intros H. act_cases s e H; simpl; rewrite ?app_nil_r; try done;
  by destruct ret.
Qed.

Lemma act_offered e s s' o :
  act e s = Next s' o →
  offered (option_list o) ++ option_list (pending (w_w s)) =
  accepted (option_list o) ++ refused (option_list o) ++ option_list (pending (w_w s')).
Proof. intros H. by act_cases s e H. Qed.

Lemma perm_step {A} (x x' a a' r r' p p' : list A) :
  x ≡ₚ a ++ r ++ p → x' ++ p = a' ++ r' ++ p' → x ++ x' ≡ₚ (a ++ a') ++ (r ++ r') ++ p'.
Proof.
  intros -> He. rewrite <- !app_assoc, (Permutation_app_comm p x'), He.
  apply Permutation_app_head, Permutation_app_swap_app.
Qed.

Lemma act_ok e s s' o tr :
  window_ok s tr → act e s = Next s' o → window_ok s' (tr ++ option_list o).
Proof.
  intros [Hc Hord Hoff] H. split.
  - pose proof (control_step _ (event_map erase e) Hc) as Hn. unfold control_next_ok in Hn.
    rewrite act_map, H in Hn. cbn [next_map] in Hn. apply andb_prop in Hn as [Hn _].
    by apply bool_decide_eq_true in Hn.
  - unfold accepted, received in *. rewrite !omap_app, Hord, <- app_assoc.
    rewrite <- app_assoc. f_equal. by eapply act_order.
  - unfold accepted, refused, offered in *. rewrite !omap_app.
    eapply perm_step; [exact Hoff|]. by eapply act_offered.
Qed.

Lemma acts_ok es s tr :
  window_ok s tr →
  let '(s', tr', f) := acts es s tr in
  window_ok s' tr' ∧ match f with Some f => fault_ok (w_closed s') f = true | None => True end.
Proof.
  revert s tr. induction es as [|e es IH]; intros s tr Hok; simpl; [done|].
  destruct (act e s) as [|f|s' o] eqn:E.
  - by apply IH.
  - split; [done|]. pose proof (control_step _ (event_map erase e) (ok_control _ _ Hok)) as Hn.
    unfold control_next_ok in Hn. by rewrite act_map, E in Hn.
  - apply IH. by eapply act_ok.
Qed.

End invariant.

(** ** Properties *)

(** The window hands values over one at a time, in order: whatever the
    interleaving of the reader, the writer and the timer, the values accepted
    from [write()] are those [read()] returned, in the same order, and the one
    that is in the [ret] of the running [read()] if any; a value offered is
    accepted once, handed back, or still with the running [write()].  No value is
    written through a null or dangling pointer or over another, the assertion
    after a park never fails, and [read()] asserts only after a close. *)
Theorem window_rendezvous {T} (es : list (event T)) :
  let '(s, tr, f) := acts es window_init [] in
  accepted tr = received tr ++ option_list (w_ret s) ∧
  offered tr ≡ₚ accepted tr ++ refused tr ++ option_list (pending (w_w s)) ∧
  match f with
  | Some f => f = ReadAssert ∧ w_closed s = true ∨ f = WriteAssert
  | None => True
  end.
Proof.
  pose proof (acts_ok es window_init [] window_init_ok) as H.
  destruct (acts es window_init []) as [[s tr] f]. destruct H as [[_ Hord Hoff] Hf].
  split_and!; [done|done|]. destruct f as [[]|]; simpl in Hf; auto; done.
Qed.

(** [read()] returns nothing only when the channel was closed. *)
Theorem window_end_of_stream {T} (es : list (event T)) e s tr s' :
  acts es window_init [] = (s, tr, None) → act e s = Next s' (Some (Returned None)) →
  w_closed s = true.
Proof.
  intros Hrun Hact. pose proof (acts_ok es window_init [] window_init_ok) as H.
  rewrite Hrun in H. destruct H as [[Hc _ _] _].
  pose proof (control_step _ (event_map erase e) Hc) as Hn. unfold control_next_ok in Hn.
  rewrite act_map, Hact in Hn. cbn [next_map] in Hn. by apply andb_prop in Hn as [_ Hn].
Qed.

(** ** Runs *)

Definition reader {T} (n : nat) : list (event T) := replicate n StepR.
Definition writer {T} (n : nat) : list (event T) := replicate n StepW.

(** The reader parks; the writer hands the value 1 over, wakes it, and parks with
    the value 2; the reader wakes the writer on its way out. *)
Definition woken_without_reader : list (event Z) :=
  CallRead :: reader 6 ++ CallWrite 1 :: writer 9 ++ CallWrite 2 :: writer 4 ++ reader 3 ++ writer 2.

(** A writer that is woken by the reader before the next [read()] fails its
    assertion: the reader wakes whoever has parked in the meantime, although
    it has nothing to take a value with. *)
Theorem window_write_asserts :
  (acts woken_without_reader window_init []).2 = Some WriteAssert ∧
  received (acts woken_without_reader window_init []).1.2 = [1].
Proof. by vm_compute. Qed.

(** The second [read()] from a closed channel fails its assertion: the
    first one leaves [_reader] pointing to a [ret] that is gone. *)
Theorem window_read_asserts :
  let '(s, tr, f) :=
    acts (CloseW :: writer 3 ++ CallRead :: reader 3 ++ CallRead :: reader 1) window_init [] in
  f = Some ReadAssert ∧ tr = [Returned (T := Z) None] ∧ w_reader s = RDead.
Proof. by vm_compute. Qed.
