(* ===== verification/WindowProgress.v ===== *)
(** * Every meeting in the channel window ends

    When the reader and the writer are both inside a call, one of the calls ends
    whatever the order of their steps, as long as neither side is left out for
    good.  The states of the control are ordered in layers: in each state one
    side is due, its next step leads to a lower layer or ends a call, and no step
    of the other side leads up or changes whose turn it is.  The layers are
    computed from the explored states. *)

From S2P Require Import Prelude ChannelWindow.

Definition rbusy (p : rpc) : bool := match p with RIdle | RGone => false | _ => true end.
Definition wbusy {T} (p : wpc T) : bool := match p with WIdle | WGone => false | _ => true end.

(** The calls in progress. *)
Definition calls {T} (s : window T) : nat :=
  Nat.b2n (rbusy (w_r s)) + Nat.b2n (wbusy (w_w s)).

(** A side that reads or writes, and another one to meet: it is in a call too,
    or has closed its end. *)
Definition engaged {T} (s : window T) : bool :=
  match w_r s, w_w s with
  | RIdle, _ | _, WIdle => false
  | RGone, (WGone | WCloseStore | WCloseNull | WCloseWake | WCloseUnpark) => false
  | (RCloseStore | RCloseNull | RCloseWake | RCloseUnpark),
    (WGone | WCloseStore | WCloseNull | WCloseWake | WCloseUnpark) => false
  | _, _ => true
  end.

Definition step_of {T} (p : side) : event T := match p with Reader => StepR | Writer => StepW end.
Definition other (p : side) : side := match p with Reader => Writer | Writer => Reader end.

(** ** The layers *)

Definition leads (blocked : bool) (p : side) (below : list control) (c : control) : bool :=
  match act (step_of p) c with
  | Blocked => blocked
  | Fault _ => true
  | Next c' _ => (calls c' <? calls c)%nat || bool_decide (c' ∈ below)
  end.

(** The states of [layer] that the other side cannot leave upwards. *)
Fixpoint settle (fuel : nat) (p : side) (below layer : list control) : list control :=
  match fuel with
  | O => layer
  | S n =>
      let layer' := List.filter (leads true (other p) (below ++ layer)) layer in
      if (length layer' =? length layer)%nat then layer else settle n p below layer'
  end.

Fixpoint layers (fuel : nat) (below todo : list control) : list (side * list control) :=
  match fuel, todo with
  | S n, _ :: _ =>
      let lr := settle (length todo) Reader below (List.filter (leads false Reader below) todo) in
      let lw := settle (length todo) Writer below (List.filter (leads false Writer below) todo) in
      let '(p, l) := if (length lw <=? length lr)%nat then (Reader, lr) else (Writer, lw) in
      (p, l) :: layers n (l ++ below) (List.filter (λ c, negb (bool_decide (c ∈ l))) todo)
  | _, _ => []
  end.

Definition all_layers : list (side * list control) :=
  layers 50 [] (List.filter engaged control_states).

Fixpoint find_layer (k : nat) (l : list (side * list control)) (c : control) : option (nat * side) :=
  match l with
  | [] => None
  | (p, layer) :: l' => if bool_decide (c ∈ layer) then Some (k, p) else find_layer (S k) l' c
  end.
Definition rank (c : control) : option (nat * side) := find_layer 0 all_layers c.

Definition bound : nat := 23.

(** The step the side [p] has to make. *)
Definition due {T} (e : event T) (p : side) : bool :=
  match e, p with StepR, Reader | StepW, Writer => true | _, _ => false end.

(** Below: a lower layer, or the same one and the other side has stepped. *)
Definition descends (e : event ()) (k : nat) (p : side) (c' : control) : bool :=
  match rank c' with
  | Some (k', p') => (k' <? k)%nat || (bool_decide (k' = k ∧ p' = p) && negb (due e p))
  | None => false
  end.

Definition descent_ok (c : control) (e : event ()) : bool :=
  negb (engaged c) ||
  match rank c with
  | None => false
  | Some (k, p) => (k <? bound)%nat &&
      match act e c with
      | Blocked => negb (due e p)
      | Fault _ => true
      | Next c' _ => (calls c' <? calls c)%nat ||
          (engaged c' && (calls c' =? calls c)%nat && descends e k p c')
      end
  end.

Lemma descent_checked : forallb (λ c, forallb (descent_ok c) all_events) control_states = true.
Proof. vm_compute. reflexivity. Qed.

#[local] Opaque rank control_states.

(** ** The descent *)

Section progress.
Context {T : Type}.
Implicit Types (s : window T) (e : event T) (tr : list (obs T)).

(** [s] can be reached, its sides are to meet, and it is in the layer [k], where
    [p] is due. *)
Record descending s (k : nat) (p : side) : Prop := {
  de_state : window_map erase s ∈ control_states;
  de_engaged : engaged s = true;
  de_rank : rank (window_map erase s) = Some (k, p)
}.

Lemma engaged_erase s : engaged (window_map erase s) = engaged s.
Proof. by destruct s as [???? [] []]. Qed.
Lemma calls_erase s : calls (window_map erase s) = calls s.
Proof. by destruct s as [???? [] []]. Qed.
Lemma due_erase e p : due (event_map erase e) p = due e p.
Proof. by destruct e, p. Qed.

Lemma descent_of s e :
  window_map erase s ∈ control_states → engaged s = true →
  descent_ok (window_map erase s) (event_map erase e) = true.
Proof.
  intros Hs _. pose proof descent_checked as H. rewrite forallb_forall in H.
  specialize (H _ (proj1 (list_elem_of_In _ _) Hs)). rewrite forallb_forall in H.
  apply H. destruct e; simpl; tauto.
Qed.

Lemma descending_start s :
  window_map erase s ∈ control_states → engaged s = true →
  ∃ k p, descending s k p ∧ (k < bound)%nat.
Proof.
  intros Hs He. pose proof (descent_of s StepR Hs He) as H. unfold descent_ok in H.
  rewrite engaged_erase, He in H. cbn [negb orb] in H.
  destruct (rank (window_map erase s)) as [[k p]|] eqn:Hr; [|done].
  apply andb_prop in H as [Hk _]. apply Nat.ltb_lt in Hk.
  exists k, p. split; [|exact Hk]. constructor; assumption.
Qed.

(** One event: nothing happens and nobody was due, an assertion fails, a call
    ends, or the state descends. *)
Lemma descending_step s k p e :
  descending s k p →
  match act e s with
  | Blocked => due e p = false
  | Fault _ => True
  | Next s' _ => (calls s' < calls s)%nat ∨ calls s' = calls s ∧
      ∃ k' p', descending s' k' p' ∧ ((k' < k)%nat ∨ k' = k ∧ p' = p ∧ due e p = false)
  end.
Proof.
  intros [Hs He Hr]. pose proof (descent_of s e Hs He) as H.
  pose proof (control_step _ (event_map erase e) Hs) as Hc. unfold control_next_ok in Hc.
  unfold descent_ok in H. rewrite engaged_erase, He, Hr, act_map in H. rewrite act_map in Hc.
  apply andb_prop in H as [_ H]. destruct (act e s) as [|f|s' o]; cbn [next_map] in *; [|done|].
  - rewrite due_erase in H. apply negb_true_iff. exact H.
  - rewrite !calls_erase, engaged_erase in H. apply andb_prop in Hc as [Hc _].
    apply bool_decide_eq_true in Hc. apply orb_prop in H as [H|H]; [left; by apply Nat.ltb_lt|].
    right. apply andb_prop in H as [H Hd]. apply andb_prop in H as [He' Hn].
    apply Nat.eqb_eq in Hn. split; [done|]. unfold descends in Hd.
    destruct (rank (window_map erase s')) as [[k' p']|] eqn:Hr'; [|done].
    exists k', p'. split; [constructor; assumption|]. apply orb_prop in Hd as [Hd|Hd]; [left; by apply Nat.ltb_lt|].
    right. apply andb_prop in Hd as [[-> ->]%bool_decide_eq_true Hd].
    rewrite due_erase in Hd. apply negb_true_iff in Hd. split; [reflexivity|]. split; [reflexivity|exact Hd].
Qed.

(** Within [es] a call ends or an assertion fails. *)
Definition ends (es : list (event T)) s : Prop :=
  ∃ es1 es2, es = es1 ++ es2 ∧ ∀ tr, let '(s1, _, f) := acts es1 s tr in
    (calls s1 < calls s)%nat ∨ is_Some f.

Lemma ends_app es es' s : ends es s → ends (es ++ es') s.
Proof. intros (es1 & es2 & -> & H). exists es1, (es2 ++ es'). by rewrite app_assoc. Qed.

Lemma ends_cons e es s :
  match act e s with
  | Blocked => ends es s
  | Fault _ => True
  | Next s' _ => (calls s' < calls s)%nat ∨ calls s' = calls s ∧ ends es s'
  end → ends (e :: es) s.
Proof.
  destruct (act e s) as [|f|s' o] eqn:E.
  - intros (es1 & es2 & -> & H). exists (e :: es1), es2. split; [done|]. simpl. by rewrite E.
  - intros _. exists [e], es. split; [done|]. intros tr. simpl. rewrite E. right. eauto.
  - intros [Hlt|[Heq (es1 & es2 & -> & H)]].
    + exists [e], es. split; [done|]. intros tr. simpl. rewrite E. by left.
    + exists (e :: es1), es2. split; [done|]. intros tr. simpl. rewrite E, <-Heq. apply H.
Qed.

(** The steps of a round: a call ends, or it is passed in a lower layer, or in
    the same one and the side that is due has not stepped. *)
Lemma round_descends rest es : ∀ s k p,
  descending s k p →
  (∀ s' k' p', calls s' = calls s → descending s' k' p' →
     (k' < k)%nat ∨ k' = k ∧ p' = p ∧ Forall (λ e, due e p = false) es → ends rest s') →
  ends (es ++ rest) s.
Proof.
  induction es as [|e es IH]; intros s k p Hd Hrest; [by apply (Hrest s k p); auto|].
  apply ends_cons. pose proof (descending_step s k p e Hd) as H.
  destruct (act e s) as [|f|s' o] eqn:E; [|done|].
  - apply (IH s k p Hd). intros s' k' p' Hn Hd' Hor. apply (Hrest s' k' p' Hn Hd').
    destruct Hor as [?|(? & ? & ?)]; auto.
  - destruct H as [H|(Hn & k' & p' & Hd' & Hor)]; [by left|right]. split; [done|].
    apply (IH s' k' p' Hd'). intros s2 k2 p2 Hn2 Hd2 Hor2. apply (Hrest s2 k2 p2); [congruence|done|].
    destruct Hor as [?|(-> & -> & ?)], Hor2 as [?|(-> & -> & ?)]; auto; left; lia.
Qed.

(** Both sides step in each round. *)
Definition fair (r : list (event T)) : Prop := StepR ∈ r ∧ StepW ∈ r.

Lemma fair_due r p : fair r → ¬ Forall (λ e, due e p = false) r.
Proof.
  intros [Hr Hw] Hall. rewrite Forall_forall in Hall.
  destruct p; [by specialize (Hall _ Hr)|by specialize (Hall _ Hw)].
Qed.

Lemma rounds_end rs : ∀ s k p,
  Forall fair rs → descending s k p → (k < length rs)%nat → ends (concat rs) s.
Proof.
  induction rs as [|r rs IH]; intros s k p Hf Hd Hk; simpl in *; [lia|].
  apply Forall_cons in Hf as [Hr Hf]. apply (round_descends _ _ s k p Hd).
  intros s' k' p' Hn Hd' [Hlt|(_ & _ & Hnone)].
  - apply (IH s' k' p'); [done..|lia].
  - by apply fair_due in Hnone.
Qed.

(** C9.  Meetings end.  In every state that can be reached in which one side is
    inside [read()] or [write()] and the other is inside a call or has closed
    its end, 23 rounds are enough for a call to end or an assertion to fail,
    where a round is any sequence of events in which both sides step: there
    is no deadlock, no wake-up is lost, and the loops around [unpark], [swap]
    and [yield] do not run for ever. *)
Theorem window_progress (es : list (event T)) s tr (rs : list (list (event T))) :
  acts es window_init [] = (s, tr, None) → engaged s = true →
  Forall fair rs → length rs = 23%nat →
  ∃ es1 es2, concat rs = es1 ++ es2 ∧
    let '(s1, _, f) := acts es1 s tr in (calls s1 < calls s)%nat ∨ is_Some f.
Proof.
  intros Hrun He Hf Hlen. pose proof (acts_ok es window_init [] window_init_ok) as H.
  rewrite Hrun in H. destruct H as [[Hc _ _] _].
  destruct (descending_start s Hc He) as (k & p & Hd & Hk).
  destruct (rounds_end rs s k p Hf Hd) as (es1 & es2 & Heq & H); [by rewrite Hlen|].
  exists es1, es2. split; [done|apply H].
Qed.

End progress.
