(* ===== verification/WindowMonitor.v ===== *)
(** * The channel window is a monitor

    Its capacity is 1: a value is inside from the moment it is put into the
    [ret] of a [read()] until that call returns. *)

From S2P Require Import Prelude ChannelWindow Monitor.

Section window.
Context {T : Type}.
Implicit Types (s : window T) (e : event T).

(** What an event does to the channel. *)
Definition window_label e s (o : option (obs T)) : list (label T) :=
  match o with
  | Some (Accepted u) => [LPut u]
  | Some (Refused u) => [LRefuse u]
  | Some (Returned (Some v)) => [LGet v]
  | Some (Returned None) => [LEnd]
  | Some (Offered _) => []
  | None =>
      match e, w_r s, w_w s with
      | StepR, RCloseStore, _ | StepW, _, WCloseStore => [LClose]
      | _, _, _ => []
      end
  end.

Definition window_act e s : option (window T * list (label T)) :=
  match act e s with
  | Next s' o => Some (s', window_label e s o)
  | Blocked => Some (s, [])
  | Fault _ => None
  end.

Definition window_abs s : chan T := mkChan (option_list (w_ret s)) (w_closed s).

Definition explored s : Prop := window_map erase s ∈ control_states.

(** What the exploration tells of a step. *)
Lemma explored_step e s s' o :
  explored s → act e s = Next s' o →
  explored s' ∧ (o = Some (Returned None) ∨ (∃ u, o = Some (Refused u)) → w_closed s = true).
Proof.
  intros Hs H. pose proof (control_step _ (event_map erase e) Hs) as Hn.
  unfold control_next_ok in Hn. rewrite act_map, H in Hn. cbn [next_map] in Hn.
  apply andb_prop in Hn as [Hin Hn]. apply bool_decide_eq_true in Hin. split; [exact Hin|].
  intros [->|[u ->]]; exact Hn.
Qed.

Lemma window_step_abs e s s' o :
  explored s → act e s = Next s' o →
  chan_steps 1 (window_abs s) (window_label e s o) (window_abs s').
Proof.
  intros Hs H. destruct (explored_step e s s' o Hs H) as [_ Hcl]. clear Hs.
  unfold window_abs. destruct s as [c r wt ret pr pw]. simpl in *.
  destruct e; simpl in H; [destruct pr|destruct pw|destruct pr|destruct pw|destruct pr|destruct pw];
    try done;
    unfold step_r, step_w, step, read_returns, emplace, take_writer, take_reader in H; simpl in H;
    repeat (case_match; simplify_eq; try done); simplify_eq; simpl;
    try (by constructor);
    try (rewrite Hcl by eauto); try (by apply chan_steps_one; constructor);
    try (destruct ret; simpl in *; try (rewrite Hcl by eauto); by apply chan_steps_one; constructor);
    apply chan_steps_one, (do_put 1 u []); simpl; lia.
Qed.

#[export] Instance window_monitor : Monitor T 1.
Proof.
  refine {| m_state := window T; m_event := event T; m_init := window_init; m_act := window_act;
            m_abs := window_abs; m_ok := explored |}.
  - exact (ok_control (T := T) _ _ window_init_ok).
  - done.
  - intros e s s' ls Hs H. unfold window_act in H. destruct (act e s) as [|f|s1 o] eqn:E; [|done|];
      injection H as <- <-; [split; [exact Hs|constructor]|].
    split; [by eapply explored_step|by apply window_step_abs].
Defined.

(** C8.  The channel window implements the abstract channel of capacity 1: the
    trace of every run, up to the first failed assertion, is a trace of the
    abstract channel that ends in what is in the [ret] of the running [read()]. *)
Theorem window_refines_channel (es : list (event T)) :
  let '(s, ls) := m_run (M := window_monitor) es window_init in
  chan_steps 1 chan_init ls (window_abs s).
Proof.
  pose proof (m_run_refines (M := window_monitor) es window_init
    (m_init_ok (Monitor := window_monitor))) as H.
  destruct (m_run (M := window_monitor) es window_init) as [s ls]. apply H.
Qed.

End window.
