(* ===== verification/WindowStream.v ===== *)
(** * The stream of integers through an unbuffered channel

    bench_channel_sending_ints: without the timer the two ends meet in the same
    way for ever, two values at a time, and no assertion of the window fails
    (with it they do: [window_write_asserts] and [window_read_asserts]). *)

From S2P Require Import Prelude ChannelWindow Monitor WindowMonitor ChannelClient.

Abbreviation WM := (window_monitor (T := Z)).

#[export] Instance window_ends : Ends WM.
Proof.
  refine {|
    call_read := CallRead : @m_event _ _ WM; call_write u := CallWrite u;
    close_read := CloseR; close_write := CloseW;
    step_read := StepR; step_write := StepW;
    idle_r s := match w_r s with RIdle | RGone => true | _ => false end;
    idle_w s := match w_w s with WIdle | WGone => true | _ => false end;
    parked_r s := match w_r s with RParked | RSwapParked => true | _ => false end;
    parked_w s := match w_w s with WParked _ | WSwapParked => true | _ => false end;
    yields_r s :=
      match w_r s, take_writer None s with RUnpark, None | RCloseUnpark, None | RSwap, None => true
      | _, _ => false end;
    yields_w s :=
      match w_w s, take_reader None s with WUnpark, None | WCloseUnpark, None | WSwap, None => true
      | WTestWaiter _, _ => match w_waiter s with None => true | Some _ => false end
      | WTestReader _, _ => match w_reader s with RNull => true | _ => false end
      | _, _ => false end
  |}.
Defined.

Definition bench_channel_sending_ints (n : nat) (es : list bool) : option (bench WM) :=
  coop es (bench_start n).

(** ** Where the program comes back to its loop *)

Section stream.
Implicit Types (k : nat) (i : Z) (vals : list Z).

(** The reader has not begun; it waits in [swap()] for the next value; or it has
    a value and was woken. *)
Definition at_start k i : bench WM := mkBench window_init Sender i (SLoop k) GCall [].
Definition waiting k i vals : bench WM :=
  mkBench (mkWindow false RLive (Some Reader) None RSwapParked WIdle) Sender i (SLoop k)
    (GRead None) vals.
Definition fetched k i vals (v : Z) : bench WM :=
  mkBench (mkWindow false RNull None (Some v) RReturn WIdle) Sender i (SLoop k) (GRead None) vals.
Definition at_end i vals : bench WM :=
  mkBench (mkWindow true RNull None None RGone WGone) Sender i SDone GDone vals.

Definition leads (bound : nat) (s s' : bench WM) : Prop :=
  ∃ j, nsteps tick j s s' ∧ (j ≤ bound)%nat.

Lemma leads_trans j j' s1 s2 s3 : leads j s1 s2 → leads j' s2 s3 → leads (j + j') s1 s3.
Proof.
  intros (a & Ha & ?) (a' & Ha' & ?). exists (a + a')%nat. split; [by eapply nsteps_trans|lia].
Qed.

Lemma leads_le j j' s s' : leads j s s' → (j ≤ j')%nat → leads j' s s'.
Proof. intros (a & Ha & ?) ?. exists a. split; [done|lia]. Qed.

(** Execute the steps up to a given state. *)
Ltac ticks :=
  eexists; split;
  [ repeat first [eapply nsteps_O | eapply nsteps_l; [split; [reflexivity|intros; cbn; reflexivity]|]]
  | lia ].

Lemma first_write k i :
  leads 60 (at_start (S k) i) (waiting k ((i + 1) mod two32) [int_of_unsigned i]).
Proof. ticks. Qed.

(** The second value of a pair goes straight to the reader that waits. *)
Lemma write_waiting k i vals :
  leads 60 (waiting (S k) i vals) (fetched k ((i + 1) mod two32) vals (int_of_unsigned i)).
Proof. ticks. Qed.

(** The writer waits for the reader to come back. *)
Lemma write_fetched k i vals v :
  leads 60 (fetched (S k) i vals v) (waiting k ((i + 1) mod two32) ((vals ++ [v]) ++ [int_of_unsigned i])).
Proof. ticks. Qed.

Lemma close_start i : leads 60 (at_start 0 i) (at_end i []).
Proof. ticks. Qed.
Lemma close_waiting i vals : leads 60 (waiting 0 i vals) (at_end i vals).
Proof. ticks. Qed.
Lemma close_fetched i vals v : leads 60 (fetched 0 i vals v) (at_end i (vals ++ [v])).
Proof. ticks. Qed.

(** From either state of the loop, with [k] rounds to come. *)
Lemma rest_of_stream n k : (k ≤ n)%nat →
  let i := Z.of_nat (n - k) mod two32 in
  leads (60 * k + 60) (waiting k i (ints (n - k))) (at_end (Z.of_nat n mod two32) (ints n)) ∧
  ∀ vals v, vals ++ [v] = ints (n - k) →
    leads (60 * k + 60) (fetched k i vals v) (at_end (Z.of_nat n mod two32) (ints n)).
Proof.
  induction k as [|k IH]; intros Hk i; subst i.
  - rewrite Nat.sub_0_r. split; [apply close_waiting|]. intros vals v <-. apply close_fetched.
  - destruct (next_int n k) as [Hv Hi]; [lia|]. destruct IH as [IHw IHf]; [lia|]. simpl in IHw, IHf.
    split; [|intros vals v Hvals]; replace (60 * S k + 60)%nat with (60 + (60 * k + 60))%nat by lia.
    + eapply leads_trans; [apply write_waiting|]. rewrite Hi. by apply IHf.
    + eapply leads_trans; [apply write_fetched|]. by rewrite Hi, Hvals, Hv.
Qed.

End stream.

(** C16.  A stream of integers through an unbuffered channel arrives.  With the
    timer off, the benchmark with any number [n] of rounds comes to its end in
    at most [60 * n + 60] steps, whomever the scheduler elects: no assertion of
    the window fails, the read end has delivered the [n] integers in the order
    in which they were written, and the stream has ended after them. *)
Theorem unbuffered_stream_arrives n es :
  (60 * n + 60 ≤ length es)%nat →
  delivered n (bench_channel_sending_ints n es).
Proof.
  intros Hlen. exists (at_end (Z.of_nat n mod two32) (ints n)). split; [|done].
  assert (leads (60 * n + 60) (at_start n 0) (at_end (Z.of_nat n mod two32) (ints n))) as (j & Hj & ?).
  { destruct n as [|k]; [apply close_start|].
    replace (60 * S k + 60)%nat with (60 + (60 * k + 60))%nat by lia.
    eapply leads_trans; [apply first_write|].
    destruct (next_int (S k) k) as [Hv Hi]; [lia|]. rewrite Nat.sub_diag in Hv, Hi.
    destruct (rest_of_stream (S k) k) as [Hw _]; [lia|]. rewrite <-Hv, <-Hi in Hw. exact Hw. }
  unfold bench_channel_sending_ints. rewrite (coop_ticks _ _ _ _ Hj) by lia.
  by destruct (drop j es).
Qed.
