(* ===== verification/TimeOrderedQueue.v ===== *)
(** * sched/internal/time_ordered_queue: values with the time they get ripe

    The [std::multimap] is its list of elements in key order; elements with
    the same key keep the order of their insertion. *)

From S2P Require Import Prelude.

Section queue.
Context {T : Type}.

(** [_q.emplace(ripe, u)]: at the upper end of the range of equal keys. *)
Fixpoint toq_push (ripe : Z) (u : T) (q : list (Z * T)) : list (Z * T) :=
  match q with
  | [] => [(ripe, u)]
  | (k, v) :: q' => if ripe <? k then (ripe, u) :: q else (k, v) :: toq_push ripe u q'
  end.

Definition toq_empty (q : list (Z * T)) : bool :=
  match q with [] => true | _ => false end.

(** [pop(&ripe)] at time [now]: the ripe time of the first element, the element
    when it is taken and the remaining queue.  [None] is the dereference of
    [begin()] of an empty map. *)
Definition toq_pop (now : Z) (q : list (Z * T)) : option (Z * option T * list (Z * T)) :=
  match q with
  | [] => None
  | (ripe, t) :: q' =>
      if now <=? ripe then Some (ripe, Some t, q') else Some (ripe, None, q)
  end.

(** What the comment on [pop] promises: an element whose time has come. *)
Definition toq_pop_documented (now : Z) (q : list (Z * T)) : option (Z * option T * list (Z * T)) :=
  match q with
  | [] => None
  | (ripe, t) :: q' =>
      if ripe <=? now then Some (ripe, Some t, q') else Some (ripe, None, q)
  end.

(** The queue invariant: keys in ascending order. *)
Definition toq_ok (q : list (Z * T)) : Prop := StronglySorted Z.le q.*1.

Lemma toq_push_perm ripe u q : toq_push ripe u q ≡ₚ (ripe, u) :: q.
Proof.
  induction q as [|[k v] q IH]; simpl; [done|].
  destruct (ripe <? k); [done|]. rewrite IH. apply Permutation_swap.
Qed.

Lemma toq_push_ok ripe u q : toq_ok q → toq_ok (toq_push ripe u q).
Proof.
  unfold toq_ok. induction q as [|[k v] q IH]; simpl; intros Hs.
  - repeat constructor.
  - apply StronglySorted_inv in Hs as [Hs Hall].
    destruct (Z.ltb_spec ripe k); simpl.
    + constructor; [by constructor|]. constructor; [lia|].
      eapply Forall_impl; [done|]. intros; lia.
    + constructor; [by apply IH|].
      assert ((toq_push ripe u q).*1 ≡ₚ ripe :: q.*1) as ->.
      { by rewrite toq_push_perm. }
      by constructor.
Qed.


(** ** Properties *)

(** [push] puts the element behind all the elements that are ripe at the
    same time or earlier and before all that are ripe later: the queue stays in
    the order of the ripe times, and elements with the same ripe time stay in
    the order in which they were pushed. *)
Theorem push_stable ripe u q :
  toq_ok q →
  ∃ l1 l2, q = l1 ++ l2 ∧ toq_push ripe u q = l1 ++ (ripe, u) :: l2 ∧
    Forall (λ e, e.1 ≤ ripe) l1 ∧ Forall (λ e, ripe < e.1) l2 ∧ toq_ok (toq_push ripe u q).
Proof.
  intros Hok. assert (toq_ok (toq_push ripe u q)) as Hok' by (by apply toq_push_ok).
  assert (∃ l1 l2, q = l1 ++ l2 ∧ toq_push ripe u q = l1 ++ (ripe, u) :: l2 ∧
    Forall (λ e, e.1 ≤ ripe) l1 ∧ Forall (λ e, ripe < e.1) l2) as (l1 & l2 & H); [|by exists l1, l2; destruct_and?].
  clear Hok'. revert Hok. unfold toq_ok. induction q as [|[k v] q IH]; simpl; intros Hs.
  - by exists [], [].
  - apply StronglySorted_inv in Hs as [Hs Hall]. destruct (Z.ltb_spec ripe k).
    + exists [], ((k, v) :: q). split_and!; [done..|]. constructor; [done|].
      apply Forall_forall. intros [k' v'] Hin. rewrite Forall_forall in Hall.
      simpl. enough (k ≤ k') by lia. apply Hall.
      apply list_elem_of_fmap. by exists (k', v').
    + destruct (IH Hs) as (l1 & l2 & -> & -> & H1 & H2).
      exists ((k, v) :: l1), l2. split_and!; [done..| |done]. by constructor.
Qed.

(** Where [pop] parts from its description: at any other moment than the
    very ripe time of the first element, it hands that element out exactly when
    the description says it should be kept, and the reverse. *)
Theorem pop_inverted now ripe (u : T) q :
  now ≠ ripe →
  toq_pop now ((ripe, u) :: q) ≠ toq_pop_documented now ((ripe, u) :: q) ∧
  (toq_pop now ((ripe, u) :: q) = Some (ripe, Some u, q) ↔ now < ripe).
Proof.
  intros Hne. unfold toq_pop, toq_pop_documented.
  destruct (Z.leb_spec now ripe), (Z.leb_spec ripe now); try lia; split; try congruence; split; intros; lia || congruence.
Qed.

End queue.
