(* ===== verification/Rq.v ===== *)
(** * sched/internal/rq: the run queue and the sleep queue

    The multiset of the tasks that can run is its list of elements in the order
    of [time_ordered_compare]: by [vruntime], then by address.  The comparator
    reads [vruntime] through the pointers at every comparison, so the order is
    relative to the heap. *)

From S2P Require Import Prelude Platform World Task TimeOrderedQueue.

(** ** The multiset of runnable tasks *)

Definition vruntime_of (ts : gmap Z task) (p : Z) : option Z := t_vruntime <$> ts !! p.

(** [time_ordered_compare]: [None] when one of the pointers is invalid. *)
Definition time_ordered_compare (ts : gmap Z task) (a b : Z) : option bool :=
  va ← vruntime_of ts a;
  vb ← vruntime_of ts b;
  Some (if bool_decide (va ≠ vb) then va <? vb else a <? b).

(** [_runqueue.emplace(x)]: behind the elements that are not after [x]. *)
Fixpoint emplace (ts : gmap Z task) (x : Z) (l : list Z) : option (list Z) :=
  match l with
  | [] => Some [x]
  | y :: l' =>
      before ← time_ordered_compare ts x y;
      if (before : bool) then Some (x :: l) else cons y <$> emplace ts x l'
  end.

Definition runqueue_emplace (x : Z) : P () :=
  w ← gets id;
  l ← need (undefined "comparison through an invalid task pointer")
        (emplace (w_tasks w) x (w_runqueue w));
  modify (set_runqueue l).

Section rq.
Context {E : Env}.

(** ** Clock readings *)

Definition read_system_clock : P Z :=
  n ← gets w_system_reads; modify (set_system_reads (S n));; mret (system_now n).

Definition read_thread_clock : P Z :=
  n ← gets w_thread_reads; modify (set_thread_reads (S n));; mret (thread_clock_now n).

(** ** Operations *)

Definition push (t : Z) : P () := runqueue_emplace t.

(** [sleep_push] looks at the current task, not at its argument. *)
Definition sleep_push (t sleep_duration : Z) : P () :=
  now ← read_system_clock;
  let earliest_wake_time := now + sleep_duration in
  cur ← current;
  write cur (set_run_state WAITING);;
  q ← gets w_sleepqueue;
  modify (set_sleepqueue (toq_push earliest_wake_time cur q)).

(** [_sleepqueue.pop(&next_runnable)]: 0 is the default-constructed [task*]. *)
Definition sleepqueue_pop : P (Z * Z) :=
  now ← read_system_clock;
  q ← gets w_sleepqueue;
  r ← need (undefined "begin() of an empty map") (toq_pop now q);
  modify (set_sleepqueue r.2);;
  mret (r.1.1, default 0 r.1.2).

(** Refill the multiset before an element is taken from it. *)
Definition pop_refill (idle_thunk : Z → P ()) : P () :=
  sleepers ← gets w_sleepqueue;
  runnable ← gets w_runqueue;
  if toq_empty sleepers then
    match runnable with
    | [] => log_fatal "nothing to do. deadlock?"
    | _ => mret ()
    end
  else
    r ← sleepqueue_pop;
    let '(next_runnable, sleeper) := (r : Z * Z) in
    if bool_decide (sleeper ≠ 0) then runqueue_emplace sleeper
    else match runnable with
         | [] =>
             idle_thunk next_runnable;;
             now ← read_system_clock;
             assert (next_runnable <=? now) "now() >= next_runnable";;
             runqueue_emplace sleeper
         | _ => mret ()
         end.

(** [*_runqueue.begin()] and its erasure, and the new [_min_vruntime]. *)
Definition pop_take : P Z :=
  runnable ← gets w_runqueue;
  match runnable with
  | [] => stuck (undefined "begin() of an empty set")
  | next_task :: rest =>
      modify (set_runqueue rest);;
      t ← deref next_task;
      m ← gets w_min_vruntime;
      (if m <? t_vruntime t then modify (set_min_vruntime (t_vruntime t)) else mret ());;
      mret next_task
  end.

Definition pop (idle_thunk : Z → P ()) : P Z := pop_refill idle_thunk;; pop_take.

End rq.

(** ** The order of the run queue *)

(** [a] comes before [b]: strictly, in the lexicographic order on
    ([vruntime], address). *)
Definition before (ts : gmap Z task) (a b : Z) : Prop :=
  ∃ ta tb, ts !! a = Some ta ∧ ts !! b = Some tb ∧
    (t_vruntime ta < t_vruntime tb ∨ (t_vruntime ta = t_vruntime tb ∧ a < b)).

Definition rq_sorted (ts : gmap Z task) (l : list Z) : Prop := StronglySorted (before ts) l.

Lemma before_trans ts a b c : before ts a b → before ts b c → before ts a c.
Proof.
  intros (ta & tb & Ha & Hb & H1) (tb' & tc & Hb' & Hc & H2). simplify_eq.
  exists ta, tc. split_and!; [done..|]. lia.
Qed.

Lemma before_irrefl ts a : ¬ before ts a a.
Proof. intros (ta & tb & Ha & Hb & H). simplify_eq. lia. Qed.

Lemma before_total ts a b ta tb :
  ts !! a = Some ta → ts !! b = Some tb → a ≠ b → before ts a b ∨ before ts b a.
Proof.
  intros Ha Hb Hne.
  destruct (Z.lt_trichotomy (t_vruntime ta) (t_vruntime tb)) as [?|[?|?]].
  - left. exists ta, tb. auto.
  - destruct (Z.lt_total a b) as [?|[?|?]]; [left|done|right].
    + exists ta, tb. auto.
    + exists tb, ta. auto.
  - right. exists tb, ta. auto.
Qed.

Lemma compare_spec ts a b ta tb :
  ts !! a = Some ta → ts !! b = Some tb →
  ∃ r, time_ordered_compare ts a b = Some r ∧ (r = true ↔ before ts a b).
Proof.
  intros Ha Hb. unfold time_ordered_compare, vruntime_of. rewrite Ha, Hb. simpl.
  eexists. split; [done|]. case_bool_decide as Hv.
  - rewrite Z.ltb_lt. split.
    + intros ?. exists ta, tb. auto.
    + intros (? & ? & ? & ? & ?). simplify_eq. lia.
  - rewrite Z.ltb_lt. split.
    + intros ?. exists ta, tb. auto.
    + intros (? & ? & ? & ? & ?). simplify_eq. lia.
Qed.

(** The order only depends on the [vruntime] of the tasks involved. *)
Lemma before_ext ts ts' a b :
  t_vruntime <$> ts !! a = t_vruntime <$> ts' !! a →
  t_vruntime <$> ts !! b = t_vruntime <$> ts' !! b →
  before ts a b → before ts' a b.
Proof.
  intros Ha Hb (ta & tb & Hta & Htb & H). rewrite Hta in Ha. rewrite Htb in Hb. simpl in *.
  symmetry in Ha, Hb.
  apply fmap_Some in Ha as (ta' & ? & Ea). apply fmap_Some in Hb as (tb' & ? & Eb).
  exists ta', tb'. rewrite <-Ea, <-Eb. auto.
Qed.

Lemma StronglySorted_impl_in {A} (R R' : A → A → Prop) l :
  (∀ x y, x ∈ l → y ∈ l → R x y → R' x y) → StronglySorted R l → StronglySorted R' l.
Proof.
  induction l as [|a l IH]; intros Himpl Hs; [constructor|].
  apply StronglySorted_inv in Hs as [Hs Hall]. constructor.
  - apply IH; [|done]. intros x y Hx Hy. apply Himpl; by right.
  - apply Forall_forall. intros x Hx. rewrite Forall_forall in Hall.
    apply Himpl; [by left|by right|]. by apply Hall.
Qed.

#[export] Instance before_antisymm ts : AntiSymm (=) (before ts).
Proof. intros x y Hxy Hyx. by destruct (before_irrefl ts x (before_trans ts x y x Hxy Hyx)). Qed.

(** The order leaves no choice. *)
Lemma rq_sorted_unique ts l l' : rq_sorted ts l → rq_sorted ts l' → l ≡ₚ l' → l = l'.
Proof. apply StronglySorted_unique. apply _. Qed.

Lemma rq_sorted_ext ts ts' l :
  (∀ x, x ∈ l → t_vruntime <$> ts !! x = t_vruntime <$> ts' !! x) →
  rq_sorted ts l → rq_sorted ts' l.
Proof.
  intros Heq. apply StronglySorted_impl_in. intros x y Hx Hy. apply before_ext; auto.
Qed.

(** [emplace] of a live task into a queue of live tasks succeeds, adds exactly
    that task and keeps the order. *)
Lemma emplace_spec ts x l :
  is_Some (ts !! x) → (∀ y, y ∈ l → is_Some (ts !! y)) → x ∉ l → rq_sorted ts l →
  ∃ l', emplace ts x l = Some l' ∧ l' ≡ₚ x :: l ∧ rq_sorted ts l'.
Proof.
  intros [tx Hx]. induction l as [|y l IH]; intros Hlive Hni Hs.
  { exists [x]. split_and!; [done..|]. repeat constructor. }
  apply StronglySorted_inv in Hs as [Hs Hall].
  destruct (Hlive y) as [ty Hy]; [by left|].
  destruct (compare_spec ts x y tx ty Hx Hy) as (r & Hr & Hspec). simpl. rewrite Hr. simpl.
  destruct r.
  - exists (x :: y :: l). split_and!; [done..|].
    assert (before ts x y) by (by apply Hspec).
    constructor; [by constructor|]. constructor; [done|].
    eapply Forall_impl; [exact Hall|]. intros z Hz. by eapply before_trans.
  - destruct IH as (l' & -> & Hp & Hs').
    { intros z Hz. apply Hlive. by right. }
    { intros ?. apply Hni. by right. }
    { done. }
    exists (y :: l'). split_and!; [done| |].
    + rewrite Hp. apply Permutation_swap.
    + constructor; [done|]. rewrite Hp. constructor; [|done].
      destruct (before_total ts x y tx ty) as [?|?]; [done..| | |done].
      * intros ->. apply Hni. by left.
      * assert (false = true) by (by apply Hspec). done.
Qed.

(** The head of the queue is the minimum. *)
Lemma rq_sorted_head ts x l y : rq_sorted ts (x :: l) → y ∈ l → before ts x y.
Proof.
  intros Hs Hy. apply StronglySorted_inv in Hs as [_ Hall].
  rewrite Forall_forall in Hall. by apply Hall.
Qed.
