(* ===== verification/Freelist.v ===== *)
(** * sched/internal/task_freelist.cc: reuse of finished tasks

    The mutex of the list is only ever taken and released around straight-line
    code, so an operation is one step. *)

From S2P Require Import Prelude Platform World Task.

(** The match [find_task] looks for. *)
Definition fits (a : attr) (t : task) : bool :=
  bool_decide (stack_size a = stack_size_of t) && Bool.eqb (alloc_tls a) (has_tls t).

(** [find_task]: the first fitting task and the list without it; [None] when a
    pointer in the list is invalid. *)
Fixpoint find_task (ts : gmap Z task) (a : attr) (l : list Z) : option (Z * list Z) :=
  match l with
  | [] => Some (0, [])
  | i :: l' =>
      t ← ts !! i;
      if fits a t then Some (i, l')
      else r ← find_task ts a l'; Some (r.1, i :: r.2)
  end.

(** The order [insert_task] keeps: [t] goes in front of [i]. *)
Definition goes_before (t i : task) : bool :=
  (stack_size_of i <=? stack_size_of t) && (has_tls t || negb (has_tls i)).

Fixpoint insert_task (ts : gmap Z task) (p : Z) (l : list Z) : option (list Z) :=
  match l with
  | [] => Some [p]
  | i :: l' =>
      t ← ts !! p;
      ti ← ts !! i;
      if goes_before t ti then Some (p :: l) else cons i <$> insert_task ts p l'
  end.

Section freelist.
Context {E : Env}.

Definition make_task (a : attr) : P Z :=
  w ← gets id;
  r ← need (undefined "invalid task pointer in the free list")
        (find_task (w_tasks w) a (fl_l (w_freelist w)));
  modify (set_freelist r.2);;
  if bool_decide (r.1 ≠ 0) then reset r.1;; mret r.1 else create a.

Definition return_task (p : Z) : P () :=
  w ← gets id;
  if Z.of_nat (length (fl_l (w_freelist w))) <? fl_max_size (w_freelist w) then
    l ← need (undefined "invalid task pointer in the free list")
          (insert_task (w_tasks w) p (fl_l (w_freelist w)));
    modify (set_freelist l)
  else destroy p.

End freelist.

(** ** What the list functions compute *)

(** [find_task] takes the first fitting task, or nothing when none fits. *)
Lemma find_task_spec ts a l :
  (∀ p, p ∈ l → is_Some (ts !! p)) →
  (∃ p l1 l2 t, l = l1 ++ p :: l2 ∧ ts !! p = Some t ∧ fits a t = true ∧
     (∀ q tq, q ∈ l1 → ts !! q = Some tq → fits a tq = false) ∧
     find_task ts a l = Some (p, l1 ++ l2)) ∨
  ((∀ q tq, q ∈ l → ts !! q = Some tq → fits a tq = false) ∧ find_task ts a l = Some (0, l)).
Proof.
  induction l as [|i l IH]; intros Hlive.
  { right. split; [|done]. intros q tq Hq. by apply elem_of_nil in Hq. }
  destruct (Hlive i) as [ti Hi]; [by left|]. simpl. rewrite Hi. simpl.
  destruct (fits a ti) eqn:Hf.
  { left. exists i, [], l, ti. split_and!; [done..| |done].
    intros q tq Hq. by apply elem_of_nil in Hq. }
  destruct IH as [(p & l1 & l2 & t & -> & Ht & Hfit & Hnone & ->)|[Hnone ->]].
  - intros p Hp. apply Hlive. by right.
  - left. exists p, (i :: l1), l2, t. split_and!; [done..| |done].
    intros q tq [->|Hq]%elem_of_cons Htq; [congruence|eauto].
  - right. split; [|done]. intros q tq [->|Hq]%elem_of_cons Htq; [congruence|eauto].
Qed.

Lemma insert_task_spec ts p l :
  is_Some (ts !! p) → (∀ q, q ∈ l → is_Some (ts !! q)) →
  ∃ l', insert_task ts p l = Some l' ∧ l' ≡ₚ p :: l.
Proof.
  intros [t Ht]. induction l as [|i l IH]; intros Hlive; [by exists [p]|].
  destruct (Hlive i) as [ti Hi]; [by left|]. simpl. rewrite Ht, Hi. simpl.
  destruct (goes_before t ti); [eauto|].
  destruct IH as (l' & -> & Hp). { intros q Hq. apply Hlive. by right. }
  exists (i :: l'). split; [done|]. rewrite Hp. apply Permutation_swap.
Qed.

(** ** The order of the list *)

(** [j] would be a better choice than [i] for any request that [i] is large
    enough for. *)
Definition outranks (ts : gmap Z task) (j i : Z) : Prop :=
  ∃ tj ti, ts !! j = Some tj ∧ ts !! i = Some ti ∧
    stack_size_of ti < stack_size_of tj ∧ (has_tls tj || negb (has_tls ti)) = true.

(** No task in the list outranks one in front of it. *)
Definition fl_ordered (ts : gmap Z task) (l : list Z) : Prop :=
  StronglySorted (λ i j, ¬ outranks ts j i) l.

(** What goes before a task outranks whatever that task outranks. *)
Lemma outranks_through ts p t i ti j :
  ts !! p = Some t → ts !! i = Some ti → goes_before t ti = true →
  outranks ts j p → outranks ts j i.
Proof.
  intros Hp Hi Hg (tj & t' & Hj & Hp' & Hsz & Htls). assert (t' = t) as -> by congruence.
  unfold goes_before in Hg. apply andb_true_iff in Hg as [Hg1 Hg2]. apply Z.leb_le in Hg1.
  exists tj, ti. split_and!; [done..|lia|]. by destruct (has_tls tj), (has_tls t), (has_tls ti).
Qed.

Lemma not_before_not_outranks ts p t i ti :
  ts !! p = Some t → ts !! i = Some ti → goes_before t ti = false → ¬ outranks ts p i.
Proof.
  intros Hp Hi Hg (t' & ti' & Hp' & Hi' & Hsz & Htls).
  assert (t' = t) as -> by congruence. assert (ti' = ti) as -> by congruence.
  unfold goes_before in Hg. apply andb_false_iff in Hg as [Hg|Hg]; [|congruence].
  apply Z.leb_gt in Hg. lia.
Qed.

(** Returning a task keeps the free list ordered: no task ever stands in
    front of one with the same kind of thread-local block and a larger stack. *)
Theorem insert_task_ordered ts p l :
  is_Some (ts !! p) → (∀ q, q ∈ l → is_Some (ts !! q)) → fl_ordered ts l →
  ∃ l', insert_task ts p l = Some l' ∧ l' ≡ₚ p :: l ∧ fl_ordered ts l'.
Proof.
  intros [t Ht]. induction l as [|i l IH]; intros Hlive Ho.
  { exists [p]. split_and!; [done..|]. repeat constructor. }
  destruct (Hlive i) as [ti Hi]; [by left|]. simpl. rewrite Ht, Hi. simpl.
  pose proof Ho as Ho'. apply StronglySorted_inv in Ho' as [Hol Hall].
  destruct (goes_before t ti) eqn:Hg.
  - exists (p :: i :: l). split_and!; [done..|]. constructor; [done|].
    assert (∀ j, ¬ outranks ts j i → ¬ outranks ts j p) as Hthru.
    { intros j Hno Hj. by apply Hno, (outranks_through ts p t i ti). }
    constructor.
    + intros (ti' & t' & Hi' & Ht' & Hsz & _). unfold goes_before in Hg.
      apply andb_true_iff in Hg as [Hg _]. apply Z.leb_le in Hg.
      assert (ti' = ti) as -> by congruence. assert (t' = t) as -> by congruence. lia.
    + eapply Forall_impl; [exact Hall|]. by apply Hthru.
  - destruct IH as (l' & -> & Hp & Ho'); [by intros q Hq; apply Hlive; right|done|].
    exists (i :: l'). split_and!; [done| |].
    + rewrite Hp. apply Permutation_swap.
    + constructor; [done|]. rewrite Hp. constructor; [|done].
      by eapply not_before_not_outranks.
Qed.

(** A request is served with the first listed task that fits it, and a
    new task is made only when none fits: the task handed out is removed from
    the list and the others keep their places. *)
Theorem find_task_first_fit ts a l :
  (∀ p, p ∈ l → is_Some (ts !! p)) →
  ∃ r, find_task ts a l = Some r ∧
    ((∃ l1 l2 t, l = l1 ++ r.1 :: l2 ∧ r.2 = l1 ++ l2 ∧ ts !! r.1 = Some t ∧ fits a t = true ∧
        ∀ q tq, q ∈ l1 → ts !! q = Some tq → fits a tq = false) ∨
     (r = (0, l) ∧ ∀ q tq, q ∈ l → ts !! q = Some tq → fits a tq = false)).
Proof.
  intros Hlive. destruct (find_task_spec ts a l Hlive)
    as [(p & l1 & l2 & t & -> & Ht & Hf & Hno & ->)|[Hno ->]].
  - exists (p, l1 ++ l2). split; [done|]. left. by exists l1, l2, t.
  - exists (0, l). split; [done|]. by right.
Qed.
