(* ===== verification/SchedNode.v ===== *)
(** * sched/sched_node.cc and sched/preempt.cc: the scheduler of one kernel
    thread and the lock that keeps the timer from preempting a task *)

From S2P Require Import Prelude Platform World Task TimeOrderedQueue Rq Freelist.

(** ** [sched_node::spin_lock] *)

(** One compare-exchange of the flag. *)
Definition spin_try_lock : P bool :=
  n ← gets w_node;
  if nd_spin_lock n then mret false else modify (set_spin_lock true);; mret true.

(** [lock()] repeats [try_lock] until it succeeds.  The holder runs on the same
    kernel thread, so a failed try never succeeds later. *)
Definition spin_lock : P () :=
  ok ← spin_try_lock; if (ok : bool) then mret () else stuck spin_forever.

Definition spin_unlock : P () := modify (set_spin_lock false).

(** ** The node of the running context *)

(** [sched_node::current() != nullptr] *)
Definition sched_node_current : P bool :=
  fs ← gets w_fs; b ← tls_deref fs; mret (tb_node b).

(** [g_current_sched_node = this], the thunk of every switch *)
Definition set_current_node : P () :=
  fs ← gets w_fs; b ← tls_deref fs;
  modify (upd_tls <[fs := mkTlsBlock (tb_thread b) true]>).

Section node.
Context {E : Env}.

(** [start_async()]; [start()] begins in the same way. *)
Definition start_async : P () :=
  set_current_node;;
  now ← read_thread_clock;
  modify (set_last_tick now);;
  wrap_current host_task;;
  n ← gets w_node;
  if nd_running n then log_fatal "sched_node was already running"
  else modify (set_running true).

(** While idling, the lock is released and the kernel thread sleeps. *)
Definition idle_thunk (wake_time : Z) : P () :=
  spin_unlock;;
  n ← gets w_system_reads;
  modify (set_system_reads (sleep_until n wake_time));;
  spin_lock.

(** The time slice that ends now is added to the task that used it. *)
Definition charge (cur : Z) : P () :=
  now ← read_thread_clock;
  n ← gets w_node;
  t ← deref cur;
  write cur (set_vruntime (t_vruntime t + to_microseconds (now - nd_last_tick n))).

Definition get_next_task (cur : Z) : P Z :=
  charge cur;;
  t ← deref cur;
  (if bool_decide (t_run_state t = RUNNING) then push cur
   else if bool_decide (t_run_state t = STOPPED) && t_detached t
   then modify (set_deferred cur) else mret ());;
  next_task ← pop idle_thunk;
  now ← read_thread_clock;
  modify (set_last_tick now);;
  mret next_task.

(** The deferred return of a finished task. *)
Definition return_deferred : P () :=
  n ← gets w_node;
  if bool_decide (nd_deferred n ≠ 0) then
    return_task (nd_deferred n);; modify (set_deferred 0)
  else mret ().

Definition yield_locked : P flow :=
  return_deferred;;
  cur ← current;
  next_task ← get_next_task cur;
  if bool_decide (next_task ≠ cur) then
    spin_unlock;;
    and_then (switch_to_internal next_task set_current_node) spin_lock FRelockSpin
  else mret Returned.

(** [sched_node::yield] *)
Definition node_yield : P flow :=
  n ← gets w_node;
  if nd_running n then guarded spin_lock spin_unlock FUnlockSpin yield_locked
  else mret Returned.

(** [sched_node::yield_for] *)
Definition node_yield_for (duration : Z) : P flow :=
  cur ← current;
  spin_lock;;
  write cur (set_run_state WAITING);;
  sleep_push cur duration;;
  spin_unlock;;
  node_yield.

(** The check at the end of [start]: the host task only runs again once the
    node was stopped. *)
Definition start_check : P () :=
  n ← gets w_node;
  if nd_running n then log_fatal "control resumed in host task before sched_node stopped"
  else mret ().

(** [sched_node::start] *)
Definition node_start : P flow :=
  start_async;;
  write host_task (set_run_state WAITING);;
  and_then node_yield start_check FStart.

(** [sched_node::schedule] *)
Definition schedule (p : Z) : P () :=
  spin_lock;;
  t ← deref p;
  m ← gets w_min_vruntime;
  (if bool_decide (t_vruntime t = 0) then write p (set_vruntime m) else mret ());;
  push p;;
  spin_unlock.

(** [sched_node::switch_to] *)
Definition node_switch_to (p : Z) : P flow :=
  spin_lock;;
  now ← read_thread_clock;
  cur ← current;
  n ← gets w_node;
  t ← deref cur;
  write cur (set_vruntime (t_vruntime t + to_microseconds (now - nd_last_tick n)));;
  modify (set_last_tick now);;
  spin_unlock;;
  switch_to_internal p set_current_node.

(** ** [preempt_mutex] *)

Definition preempt_lock : P () :=
  cur ← current;
  t ← deref cur;
  assert (negb (t_no_preempt_flag t)) "succ";;
  write cur (set_no_preempt_flag true).

Definition preempt_unlock : P () :=
  cur ← current;
  t ← deref cur;
  assert (t_no_preempt_flag t) "succ";;
  write cur (set_no_preempt_flag false).

(** [preempt_mutex::node()] *)
Definition preempt_node : P () :=
  set ← sched_node_current; assert set "node != nullptr".

(** [std::lock_guard<preempt_mutex>] around a call on the node *)
Definition with_preempt_lock (m : P flow) : P flow :=
  guarded preempt_lock preempt_unlock FUnlockPreempt (preempt_node;; m).

(** The function the alarm runs on each tick. *)
Definition trap : P flow :=
  set ← sched_node_current;
  if (set : bool) then
    cur ← current;
    t ← deref cur;
    if t_no_preempt_flag t then mret Returned else with_preempt_lock node_yield
  else mret Returned.

End node.

(** ** platform/alarm.cc and the timer of sched/preempt.cc *)

Section alarm.
Context {E : Env}.

(** [it_value] and [it_interval] *)
Definition itimer_fields (usec : Z) : Z * Z := (Z.quot usec 1000000, Z.rem usec 1000000).

Definition set_interval_internal (usec : Z) : P () :=
  let '(sec, rest) := itimer_fields usec in
  match setitimer sec rest with
  | None => mret ()
  | Some errno => throw (system_error errno)
  end.

Definition set_interval_impl (usec : Z) : P () :=
  set_interval_internal usec;;
  modify (λ w, set_alarm (mkAlarm (al_trap (w_alarm w)) usec (al_signal (w_alarm w))
                            (al_armed (w_alarm w))) w).

(** [std::chrono::duration<Rep, Period>]: a number of ticks of [num / den]
    seconds; [duration_cast] to microseconds rounds towards zero. *)
Record duration := mkDuration { d_count : Z; d_num : Z; d_den : Z }.
Definition milliseconds (n : Z) : duration := mkDuration n 1 1000.
Definition to_usec (d : duration) : Z := Z.quot (d_count d * d_num d * 1000000) (d_den d).

(** [alarm::set_interval] *)
Definition set_interval (interval : duration) : P () := set_interval_impl (to_usec interval).

Definition clear_interval : P () := set_interval_impl 0.

(** [alarm::set_trap]: the signal handler is installed with the first trap. *)
Definition set_trap : P () :=
  modify (λ w, let a := w_alarm w in
    set_alarm (mkAlarm true (al_interval a) (al_signal a || negb (al_trap a)) (al_armed a)) w).

(** 50 milliseconds, in microseconds *)
Definition preempt_interval : Z := to_usec (milliseconds 50).

Definition enable_timer_preemption : P () :=
  a ← gets w_alarm;
  (if al_armed a then mret ()
   else modify (λ w, set_alarm (mkAlarm (al_trap a) (al_interval a) (al_signal a) true) w);;
        set_trap);;
  set_interval (milliseconds 50).

Definition disable_timer_preemption : P () := clear_interval.

(** [alarm::alarm_handler] calls the trap when one is set. *)
Definition alarm_handler : P flow :=
  a ← gets w_alarm; if al_trap a then trap else mret Returned.

End alarm.

(** ** The interval timer *)

(** The interval given to [setitimer] is the requested number of
    microseconds: it is split without loss into seconds and a rest below one
    second, both non-negative, and only the interval 0 disarms the timer. *)
Theorem itimer_exact usec :
  0 ≤ usec →
  let '(sec, rest) := itimer_fields usec in
  sec * 1000000 + rest = usec ∧ 0 ≤ sec ∧ 0 ≤ rest < 1000000 ∧
  ((sec, rest) = (0, 0) ↔ usec = 0).
Proof.
  intros Hu. unfold itimer_fields.
  pose proof (Z.quot_rem' usec 1000000). pose proof (Z.rem_bound_pos usec 1000000).
  pose proof (Z.quot_pos usec 1000000). split_and!; try lia. split; [|intros ->; done].
  intros [=]. lia.
Qed.

(** An interval is given to the timer in full when it is a whole number of
    microseconds, and cut below it otherwise; what is shorter than a microsecond
    disables the timer, as only the interval 0 is documented to. *)
Theorem set_interval_cuts {E : Env} d :
  0 ≤ d_count d → 0 < d_num d → 0 < d_den d →
  to_usec d * d_den d ≤ d_count d * d_num d * 1000000 < (to_usec d + 1) * d_den d ∧
  (d_count d * d_num d * 1000000 < d_den d → set_interval d = clear_interval).
Proof.
  intros Hc Hn Hd. unfold set_interval, clear_interval. unfold to_usec.
  assert (0 ≤ d_count d * d_num d * 1000000) as H0 by nia.
  rewrite Z.quot_div_nonneg by lia.
  pose proof (Z.div_mod (d_count d * d_num d * 1000000) (d_den d)).
  pose proof (Z.mod_pos_bound (d_count d * d_num d * 1000000) (d_den d)).
  split; [nia|]. intros Hlt. by rewrite Z.div_small.
Qed.
