(* ===== verification/Sched.v ===== *)
(** * sched/sched.cc and concur/internal/waiter: the interface of the scheduler

    Every operation runs until the program has control again, possibly in
    another task: [exec] performs the call of the current task and, when the
    call switched away, the rest of the calls the resumed task was in. *)

From S2P Require Import Prelude Platform World Task TimeOrderedQueue Rq Freelist SchedNode.

Section sched.
Context {E : Env}.

(** ** [sched_context] *)

Definition freelist_size : Z := 64.

(** Its constructor: the free list, the node with its host task, the timer and
    the end handler. *)
Definition sched_context_construct : P () :=
  modify (λ w, mkWorld (<[host_task := default_task]> (w_tasks w)) (w_maps w) (w_tls w) (w_fs w)
    (mkNode false false 0 (mkRq [] [] 0) 0) (mkFreelist [] freelist_size) (w_alarm w)
    (w_context w) (w_end_handler w) (w_handles w) (w_words w) (w_waiters w)
    (w_thread_reads w) (w_system_reads w));;
  start_async;;
  enable_timer_preemption;;
  set_end_handler.

Definition sched_context_get : P () :=
  built ← gets w_context;
  if (built : bool) then mret () else sched_context_construct;; modify (set_context true).

(** ** The functions of namespace [sched] *)

(** A [handle*]: the task it names; [nullptr] names none. *)
Definition handle_task (h : Z) : P Z :=
  hs ← gets w_handles;
  match hs !! h with
  | Some t => if bool_decide (h = 0) then mret 0 else mret t
  | None => if bool_decide (h = 0) then mret 0 else stuck (dangling h)
  end.

Definition sched_yield : P flow :=
  node ← sched_node_current;
  if (node : bool) then with_preempt_lock node_yield else mret Returned.

Definition sched_sleep_for (sleep_duration : Z) : P flow :=
  with_preempt_lock (node_yield_for sleep_duration).

(** [h = spawn(attr, entry, arg)] *)
Definition spawn (h : Z) (a : attr) (entry arg : Z) : P flow :=
  if bool_decide (entry = 0) then throw (domain_error "must supply entry function")
  else
    sched_context_get;;
    t ← make_task a;
    write t (set_entry_arg entry arg);;
    start t;;
    r ← with_preempt_lock (schedule t;; mret Returned);
    modify (upd_handles <[h := t]>);;
    mret r.

(** The end of [join], after the joined task has stopped. *)
Definition join_finish (h return_value : Z) : P () :=
  p ← handle_task h;
  t ← deref p;
  assert (bool_decide (t_run_state t = STOPPED)) "handle->t->run_state == task::STOPPED";;
  (if bool_decide (return_value ≠ 0)
   then modify (upd_words <[return_value := t_return_value t]>) else mret ());;
  sched_context_get;;
  return_task p;;
  modify (upd_handles <[h := 0]>).

Definition join (h return_value : Z) : P flow :=
  p ← handle_task h;
  if bool_decide (p = 0) then
    throw (domain_error "|handle| must be specified and must be a valid thread")
  else
    cur ← current;
    preempt_lock;;
    t ← on_throw preempt_unlock (
      t ← deref p;
      if bool_decide (t_joiner t ≠ 0) then
        throw (logic_error "a thread can only be joined from one place")
      else mret t);
    if bool_decide (t_run_state t ≠ STOPPED) then
      write p (set_joiner cur);;
      write cur (set_run_state WAITING);;
      preempt_unlock;;
      and_then sched_yield (join_finish h return_value) (FJoin h return_value)
    else
      preempt_unlock;;
      join_finish h return_value;;
      mret Returned.

Definition detach (h : Z) : P flow :=
  p ← handle_task h;
  if bool_decide (p = 0) then
    throw (domain_error "|handle| must be specified and must be a valid thread")
  else
    preempt_lock;;
    t ← deref p;
    if bool_decide (t_run_state t ≠ STOPPED) then
      write p (set_detached true);;
      modify (upd_handles <[h := 0]>);;
      preempt_unlock;;
      mret Returned
    else
      preempt_unlock;;
      assert (bool_decide (t_run_state t = STOPPED)) "handle->t->run_state == task::STOPPED";;
      sched_context_get;;
      return_task p;;
      modify (upd_handles <[h := 0]>);;
      mret Returned.

Definition sched_exit (return_value : Z) : P flow :=
  cur ← current;
  t ← deref cur;
  if bool_decide (t_entry t = 0) then log_fatal "cannot exit from the root task!"
  else
    with_preempt_lock (
      write cur (set_return_value return_value);;
      write cur (set_run_state STOPPED);;
      t ← deref cur;
      (if bool_decide (t_joiner t ≠ 0) then schedule (t_joiner t) else mret ());;
      node_yield).

(** [task_end_handler] *)
Definition task_end_handler (p : Z) : P flow :=
  t ← deref p; sched_exit (t_return_value t).

(** The entry function of the current task returns [v]. *)
Definition entry_returns (v : Z) : P flow :=
  cur ← current; stop task_end_handler cur v.

(** ** [waiter] *)

Definition waiter_load (a : Z) : P Z :=
  ws ← gets w_waiters; need (dangling a) (ws !! a).

Definition waiter_store (a v : Z) : P () :=
  _ ← waiter_load a; modify (upd_waiters <[a := v]>).

(** [park_if(check_thunk)]; [check] is what the thunk answers.  The answer of
    the call itself is [true] exactly when it parks. *)
Definition park_if (a : Z) (check : bool) : P flow :=
  cur ← current;
  v ← waiter_load a;
  if bool_decide (v ≠ 0) then mret Returned
  else
    waiter_store a cur;;
    if negb check then waiter_store a 0;; mret Returned
    else
      write cur (set_run_state WAITING);;
      and_then sched_yield (mret ()) (FPark a).

Definition park (a : Z) : P flow := park_if a true.

(** Whether [unpark] and [swap] find a parked task to take. *)
Definition takeable (parked : Z) : P bool :=
  if bool_decide (parked = 0) then mret false
  else t ← deref parked; mret (bool_decide (t_run_state t = WAITING)).

Definition unpark (a : Z) : P bool :=
  parked ← waiter_load a;
  ok ← takeable parked;
  if negb ok then mret false
  else
    waiter_store a 0;;
    r ← with_preempt_lock (
      write parked (set_run_state SUSPENDED);; schedule parked;; mret Returned);
    mret true.

Definition swap (a : Z) : P flow :=
  parked ← waiter_load a;
  cur ← current;
  ok ← takeable parked;
  if negb ok then mret Returned
  else
    waiter_store a cur;;
    and_then
      (with_preempt_lock (write cur (set_run_state WAITING);; node_switch_to parked))
      (mret ()) (FSwap a).

(** ** Resumption *)

(** What a call does after the context switch that had left it. *)
Definition run_frame (f : frame) : P () :=
  match f with
  | FTaskEntry => cur ← current; write cur (set_run_state RUNNING)
  | FSwitch prev_task =>
      cur ← current;
      assert (bool_decide (prev_task = cur)) "switched back to not myself";;
      write prev_task (set_run_state RUNNING)
  | FRelockSpin => spin_lock
  | FUnlockSpin => spin_unlock
  | FUnlockPreempt => preempt_unlock
  | FJoin h return_value => join_finish h return_value
  | FPark _ | FSwap _ => mret ()
  | FStart => start_check
  end.

Fixpoint run_frames (fs : list frame) : P () :=
  match fs with
  | [] => mret ()
  | f :: fs' => run_frame f;; run_frames fs'
  end.

(** [gthread_switch_to] continues at the saved context of the task that is
    current after the switch. *)
Definition resume : P () :=
  cur ← current;
  t ← deref cur;
  fs ← need (no_context cur) (t_ctx t);
  write cur (set_ctx None);;
  run_frames fs.

(** ** The calls of a program *)

Inductive op :=
| Spawn (h : Z) (a : attr) (entry arg : Z)
| Yield
| SleepFor (d : Z)
| Join (h return_value : Z)
| Detach (h : Z)
| Exit (v : Z)
| Return (v : Z)
| Tick
| ParkIf (a : Z) (check : bool)
| Unpark (a : Z)
| Swap (a : Z).

Definition call (o : op) : P flow :=
  match o with
  | Spawn h a entry arg => spawn h a entry arg
  | Yield => sched_yield
  | SleepFor d => sched_sleep_for d
  | Join h rv => join h rv
  | Detach h => detach h
  | Exit v => sched_exit v
  | Return v => entry_returns v
  | Tick => alarm_handler
  | ParkIf a check => park_if a check
  | Unpark a => _ ← unpark a; mret Returned
  | Swap a => swap a
  end.

Definition exec (o : op) : P () :=
  r ← call o;
  match r with
  | Returned => mret ()
  | Switched _ => resume
  end.

Fixpoint exec_all (os : list op) : P () :=
  match os with
  | [] => mret ()
  | o :: os' => exec o;; exec_all os'
  end.

(** The process before the first call: one kernel thread, with its thread-local
    block, and the objects of the program. *)
Definition boot (handles waiters : list Z) : world :=
  mkWorld ∅ [(host_task, sizeof_task); (host_tls, tls_postfix_bytes)]
    {[ host_tls := mkTlsBlock 0 false ]} host_tls
    (mkNode false false 0 (mkRq [] [] 0) 0) (mkFreelist [] 0)
    (mkAlarm false 0 false false) false false
    (list_to_map ((λ h, (h, 0)) <$> handles)) ∅ (list_to_map ((λ a, (a, 0)) <$> waiters)) 0 0.

End sched.
