(* ===== verification/SchedSpec.v ===== *)
(** * What the scheduler promises

    The abstract specification of namespace [sched] and of [waiter]: a program
    is a set of tasks, each of which can run, waits in [join], is parked or has
    finished, and one of which runs.  There are no stacks, contexts, virtual
    times, run queues, locks, free lists or thread-local blocks here; who runs
    next is left open.  [SchedRefine] shows that the library implements it.

    The calls are those of [Sched.op].  [effect_of] is executable: it gives the
    effect of a call of the running task up to the choice of the next one. *)

From S2P Require Import Prelude Platform World Sched.

(** ** The exceptions of the interface *)

Definition bad_handle : exn :=
  domain_error "|handle| must be specified and must be a valid thread".
Definition joined_twice : exn := logic_error "a thread can only be joined from one place".
Definition root_exit : exn := runtime_error "cannot exit from the root task!".
Definition no_entry : exn := domain_error "must supply entry function".
Definition deadlock : exn := runtime_error "nothing to do. deadlock?".

(** ** Tasks *)

(** What a task does when it gets the processor: it goes on, or it first takes
    the result of the task it has waited for. *)
Inductive cont := CPlain | CJoin (handle return_value : Z).

Inductive status :=
| Ready (k : cont)
| Joining (handle return_value : Z)
| Parked (waiter : Z)
| Finished (v : Z)
| Asleep.

Record atask := mkAtask {
  at_entry : Z;
  at_arg : Z;
  (** the task that waits in [join] for this one, or [0] *)
  at_joiner : Z;
  at_status : status
}.

Definition set_at_joiner (j : Z) (t : atask) : atask :=
  mkAtask (at_entry t) (at_arg t) j (at_status t).
Definition set_at_status (x : status) (t : atask) : atask :=
  mkAtask (at_entry t) (at_arg t) (at_joiner t) x.

(** The running task, the tasks that live or can still be collected, and the
    objects of the program: its handles, its waiters, and the words [join] can
    store into. *)
Record astate := mkAstate {
  s_cur : Z;
  s_tasks : gmap Z atask;
  s_handles : gmap Z Z;
  s_waiters : gmap Z Z;
  s_words : gmap Z Z
}.

Definition set_cur (n : Z) (A : astate) : astate :=
  mkAstate n (s_tasks A) (s_handles A) (s_waiters A) (s_words A).
Definition on_tasks (f : gmap Z atask → gmap Z atask) (A : astate) : astate :=
  mkAstate (s_cur A) (f (s_tasks A)) (s_handles A) (s_waiters A) (s_words A).
Definition on_handles (f : gmap Z Z → gmap Z Z) (A : astate) : astate :=
  mkAstate (s_cur A) (s_tasks A) (f (s_handles A)) (s_waiters A) (s_words A).
Definition on_waiters (f : gmap Z Z → gmap Z Z) (A : astate) : astate :=
  mkAstate (s_cur A) (s_tasks A) (s_handles A) (f (s_waiters A)) (s_words A).
Definition on_words (f : gmap Z Z → gmap Z Z) (A : astate) : astate :=
  mkAstate (s_cur A) (s_tasks A) (s_handles A) (s_waiters A) (f (s_words A)).

Definition turn_to (q : Z) (x : status) : astate → astate := on_tasks (alter (set_at_status x) q).

(** Some handle names [q]. *)
Definition named (hs : gmap Z Z) (q : Z) : bool := bool_decide (map_Exists (λ _ p, p = q) hs).

Definition runnable (A : astate) (q : Z) : bool :=
  match at_status <$> s_tasks A !! q with Some (Ready _) => true | _ => false end.

(** ** Effects *)

(** The word [rv], if there is one, receives [v]. *)
Definition stored (rv v : Z) (ws : gmap Z Z) : gmap Z Z :=
  if bool_decide (rv ≠ 0) then <[rv := v]> ws else ws.

(** The finished task of the handle [h] is taken: its result is stored, and
    nothing of it is left. *)
Definition collect (h rv : Z) (A : astate) : astate :=
  match s_handles A !! h with
  | None => A
  | Some q =>
      match at_status <$> s_tasks A !! q with
      | Some (Finished v) =>
          on_tasks (delete q) (on_handles <[h := 0]> (on_words (stored rv v) A))
      | _ => A
      end
  end.

(** The task [n] gets the processor. *)
Definition dispatch (n : Z) (A : astate) : astate :=
  match at_status <$> s_tasks A !! n with
  | Some (Ready (CJoin h rv)) => collect h rv (turn_to n (Ready CPlain) (set_cur n A))
  | _ => set_cur n A
  end.

(** The running task waits for the end of [q]. *)
Definition await (h rv q : Z) (A : astate) : astate :=
  turn_to (s_cur A) (Joining h rv) (on_tasks (alter (set_at_joiner (s_cur A)) q) A).

(** The task [c] ends with [v]: whoever waits for it can run, and its result is
    kept if somebody can still ask for it. *)
Definition wake (j : Z) : gmap Z atask → gmap Z atask :=
  alter (λ t, match at_status t with
              | Joining h rv => set_at_status (Ready (CJoin h rv)) t
              | _ => t
              end) j.
Definition finish (c v : Z) (A : astate) : astate :=
  match s_tasks A !! c with
  | None => A
  | Some t =>
      on_tasks (if named (s_handles A) c then alter (set_at_status (Finished v)) c else delete c)
        (on_tasks (wake (at_joiner t)) A)
  end.

(** How a call of the running task ends: the caller goes on; the caller gives
    the processor to some task that can run, or to a given one; the call is
    refused. *)
Inductive effect :=
| Keep (A : astate)
| Give (A : astate)
| Hand (n : Z) (A : astate)
| Refuse (e : exn).

(** The task a handle pointer names. *)
Definition target (A : astate) (h : Z) : option (Z * atask) :=
  if bool_decide (h = 0) then None
  else q ← s_handles A !! h; t ← s_tasks A !! q; Some (q, t).

(** The effect of the call [o]; a new task is created at [p]. *)
Definition effect_of (p : Z) (A : astate) (o : op) : effect :=
  let c := s_cur A in
  match o with
  | Spawn h _ entry arg =>
      if bool_decide (entry = 0) then Refuse no_entry
      else Keep (on_handles <[h := p]>
             (on_tasks <[p := mkAtask entry arg 0 (Ready CPlain)]> A))
  | Yield | Tick => Give A
  | SleepFor _ => Give (turn_to c Asleep A)
  | Join h rv =>
      match target A h with
      | None => Refuse bad_handle
      | Some (q, t) =>
          if bool_decide (at_joiner t ≠ 0) then Refuse joined_twice
          else match at_status t with
               | Finished _ => Keep (collect h rv A)
               | _ => Give (await h rv q A)
               end
      end
  | Detach h =>
      match target A h with
      | None => Refuse bad_handle
      | Some (q, t) =>
          match at_status t with
          | Finished _ => Keep (collect h 0 A)
          | _ => Keep (on_handles <[h := 0]> A)
          end
      end
  | Exit v | Return v =>
      if bool_decide (at_entry <$> s_tasks A !! c = Some 0) then Refuse root_exit
      else Give (finish c v A)
  | ParkIf a check =>
      match s_waiters A !! a with
      | Some 0 => if check then Give (turn_to c (Parked a) (on_waiters <[a := c]> A)) else Keep A
      | _ => Keep A
      end
  | Unpark a =>
      let v := default 0 (s_waiters A !! a) in
      if bool_decide (v = 0) then Keep A
      else Keep (turn_to v (Ready CPlain) (on_waiters <[a := 0]> A))
  | Swap a =>
      let v := default 0 (s_waiters A !! a) in
      if bool_decide (v = 0) then Keep A
      else Hand v (turn_to v (Ready CPlain) (turn_to c (Parked a) (on_waiters <[a := c]> A)))
  end.

(** ** Steps *)

(** A new task gets an address that is no other task's. *)
Definition place_ok (A : astate) (o : op) (p : Z) : Prop :=
  match o with Spawn _ _ _ _ => p ≠ 0 ∧ s_tasks A !! p = None | _ => p = 0 end.

Inductive astep (A : astate) (o : op) : astate → Prop :=
| astep_keep p A' : place_ok A o p → effect_of p A o = Keep A' → astep A o A'
| astep_give A1 n : effect_of 0 A o = Give A1 → runnable A1 n = true → astep A o (dispatch n A1)
| astep_hand A1 n : effect_of 0 A o = Hand n A1 → runnable A1 n = true → astep A o (dispatch n A1).

Definition refuses (A : astate) (o : op) (e : exn) : Prop := effect_of 0 A o = Refuse e.

(** The call gives the processor up, but nobody can take it. *)
Definition stalls (A : astate) (o : op) : Prop :=
  ∃ A1, effect_of 0 A o = Give A1 ∧ ∀ n, runnable A1 n = false.

(** The program before its first call: the task of the process, alone. *)
Definition start_state (host : Z) (hs ws : list Z) : astate :=
  mkAstate host {[ host := mkAtask 0 0 0 (Ready CPlain) ]}
    (list_to_map ((λ h, (h, 0)) <$> hs)) (list_to_map ((λ a, (a, 0)) <$> ws)) ∅.

(** The states of a program: refused calls change nothing, and a program that
    stalls is at its end. *)
Inductive areachable (host : Z) (hs ws : list Z) : astate → Prop :=
| areach_start : areachable host hs ws (start_state host hs ws)
| areach_step A o A' : areachable host hs ws A → astep A o A' → areachable host hs ws A'.

(** The three ends of a call exclude each other. *)
Lemma stalls_no_step A o A' : stalls A o → ¬ astep A o A'.
Proof.
  intros (A1 & Heff & Hno) Hst. destruct Hst as [p A' Hp Hk|A2 n Hg Hr|A2 n Hg Hr].
  - destruct o; simpl in Hp; try (subst p; congruence). cbn in Heff. by case_bool_decide.
  - rewrite Heff in Hg. injection Hg as ->. by rewrite Hno in Hr.
  - congruence.
Qed.

(** Collecting a task does not depend on who runs. *)
Lemma dispatch_set_cur n c A : dispatch n (set_cur c A) = dispatch n A.
Proof. done. Qed.
