(* ===== verification/WaiterRefine.v ===== *)
(** * The steps of a waiter and the calls of the specification

    [WaiterClient] has [park()], [swap()] and [unpark()] as sequences of steps
    between which the other thread can run; [SchedSpec] has them as calls, as
    which the library implements them.  A call whose steps nobody interrupts,
    made while the other thread is not inside a call itself, is the call of the
    specification. *)

From S2P Require Import Prelude Platform World Sched SchedSpec FairRounds WaiterClient.

Section refine.
(** The addresses of the waiter and of the tasks, and the entry of the
    background thread. *)
Context (wa main bg entry : Z) (Hmain : main ≠ 0) (Hbg : bg ≠ 0) (Hne : main ≠ bg).

Definition addr (p : party) : Z := match p with Main => main | Bg => bg end.
Definition other (p : party) : party := match p with Main => Bg | Bg => Main end.

Definition status_of (p : party) (s : bench) : status :=
  if waits p s then Parked wa
  else match p, b_bg s with Bg, BEnd => Finished 0 | _, _ => Ready CPlain end.

(** What the specification sees when [p] runs. *)
Definition abs (p : party) (s : bench) : astate :=
  mkAstate (addr p)
    (<[main := mkAtask 0 0 0 (status_of Main s)]> {[bg := mkAtask entry 0 0 (status_of Bg s)]})
    ∅ {[wa := match b_cell s with Some q => addr q | None => 0 end]} ∅.

(** The thread is about to make the call. *)
Definition calls_swap (p : party) (s : bench) : bool :=
  match p, b_main s, b_bg s with
  | Main, MSwap _ SLoad, _ | Bg, _, BSwap SLoad => true
  | _, _, _ => false
  end.
Definition calls_unpark (s : bench) : bool :=
  match b_main s with MUnpark ULoad => true | _ => false end.
Definition calls_park (s : bench) : bool :=
  match b_bg s with BParkCas => true | _ => false end.

(** The thread is not inside a call, or is parked by it. *)
Definition settled (p : party) (s : bench) : bool :=
  match p with
  | Main => match b_main s with
            | MSwap _ SLoad | MSwap _ SParked | MUnpark ULoad => true
            | MSwap _ _ | MUnpark _ => false
            | _ => true
            end
  | Bg => match b_bg s with
          | BSwap SLoad | BSwap SParked => true
          | BSwap _ | BParkWait => false
          | _ => true
          end
  end.

(** [k] steps of [p] that nobody interrupts. *)
Definition alone (p : party) (k : nat) (s : bench) : bench := fold_left step (replicate k p) s.

#[local] Arguments abs : simpl never.
#[local] Arguments alone : simpl never.
#[local] Arguments effect_of : simpl never.

(** ** The map of tasks *)

Lemma alter_main f x y : alter f main (<[main := x]> {[bg := y]} : gmap Z atask) =
  <[main := f x]> {[bg := y]}.
Proof. apply alter_insert_eq. Qed.

Lemma alter_bg f x y : alter f bg (<[main := x]> {[bg := y]} : gmap Z atask) =
  <[main := x]> {[bg := f y]}.
Proof. by rewrite alter_insert_ne, alter_singleton_eq. Qed.

Lemma lookup_main x y : (<[main := x]> {[bg := y]} : gmap Z atask) !! main = Some x.
Proof. apply lookup_insert_eq. Qed.

Lemma lookup_bg x y : (<[main := x]> {[bg := y]} : gmap Z atask) !! bg = Some y.
Proof. by rewrite lookup_insert_ne, lookup_singleton_eq. Qed.

Lemma lookup_cell (v : Z) : ({[wa := v]} : gmap Z Z) !! wa = Some v.
Proof. apply lookup_singleton_eq. Qed.

Lemma insert_cell (v v' : Z) : <[wa := v']> ({[wa := v]} : gmap Z Z) = {[wa := v']}.
Proof. apply insert_singleton_eq. Qed.

(** The call of the specification is evaluated. *)
Ltac spec_call :=
  unfold abs, alone, effect_of, dispatch, turn_to, on_tasks, on_waiters, set_cur; cbn;
  rewrite ?lookup_cell; cbn;
  rewrite ?bool_decide_true, ?bool_decide_false by done; cbn;
  repeat first [rewrite alter_main|rewrite alter_bg|rewrite insert_cell
               |rewrite lookup_main|rewrite lookup_bg]; cbn.

(** C12.  The waiter of the interleaving model is the waiter of the
    specification.  From every state the benchmark can reach in which the other
    thread is not in the middle of a call, [swap()], [unpark()] and [park()] made
    without interruption have the effect [SchedSpec] gives them: [swap()]
    hands the processor to the thread that was parked and parks the caller in
    its place, or does nothing when none is parked; [unpark()] makes the parked
    thread runnable and empties the waiter, or does nothing; [park()] puts the
    caller into the empty waiter and gives the processor up. *)
Theorem waiter_calls_refine n es s p :
  fold_left step es (waiter_bench n) = s → settled (other p) s = true →
  (calls_swap p s = true →
     match effect_of 0 (abs p s) (Swap wa) with
     | Hand q A => q = addr (other p) ∧ abs (other p) (alone p 4 s) = dispatch q A
     | Keep A => alone p 2 s = s ∧ abs p s = A
     | _ => False
     end) ∧
  (p = Main → calls_unpark s = true →
     match effect_of 0 (abs p s) (Unpark wa) with
     | Keep A => if b_cell s is Some _ then abs p (alone p 4 s) = A else alone p 2 s = s ∧ abs p s = A
     | _ => False
     end) ∧
  (p = Bg → calls_park s = true →
     match effect_of 0 (abs p s) (ParkIf wa true) with
     | Give A => set_cur main (abs p (alone p 2 s)) = dispatch main A
     | _ => False
     end).
Proof.
  intros Hrun. assert (bench_ok n s) as H.
  { rewrite <- Hrun. apply (steps_keep step (bench_ok n)); [apply step_ok|apply waiter_start_ok]. }
  clear Hrun. intros Ho.
  destruct p; bench_cases s H; try done; (split_and!; intros; simplify_eq/=); try done.
  all: spec_call; try done.
Qed.

End refine.

(** The background thread has parked, and the main thread swaps. *)
Lemma waiter_calls_refine_witness :
  let s := fold_left step [Bg; Bg; Main] (waiter_bench 1) in
  match effect_of 0 (abs 9 1 2 7 Main s) (Swap 9) with
  | Hand q A => q = 2 ∧ abs 9 1 2 7 Bg (alone Main 4 s) = dispatch q A
  | Keep A => alone Main 2 s = s ∧ abs 9 1 2 7 Main s = A
  | _ => False
  end.
Proof.
  refine (proj1 (waiter_calls_refine 9 1 2 7 _ _ _ 1 [Bg; Bg; Main] _ Main eq_refl _) _); done.
Defined.
