(* ===== verification/Demo.v ===== *)
(** * A concrete environment

    Instances of [Env] in which everything evaluates: a thread clock that advances
    by a given number of nanoseconds with every reading (1500 in
    [demo]), an [mmap] that hands out the space above everything mapped so far,
    and no failing system call.  They satisfy [EnvOk], and are where the examples
    of the development run. *)

From S2P Require Import Prelude Platform World Task Sched.

Definition top_of (maps : list region) : Z :=
  foldr (λ r acc, Z.max (r.1 + r.2) acc) 65536 maps.

Definition demo_env (step : Z) : Env := {|
  clock_gettime n := mkTimespec 0 (Z.of_nat n * step);
  clock_getres := mkTimespec 0 1;
  system_now n := Z.of_nat n * 1500;
  sleep_until n t := Nat.max n (Z.to_nat t);
  sc_pagesize := 4096;
  mmap maps len := if top_of maps + len <? two64 then top_of maps else map_failed;
  mprotect_fails _ _ := false;
  setitimer _ _ := None;
  tls_images := [];
  host_task := 4096;
  host_tls := 8192
|}.
#[export] Instance demo : Env := demo_env 1500.

Lemma top_of_above maps r : r ∈ maps → r.1 + r.2 ≤ top_of maps.
Proof.
  induction maps as [|r' maps IH]; [by intros ?%elem_of_nil|].
  intros [->|Hr]%elem_of_cons; simpl; [lia|]. specialize (IH Hr). lia.
Qed.

Lemma top_of_pos maps : 65536 ≤ top_of maps.
Proof. induction maps as [|r maps IH]; simpl; [done|lia]. Qed.

#[export] Instance demo_env_ok step : EnvOk (demo_env step).
Proof.
  split; simpl.
  - intros n t. lia.
  - intros maps len r. destruct (_ <? _); [|done]. intros _ Hr. left. simpl. by apply top_of_above.
  - intros maps len. destruct (Z.ltb_spec (top_of maps + len) two64); [|done].
    intros _. pose proof (top_of_pos maps). lia.
  - done.
  - done.
  - by left.
Qed.
#[export] Instance demo_ok : EnvOk demo := demo_env_ok 1500.

(** The state a run ends in, and the task that runs then. *)
Definition final {A} (r : outcome world A) : option world :=
  match r with Ret _ w => Some w | _ => None end.

Definition running {A} (r : outcome world A) : option Z :=
  w ← final r; tb_thread <$> w_tls w !! w_fs w.
