(* ===== verification/Keeps.v ===== *)
(** * What no call of the scheduler changes

    [keeps I m]: when the predicate [I] holds before the program [m], it holds
    when [m] returns or throws.  The rules follow the structure of the code, so
    that one hint database settles a predicate for the whole interface. *)

From S2P Require Import Prelude Platform World Task TimeOrderedQueue Rq Freelist SchedNode Sched.

Definition keeps {A} (I : world → Prop) (m : P A) : Prop :=
  ∀ w, I w → match m w with Ret _ w' | Throw _ w' => I w' | Stuck _ => True end.

(** A proof about [m] may use what [m] keeps. *)
Lemma wp_keeps {A} (I : world → Prop) (m : P A) (Q : A → world → Prop) X U w :
  keeps I m → I w → wp m (λ a w', I w' → Q a w') (λ e w', I w' → X e w') U w → wp m Q X U w.
Proof. intros Hk Hw. specialize (Hk w Hw). unfold wp. destruct (m w); auto. Qed.

Create HintDb keeps.

Section rules.
Context (I : world → Prop).

Lemma keeps_bind {A B} (m : P A) (k : A → P B) :
  keeps I m → (∀ a, keeps I (k a)) → keeps I (m ≫= k).
Proof.
  intros Hm Hk w Hw. unfold mbind, M_bind. specialize (Hm w Hw).
  destruct (m w); [by apply Hk|done..].
Qed.

Lemma keeps_ret {A} (a : A) : keeps I (mret a).
Proof. by intros w Hw. Qed.
Lemma keeps_gets {A} (f : world → A) : keeps I (gets f).
Proof. by intros w Hw. Qed.
Lemma keeps_throw {A} e : keeps I (throw e : P A).
Proof. by intros w Hw. Qed.
Lemma keeps_stuck {A} f : keeps I (stuck f : P A).
Proof. by intros w Hw. Qed.
Lemma keeps_need {A} f (o : option A) : keeps I (need f o).
Proof. intros w Hw. by destruct o. Qed.
Lemma keeps_assert b what : keeps I (assert b what).
Proof. intros w Hw. by destruct b. Qed.
Lemma keeps_modify f : (∀ w, I w → I (f w)) → keeps I (modify f).
Proof. intros Hf w Hw. by apply Hf. Qed.
Lemma keeps_deref p : keeps I (deref p).
Proof. intros w Hw. unfold deref. by destruct (w_tasks w !! p). Qed.
Lemma keeps_tls_deref p : keeps I (tls_deref p).
Proof. intros w Hw. unfold tls_deref. by destruct (w_tls w !! p). Qed.

Lemma keeps_on_throw {A} (d : P ()) (m : P A) : keeps I d → keeps I m → keeps I (on_throw d m).
Proof.
  intros Hd Hm w Hw. unfold on_throw. specialize (Hm w Hw). destruct (m w); [done| |done].
  specialize (Hd _ Hm). by destruct (d s).
Qed.
End rules.

(** ** A predicate that ignores tasks, memory, locks and objects *)

(** The state changes of the calls outside the two queues.  The clock is read forward, and
    the tick is set to a reading of the clock. *)
Class Unqueued {E : Env} (I : world → Prop) : Prop := {
  uq_tasks f w : I w → I (upd_tasks f w);
  uq_maps v w : I w → I (set_maps v w);
  uq_tls f w : I w → I (upd_tls f w);
  uq_fs v w : I w → I (set_fs v w);
  uq_freelist v w : I w → I (set_freelist v w);
  uq_handles f w : I w → I (upd_handles f w);
  uq_waiters f w : I w → I (upd_waiters f w);
  uq_thread_reads w : I w → I (set_thread_reads (S (w_thread_reads w)) w);
  uq_system_reads v w : I w → I (set_system_reads v w);
  uq_runqueue v w : I w → I (set_runqueue v w);
  uq_spin_lock v w : I w → I (set_spin_lock v w);
  uq_deferred v w : I w → I (set_deferred v w);
  uq_last_tick k w : I w → (k < w_thread_reads w)%nat → I (set_last_tick (thread_clock_now k) w);
  uq_context w : I w → w_context w = true
}.
(** The predicate ignores the words of the program too, which only the end of
    a [join] changes. *)
Class Unworded (I : world → Prop) : Prop := uw_words f w : I w → I (upd_words f w).

(** The state changes of the library that [Unqueued] and [Unworded] list. *)
Ltac unqueued :=
  intros; first [
    apply uq_tasks | apply uq_maps | apply uq_tls | apply uq_fs | apply uq_freelist | apply
    uq_handles | apply uw_words | apply uq_waiters |
    apply uq_system_reads | apply uq_runqueue | apply uq_spin_lock | apply uq_deferred ];
  assumption.

(** One step along the structure of a program. *)
Ltac keeps_step :=
  lazymatch goal with
  | |- keeps _ (_ ≫= _) => apply keeps_bind; [|intros ?]
  | |- keeps _ (mret _) => apply keeps_ret
  | |- keeps _ (gets _) => apply keeps_gets
  | |- keeps _ (throw _) => apply keeps_throw
  | |- keeps _ (stuck _) => apply keeps_stuck
  | |- keeps _ (need _ _) => apply keeps_need
  | |- keeps _ (assert _ _) => apply keeps_assert
  | |- keeps _ (deref _) => apply keeps_deref
  | |- keeps _ (tls_deref _) => apply keeps_tls_deref
  | |- keeps _ (on_throw _ _) => apply keeps_on_throw
  | |- keeps _ (match ?x with _ => _ end) => destruct x
  | |- keeps _ (modify _) => first [apply keeps_modify; unqueued | solve [eauto with keeps]]
  | |- keeps _ _ => solve [eauto with keeps]
  end.
Ltac keeps_go := repeat keeps_step.

(** The clock has been read more than [k] times. *)
Definition and_read (I : world → Prop) (k : nat) (w : world) : Prop :=
  I w ∧ (k < w_thread_reads w)%nat.

#[export] Instance and_read_unqueued {E : Env} I k : Unqueued I → Unqueued (and_read I k).
Proof.
  intros HI. split; unfold and_read.
  all: try (intros ?? [Hw ?]; split; [unqueued|done]).
  - intros w [Hw ?]. split; [by apply uq_thread_reads|simpl; lia].
  - intros j w [Hw ?] ?. split; [by apply uq_last_tick|done].
  - intros w [Hw _]. by apply uq_context.
Qed.

Section calls.
Context {E : Env} (I : world → Prop) {HI : Unqueued I}.

Lemma keeps_read_thread_clock : keeps I read_thread_clock.
Proof. intros w Hw. by apply uq_thread_reads. Qed.
Hint Resolve keeps_read_thread_clock : keeps.

(** What follows a reading of the clock. *)
Lemma keeps_after_clock {A} (body : Z → P A) :
  (∀ k, keeps (and_read I k) (body (thread_clock_now k))) → keeps I (read_thread_clock ≫= body).
Proof.
  intros Hb w Hw. set (k := w_thread_reads w).
  assert (and_read I k (set_thread_reads (S k) w)) as Hr
    by (split; [by apply uq_thread_reads|simpl; lia]).
  specialize (Hb k _ Hr).
  change ((read_thread_clock ≫= body) w) with (body (thread_clock_now k) (set_thread_reads (S k) w)).
  destruct (body _ _); [apply Hb..|done].
Qed.

Lemma keeps_last_tick k : keeps (and_read I k) (modify (set_last_tick (thread_clock_now k))).
Proof. intros w [Hw Hk]. split; [by apply uq_last_tick|done]. Qed.

Lemma keeps_write p f : keeps I (write p f).
Proof. unfold write. keeps_go. Qed.
Hint Resolve keeps_write : keeps.

Lemma keeps_tls_set_thread p v : keeps I (tls_set_thread p v).
Proof. unfold tls_set_thread. keeps_go. Qed.
Hint Resolve keeps_tls_set_thread : keeps.

Lemma keeps_current : keeps I current.
Proof. unfold current, tls_current_thread. keeps_go. Qed.
Hint Resolve keeps_current : keeps.

Lemma keeps_and_then m rest later :
  keeps I m → keeps I rest → keeps I (and_then m rest later).
Proof. intros. unfold and_then. keeps_go. Qed.

Lemma keeps_guarded lock unlock later m :
  keeps I lock → keeps I unlock → keeps I m → keeps I (guarded lock unlock later m).
Proof. intros. unfold guarded. keeps_step; [done|]. apply keeps_and_then; keeps_go. Qed.

Lemma keeps_destroy p : keeps I (destroy p).
Proof. unfold destroy, task_dtor, tls_destruct. keeps_go. Qed.
Lemma keeps_reset p : keeps I (reset p).
Proof. unfold reset, tls_reset. keeps_go. Qed.
Lemma keeps_create a : keeps I (create a).
Proof. unfold create, construct_task, tls_construct. keeps_go. Qed.
Hint Resolve keeps_destroy keeps_reset keeps_create : keeps.

Lemma keeps_make_task a : keeps I (make_task a).
Proof. unfold make_task. keeps_go. Qed.
Lemma keeps_return_task p : keeps I (return_task p).
Proof. unfold return_task. keeps_go. Qed.
Lemma keeps_start p : keeps I (start p).
Proof. unfold start. keeps_go. Qed.
Hint Resolve keeps_make_task keeps_return_task keeps_start : keeps.

Lemma keeps_set_current_node : keeps I set_current_node.
Proof. unfold set_current_node. keeps_go. Qed.
Lemma keeps_sched_node_current : keeps I sched_node_current.
Proof. unfold sched_node_current. keeps_go. Qed.
Hint Resolve keeps_set_current_node keeps_sched_node_current : keeps.

Lemma keeps_switch_to p : keeps I (switch_to_internal p set_current_node).
Proof. unfold switch_to_internal, tls_use, tls_current. keeps_go. Qed.
Hint Resolve keeps_switch_to : keeps.

Lemma keeps_spin_lock : keeps I spin_lock.
Proof. unfold spin_lock, spin_try_lock. keeps_go. Qed.
Lemma keeps_spin_unlock : keeps I spin_unlock.
Proof. unfold spin_unlock. keeps_go. Qed.
Lemma keeps_preempt_lock : keeps I preempt_lock.
Proof. unfold preempt_lock. keeps_go. Qed.
Lemma keeps_preempt_unlock : keeps I preempt_unlock.
Proof. unfold preempt_unlock. keeps_go. Qed.
Hint Resolve keeps_spin_lock keeps_spin_unlock keeps_preempt_lock keeps_preempt_unlock : keeps.

Lemma keeps_with_preempt_lock m : keeps I m → keeps I (with_preempt_lock m).
Proof.
  intros Hm. apply keeps_guarded; [keeps_go..|]. unfold preempt_node. keeps_go.
Qed.

Lemma keeps_emplace x : keeps I (runqueue_emplace x).
Proof. unfold runqueue_emplace. keeps_go. Qed.
Hint Resolve keeps_emplace : keeps.

Lemma keeps_schedule p : keeps I (schedule p).
Proof. unfold schedule, push. keeps_go. Qed.
Hint Resolve keeps_schedule : keeps.

End calls.

#[export] Hint Resolve keeps_read_thread_clock keeps_last_tick keeps_write keeps_tls_set_thread
  keeps_current keeps_destroy keeps_reset keeps_create keeps_make_task keeps_return_task
  keeps_start keeps_set_current_node keeps_sched_node_current keeps_switch_to keeps_spin_lock
  keeps_spin_unlock keeps_preempt_lock keeps_preempt_unlock keeps_emplace keeps_schedule : keeps.

Section node.
Context {E : Env} (I : world → Prop) {HI : Unqueued I}.

Lemma keeps_node_switch_to p : keeps I (node_switch_to p).
Proof.
  unfold node_switch_to. keeps_step; [keeps_go|]. apply keeps_after_clock; [done|].
  intros k. pose proof (and_read_unqueued I k HI). keeps_go.
Qed.
Hint Resolve keeps_node_switch_to : keeps.

Lemma keeps_context_get : keeps I sched_context_get.
Proof.
  intros w Hw. unfold sched_context_get, mbind, M_bind, gets.
  by rewrite (uq_context w Hw).
Qed.
Hint Resolve keeps_context_get : keeps.

Lemma keeps_handle_task h : keeps I (handle_task h).
Proof. unfold handle_task. keeps_go. Qed.
Hint Resolve keeps_handle_task : keeps.

Section joins.
Context {HW : Unworded I}.

Lemma keeps_join_finish h rv : keeps I (join_finish h rv).
Proof. unfold join_finish. keeps_go. Qed.
Hint Resolve keeps_join_finish : keeps.

Lemma keeps_run_frames fs : keeps I (run_frames fs).
Proof. induction fs as [|f fs IH]; simpl; [keeps_go|]. keeps_step; [|done]. destruct f; simpl;
  unfold start_check, log_fatal; keeps_go. Qed.
Hint Resolve keeps_run_frames : keeps.

Lemma keeps_resume : keeps I resume.
Proof. unfold resume. keeps_go. Qed.

End joins.

(** ** Every call, from the choice of the next task *)

Context (Hpop : keeps I (pop idle_thunk)).
Hint Resolve Hpop keeps_resume keeps_join_finish : keeps.

Lemma keeps_get_next_task cur : keeps I (get_next_task cur).
Proof.
  unfold get_next_task, charge, push. do 4 (keeps_step; [keeps_go|]).
  apply keeps_after_clock; [done|]. intros k. pose proof (and_read_unqueued I k HI). keeps_go.
Qed.
Hint Resolve keeps_get_next_task : keeps.

Lemma keeps_node_yield : keeps I node_yield.
Proof.
  unfold node_yield. keeps_step; [keeps_go|]. keeps_step; [|keeps_go].
  apply keeps_guarded; [done|keeps_go..|].
  unfold yield_locked, return_deferred, charge, push.
  keeps_go. apply keeps_and_then; [done|keeps_go..].
Qed.
Hint Resolve keeps_node_yield : keeps.

Lemma keeps_locked_yield : keeps I (with_preempt_lock node_yield).
Proof. apply keeps_with_preempt_lock; [done|]. keeps_go. Qed.
Hint Resolve keeps_locked_yield : keeps.

Lemma keeps_sched_yield : keeps I sched_yield.
Proof. unfold sched_yield. keeps_go. Qed.
Hint Resolve keeps_sched_yield : keeps.

Lemma keeps_sched_exit v : keeps I (sched_exit v).
Proof. unfold sched_exit, log_fatal. keeps_go. apply keeps_with_preempt_lock; [done|]. keeps_go. Qed.
Hint Resolve keeps_sched_exit : keeps.

Lemma keeps_waiter_load a : keeps I (waiter_load a).
Proof. unfold waiter_load. keeps_go. Qed.
Lemma keeps_waiter_store a v : keeps I (waiter_store a v).
Proof. unfold waiter_store, waiter_load. keeps_go. Qed.
Lemma keeps_takeable a : keeps I (takeable a).
Proof. unfold takeable. keeps_go. Qed.
Hint Resolve keeps_waiter_load keeps_waiter_store keeps_takeable : keeps.

Lemma keeps_call o :
  (∀ d, o = SleepFor d → keeps I (sched_sleep_for d)) →
  (∀ h rv, o = Join h rv → keeps I (join h rv)) → keeps I (call o).
Proof.
  intros Hsleep Hjoin. destruct o; simpl; [|keeps_go|by apply Hsleep|by apply Hjoin|..].
  - unfold spawn. keeps_go. apply keeps_with_preempt_lock; [done|]. keeps_go.
  - unfold detach. keeps_go.
  - keeps_go.
  - unfold entry_returns, stop, task_end_handler, log_fatal. keeps_go.
  - unfold alarm_handler, trap. keeps_go.
  - unfold park_if. keeps_go. apply keeps_and_then; [done|keeps_go..].
  - unfold unpark. keeps_go. apply keeps_with_preempt_lock; [done|]. keeps_go.
  - unfold swap. keeps_go. apply keeps_and_then; [done| |keeps_go].
    apply keeps_with_preempt_lock; [done|]. keeps_go.
Qed.

Lemma keeps_exec o `{!Unworded I} : (∀ d, o = SleepFor d → keeps I (sched_sleep_for d)) → keeps I (exec o).
Proof.
  intros Hsleep. unfold exec. keeps_step; [|keeps_go]. apply keeps_call; [done|].
  intros h rv _. unfold join. keeps_go. apply keeps_and_then; [done|keeps_go..].
Qed.

End node.

#[export] Hint Resolve keeps_node_yield keeps_locked_yield keeps_sched_yield : keeps.

(** ** Predicates the calls keep *)

(** Nobody sleeps. *)
Definition no_sleepers (w : world) : Prop := w_context w = true ∧ w_sleepqueue w = [].
#[export] Instance no_sleepers_unqueued {E : Env} : Unqueued no_sleepers.
Proof. split; first [by intros ?? [? ?]|by intros ? [? ?]]. Qed.
#[export] Instance no_sleepers_unworded : Unworded no_sleepers.
Proof. by intros f w [? ?]. Qed.

(** The virtual time of the run queue has reached [k]. *)
Definition min_at_least (k : Z) (w : world) : Prop := w_context w = true ∧ k ≤ w_min_vruntime w.
#[export] Instance min_at_least_unqueued {E : Env} k : Unqueued (min_at_least k).
Proof. split; first [by intros ?? [? ?]|by intros ? [? ?]]. Qed.
#[export] Instance min_at_least_unworded k : Unworded (min_at_least k).
Proof. by intros f w [? ?]. Qed.

(** The free list was made for [n] tasks. *)
Definition list_for (n : Z) (w : world) : Prop :=
  w_context w = true ∧ fl_max_size (w_freelist w) = n.
#[export] Instance list_for_unqueued {E : Env} n : Unqueued (list_for n).
Proof. split; first [by intros ?? [? ?]|by intros ? [? ?]]. Qed.
#[export] Instance list_for_unworded n : Unworded (list_for n).
Proof. by intros f w [? ?]. Qed.

(** The words of the program are [ws]. *)
Definition words_are (ws : gmap Z Z) (w : world) : Prop := w_context w = true ∧ w_words w = ws.
#[export] Instance words_are_unqueued {E : Env} ws : Unqueued (words_are ws).
Proof. split; first [by intros ?? [? ?]|by intros ? [? ?]]. Qed.

Section predicates.
Context {E : Env}.

(** The queue operations keep a predicate that does not look at the queues. *)
Lemma keeps_pop_unseen (I : world → Prop) `{!Unqueued I} :
  (∀ v w, I w → I (set_sleepqueue v w)) →
  (∀ v w, I w → w_min_vruntime w < v → I (set_min_vruntime v w)) →
  keeps I (pop idle_thunk).
Proof.
  intros Hs Hm. apply keeps_bind; [|intros []].
  - unfold pop_refill, log_fatal, sleepqueue_pop, read_system_clock, idle_thunk. keeps_go.
    apply keeps_modify. auto.
  - unfold pop_take. keeps_step; [keeps_go|]. destruct a as [|n rest]; [keeps_go|].
    apply keeps_bind; [keeps_go|intros _]. apply keeps_bind; [keeps_go|intros t].
    intros w Hw. unfold mbind, M_bind, gets, mret, M_ret, modify.
    destruct (Z.ltb_spec (w_min_vruntime w) (t_vruntime t)); auto.
Qed.

Lemma keeps_locked_yield_unseen (I : world → Prop) `{!Unqueued I} :
  (∀ v w, I w → I (set_sleepqueue v w)) →
  (∀ v w, I w → w_min_vruntime w < v → I (set_min_vruntime v w)) →
  keeps I (with_preempt_lock node_yield).
Proof. intros. apply keeps_locked_yield; [done|]. by apply keeps_pop_unseen. Qed.

Lemma words_locked_yield ws : keeps (words_are ws) (with_preempt_lock node_yield).
Proof. apply keeps_locked_yield_unseen; [apply _|done..]. Qed.

(** Only a [join] stores into a word of the program. *)
Lemma words_call ws o : (∀ d, o ≠ SleepFor d) → (∀ h rv, o ≠ Join h rv) →
  keeps (words_are ws) (call o).
Proof.
  intros Hs Hj. assert (keeps (words_are ws) (pop idle_thunk)) as Hpop
    by (apply keeps_pop_unseen; [apply _|done..]).
  apply keeps_call; [apply _|done|..].
  - intros d Hd. by destruct (Hs d).
  - intros h rv Hh. by destruct (Hj h rv).
Qed.

Lemma keeps_sleep_unseen (I : world → Prop) `{!Unqueued I} d :
  (∀ v w, I w → I (set_sleepqueue v w)) → keeps I (pop idle_thunk) → keeps I (sched_sleep_for d).
Proof.
  intros Hs Hpop. apply keeps_with_preempt_lock; [done|].
  unfold node_yield_for, sleep_push, read_system_clock. keeps_go. apply keeps_modify. auto.
Qed.

Lemma keeps_pop_no_sleepers : keeps no_sleepers (pop idle_thunk).
Proof.
  apply keeps_bind; [|intros []].
  - intros w [Hc Hq]. unfold pop_refill, mbind, M_bind, gets. rewrite Hq. simpl.
    by destruct (w_runqueue w).
  - unfold pop_take. keeps_go. by apply keeps_modify; intros ? [? ?].
Qed.

(** Programs that do not sleep leave the sleep queue empty. *)
Lemma exec_no_sleepers o : (∀ d, o ≠ SleepFor d) → keeps no_sleepers (exec o).
Proof.
  intros Ho. apply keeps_exec; [apply _|apply keeps_pop_no_sleepers|apply _|].
  intros d ->. by destruct (Ho d).
Qed.

Lemma exec_min_at_least k o : keeps (min_at_least k) (exec o).
Proof.
  assert (keeps (min_at_least k) (pop idle_thunk)) as Hpop.
  { apply keeps_pop_unseen; [apply _|done|].
    intros v w [? ?] ?. split; [done|]. change (k ≤ v). lia. }
  apply keeps_exec; [apply _|done|apply _|]. intros d _. apply keeps_sleep_unseen; [apply _|done..].
Qed.

Lemma exec_list_for n o : keeps (list_for n) (exec o).
Proof.
  assert (keeps (list_for n) (pop idle_thunk)) as Hpop by (apply keeps_pop_unseen; [apply _|done..]).
  apply keeps_exec; [apply _|done|apply _|]. intros d _. apply keeps_sleep_unseen; [apply _|done..].
Qed.

End predicates.
