(* ===== verification/Inv.v ===== *)
(** * The invariant of the scheduler

    [core b w hot] states everything the library relies on between two
    operations, for a program whose spawned tasks all have a thread-local block
    ([b = true]) or all have none ([b = false]).  The tasks in [hot] are being
    worked on: what is said of suspended tasks is not claimed of them.  Steps
    of an operation add a task to [hot] ([core_weaken]), change it
    ([core_write_hot]) and give it back when it is in order ([core_close]). *)

From S2P Require Import Prelude Platform World Task TimeOrderedQueue Rq Freelist SchedNode Sched.

(** The tasks on the sleep queue. *)
Definition sleepers (w : world) : list Z := snd <$> w_sleepqueue w.

(** ** Saved contexts *)

(** The frames of a task that left [sched_node::yield] under the preemption
    lock. *)
Definition plain_frames (p : Z) : list frame :=
  [FSwitch p; FRelockSpin; FUnlockSpin; FUnlockPreempt].

Definition swap_frames (p a : Z) : list frame := [FSwitch p; FUnlockPreempt; FSwap a].

(** The contexts in which a task [p] can be resumed. *)
Inductive resume_point (p : Z) : list frame → Prop :=
| rp_entry : resume_point p [FTaskEntry]
| rp_plain : resume_point p (plain_frames p)
| rp_join h rv : resume_point p (plain_frames p ++ [FJoin h rv])
| rp_park a : resume_point p (plain_frames p ++ [FPark a])
| rp_swap a : resume_point p (swap_frames p a).

(** The joined task of handle [h] has stopped and waits for [x] to collect it. *)
Definition joined (w : world) (h x : Z) : Prop :=
  ∃ q tq, w_handles w !! h = Some q ∧ q ≠ 0 ∧ w_tasks w !! q = Some tq ∧
    t_run_state tq = STOPPED ∧ t_joiner tq = x.

(** [x] can be switched to. *)
Definition ready (w : world) (x : Z) : Prop :=
  ∃ t fs, w_tasks w !! x = Some t ∧ t_ctx t = Some fs ∧ resume_point x fs ∧
    t_no_preempt_flag t = negb (bool_decide (fs = [FTaskEntry])) ∧
    (t_run_state t = SUSPENDED ∨ t_run_state t = WAITING) ∧
    (∀ h rv, fs = plain_frames x ++ [FJoin h rv] → joined w h x) ∧
    (∀ a, fs = plain_frames x ++ [FPark a] ∨ fs = swap_frames x a →
          w_waiters w !! a ≠ Some x).

(** [j] waits in [join] for the task [q] to stop. *)
Definition pending (w : world) (q j : Z) : Prop :=
  ∃ tj h rv, w_tasks w !! j = Some tj ∧ t_ctx tj = Some (plain_frames j ++ [FJoin h rv]) ∧
    t_no_preempt_flag tj = true ∧ t_run_state tj = WAITING ∧ w_handles w !! h = Some q.

(** [j] is parked on the waiter [a]. *)
Definition parked (w : world) (a j : Z) : Prop :=
  ∃ tj fs, w_tasks w !! j = Some tj ∧ t_ctx tj = Some fs ∧
    (fs = plain_frames j ++ [FPark a] ∨ fs = swap_frames j a) ∧
    t_no_preempt_flag tj = true ∧ t_run_state tj = WAITING.

Section inv.
Context {E : Env} (b : bool).

(** ** Memory *)

(** Where the objects of a spawned task lie. *)
Definition layout (w : world) (p : Z) (t : task) : Prop :=
  p = t_stack t - sizeof_task ∧
  (t_stack t - t_total_stack_size t, t_total_stack_size t) ∈ w_maps w ∧
  sizeof_task + tls_postfix_bytes ≤ t_total_stack_size t ∧
  0 < t_stack t - t_total_stack_size t ∧
  t_tls t = (if b then p - tls_postfix_bytes else 0) ∧
  (b = true → is_Some (w_tls w !! t_tls t)).

Definition host_ok (t : task) : Prop :=
  t_stack t = 0 ∧ t_tls t = host_tls ∧ t_entry t = 0 ∧ t_run_state t ≠ STOPPED.

(** The thread-local block a task runs with. *)
Definition tls_of (t : task) : Z := if bool_decide (t_tls t ≠ 0) then t_tls t else host_tls.

(** [c] is the running task. *)
Definition curr (w : world) (c : Z) : Prop :=
  w_tls w !! w_fs w = Some (mkTlsBlock c true) ∧
  ∃ tc, w_tasks w !! c = Some tc ∧ w_fs w = tls_of tc.

(** ** The invariant *)

Record core (w : world) (hot : list Z) : Prop := {
  c_host : ∃ th, w_tasks w !! host_task = Some th ∧ host_ok th;
  c_host_tls : is_Some (w_tls w !! host_tls);
  c_host_maps : (host_task, sizeof_task) ∈ w_maps w ∧ (host_tls, tls_postfix_bytes) ∈ w_maps w;
  c_disjoint r1 r2 : r1 ∈ w_maps w → r2 ∈ w_maps w → r1 = r2 ∨ disjoint_region r1 r2;
  c_layout p t : p ≠ host_task → w_tasks w !! p = Some t → layout w p t;
  c_entry p t : p ≠ host_task → w_tasks w !! p = Some t → t_run_state t ≠ STOPPED →
    t_entry t ≠ 0;
  c_rq_live x : x ∈ w_runqueue w → is_Some (w_tasks w !! x);
  c_rq_nodup : NoDup (w_runqueue w);
  c_sq_nodup : NoDup (sleepers w);
  c_rq_sq x : x ∈ w_runqueue w → x ∉ sleepers w;
  c_rq_sorted : rq_sorted (w_tasks w) (w_runqueue w);
  c_sq_sorted : toq_ok (w_sleepqueue w);
  c_ready x : x ∈ w_runqueue w ∨ x ∈ sleepers w → x ∉ hot → ready w x;
  c_pending q t : w_tasks w !! q = Some t → t_run_state t ≠ STOPPED → t_joiner t ≠ 0 →
    t_joiner t ∉ hot → pending w q (t_joiner t);
  c_parked a j : w_waiters w !! a = Some j → j ≠ 0 → j ∉ hot → parked w a j;
  c_handle h q : w_handles w !! h = Some q → q ≠ 0 →
    h ≠ 0 ∧ q ≠ host_task ∧ (q ∉ fl_l (w_freelist w)) ∧ q ≠ nd_deferred (w_node w) ∧
    (∃ t, w_tasks w !! q = Some t ∧ t_detached t = false);
  c_handle_inj h1 h2 q : w_handles w !! h1 = Some q → w_handles w !! h2 = Some q → q ≠ 0 →
    h1 = h2;
  c_free_nodup : NoDup (fl_l (w_freelist w));
  c_free p : p ∈ fl_l (w_freelist w) →
    p ≠ host_task ∧ p ≠ nd_deferred (w_node w) ∧
    ∃ t, w_tasks w !! p = Some t ∧ t_run_state t = STOPPED;
  c_free_size : Z.of_nat (length (fl_l (w_freelist w))) ≤ fl_max_size (w_freelist w);
  c_deferred : nd_deferred (w_node w) ≠ 0 →
    nd_deferred (w_node w) ≠ host_task ∧
    ∃ t, w_tasks w !! nd_deferred (w_node w) = Some t ∧ t_run_state t = STOPPED;
  c_started : nd_running (w_node w) = true ∧ w_context w = true ∧ w_end_handler w = true
}.

(** Between two operations: the running task [c] holds no lock and is in no
    queue. *)
Record inv_at (w : world) (c : Z) : Prop := {
  i_core : core w [];
  i_curr : curr w c;
  i_spin : nd_spin_lock (w_node w) = false;
  i_cur : ∃ t, w_tasks w !! c = Some t ∧ t_ctx t = None ∧ t_no_preempt_flag t = false ∧
            (t_run_state t = RUNNING ∨ t_run_state t = WAITING)
}.

Definition inv (w : world) : Prop := ∃ c, inv_at w c.

(** ** Consequences of the invariant *)

Context {EOk : EnvOk E}.

Lemma sizes_pos : 0 < sizeof_task ∧ 0 < tls_postfix_bytes.
Proof. done. Qed.

(** Every task object lies inside a mapped region of its own. *)
Lemma core_no_null w hot : core w hot → w_tasks w !! 0 = None.
Proof.
  intros C. destruct (w_tasks w !! 0) as [t|] eqn:H; [|done]. exfalso.
  destruct (decide (0 = host_task)) as [Heq|Hne].
  - pose proof host_task_pos. lia.
  - destruct (c_layout _ _ C 0 t Hne H) as (? & _ & ? & ? & _). pose proof sizes_pos. lia.
Qed.

Lemma core_weaken w hot hot' : hot ⊆ hot' → core w hot → core w hot'.
Proof.
  intros Hsub [].
  constructor; try done.
  - intros x Hx Hni. apply c_ready0; auto.
  - intros q t Hq Hs Hj Hni. eapply c_pending0; auto.
  - intros a j Ha Hj Hni. apply c_parked0; auto.
Qed.

Lemma core_close w x hot :
  core w (x :: hot) →
  (x ∈ w_runqueue w ∨ x ∈ sleepers w → ready w x) →
  (∀ q t, w_tasks w !! q = Some t → t_run_state t ≠ STOPPED → t_joiner t = x → x ≠ 0 →
     pending w q x) →
  (∀ a, w_waiters w !! a = Some x → x ≠ 0 → parked w a x) →
  core w hot.
Proof.
  intros [] Hready Hpending Hparked.
  constructor; try done.
  - intros y Hy Hni. destruct (decide (y = x)) as [->|]; [by apply Hready|].
    apply c_ready0; [done|]. by apply not_elem_of_cons.
  - intros q t Hq Hs Hj Hni. destruct (decide (t_joiner t = x)) as [Heq|].
    + rewrite Heq in Hj |- *. eapply Hpending; eauto.
    + eapply c_pending0; [done..|]. by apply not_elem_of_cons.
  - intros a j Ha Hj Hni. destruct (decide (j = x)) as [->|]; [by apply Hparked|].
    apply c_parked0; [done..|]. by apply not_elem_of_cons.
Qed.

(** [core] looks at these parts of the state only. *)
Definition core_view (w : world) :=
  (w_tasks w, w_maps w, w_tls w, w_runqueue w, w_sleepqueue w,
   (w_freelist w, nd_deferred (w_node w), nd_running (w_node w)),
   (w_context w, w_end_handler w, w_handles w, w_waiters w)).

Lemma core_ext w w' hot : core_view w = core_view w' → core w hot → core w' hot.
Proof.
  unfold core_view. intros [= Et Em Etl Er Es Ef Ed Eru Ec Ee Eh Ew] [].
  assert (sleepers w = sleepers w') as Esl by (by unfold sleepers; rewrite Es).
  constructor; rewrite <-?Esl, <-?Et, <-?Em, <-?Etl, <-?Er, <-?Es, <-?Ef, <-?Ed, <-?Eru, <-?Ec, <-?Ee,
    <-?Eh, <-?Ew; try done.
  - intros p t. unfold layout. rewrite <-Em, <-Etl. apply c_layout0.
  - intros x. unfold ready, joined. rewrite <-Et, <-Eh, <-Ew. apply c_ready0.
  - intros q t. unfold pending. rewrite <-Et, <-Eh. apply c_pending0.
  - intros a j. unfold parked. rewrite <-Et. apply c_parked0.
Qed.

(** ** Changing a task object *)

(** The conditions under which [t'] may replace the task [t] at [p]. *)
Record write_ok (w : world) (hot : list Z) (p : Z) (t t' : task) : Prop := {
  wo_tls : t_tls t' = t_tls t;
  wo_stack : t_stack t' = t_stack t;
  wo_total : t_total_stack_size t' = t_total_stack_size t;
  wo_host : p = host_task → t_entry t' = 0 ∧ t_run_state t' ≠ STOPPED;
  wo_entry : p ≠ host_task → t_run_state t' ≠ STOPPED → t_entry t' ≠ 0;
  wo_stopped : t_run_state t = STOPPED →
    (t_run_state t' = STOPPED ∧ t_joiner t' = t_joiner t) ∨
    ((p ∉ fl_l (w_freelist w)) ∧ p ≠ nd_deferred (w_node w) ∧ ∀ h, w_handles w !! h ≠ Some p);
  wo_suspended : p ∈ hot ∨
    (t_ctx t' = t_ctx t ∧ t_no_preempt_flag t' = t_no_preempt_flag t ∧
     t_run_state t' = t_run_state t);
  wo_joiner : t_run_state t' ≠ STOPPED → t_joiner t' ≠ 0 →
    t_joiner t' ∈ hot ∨ (t_run_state t ≠ STOPPED ∧ t_joiner t' = t_joiner t);
  wo_detached h : w_handles w !! h = Some p → t_detached t' = false;
  wo_vruntime : p ∉ w_runqueue w ∨ t_vruntime t' = t_vruntime t
}.

Section write.
Context (w : world) (hot : list Z) (p : Z) (t t' : task).
Hypothesis (Ht : w_tasks w !! p = Some t) (Hok : write_ok w hot p t t').
Let w' : world := upd_tasks <[p := t']> w.

Lemma write_lookup q tq :
  w_tasks w' !! q = Some tq → (q = p ∧ tq = t') ∨ (q ≠ p ∧ w_tasks w !! q = Some tq).
Proof.
  unfold w'; simpl. destruct (decide (q = p)) as [->|Hne].
  - rewrite lookup_insert_eq. intros [= <-]. auto.
  - rewrite lookup_insert_ne; auto.
Qed.

Lemma write_live q : is_Some (w_tasks w !! q) → is_Some (w_tasks w' !! q).
Proof.
  unfold w'; simpl. destruct (decide (q = p)) as [->|Hne].
  - rewrite lookup_insert_eq. eauto.
  - rewrite lookup_insert_ne; auto.
Qed.

(** A suspended task outside [hot] keeps what makes it suspended. *)
Lemma write_suspended x tx :
  w_tasks w !! x = Some tx → x ∉ hot →
  ∃ tx', w_tasks w' !! x = Some tx' ∧ t_ctx tx' = t_ctx tx ∧
    t_no_preempt_flag tx' = t_no_preempt_flag tx ∧ t_run_state tx' = t_run_state tx.
Proof.
  intros Hx Hni. unfold w'; simpl. destruct (decide (x = p)) as [->|Hne].
  - rewrite lookup_insert_eq. simplify_eq. exists t'. split; [done|].
    by destruct (wo_suspended _ _ _ _ _ Hok).
  - rewrite lookup_insert_ne; [|done]. exists tx. auto.
Qed.

Lemma write_joined h x : joined w h x → joined w' h x.
Proof.
  intros (q & tq & Hh & Hq0 & Hq & Hs & Hj).
  destruct (decide (q = p)) as [->|Hne].
  - simplify_eq. destruct (wo_stopped _ _ _ _ _ Hok Hs) as [[Hs' Hj']|(_ & _ & Hno)].
    + exists p, t'. unfold w'; simpl. rewrite lookup_insert_eq. by rewrite Hj'.
    + by destruct (Hno h).
  - exists q, tq. unfold w'; simpl. by rewrite lookup_insert_ne.
Qed.

Lemma write_ready x : x ∉ hot → ready w x → ready w' x.
Proof.
  intros Hni (tx & fs & Hx & Hctx & Hrp & Hfl & Hst & Hjoin & Hpark).
  destruct (write_suspended x tx Hx Hni) as (tx' & Hx' & Ec & Ef & Es).
  exists tx', fs. rewrite Ec, Ef, Es. split_and!; auto.
  intros h rv Heq. apply write_joined. eauto.
Qed.

Lemma write_pending q j : j ∉ hot → pending w q j → pending w' q j.
Proof.
  intros Hni (tj & h & rv & Hj & Hc & Hf & Hs & Hh).
  destruct (write_suspended j tj Hj Hni) as (tj' & Hj' & Ec & Ef & Es).
  exists tj', h, rv. rewrite Ec, Ef, Es. auto.
Qed.

Lemma write_parked a j : j ∉ hot → parked w a j → parked w' a j.
Proof.
  intros Hni (tj & fs & Hj & Hc & Hfs & Hf & Hs).
  destruct (write_suspended j tj Hj Hni) as (tj' & Hj' & Ec & Ef & Es).
  exists tj', fs. rewrite Ec, Ef, Es. auto.
Qed.

Lemma write_sorted : rq_sorted (w_tasks w) (w_runqueue w) → rq_sorted (w_tasks w') (w_runqueue w).
Proof.
  apply rq_sorted_ext. intros x Hx. unfold w'; simpl.
  destruct (decide (x = p)) as [->|Hne].
  - rewrite lookup_insert_eq, Ht. simpl.
    destruct (wo_vruntime _ _ _ _ _ Hok) as [? | ->]; done.
  - by rewrite lookup_insert_ne.
Qed.

Lemma core_write : core w hot → core w' hot.
Proof.
  intros C. constructor; try by apply C.
  - destruct (c_host _ _ C) as (th & Hth & Hok').
    destruct (decide (p = host_task)) as [Hp|Hne].
    + exists t'. unfold w'; simpl. rewrite Hp, lookup_insert_eq. split; [done|].
      destruct (wo_host _ _ _ _ _ Hok Hp). rewrite Hp in Ht.
      assert (th = t) as -> by congruence. destruct Hok' as (? & ? & ? & ?).
      split_and!; [| |done..].
      * by rewrite (wo_stack _ _ _ _ _ Hok).
      * by rewrite (wo_tls _ _ _ _ _ Hok).
    + exists th. unfold w'; simpl. by rewrite lookup_insert_ne.
  - intros q tq Hq [[-> ->] | [? ?]]%write_lookup; [|by apply (c_layout _ _ C)].
    destruct (c_layout _ _ C p t Hq Ht) as (? & ? & ? & ? & ? & ?).
    unfold layout. rewrite (wo_stack _ _ _ _ _ Hok), (wo_tls _ _ _ _ _ Hok),
      (wo_total _ _ _ _ _ Hok). done.
  - intros q tq Hq [[-> ->] | [? ?]]%write_lookup; [by apply Hok|by eapply (c_entry _ _ C)].
  - intros x Hx. apply write_live. by apply (c_rq_live _ _ C).
  - apply write_sorted, C.
  - intros x Hx Hni. apply write_ready; [done|]. by apply (c_ready _ _ C).
  - intros q tq [[-> ->] | [? Hq]]%write_lookup Hs Hj Hni; apply write_pending; try done.
    + destruct (wo_joiner _ _ _ _ _ Hok Hs Hj) as [?|[Hs0 Heq]]; [done|].
      rewrite Heq in Hj, Hni |- *. by apply (c_pending _ _ C).
    + by apply (c_pending _ _ C).
  - intros a j Ha Hj Hni. apply write_parked; [done|]. by apply (c_parked _ _ C).
  - intros h q Hh Hq0. destruct (c_handle _ _ C h q Hh Hq0) as (? & ? & ? & ? & tq & Hq & Hd).
    split_and!; [done..|]. destruct (decide (q = p)) as [->|Hne].
    + exists t'. unfold w'; simpl. rewrite lookup_insert_eq. split; [done|].
      by apply (wo_detached _ _ _ _ _ Hok h).
    + exists tq. unfold w'; simpl. by rewrite lookup_insert_ne.
  - intros q Hq. destruct (c_free _ _ C q Hq) as (? & ? & tq & Htq & Hs).
    split_and!; [done..|]. destruct (decide (q = p)) as [->|Hne].
    + simplify_eq. exists t'. unfold w'; simpl. rewrite lookup_insert_eq. split; [done|].
      destruct (wo_stopped _ _ _ _ _ Hok Hs) as [[? ?]|(? & _)]; done.
    + exists tq. unfold w'; simpl. by rewrite lookup_insert_ne.
  - intros Hd. destruct (c_deferred _ _ C Hd) as (? & tq & Htq & Hs). split; [done|].
    destruct (decide (nd_deferred (w_node w) = p)) as [Heq|Hne].
    + assert (tq = t) as -> by congruence. exists t'. unfold w'; simpl.
      rewrite Heq, lookup_insert_eq. split; [done|].
      destruct (wo_stopped _ _ _ _ _ Hok Hs) as [[? ?]|(_ & ? & _)]; done.
    + exists tq. unfold w'; simpl. by rewrite lookup_insert_ne.
Qed.
End write.

End inv.
