(* ===== verification/InvSteps.v ===== *)
(** * Preservation of the invariant by the elementary state changes

    Queues, waiters, handles, the free list, the deferred task, and the
    creation and destruction of task objects. *)

From S2P Require Import Prelude Platform World Task TimeOrderedQueue Rq Freelist SchedNode Sched Inv.

Section steps.
Context {E : Env} {EOk : EnvOk E} (b : bool).
Implicit Types (w : world) (hot : list Z).

Lemma ready_live w x : ready w x → is_Some (w_tasks w !! x).
Proof. intros (t & fs & Ht & _). eauto. Qed.

Lemma core_live_pos w hot p : core b w hot → is_Some (w_tasks w !! p) → p ≠ 0.
Proof. intros C [t Ht] ->. by rewrite (core_no_null b w hot C) in Ht. Qed.

(** ** Queues *)

Lemma core_set_runqueue w hot l :
  core b w hot →
  (∀ x, x ∈ l → is_Some (w_tasks w !! x) ∧ (x ∉ sleepers w) ∧ (x ∉ hot → ready w x)) →
  NoDup l → rq_sorted (w_tasks w) l → core b (set_runqueue l w) hot.
Proof.
  intros C Hl Hnd Hs. constructor; try by apply C.
  - intros x Hx. by apply Hl.
  - done.
  - intros x Hx. by apply Hl.
  - done.
  - intros x [Hx|Hx] Hni; [by apply Hl|]. apply (c_ready _ _ _ C); auto.
Qed.

Lemma core_set_sleepqueue w hot q :
  core b w hot →
  (∀ x, x ∈ q.*2 → (x ∉ w_runqueue w) ∧ (x ∉ hot → ready w x)) →
  NoDup q.*2 → toq_ok q → core b (set_sleepqueue q w) hot.
Proof.
  intros C Hq Hnd Hs. constructor; try by apply C.
  - done.
  - intros x Hx Hx'. by apply (Hq x).
  - done.
  - intros x [Hx|Hx] Hni; [|by apply Hq]. apply (c_ready _ _ _ C); auto.
Qed.

(** ** Waiters *)

Lemma core_set_waiter w hot a v :
  core b w hot → v = 0 ∨ v ∈ hot → core b (upd_waiters <[a := v]> w) hot.
Proof.
  intros C Hv. constructor; try by apply C.
  - intros x Hx Hni. destruct (c_ready _ _ _ C x Hx Hni)
      as (t & fs & Ht & Hc & Hrp & Hf & Hs & Hj & Hp).
    exists t, fs. split_and!; [done..|]. intros a' Hfs. simpl.
    destruct (decide (a' = a)) as [->|Hne].
    + rewrite lookup_insert_eq. intros [= ->]. destruct Hv as [->|?]; [|done].
      by rewrite (core_no_null b w hot C) in Ht.
    + rewrite lookup_insert_ne; [|done]. by apply Hp.
  - intros a' j. simpl. destruct (decide (a' = a)) as [->|Hne].
    + rewrite lookup_insert_eq. intros [= <-]. by destruct Hv.
    + rewrite lookup_insert_ne; [|done]. apply (c_parked _ _ _ C).
Qed.

(** ** Handles *)

(** Clear the handle of a task nobody outside [hot] waits for. *)
Lemma core_handle_clear w hot h q tq :
  core b w hot → w_handles w !! h = Some q → w_tasks w !! q = Some tq →
  t_joiner tq = 0 ∨ t_joiner tq ∈ hot → core b (upd_handles <[h := 0]> w) hot.
Proof.
  intros C Hh Hq Hj.
  assert (∀ h' q', <[h := 0]> (w_handles w) !! h' = Some q' → q' ≠ 0 →
            h' ≠ h ∧ w_handles w !! h' = Some q') as Hlook.
  { intros h' q'. destruct (decide (h' = h)) as [->|Hne].
    - rewrite lookup_insert_eq. by intros [= <-].
    - by rewrite lookup_insert_ne. }
  constructor; try by apply C.
  - intros x Hx Hni. destruct (c_ready _ _ _ C x Hx Hni)
      as (t & fs & Ht & Hc & Hrp & Hf & Hs & Hjn & Hp).
    exists t, fs. split_and!; [done..| |done]. intros h' rv Hfs.
    destruct (Hjn h' rv Hfs) as (q' & tq' & Hh' & Hq0 & Hq' & Hst & Hjr).
    exists q', tq'. split_and!; [|done..]. simpl.
    destruct (decide (h' = h)) as [->|Hne]; [|by rewrite lookup_insert_ne].
    simplify_eq. destruct Hj as [Hj|]; [|done].
    rewrite Hj, (core_no_null b w hot C) in Ht. done.
  - intros q' tq' Hq' Hst Hj0 Hni.
    destruct (c_pending _ _ _ C q' tq' Hq' Hst Hj0 Hni) as (tj & h' & rv & ? & ? & ? & ? & Hh').
    exists tj, h', rv. split_and!; [done..|]. simpl.
    destruct (decide (h' = h)) as [->|Hne]; [|by rewrite lookup_insert_ne].
    simpl in Hq'. simplify_eq. by destruct Hj.
  - intros h' q' Hh' Hq0. apply Hlook in Hh' as [_ Hh']; [|done]. by apply (c_handle _ _ _ C).
  - intros h1 h2 q' Hh1 Hh2 Hq0. apply Hlook in Hh1 as [_ Hh1]; [|done].
    apply Hlook in Hh2 as [_ Hh2]; [|done]. by eapply (c_handle_inj _ _ _ C).
Qed.

(** Store a new task in an empty handle. *)
Lemma core_handle_set w hot h q tq :
  core b w hot → h ≠ 0 → w_handles w !! h = Some 0 → w_tasks w !! q = Some tq →
  q ≠ host_task → q ∉ fl_l (w_freelist w) → q ≠ nd_deferred (w_node w) →
  t_detached tq = false → (∀ h', w_handles w !! h' ≠ Some q) →
  core b (upd_handles <[h := q]> w) hot.
Proof.
  intros C Hh0 Hh Hq Hhost Hfree Hdef Hdet Hno.
  assert (∀ h' q', w_handles w !! h' = Some q' → q' ≠ 0 →
            <[h := q]> (w_handles w) !! h' = Some q') as Hkeep.
  { intros h' q' Hh' Hq0. rewrite lookup_insert_ne; [done|]. intros <-. congruence. }
  constructor; try by apply C.
  - intros x Hx Hni. destruct (c_ready _ _ _ C x Hx Hni)
      as (t & fs & Ht & Hc & Hrp & Hf & Hs & Hjn & Hp).
    exists t, fs. split_and!; [done..| |done]. intros h' rv Hfs.
    destruct (Hjn h' rv Hfs) as (q' & tq' & Hh' & Hq0 & ? & ? & ?).
    exists q', tq'. split_and!; [by apply Hkeep|done..].
  - intros q' tq' Hq' Hst Hj0 Hni.
    destruct (c_pending _ _ _ C q' tq' Hq' Hst Hj0 Hni) as (tj & h' & rv & ? & ? & ? & ? & Hh').
    exists tj, h', rv. split_and!; [done..|]. apply Hkeep; [done|].
    eapply core_live_pos; [done|]. eauto.
  - intros h' q'. simpl. destruct (decide (h' = h)) as [->|Hne].
    + rewrite lookup_insert_eq. intros [= <-] _. split_and!; eauto.
    + rewrite lookup_insert_ne; [|done]. apply (c_handle _ _ _ C).
  - intros h1 h2 q'. simpl.
    destruct (decide (h1 = h)) as [->|], (decide (h2 = h)) as [->|];
      rewrite ?lookup_insert_eq, ?lookup_insert_ne by done; try congruence.
    apply (c_handle_inj _ _ _ C).
Qed.

(** ** The deferred task *)

Lemma core_set_deferred w hot d :
  core b w hot →
  (d ≠ 0 → d ≠ host_task ∧ (d ∉ fl_l (w_freelist w)) ∧ (∀ h, w_handles w !! h ≠ Some d) ∧
           ∃ t, w_tasks w !! d = Some t ∧ t_run_state t = STOPPED) →
  core b (set_deferred d w) hot.
Proof.
  intros C Hd. constructor; try by apply C.
  - intros h q Hh Hq0. destruct (c_handle _ _ _ C h q Hh Hq0) as (? & ? & ? & ? & ?).
    split_and!; [done..| |done]. simpl. intros ->. destruct (Hd Hq0) as (_ & _ & Hno & _).
    by apply (Hno h).
  - intros p Hp. destruct (c_free _ _ _ C p Hp) as (? & _ & t & Ht & Hs).
    split_and!; [done| |eauto]. simpl. intros ->. apply Hd; [|done].
    eapply core_live_pos; eauto.
  - intros Hd0. simpl in Hd0. destruct (Hd Hd0) as (? & _ & _ & ?). auto.
Qed.

(** ** The free list *)

(** A stopped task to which nothing refers any more. *)
Definition retired w p : Prop :=
  p ≠ host_task ∧ (p ∉ fl_l (w_freelist w)) ∧ p ≠ nd_deferred (w_node w) ∧
  (∀ h, w_handles w !! h ≠ Some p) ∧
  ∃ t, w_tasks w !! p = Some t ∧ t_run_state t = STOPPED.

Lemma core_free_add w hot p l :
  core b w hot → retired w p → l ≡ₚ p :: fl_l (w_freelist w) →
  Z.of_nat (length (fl_l (w_freelist w))) < fl_max_size (w_freelist w) →
  core b (set_freelist l w) hot.
Proof.
  intros C (Hhost & Hni & Hdef & Hno & t & Ht & Hs) Hl Hsize. constructor; try by apply C.
  - intros h q Hh Hq0. destruct (c_handle _ _ _ C h q Hh Hq0) as (? & ? & ? & ? & ?).
    split_and!; [done..| |done|done]. simpl. rewrite Hl, not_elem_of_cons. split; [|done].
    intros ->. by apply (Hno h).
  - simpl. rewrite Hl. constructor; [done|apply C].
  - intros q. simpl. rewrite Hl, elem_of_cons. intros [->|Hq]; [eauto|].
    by apply (c_free _ _ _ C).
  - simpl. rewrite Hl. simpl. lia.
Qed.

Lemma core_free_remove w hot p l :
  core b w hot → fl_l (w_freelist w) ≡ₚ p :: l →
  core b (set_freelist l w) hot ∧ retired (set_freelist l w) p.
Proof.
  intros C Hl.
  assert (NoDup (p :: l)) as [Hni Hnd]%NoDup_cons.
  { rewrite <-Hl. apply C. }
  assert (∀ q, q ∈ l → q ∈ fl_l (w_freelist w)) as Hin.
  { intros q Hq. rewrite Hl. by right. }
  destruct (c_free _ _ _ C p) as (? & ? & H1); [rewrite Hl; by left|].
  split.
  - constructor; try by apply C.
    + intros h q Hh Hq0. destruct (c_handle _ _ _ C h q Hh Hq0) as (? & ? & ? & ? & ?).
      split_and!; [done..| |done|done]. simpl. auto.
    + done.
    + intros q Hq. apply (c_free _ _ _ C). auto.
    + simpl. pose proof (c_free_size _ _ _ C) as Hsz. rewrite Hl in Hsz. simpl in Hsz. lia.
  - split_and!; [done..| |done]. intros h Hh. simpl in Hh.
    destruct (c_handle _ _ _ C h p Hh) as (_ & _ & Hni' & _).
    + destruct H1 as (t & Ht & _). eapply core_live_pos; eauto.
    + apply Hni'. rewrite Hl. by left.
Qed.

(** ** Destruction and creation of task objects *)

(** The address of a live task lies in a mapped region, and so does the
    thread-local block it runs with. *)
Lemma core_task_region w hot p t :
  core b w hot → w_tasks w !! p = Some t →
  ∃ r, r ∈ w_maps w ∧ r.1 ≤ p ∧ p < r.1 + r.2.
Proof.
  intros C Ht. pose proof sizes_pos. destruct (decide (p = host_task)) as [->|Hne].
  - exists (host_task, sizeof_task). split; [apply C|]. simpl. lia.
  - destruct (c_layout _ _ _ C p t Hne Ht) as (-> & Hr & ? & _).
    eexists. split; [exact Hr|]. simpl. lia.
Qed.

Lemma core_tls_region w hot p t :
  core b w hot → w_tasks w !! p = Some t →
  ∃ r, r ∈ w_maps w ∧ r.1 ≤ tls_of t ∧ tls_of t < r.1 + r.2.
Proof.
  intros C Ht. pose proof sizes_pos. unfold tls_of.
  assert (∃ r, r ∈ w_maps w ∧ r.1 ≤ host_tls ∧ host_tls < r.1 + r.2) as Hhost.
  { exists (host_tls, tls_postfix_bytes). split; [apply C|]. simpl. lia. }
  destruct (decide (p = host_task)) as [->|Hne].
  - destruct (c_host _ _ _ C) as (th & Hth & _ & Htls & _). simplify_eq. rewrite Htls.
    by case_bool_decide.
  - destruct (c_layout _ _ _ C p t Hne Ht) as (-> & Hr & ? & _ & Htls & _).
    case_bool_decide as Hz; [|done]. rewrite Htls in Hz |- *.
    destruct b; [|done]. eexists. split; [exact Hr|]. simpl. lia.
Qed.

(** No other task runs with the block of a spawned task. *)
Lemma tls_distinct w hot p t q tq :
  core b w hot → p ≠ host_task → w_tasks w !! p = Some t → q ≠ p →
  w_tasks w !! q = Some tq → t_tls t ≠ tls_of tq.
Proof.
  intros C Hhost Ht Hne Hq. pose proof sizes_pos. pose proof host_tls_pos.
  destruct (c_layout _ _ _ C p t Hhost Ht) as (Hp & Hr & Htot & _ & Htls & _).
  rewrite Htls. unfold tls_of. destruct (decide (q = host_task)) as [->|Hqh].
  - destruct (c_host _ _ _ C) as (th & Hth & _ & Hthtls & _).
    assert (th = tq) as -> by congruence. rewrite Hthtls.
    intros Heq. assert (host_tls = if b then p - tls_postfix_bytes else 0) as Heq'.
    { by case_bool_decide. }
    destruct b; [|lia].
    destruct (c_disjoint _ _ _ C _ _ Hr (proj2 (c_host_maps _ _ _ C))) as [[= ? ?]|[Hd|Hd]];
      simpl in *; lia.
  - destruct (c_layout _ _ _ C q tq Hqh Hq) as (? & _ & ? & ? & -> & _).
    destruct b; case_bool_decide; lia.
Qed.

Definition destroyed w p t : world :=
  set_maps (free_stack (w_maps w) (t_stack t - t_total_stack_size t) (t_total_stack_size t))
    (upd_tasks (delete p) (if has_tls t then upd_tls (delete (t_tls t)) w else w)).

Section destroy.
Context (w : world) (hot : list Z) (p : Z) (t : task).
Hypothesis (C : core b w hot) (Hret : retired w p) (Ht : w_tasks w !! p = Some t) (Hhot : p ∉ hot).
Let w' : world := destroyed w p t.

Lemma destroyed_tasks : w_tasks w' = delete p (w_tasks w).
Proof. unfold w', destroyed. by destruct (has_tls t). Qed.

Lemma destroyed_lookup q tq :
  w_tasks w' !! q = Some tq ↔ q ≠ p ∧ w_tasks w !! q = Some tq.
Proof. rewrite destroyed_tasks, lookup_delete_Some. split; intros [? ?]; auto. Qed.

Lemma destroyed_maps r :
  r ∈ w_maps w' ↔
  r ∈ w_maps w ∧ r ≠ (t_stack t - t_total_stack_size t, t_total_stack_size t).
Proof.
  unfold w', destroyed, free_stack. destruct (has_tls t); simpl; rewrite list_elem_of_filter;
    split; intros [? ?]; auto.
Qed.

Lemma destroyed_tls q : t_tls t ≠ q → w_tls w' !! q = w_tls w !! q.
Proof.
  intros Hne. unfold w', destroyed. destruct (has_tls t); simpl; [|done].
  by rewrite lookup_delete_ne.
Qed.

Lemma destroyed_not_suspended tx :
  w_tasks w !! p = Some tx → t_run_state tx = SUSPENDED ∨ t_run_state tx = WAITING → False.
Proof.
  destruct Hret as (_ & _ & _ & _ & t0 & Ht0 & Hs). intros Hx. simplify_eq.
  intros [?|?]; congruence.
Qed.

(** The thread-local block of another task stays. *)
Lemma destroyed_tls_other q tq :
  q ≠ p → w_tasks w !! q = Some tq → w_tls w' !! tls_of tq = w_tls w !! tls_of tq.
Proof.
  intros Hne Hq. apply destroyed_tls. eapply tls_distinct; [done|apply Hret|done..].
Qed.

(** What the destruction leaves alone. *)
Lemma destroyed_same :
  w_runqueue w' = w_runqueue w ∧ w_sleepqueue w' = w_sleepqueue w ∧
  w_handles w' = w_handles w ∧ w_waiters w' = w_waiters w ∧
  w_freelist w' = w_freelist w ∧ w_node w' = w_node w ∧
  w_context w' = w_context w ∧ w_end_handler w' = w_end_handler w.
Proof. unfold w', destroyed. by destruct (has_tls t). Qed.

Lemma destroyed_ready x : ready w x → ready w' x.
Proof.
  intros (tx & fs & Hx & Hc & Hrp & Hf & Hst & Hj & Hpk).
  destruct destroyed_same as (_ & _ & Eh & Ew & _).
  assert (x ≠ p) by (intros ->; eapply destroyed_not_suspended; eauto).
  exists tx, fs. rewrite destroyed_lookup. split_and!; [done..| |by rewrite Ew].
  intros h rv Hfs. destruct (Hj h rv Hfs) as (q & tq & Hh & ? & Hq & ? & ?).
  exists q, tq. rewrite destroyed_lookup, Eh. split_and!; try done.
  intros ->. by destruct Hret as (_ & _ & _ & Hno & _); apply (Hno h).
Qed.

Lemma destroyed_unqueued x : x ∈ w_runqueue w → x ≠ p.
Proof.
  intros Hx ->. destruct (c_ready _ _ _ C p (or_introl Hx) Hhot) as (tx & fs & ? & ? & ? & ? & ? & _).
  eapply destroyed_not_suspended; eauto.
Qed.

Lemma destroyed_host_tls : is_Some (w_tls w' !! host_tls).
Proof.
  destruct (c_host _ _ _ C) as (th & Hth & _ & Htls & _). destruct Hret as (Hhost & _).
  pose proof (destroyed_tls_other host_task th (not_eq_sym Hhost) Hth) as Heq. pose proof host_tls_pos.
  assert (tls_of th = host_tls) as Hof by (unfold tls_of; rewrite Htls; by case_bool_decide).
  rewrite Hof in Heq. rewrite Heq. apply C.
Qed.

Lemma destroyed_layout q tq :
  q ≠ host_task → q ≠ p → w_tasks w !! q = Some tq → layout b w' q tq.
Proof.
  intros Hq Hne Htq. pose proof sizes_pos. destruct Hret as (Hhost & _).
  destruct (c_layout _ _ _ C p t Hhost Ht) as (? & _ & ? & _ & Htls & _).
  destruct (c_layout _ _ _ C q tq Hq Htq) as (? & ? & ? & ? & Htlsq & Hblk).
  split_and!; try done.
  - apply destroyed_maps. split; [done|]. intros [= ? ?]. lia.
  - intros Hb. rewrite destroyed_tls; [by apply Hblk|]. rewrite Htls, Htlsq, Hb. lia.
Qed.

Lemma core_destroy : core b w' hot.
Proof.
  pose proof sizes_pos. destruct Hret as (Hhost & Hni & Hdef & Hno & t0 & Ht0 & Hs0).
  destruct (c_layout _ _ _ C p t Hhost Ht) as (Hp & _ & Htot & _).
  destruct destroyed_same as (Erq & Esq & Eh & Ew & Ef & En & Ec & Ee).
  assert (sleepers w' = sleepers w) as Esl by (by unfold sleepers; rewrite Esq).
  constructor; rewrite ?Erq, ?Esl, ?Esq, ?Eh, ?Ew, ?Ef, ?En, ?Ec, ?Ee; try by apply C.
  - destruct (c_host _ _ _ C) as (th & Hth & ?). exists th. by rewrite destroyed_lookup.
  - apply destroyed_host_tls.
  - destruct (c_host_maps _ _ _ C). rewrite !destroyed_maps. split_and!; try done.
    + intros [= ? ?]. lia.
    + intros [= ? ?]. lia.
  - intros r1 r2 [??]%destroyed_maps [??]%destroyed_maps. by apply (c_disjoint _ _ _ C).
  - intros q tq Hq [Hne Htq]%destroyed_lookup. by apply destroyed_layout.
  - intros q tq Hq [Hne Htq]%destroyed_lookup. by eapply (c_entry _ _ _ C).
  - intros x Hx. destruct (c_rq_live _ _ _ C x Hx) as [tx Htx]. exists tx.
    apply destroyed_lookup. split; [by apply destroyed_unqueued|done].
  - eapply rq_sorted_ext; [|apply C]. intros x Hx. rewrite destroyed_tasks.
    rewrite lookup_delete_ne; [done|]. by apply not_eq_sym, destroyed_unqueued.
  - intros x Hx Hnx. apply destroyed_ready. by apply (c_ready _ _ _ C).
  - intros q tq [Hne Htq]%destroyed_lookup Hs Hj Hnj.
    destruct (c_pending _ _ _ C q tq Htq Hs Hj Hnj) as (tj & h & rv & Htj & ? & ? & Hw & ?).
    exists tj, h, rv. rewrite destroyed_lookup, Eh. split_and!; try done.
    intros Heq. rewrite Heq in Htj. eapply destroyed_not_suspended; eauto.
  - intros a j Ha Hj Hnj.
    destruct (c_parked _ _ _ C a j Ha Hj Hnj) as (tj & fs & Htj & ? & ? & ? & ?).
    exists tj, fs. rewrite destroyed_lookup. split_and!; try done.
    intros ->. eapply destroyed_not_suspended; eauto.
  - intros h q Hh Hq0. destruct (c_handle _ _ _ C h q Hh Hq0) as (? & ? & ? & ? & tq & ? & ?).
    split_and!; [done..|]. exists tq. rewrite destroyed_lookup. split_and!; try done.
    intros ->. by apply (Hno h).
  - intros q Hq. destruct (c_free _ _ _ C q Hq) as (? & ? & tq & ? & ?).
    split_and!; [done..|]. exists tq. rewrite destroyed_lookup. split_and!; try done.
    by intros ->.
  - intros Hd. destruct (c_deferred _ _ _ C Hd) as (? & tq & ? & ?). split; [done|].
    exists tq. rewrite destroyed_lookup. split_and!; done || congruence.
Qed.

Lemma curr_destroy c : c ≠ p → curr w c → curr w' c.
Proof.
  intros Hne (Hb & tc & Htc & Hfs).
  assert (w_fs w' = w_fs w) as Efs by (unfold w', destroyed; by destruct (has_tls t)).
  split.
  - rewrite Efs, Hfs, (destroyed_tls_other c tc Hne Htc), <-Hfs. done.
  - exists tc. rewrite Efs, destroyed_lookup. done.
Qed.

End destroy.

(** An attribute set the library can serve: it asks for a stack of the library's
    own, with room for the task object and its thread-local block. *)
Definition attr_ok (a : attr) : Prop :=
  stack_addr a = 0 ∧ 0 ≤ stack_size a ∧ 0 ≤ stack_guardsize a < two64 ∧
  stack_size a + effective_guardsize a < two64 ∧
  sizeof_task + tls_postfix_bytes ≤ stack_size a ∧ alloc_tls a = b.

(** The operating system serves the request. *)
Definition memory_available (maps : list region) (a : attr) : Prop :=
  mmap maps (total_size a) ≠ map_failed ∧
  (effective_guardsize a ≠ 0 →
   mprotect_fails (mmap maps (total_size a)) (effective_guardsize a) = false).

Lemma attr_ok_total a : attr_ok a →
  total_size a = stack_size a + effective_guardsize a ∧
  sizeof_task + tls_postfix_bytes ≤ total_size a.
Proof.
  intros (_ & ? & ? & ? & ? & _). unfold total_size.
  assert (0 ≤ effective_guardsize a).
  { unfold effective_guardsize, k_stack_min. case_bool_decide; lia. }
  rewrite wrap64_small; lia.
Qed.

Definition created_stack w a : Z := mmap (w_maps w) (total_size a) + total_size a.
Definition created_place w a : Z := created_stack w a - sizeof_task.
Definition created_task w a : task :=
  let place := created_place w a in
  let tls_begin := place - tls_postfix_bytes in
  mkTask (if b then tls_begin else 0) None (created_stack w a)
    (sixteen_byte_align (if b then tls_begin - tls_prefix_bytes else place))
    (total_size a) STOPPED 0 0 0 0 false 0 0 false.
Definition created w a : world :=
  let place := created_place w a in
  upd_tasks <[place := created_task w a]>
    (upd_tls (λ m, if b then <[place - tls_postfix_bytes := mkTlsBlock place false]> m else m)
      (set_maps ((mmap (w_maps w) (total_size a), total_size a) :: w_maps w) w)).

Lemma wp_create w a (Q : Z → world → Prop) X U :
  attr_ok a → memory_available (w_maps w) a → Q (created_place w a) (created w a) →
  wp (create a) Q X U w.
Proof.
  intros Ha [Hm Hp] HQ. pose proof (attr_ok_total a Ha) as [Htot _].
  destruct Ha as (Haddr & _ & _ & _ & _ & Hb).
  pose proof (mmap_range (w_maps w) (total_size a) Hm) as [Hpos Hend].
  assert (0 ≤ total_size a) by apply wrap64_range.
  unfold create. wp_go.
  rewrite allocate_stack_fresh; [|done|done|lia|done|lia].
  cbn [sr_maps sr_stack sr_total]. wp_go.
  unfold construct_task. rewrite Hb. unfold created, created_task in HQ. clear Hb.
  destruct b.
  - unfold tls_construct. wp_go.
    eapply wp_tls_set_thread; [apply lookup_insert_eq|]. wp_go.
    revert HQ. unfold upd_tls, upd_tasks, set_maps. cbn. by rewrite insert_insert_eq.
  - wp_go. done.
Qed.

Section create.
Context (w : world) (hot : list Z) (a : attr).
Hypothesis (C : core b w hot) (Ha : attr_ok a) (Hmem : memory_available (w_maps w) a).
Let place : Z := created_place w a.
Let w' : world := created w a.
Let r : region := (mmap (w_maps w) (total_size a), total_size a).

Lemma created_fresh r' : r' ∈ w_maps w → disjoint_region r' r.
Proof. intros Hr. apply mmap_fresh; [apply Hmem|done]. Qed.

(** No live object lies in the new region. *)
Lemma created_outside r' x :
  r' ∈ w_maps w → r'.1 ≤ x → x < r'.1 + r'.2 → ¬ (r.1 ≤ x ∧ x < r.1 + r.2).
Proof. intros Hr Hx1 Hx2 [? ?]. destruct (created_fresh r' Hr); lia. Qed.

Lemma created_place_range :
  r.1 ≤ place - tls_postfix_bytes ∧ place < r.1 + r.2 ∧ 0 < r.1.
Proof.
  pose proof sizes_pos. destruct (attr_ok_total a Ha) as [_ ?].
  destruct (mmap_range (w_maps w) (total_size a) (proj1 Hmem)) as [? _].
  unfold place, created_place, created_stack, r; simpl. lia.
Qed.

Lemma created_new : w_tasks w !! place = None.
Proof.
  destruct (w_tasks w !! place) as [t|] eqn:Ht; [|done]. exfalso.
  destruct (core_task_region w hot place t C Ht) as (r' & Hr & ? & ?).
  pose proof created_place_range. pose proof sizes_pos.
  apply (created_outside r' place Hr); [done..|]. lia.
Qed.

Lemma created_lookup q tq :
  w_tasks w' !! q = Some tq →
  (q = place ∧ tq = created_task w a) ∨ (q ≠ place ∧ w_tasks w !! q = Some tq).
Proof.
  unfold w', created; simpl. fold place. destruct (decide (q = place)) as [->|Hne].
  - rewrite lookup_insert_eq. intros [= <-]. auto.
  - rewrite lookup_insert_ne; auto.
Qed.

Lemma created_keeps q tq : w_tasks w !! q = Some tq → w_tasks w' !! q = Some tq.
Proof.
  intros Hq. unfold w', created; simpl. fold place. rewrite lookup_insert_ne; [done|].
  intros <-. by rewrite created_new in Hq.
Qed.

Lemma created_tls_old x : (∃ r', r' ∈ w_maps w ∧ r'.1 ≤ x ∧ x < r'.1 + r'.2) →
  w_tls w' !! x = w_tls w !! x.
Proof.
  intros (r' & Hr & ? & ?). unfold w', created; simpl. destruct b; [|done].
  apply lookup_insert_ne. fold place. intros <-.
  pose proof created_place_range. pose proof sizes_pos.
  apply (created_outside r' (place - tls_postfix_bytes) Hr); lia.
Qed.

Lemma created_not_host : place ≠ host_task.
Proof.
  intros Heq. destruct (c_host _ _ _ C) as (th & Hth & _). rewrite <-Heq in Hth.
  by rewrite created_new in Hth.
Qed.

Lemma created_retired : retired w' place.
Proof.
  split_and!.
  - apply created_not_host.
  - simpl. intros Hin. destruct (c_free _ _ _ C place Hin) as (_ & _ & t & Ht & _).
    by rewrite created_new in Ht.
  - simpl. intros Heq. destruct (c_deferred _ _ _ C) as (_ & t & Ht & _).
    + rewrite <-Heq. pose proof created_place_range. pose proof sizes_pos. lia.
    + rewrite <-Heq, created_new in Ht. done.
  - intros h Hh. simpl in Hh. pose proof created_place_range. pose proof sizes_pos.
    destruct (c_handle _ _ _ C h place Hh) as (_ & _ & _ & _ & t & Ht & _); [lia|].
    by rewrite created_new in Ht.
  - exists (created_task w a). unfold w', created; simpl. fold place.
    by rewrite lookup_insert_eq.
Qed.

Lemma core_create : core b w' hot.
Proof.
  pose proof created_place_range as Hrange. pose proof sizes_pos.
  assert (∀ x, ready w x → ready w' x) as Hready.
  { intros x (tx & fs & Hx & Hc & Hrp & Hf & Hst & Hj & Hpk).
    exists tx, fs. split_and!; [by apply created_keeps|done..| |done].
    intros h rv Hfs. destruct (Hj h rv Hfs) as (q & tq & ? & ? & ? & ? & ?).
    exists q, tq. split_and!; [done..|by apply created_keeps|done|done]. }
  constructor; try by apply C.
  - destruct (c_host _ _ _ C) as (th & Hth & ?). exists th. split; [|done]. by apply created_keeps.
  - rewrite created_tls_old; [apply C|]. exists (host_tls, tls_postfix_bytes).
    split; [apply C|]. simpl. lia.
  - simpl. split; right; apply C.
  - intros r1 r2. simpl. rewrite !elem_of_cons. intros [->|H1] [->|H2]; [by left| | |].
    + right. destruct (created_fresh r2 H2); [by right|by left].
    + right. by apply created_fresh.
    + by apply (c_disjoint _ _ _ C).
  - intros q tq Hq [[-> ->] | [? Htq]]%created_lookup.
    + unfold layout. simpl. fold place. split_and!.
      * done.
      * replace (created_stack w a - total_size a) with (mmap (w_maps w) (total_size a))
          by (unfold created_stack; lia). by left.
      * by apply attr_ok_total.
      * unfold r in Hrange; simpl in Hrange. unfold created_stack. lia.
      * done.
      * intros ->. rewrite lookup_insert_eq. eauto.
    + destruct (c_layout _ _ _ C q tq Hq Htq) as (? & ? & ? & ? & Htls & Hblk).
      split_and!; try done.
      * simpl. by right.
      * intros Hb. rewrite created_tls_old; [by apply Hblk|].
        eexists. split; [eassumption|]. rewrite Htls, Hb. simpl. lia.
  - intros q tq Hq [[-> ->] | [? Htq]]%created_lookup; [done|]. by eapply (c_entry _ _ _ C).
  - intros x Hx. destruct (c_rq_live _ _ _ C x Hx) as [tx ?]. exists tx. by apply created_keeps.
  - eapply rq_sorted_ext; [|apply C]. intros x Hx.
    destruct (c_rq_live _ _ _ C x Hx) as [tx Htx]. by rewrite Htx, (created_keeps x tx).
  - intros x Hx Hni. apply Hready. by apply (c_ready _ _ _ C).
  - intros q tq [[-> ->] | [? Htq]]%created_lookup Hs Hj Hni; [done|].
    destruct (c_pending _ _ _ C q tq Htq Hs Hj Hni) as (tj & h & rv & ? & ? & ? & ? & ?).
    exists tj, h, rv. split_and!; [by apply created_keeps|done..].
  - intros wa j Hw Hj Hni. destruct (c_parked _ _ _ C wa j Hw Hj Hni) as (tj & fs & ? & ? & ? & ? & ?).
    exists tj, fs. split_and!; [by apply created_keeps|done..].
  - intros h q Hh Hq0. destruct (c_handle _ _ _ C h q Hh Hq0) as (? & ? & ? & ? & tq & ? & ?).
    split_and!; [done..|]. exists tq. split; [by apply created_keeps|done].
  - intros q Hq. destruct (c_free _ _ _ C q Hq) as (? & ? & tq & ? & ?).
    split_and!; [done..|]. exists tq. split; [by apply created_keeps|done].
  - intros Hd. destruct (c_deferred _ _ _ C Hd) as (? & tq & ? & ?). split; [done|].
    exists tq. split; [by apply created_keeps|done].
Qed.

Lemma curr_create c : curr w c → curr w' c.
Proof.
  intros (Hb & tc & Htc & Hfs). split.
  - change (w_fs w') with (w_fs w). rewrite created_tls_old; [done|]. rewrite Hfs.
    by eapply core_tls_region.
  - exists tc. split; [by apply created_keeps|done].
Qed.

End create.

End steps.
