(* ===== verification/InvOps.v ===== *)
(** * The operations of the scheduler keep the invariant

    One rule per function of the code, from the free list up to
    [sched_node::yield], [resume] and the functions of namespace [sched]. *)

From S2P Require Import Prelude Platform World Task TimeOrderedQueue Rq Freelist SchedNode Sched.
From S2P Require Import Inv InvSteps.

Section ops.
Context {E : Env} {EOk : EnvOk E} (b : bool).
Implicit Types (w : world) (hot : list Z).

(** ** Tasks in no queue *)

Definition idle w p : Prop :=
  (p ∉ w_runqueue w) ∧ (p ∉ sleepers w) ∧
  (∀ q tq, w_tasks w !! q = Some tq → t_run_state tq ≠ STOPPED → t_joiner tq ≠ p) ∧
  (∀ a, w_waiters w !! a ≠ Some p).

Lemma core_close_idle w p hot : core b w (p :: hot) → idle w p → core b w hot.
Proof.
  intros C (Hr & Hs & Hj & Hw). apply (core_close b w p hot C).
  - by intros [?|?].
  - intros q tq Hq Hst Heq. by destruct (Hj q tq Hq Hst).
  - intros a Ha. by destruct (Hw a).
Qed.

(** A task that is not suspended is in no queue. *)
Lemma core_idle w hot p t :
  core b w hot → p ∉ hot → w_tasks w !! p = Some t →
  (t_ctx t = None ∨ (t_run_state t ≠ SUSPENDED ∧ t_run_state t ≠ WAITING)) → idle w p.
Proof.
  intros C Hni Ht Hns.
  assert (∀ t', w_tasks w !! p = Some t' → is_Some (t_ctx t') →
            t_run_state t' = SUSPENDED ∨ t_run_state t' = WAITING → False) as Hno.
  { intros t' Ht' [fs Hfs] Hst. simplify_eq. destruct Hns as [?|[??]]; [congruence|].
    by destruct Hst. }
  split_and!.
  - intros Hin. destruct (c_ready _ _ _ C p) as (t' & fs & ? & Hc & _ & _ & ? & _); [auto..|].
    apply (Hno t'); eauto.
  - intros Hin. destruct (c_ready _ _ _ C p) as (t' & fs & ? & Hc & _ & _ & ? & _); [auto..|].
    apply (Hno t'); eauto.
  - intros q tq Hq Hs Heq. destruct (c_pending _ _ _ C q tq) as (t' & h & rv & ? & ? & _ & ? & _);
      try rewrite Heq; try done.
    + eapply core_live_pos; eauto.
    + rewrite Heq in *. apply (Hno t'); eauto.
  - intros a Ha. destruct (c_parked _ _ _ C a p) as (t' & fs & ? & ? & _ & _ & ?);
      [done|eapply core_live_pos; eauto|done|]. apply (Hno t'); eauto.
Qed.

(** ** Changing a hot task *)

(** The task keeps its identity: what [core] says of tasks in general. *)
Record touch (p : Z) (t t' : task) : Prop := {
  to_tls : t_tls t' = t_tls t;
  to_stack : t_stack t' = t_stack t;
  to_total : t_total_stack_size t' = t_total_stack_size t;
  to_entry : t_entry t' = t_entry t;
  to_joiner : t_joiner t' = t_joiner t;
  to_detached : t_detached t' = t_detached t;
  to_stopped : t_run_state t = STOPPED → t_run_state t' = STOPPED;
  to_host : t_run_state t' = STOPPED → p ≠ host_task
}.

Lemma touch_write_ok w hot p t t' :
  core b w hot → p ∈ hot → w_tasks w !! p = Some t → touch p t t' →
  p ∉ w_runqueue w ∨ t_vruntime t' = t_vruntime t → write_ok w hot p t t'.
Proof.
  intros C Hin Ht [] Hv. constructor; try done.
  - intros Heq. destruct (c_host _ _ _ C) as (th & Hth & _ & _ & He & _).
    rewrite <-Heq in Hth. assert (th = t) as -> by congruence.
    split; [congruence|]. intros Hs. by apply to_host0.
  - intros Hne Hs. rewrite to_entry0. eapply (c_entry _ _ _ C p t); [done..|].
    intros Hs'. by apply Hs, to_stopped0.
  - intros Hs. left. auto.
  - by left.
  - intros Hs Hj. right. split; [|done]. intros Hs'. by apply Hs, to_stopped0.
  - intros h Hh. rewrite to_detached0.
    destruct (c_handle _ _ _ C h p Hh) as (_ & _ & _ & _ & t0 & Ht0 & Hd); [|congruence].
    eapply core_live_pos; eauto.
Qed.

Lemma core_touch w hot p t t' :
  core b w hot → p ∈ hot → w_tasks w !! p = Some t → touch p t t' →
  p ∉ w_runqueue w ∨ t_vruntime t' = t_vruntime t →
  core b (upd_tasks <[p := t']> w) hot.
Proof.
  intros C Hin Ht Htouch Hv. apply (core_write b w hot p t t'); [done| |done].
  by apply touch_write_ok.
Qed.

Lemma ready_touch w hot p t t' x :
  core b w hot → p ∈ hot → w_tasks w !! p = Some t → touch p t t' →
  p ∉ w_runqueue w ∨ t_vruntime t' = t_vruntime t → x ∉ hot →
  ready w x → ready (upd_tasks <[p := t']> w) x.
Proof.
  intros C Hin Ht Htouch Hv Hx. eapply write_ready; [done| |done].
  by eapply touch_write_ok.
Qed.

Lemma curr_touch w c p t t' :
  curr w c → w_tasks w !! p = Some t → t_tls t' = t_tls t →
  curr (upd_tasks <[p := t']> w) c.
Proof.
  intros (Hb & tc & Htc & Hfs) Ht Htls. split; [done|].
  destruct (decide (c = p)) as [->|Hne].
  - exists t'. simpl. rewrite lookup_insert_eq. split; [done|].
    unfold tls_of. rewrite Htls. assert (t = tc) as -> by congruence. done.
  - exists tc. simpl. by rewrite lookup_insert_ne.
Qed.

(** More thread-local blocks, or changed ones, do not matter to [core]. *)
Lemma core_upd_tls w hot f :
  core b w hot → (∀ k, is_Some (w_tls w !! k) → is_Some (f (w_tls w) !! k)) →
  core b (upd_tls f w) hot.
Proof.
  intros C Hf. constructor; try by apply C.
  - apply Hf, C.
  - intros p t Hp Ht. destruct (c_layout _ _ _ C p t Hp Ht) as (? & ? & ? & ? & ? & ?).
    split_and!; try done. simpl. auto.
Qed.

Lemma set_freelist_same w : set_freelist (fl_l (w_freelist w)) w = w.
Proof. destruct w as [????? [] ?????? ??]. done. Qed.

(** ** The free list *)

Lemma wp_destroy w p t (Q : () → world → Prop) X U :
  w_tasks w !! p = Some t → t_stack t ≠ 0 →
  (t_tls t ≠ 0 → is_Some (w_tls w !! t_tls t)) → Q () (destroyed w p t) →
  wp (destroy p) Q X U w.
Proof.
  intros Ht Hst Htls HQ. unfold destroy, task_dtor. wp_step. eapply wp_deref; [done|]. wp_step.
  wp_go. eapply wp_deref; [done|]. wp_go. rewrite bool_decide_true by done. simpl.
  unfold destroyed in HQ. destruct (has_tls t) eqn:Hh.
  - unfold has_tls in Hh. apply bool_decide_eq_true in Hh. destruct (Htls Hh) as [blk Hb].
    unfold tls_destruct. wp_step. eapply wp_tls_deref; [done|]. wp_go. done.
  - wp_go. done.
Qed.

(** [return_task] of a retired task either lists it or destroys it. *)
Lemma wp_return_task w hot p t (Q : () → world → Prop) X U :
  core b w hot → w_tasks w !! p = Some t → p ≠ host_task →
  (∀ l, l ≡ₚ p :: fl_l (w_freelist w) →
     Z.of_nat (length (fl_l (w_freelist w))) < fl_max_size (w_freelist w) →
     Q () (set_freelist l w)) →
  Q () (destroyed w p t) →
  wp (return_task p) Q X U w.
Proof.
  intros C Ht Hhost Hadd Hdestroy. unfold return_task. wp_go. simpl.
  destruct (Z.ltb_spec (Z.of_nat (length (fl_l (w_freelist w)))) (fl_max_size (w_freelist w))).
  - wp_step. destruct (insert_task_spec (w_tasks w) p (fl_l (w_freelist w))) as (l & Hl & Hp).
    + eauto.
    + intros q Hq. destruct (c_free _ _ _ C q Hq) as (_ & _ & tq & Hq' & _). eauto.
    + eapply wp_need; [exact Hl|]. wp_step. by apply Hadd.
  - destruct (c_layout _ _ _ C p t Hhost Ht) as (_ & _ & Htot & Hpos & Htls & Hblk).
    eapply wp_destroy; [done|pose proof sizes_pos; lia| |done].
    intros Hne. apply Hblk. destruct b; [done|]. by rewrite Htls in Hne.
Qed.

Lemma retired_tasks w p : retired w p → is_Some (w_tasks w !! p).
Proof. intros (_ & _ & _ & _ & t & ? & _). eauto. Qed.

(** The parts of the state the scheduler keeps apart from the heap. *)
Definition outside w w' : Prop :=
  w_node w' = w_node w ∧ w_handles w' = w_handles w ∧ w_waiters w' = w_waiters w ∧
  w_context w' = w_context w ∧ w_end_handler w' = w_end_handler w.

(** A new task as [make_task] hands it out. *)
Definition blank (t : task) : Prop :=
  t_run_state t = STOPPED ∧ t_entry t = 0 ∧ t_joiner t = 0 ∧ t_detached t = false ∧
  t_vruntime t = 0 ∧ t_no_preempt_flag t = false.

(** Putting a retired task back to its initial state. *)
Lemma core_reset w hot p t :
  core b w hot → retired w p → p ∉ hot → w_tasks w !! p = Some t → t_run_state t = STOPPED →
  core b (upd_tasks <[p := reset_fields t]> w) hot.
Proof.
  intros C (Hhost & Hnf & Hdef & Hno & _) Hni Ht Hs.
  assert (idle w p) as Hidle.
  { eapply (core_idle w hot); [done..|]. right. by rewrite Hs. }
  apply (core_close_idle _ p).
  - apply (core_write b w (p :: hot) p t); [done| |].
    + constructor; try done; simpl.
      * intros _. by right.
      * left. by left.
      * left. apply Hidle.
    + eapply core_weaken; [|done]. intros x Hx. by right.
  - destruct Hidle as (? & ? & Hj & ?). split_and!; [done..| |done].
    intros q tq. simpl. destruct (decide (q = p)) as [->|Hne].
    + rewrite lookup_insert_eq. by intros [= <-].
    + rewrite lookup_insert_ne by done. apply Hj.
Qed.

Lemma curr_upd_tls w c k v :
  curr w c → k ≠ w_fs w → curr (upd_tls <[k := v]> w) c.
Proof.
  intros (Hb & tc & Htc & Hfs) Hne. split; [|by exists tc]. simpl. by rewrite lookup_insert_ne.
Qed.

(** [task::reset] on a retired task *)
Lemma wp_reset w hot c p t (Q : () → world → Prop) X U :
  core b w hot → curr w c → c ≠ p → retired w p → p ∉ hot →
  w_tasks w !! p = Some t → t_run_state t = STOPPED →
  (∀ w', core b w' hot → curr w' c → outside w w' → retired w' p →
     w_tasks w' = <[p := reset_fields t]> (w_tasks w) → Q () w') →
  wp (reset p) Q X U w.
Proof.
  intros C Hc Hcp Hret Hni Ht Hs HQ. unfold reset.
  wp_step. eapply wp_deref; [done|]. wp_step.
  assert (∀ w2, core b w2 hot → curr w2 c → outside w w2 → w_tasks w2 = w_tasks w →
            w_freelist w2 = w_freelist w → Q () (upd_tasks <[p := reset_fields t]> w2)) as Hfin.
  { intros w2 C2 Hc2 Ho Et Ef. destruct Hret as (? & ? & ? & ? & _).
    pose proof Ho as (En & Eh & _).
    assert (retired w2 p) as Hret2.
    { split_and!; rewrite ?En, ?Eh, ?Ef; [done..|]. exists t. by rewrite Et. }
    apply HQ.
    - apply core_reset; try done. by rewrite Et.
    - eapply curr_touch; [done|by rewrite Et|done].
    - done.
    - destruct Hret2 as (? & ? & ? & ? & _). split_and!; [done..|].
      exists (reset_fields t). simpl. by rewrite lookup_insert_eq.
    - simpl. by rewrite Et. }
  destruct (c_layout _ _ _ C p t (proj1 Hret) Ht) as (_ & _ & _ & _ & Htls & Hblk).
  destruct (has_tls t) eqn:Hh.
  - apply bool_decide_eq_true in Hh.
    assert (b = true) as Hb by (destruct b; [done|]; by rewrite Htls in Hh).
    destruct (Hblk Hb) as [blk Hblk']. unfold tls_reset. wp_step.
    eapply wp_tls_deref; [done|]. wp_step. eapply wp_write; [done|].
    apply Hfin; [| |done..].
    + apply core_upd_tls; [done|]. intros k Hk.
      destruct (decide (k = t_tls t)) as [->|]; [rewrite lookup_insert_eq; eauto|].
      by rewrite lookup_insert_ne.
    + apply curr_upd_tls; [done|]. destruct Hc as (_ & tc & Htc & ->).
      eapply tls_distinct; [done|apply Hret|done..].
  - wp_step. eapply wp_write; [done|]. by apply Hfin.
Qed.

Lemma wp_make_task w hot c a (Q : Z → world → Prop) X U :
  core b w hot → curr w c → (∃ tc, w_tasks w !! c = Some tc ∧ t_run_state tc ≠ STOPPED) →
  (∀ x, x ∈ hot → ∃ tx, w_tasks w !! x = Some tx ∧ t_run_state tx ≠ STOPPED) →
  attr_ok b a → memory_available (w_maps w) a →
  (∀ p t w', core b w' hot → curr w' c → outside w w' → retired w' p → p ∉ hot →
     w_tasks w' !! p = Some t → blank t → p ≠ c →
     (∀ q, q ≠ p → w_tasks w' !! q = w_tasks w !! q) →
     (∀ tp, w_tasks w !! p = Some tp → t_run_state tp = STOPPED) → Q p w') →
  wp (make_task a) Q X U w.
Proof.
  intros C Hc (tc & Htc & Hst) Hhot Ha Hm HQ. unfold make_task. wp_go. simpl.
  destruct (find_task_spec (w_tasks w) a (fl_l (w_freelist w)))
    as [(p & l1 & l2 & t & Hl & Ht & _ & _ & Hfind)|[_ Hfind]].
  { intros p Hp. destruct (c_free _ _ _ C p Hp) as (_ & _ & t & ? & _). eauto. }
  - eapply wp_need; [exact Hfind|]. wp_go. simpl.
    assert (fl_l (w_freelist w) ≡ₚ p :: (l1 ++ l2)) as Hperm.
    { rewrite Hl. symmetry. apply Permutation_middle. }
    destruct (core_free_remove b w hot p (l1 ++ l2) C Hperm) as [C1 Hret].
    rewrite bool_decide_true by (eapply (core_live_pos b w hot); eauto).
    assert (t_run_state t = STOPPED) as Hts.
    { destruct Hret as (_ & _ & _ & _ & t0 & Ht0 & ?). simpl in Ht0. congruence. }
    assert (p ∉ hot) as Hnp.
    { intros Hin. destruct (Hhot p Hin) as (tx & ? & ?). congruence. }
    assert (c ≠ p) as Hcp by (intros ->; congruence).
    wp_step. eapply wp_reset; [done..|]. intros w' C' Hc' Ho Hret' Et. wp_step.
    eapply (HQ p (reset_fields t)); [done|done|done|done|done| | | | |].
    + by rewrite Et, lookup_insert_eq.
    + done.
    + done.
    + intros q Hq. rewrite Et. by rewrite lookup_insert_ne.
    + intros tp Htp. congruence.
  - eapply wp_need; [exact Hfind|]. wp_go. simpl.
    rewrite set_freelist_same.
    apply (wp_create b); [done..|].
    apply (HQ _ (created_task b w a)).
    + by apply core_create.
    + by eapply curr_create.
    + done.
    + by eapply created_retired.
    + intros Hin. destruct (Hhot _ Hin) as (tx & Htx & _).
      rewrite (created_new b w hot a) in Htx; done.
    + simpl. by rewrite lookup_insert_eq.
    + done.
    + intros Heq. rewrite <-Heq in Htc. by rewrite (created_new b w hot a) in Htc.
    + intros q Hq. simpl. by rewrite lookup_insert_ne.
    + intros tp. by rewrite (created_new b w hot a).
Qed.

End ops.
