(* ===== verification/TaskClients.v ===== *)
(** * sched/task_benchmark.cc: programs on bare tasks

    The programs that time the life of a task without the scheduler.  Whatever
    the number of rounds, each of them gives back all it took: the world after
    it is the world before it. *)

From S2P Require Import Prelude Platform World Task Sched Inv InvSteps InvOps.

Section clients.
Context {E : Env}.

(** [n] rounds of a loop. *)
Fixpoint rounds (n : nat) (m : P ()) : P () :=
  match n with O => mret () | S n' => m;; rounds n' m end.

Definition benchmark_task_create_destroy (n : nat) (a : attr) : P () :=
  rounds n (t ← create a; destroy t).

Definition benchmark_task_reset (n : nat) (a : attr) : P () :=
  t ← create a; rounds n (reset t);; destroy t.

Definition benchmark_task_start (n : nat) (a : attr) : P () :=
  t ← create a; rounds n (start t;; write t (set_run_state STOPPED));; destroy t.

(** The programs as they are called. *)
Definition benchmark_task_create_destroy_no_tls (n : nat) : P () := benchmark_task_create_destroy n k_light_attr.
Definition benchmark_task_create_destroy_with_tls (n : nat) : P () := benchmark_task_create_destroy n k_default_attr.
Definition benchmark_task_reset_no_tls (n : nat) : P () := benchmark_task_reset n k_light_attr.
Definition benchmark_task_reset_with_tls (n : nat) : P () := benchmark_task_reset n k_default_attr.

Lemma wp_rounds n m (I : world → Prop) (X : exn → world → Prop) (U : fault → Prop) w :
  (∀ w, I w → wp m (λ _, I) X U w) → I w → wp (rounds n m) (λ _, I) X U w.
Proof.
  intros Hm. revert w. induction n as [|n IH]; intros w Hw; simpl; wp_go; [done|].
  eapply wp_post; [by apply Hm|]. intros [] w' Hw'. by apply IH.
Qed.
End clients.

Lemma world_ext (w1 w2 : world) :
  w_tasks w1 = w_tasks w2 → w_maps w1 = w_maps w2 → w_tls w1 = w_tls w2 →
  (w_fs w1, w_node w1, w_freelist w1, w_alarm w1, w_context w1, w_end_handler w1) =
  (w_fs w2, w_node w2, w_freelist w2, w_alarm w2, w_context w2, w_end_handler w2) →
  (w_handles w1, w_words w1, w_waiters w1, w_thread_reads w1, w_system_reads w1) =
  (w_handles w2, w_words w2, w_waiters w2, w_thread_reads w2, w_system_reads w2) → w1 = w2.
Proof. destruct w1, w2. simpl. by intros -> -> -> [= -> -> -> -> -> ->] [= -> -> -> -> ->]. Qed.

Lemma client_total (m : P ()) w w' :
  wp m (λ _ v, v = w') (λ _ _, False) (λ _, False) w → m w = Ret () w'.
Proof. unfold wp. destruct (m w) as [[] v|?|?]; [by intros ->|done..]. Qed.

(** ** A task between its creation and its end *)

Section in_use.
Context {E : Env} {EOk : EnvOk E} (b : bool).
Context (w : world) (a : attr).
Let p : Z := created_place w a.

(** The task that was created, while it is used. *)
Definition in_use (t : task) (w' : world) : Prop :=
  w' = upd_tasks <[p := t]> (created b w a) ∧
  t_tls t = t_tls (created_task b w a) ∧ t_stack t = t_stack (created_task b w a) ∧
  t_total_stack_size t = t_total_stack_size (created_task b w a).

Lemma in_use_created : in_use (created_task b w a) (created b w a).
Proof.
  split; [|done]. unfold created, p. set (w1 := upd_tls _ _). clearbody w1.
  unfold upd_tasks. simpl. by rewrite insert_insert_eq.
Qed.

Lemma in_use_lookup t w' : in_use t w' → w_tasks w' !! p = Some t.
Proof. intros [-> _]. apply lookup_insert_eq. Qed.

Lemma in_use_write t t' w' :
  in_use t w' → t_tls t' = t_tls t → t_stack t' = t_stack t →
  t_total_stack_size t' = t_total_stack_size t → in_use t' (upd_tasks <[p := t']> w').
Proof.
  intros (-> & ? & ? & ?) ???. split_and!; [|congruence..].
  set (w1 := created b w a). clearbody w1. unfold upd_tasks. simpl. by rewrite insert_insert_eq.
Qed.

(** There is neither a task nor a thread-local block in unmapped memory. *)
Hypothesis (Ha : attr_ok b a) (Hmem : memory_available (w_maps w) a).
Hypothesis (Hnew : w_tasks w !! p = None) (Hfresh : w_tls w !! (p - tls_postfix_bytes) = None).

(** Destroying it gives back what creating it took. *)
Lemma destroyed_in_use t w' : in_use t w' → destroyed w' p t = w.
Proof.
  intros (-> & Etls & Est & Etot).
  pose proof (created_place_range b w a Ha Hmem) as Hr. simpl in Hr. fold p in Hr.
  assert (free_stack ((mmap (w_maps w) (total_size a), total_size a) :: w_maps w)
            (t_stack t - t_total_stack_size t) (t_total_stack_size t) = w_maps w) as Hfree.
  { rewrite Est, Etot. cbn [created_task t_stack t_total_stack_size]. unfold created_stack.
    rewrite Z.add_simpl_r. pose proof sizes_pos. destruct (attr_ok_total b a Ha).
    apply unmap_fresh; [lia|]. intros r Hr'. apply mmap_fresh; [apply Hmem|done]. }
  assert (∀ m : gmap Z tls_block, m = (if b then <[p - tls_postfix_bytes := mkTlsBlock p false]>
            (w_tls w) else w_tls w) →
          (if has_tls t then delete (t_tls t) m else m) = w_tls w) as Htls.
  { intros m ->. unfold has_tls. rewrite Etls. cbn [created_task t_tls]. fold p. destruct b.
    - rewrite bool_decide_true by lia. by rewrite delete_insert_eq, delete_id.
    - by rewrite bool_decide_false by (by intros []). }
  apply world_ext.
  - rewrite destroyed_tasks. cbn [upd_tasks w_tasks created]. fold p.
    by rewrite !delete_insert_eq, delete_id.
  - unfold destroyed. destruct (has_tls t); exact Hfree.
  - etrans; [|by apply Htls]. unfold destroyed. destruct (has_tls t); reflexivity.
  - unfold destroyed. by destruct (has_tls t).
  - unfold destroyed. by destruct (has_tls t).
Qed.

Lemma wp_destroy_in_use t w' (Q : () → world → Prop) X U :
  in_use t w' → Q () w → wp (destroy p) Q X U w'.
Proof.
  intros Hu HQ. pose proof (in_use_lookup t w' Hu) as Ht.
  pose proof (created_place_range b w a Ha Hmem) as Hr. simpl in Hr. fold p in Hr.
  pose proof sizes_pos. eapply (wp_destroy _ p t); [done|..].
  - destruct Hu as (_ & _ & -> & _). cbn [created_task t_stack]. unfold p, created_place in Hr. lia.
  - destruct Hu as (-> & Etls & _). rewrite Etls. cbn [created_task t_tls]. fold p.
    destruct b; [|done]. intros _. eexists. apply lookup_insert_eq.
  - by rewrite destroyed_in_use.
Qed.

End in_use.

Section leaks.
Context {E : Env} {EOk : EnvOk E} (b : bool).
Context (w : world) (c : Z) (a : attr).
Hypothesis (Hi : inv_at b w c) (Ha : attr_ok b a) (Hmem : memory_available (w_maps w) a).
Let p : Z := created_place w a.
Hypothesis (Hfresh : w_tls w !! (p - tls_postfix_bytes) = None).
Abbreviation in_use := (in_use b w a).

Lemma new_place : w_tasks w !! p = None.
Proof. exact (created_new b w [] a (i_core _ _ _ Hi) Ha Hmem). Qed.

(** The caller is another task. *)
Lemma in_use_caller t w' : in_use t w' →
  p ≠ c ∧ curr w' c ∧ ∃ tc, w_tasks w' !! c = Some tc ∧ t_ctx tc = None.
Proof.
  intros (-> & _). pose proof (i_core _ _ _ Hi) as C. destruct (i_cur _ _ _ Hi) as (tc & Htc & Hctx & _).
  pose proof (created_new b w [] a C Ha Hmem) as Hnew. fold p in Hnew.
  assert (p ≠ c) as Hne by (intros Heq; rewrite Heq in Hnew; congruence).
  pose proof (curr_create b w [] a C Ha Hmem c (i_curr _ _ _ Hi)) as [Hc (tc' & Htc' & Hfs)].
  split_and!; [done| |].
  - split; [exact Hc|]. exists tc'. split; [|exact Hfs]. cbn [upd_tasks w_tasks].
    by rewrite lookup_insert_ne.
  - exists tc. split; [|done]. cbn [upd_tasks w_tasks]. rewrite lookup_insert_ne by done.
    by apply (created_keeps b w [] a C Ha Hmem).
Qed.

(** One round of [benchmark_task_start]. *)
Lemma wp_start_round t w' (Q : () → world → Prop) X U :
  in_use t w' → t_run_state t = STOPPED →
  (∀ t' w'', in_use t' w'' → t_run_state t' = STOPPED → Q () w'') →
  wp (start p;; write p (set_run_state STOPPED)) Q X U w'.
Proof.
  intros Hu Hs HQ. destruct (in_use_caller t w' Hu) as (Hne & Hc & tc & Htc & Hctx).
  unfold start. wp_go. eapply wp_deref; [by eapply in_use_lookup|]. wp_go.
  apply wp_assert; [by rewrite bool_decide_true|]. wp_go. eapply wp_current; [apply Hc|]. simpl. wp_go.
  apply wp_assert; [by rewrite bool_decide_true|]. wp_go. eapply wp_write; [exact Htc|].
  assert (upd_tasks <[c := set_ctx None tc]> w' = w') as ->.
  { assert (set_ctx None tc = tc) as -> by (destruct tc; simpl in *; by subst).
    unfold upd_tasks. rewrite insert_id by done. by destruct w'. }
  wp_go. eapply wp_write; [by eapply in_use_lookup|]. wp_go.
  assert (in_use (set_ctx (Some [FTaskEntry]) t) (upd_tasks <[p := set_ctx (Some [FTaskEntry]) t]> w'))
    as Hu1 by (by eapply in_use_write).
  eapply wp_write; [by eapply in_use_lookup|].
  eapply in_use_write with (t' := set_run_state SUSPENDED _) in Hu1; [|done..].
  eapply wp_write; [by eapply in_use_lookup|].
  eapply in_use_write with (t' := set_run_state STOPPED _) in Hu1; [|done..]. by eapply HQ.
Qed.

(** One round of [benchmark_task_reset]: there is nothing to reset. *)
Lemma wp_reset_round (Q : () → world → Prop) X U :
  Q () (created b w a) → wp (reset p) Q X U (created b w a).
Proof.
  intros HQ. pose proof (in_use_lookup b w a _ _ (in_use_created b w a)) as Ht. unfold reset. wp_go.
  eapply wp_deref; [exact Ht|]. wp_go.
  assert (reset_fields (created_task b w a) = created_task b w a) as Er by done.
  assert (upd_tasks <[p := created_task b w a]> (created b w a) = created b w a) as Eu.
  { symmetry. apply (in_use_created b w a). }
  pose proof (created_place_range b w a Ha Hmem) as Hr. simpl in Hr. fold p in Hr.
  unfold has_tls. cbn [created_task t_tls]. fold p. destruct b.
  - rewrite bool_decide_true by lia. unfold tls_reset. wp_go.
    eapply wp_tls_deref; [apply lookup_insert_eq|]. wp_go.
    assert (upd_tls <[p - tls_postfix_bytes := mkTlsBlock p false]> (created true w a) =
            created true w a) as Et.
    { unfold created, upd_tls, upd_tasks. simpl. fold p. by rewrite insert_insert_eq. }
    cbn [tb_thread]. fold p. rewrite Et. eapply wp_write; [exact Ht|]. by rewrite Er, Eu.
  - rewrite bool_decide_false by (by intros []). wp_go. eapply wp_write; [exact Ht|].
    by rewrite Er, Eu.
Qed.

(** C25.  Bare tasks leak nothing.  From a state of the scheduler in which the
    memory asked for is available, the programs that create and destroy, reset
    or start tasks any number of times end in exactly the state they began in:
    [destroy] gives back the mapping, the task and the thread-local block
    [create] took, in whatever state the task is then; [reset] of a new task
    changes nothing; [start] leaves its caller as it was. *)
Theorem task_clients_leak_nothing n :
  benchmark_task_create_destroy n a w = Ret () w ∧
  benchmark_task_reset n a w = Ret () w ∧ benchmark_task_start n a w = Ret () w.
Proof.
  split_and!; apply client_total.
  - apply (wp_rounds n _ (λ w', w' = w)); [|done]. intros w' ->. wp_go. apply (wp_create b); [done..|].
    by eapply (wp_destroy_in_use b); [..|apply in_use_created|]; try apply new_place.
  - unfold benchmark_task_reset. wp_go. apply (wp_create b); [done..|]. wp_go.
    eapply wp_post; [apply (wp_rounds n _ (λ w', w' = created b w a)); [|done]|].
    + intros w' ->. by apply wp_reset_round.
    + intros [] w' ->. by eapply (wp_destroy_in_use b); [..|apply in_use_created|]; try apply new_place.
  - unfold benchmark_task_start. wp_go. apply (wp_create b); [done..|]. wp_go.
    eapply wp_post; [apply (wp_rounds n _ (λ w', ∃ t, in_use t w' ∧ t_run_state t = STOPPED))|].
    + intros w' (t & Hu & Hs). eapply wp_start_round; [done..|]. eauto.
    + eexists. split; [apply in_use_created|done].
    + intros [] w' (t & Hu & _). by eapply (wp_destroy_in_use b); [..|exact Hu|]; try apply new_place.
Qed.

End leaks.
