(* ===== verification/TaskMirror.v ===== *)
(** * sched/task_benchmark.cc: two contexts that switch to each other

    The programs that time the switch between tasks, without the scheduler: the
    context they run in is wrapped in a task of its own, and a second task does
    nothing but switch back.  A round trip brings both tasks back to where they
    were, with and without thread-local blocks. *)

From S2P Require Import Prelude Platform World Task Sched Inv InvSteps InvOps TaskClients.

Section program.
Context {E : Env}.

(** [task::switch_to()]; what runs then is [resume]. *)
Definition switch_to (p : Z) : P flow := switch_to_internal p (mret ()).

(** A turn of the loop of [mirror(arg)], in the task that runs it. *)
Definition mirror : P () :=
  cur ← current; t ← deref cur; switch_to (t_arg t);; resume.

(** [mirror_entry] is the address of the function, [root] that of the local
    [root_task], which is destroyed when the function returns. *)
Definition benchmark_task_switch_to (root mirror_entry : Z) (n : nat) (a : attr) : P () :=
  modify (upd_tasks <[root := default_task]>);;
  wrap_current root;;
  t ← create a;
  write t (set_entry_arg mirror_entry root);;
  start t;;
  rounds n (switch_to t;; resume;; mirror);;
  destroy t;;
  task_dtor root.

Definition benchmark_task_switch_to_no_tls (root mirror_entry : Z) (n : nat) : P () :=
  benchmark_task_switch_to root mirror_entry n k_light_attr.
Definition benchmark_task_switch_to_with_tls (root mirror_entry : Z) (n : nat) : P () :=
  benchmark_task_switch_to root mirror_entry n k_default_attr.

End program.

Section mirrors.
Context {E : Env} {EOk : EnvOk E} (b : bool).
Context (w : world) (root mirror_entry : Z) (a : attr) (blk : tls_block).
Let fs : Z := w_fs w.

(** The world once the current context is wrapped. *)
Definition root_task : task := set_run_state RUNNING (set_tls_ptr fs default_task).
Definition wrapped : world :=
  upd_tls <[fs := mkTlsBlock root (tb_node blk)]> (upd_tasks <[root := root_task]> w).
Let p : Z := created_place wrapped a.
Let block : Z := p - tls_postfix_bytes.

Hypothesis (Ha : attr_ok b a) (Hmem : memory_available (w_maps w) a).
Hypothesis (Hblk : w_tls w !! fs = Some blk) (Hfs : fs ≠ 0) (Hroot : w_tasks w !! root = None).
Hypothesis (Hnew : w_tasks w !! p = None) (Hother : p ≠ root) (Hfresh : w_tls w !! block = None).

Lemma block_nonzero : block ≠ 0.
Proof.
  pose proof (created_place_range b wrapped a Ha Hmem) as Hr. simpl in Hr. fold p in Hr.
  pose proof sizes_pos. unfold block. lia.
Qed.

Lemma block_other : block ≠ fs.
Proof. intros Heq. rewrite Heq in Hfresh. congruence. Qed.

(** The world while the two tasks run: their objects, the register, and the
    thread of the block the program started on. *)
Definition between (tp tr : task) (f th : Z) : world :=
  let base := created b wrapped a in
  set_fs f (upd_tls <[fs := mkTlsBlock th (tb_node blk)]>
    (upd_tasks (λ m, <[p := tp]> (<[root := tr]> m)) base)).

Lemma between_p tp tr f th : w_tasks (between tp tr f th) !! p = Some tp.
Proof. apply lookup_insert_eq. Qed.
Lemma between_root tp tr f th : w_tasks (between tp tr f th) !! root = Some tr.
Proof. cbn. rewrite lookup_insert_ne by done. apply lookup_insert_eq. Qed.
Lemma between_fs tp tr f th : w_tls (between tp tr f th) !! fs = Some (mkTlsBlock th (tb_node blk)).
Proof. apply lookup_insert_eq. Qed.
Lemma between_block tp tr f th :
  b = true → w_tls (between tp tr f th) !! block = Some (mkTlsBlock p false).
Proof.
  intros Hb. cbn. rewrite lookup_insert_ne by (apply not_eq_sym, block_other). rewrite Hb.
  apply lookup_insert_eq.
Qed.

Lemma write_p tp tr f th g (Q : () → world → Prop) X U :
  Q () (between (g tp) tr f th) → wp (write p g) Q X U (between tp tr f th).
Proof.
  intros HQ. eapply wp_write; [apply between_p|].
  assert (upd_tasks <[p := g tp]> (between tp tr f th) = between (g tp) tr f th) as ->; [|done].
  apply world_ext; try done. cbn. by rewrite insert_insert_eq.
Qed.

Lemma write_root tp tr f th g (Q : () → world → Prop) X U :
  Q () (between tp (g tr) f th) → wp (write root g) Q X U (between tp tr f th).
Proof.
  intros HQ. eapply wp_write; [apply between_root|].
  assert (upd_tasks <[root := g tr]> (between tp tr f th) = between tp (g tr) f th) as ->; [|done].
  apply world_ext; try done. cbn. by rewrite insert_insert_ne, insert_insert_eq by done.
Qed.

Lemma thread_fs tp tr f th v (Q : () → world → Prop) X U :
  Q () (between tp tr f v) → wp (tls_set_thread fs v) Q X U (between tp tr f th).
Proof.
  intros HQ. eapply wp_tls_set_thread; [apply between_fs|].
  assert (upd_tls <[fs := mkTlsBlock v (tb_node blk)]> (between tp tr f th) = between tp tr f v)
    as Heq; [|simpl; by rewrite Heq].
  apply world_ext; try done. cbn. by rewrite insert_insert_eq.
Qed.

Lemma thread_block tp tr f th (Q : () → world → Prop) X U :
  b = true → Q () (between tp tr f th) → wp (tls_set_thread block p) Q X U (between tp tr f th).
Proof.
  intros Hb HQ. eapply wp_tls_set_thread; [by apply between_block|].
  assert (upd_tls <[block := mkTlsBlock p false]> (between tp tr f th) = between tp tr f th)
    as Heq; [|simpl; by rewrite Heq].
  apply world_ext; try done. apply insert_id. by apply (between_block tp tr f th).
Qed.

Lemma use_tls tp tr f th f' (Q : () → world → Prop) X U :
  is_Some (w_tls (between tp tr f th) !! f') → Q () (between tp tr f' th) →
  wp (tls_use f') Q X U (between tp tr f th).
Proof.
  intros [x Hx] HQ. unfold tls_use. wp_go. eapply wp_tls_deref; [exact Hx|]. wp_go. done.
Qed.

(** Who runs. *)
Definition in_root (tp tr : task) : world := between tp tr fs root.
Definition in_p (tp tr : task) : world :=
  between tp tr (if b then block else fs) (if b then root else p).

Lemma current_root tp tr (Q : Z → world → Prop) X U :
  Q root (in_root tp tr) → wp current Q X U (in_root tp tr).
Proof. intros HQ. eapply wp_current; [exact (between_fs tp tr fs root)|done]. Qed.

Lemma current_p tp tr (Q : Z → world → Prop) X U :
  Q p (in_p tp tr) → wp current Q X U (in_p tp tr).
Proof.
  intros HQ. unfold in_p in *. destruct b eqn:Hb.
  - eapply wp_current; [exact (between_block tp tr block root Hb)|done].
  - eapply wp_current; [exact (between_fs tp tr fs p)|done].
Qed.

(** The second task, with the fields [create] gave it. *)
Definition own (t : task) : Prop :=
  t_tls t = (if b then block else 0) ∧ t_stack t = t_stack (created_task b wrapped a) ∧
  t_total_stack_size t = t_total_stack_size (created_task b wrapped a) ∧ t_arg t = root.

(** To the second task: it goes on with its frames. *)
Lemma to_p tp tr fr (Q : () → world → Prop) X U :
  own tp → t_ctx tp = Some fr → t_run_state tr = RUNNING →
  wp (run_frames fr) Q X U
    (in_p (set_ctx None tp) (set_ctx (Some [FSwitch root]) (set_run_state SUSPENDED tr))) →
  wp (switch_to p) (λ _, wp resume Q X U) X U (in_root tp tr).
Proof.
  intros (Htls & _) Hctx Hrun HQ. pose proof block_nonzero as Hblock. unfold switch_to, switch_to_internal. wp_go. apply current_root. wp_go.
  apply wp_assert; [by rewrite bool_decide_true|]. wp_go.
  eapply wp_deref; [apply between_root|]. wp_go. rewrite Hrun, bool_decide_true by done.
  apply write_root. wp_go. eapply wp_deref; [apply between_p|]. wp_go.
  assert (∀ Q' X' U', Q' () (in_p tp (set_run_state SUSPENDED tr)) →
    wp (if has_tls tp then tls_set_thread (t_tls tp) p;; tls_use (t_tls tp)
        else cur_tls ← tls_current; tls_set_thread cur_tls p) Q' X' U'
      (between tp (set_run_state SUSPENDED tr) fs root)) as Htls_switch.
  { intros Q' X' U' HQ'. unfold has_tls, in_p in *. rewrite Htls. destruct b eqn:Hb.
    - rewrite bool_decide_true by exact Hblock. wp_go. apply thread_block; [done|].
      apply use_tls; [|done]. eexists. by apply between_block.
    - rewrite bool_decide_false by (by intros []). unfold tls_current. wp_go. by apply thread_fs. }
  apply Htls_switch. wp_go. apply write_root. wp_go. unfold resume. wp_go. apply current_p. wp_go.
  eapply wp_deref; [apply between_p|]. wp_go. rewrite Hctx. wp_go. apply write_p. done.
Qed.

(** And back: [root] goes on after its switch. *)
Lemma to_root tp tr (Q : () → world → Prop) X U :
  own tp → t_run_state tp = RUNNING → t_ctx tr = Some [FSwitch root] → t_tls tr = fs →
  Q () (in_root (set_ctx (Some [FSwitch p]) (set_run_state SUSPENDED tp))
          (set_run_state RUNNING (set_ctx None tr))) →
  wp mirror Q X U (in_p tp tr).
Proof.
  intros (_ & _ & _ & Harg) Hrun Hctx Htls HQ. unfold mirror. wp_go. apply current_p. wp_go.
  eapply wp_deref; [apply between_p|]. wp_go. rewrite Harg. unfold switch_to, switch_to_internal. wp_go.
  apply current_p. wp_go. apply wp_assert; [by rewrite bool_decide_true|]. wp_go.
  eapply wp_deref; [apply between_p|]. wp_go. rewrite Hrun, bool_decide_true by done.
  apply write_p. wp_go. eapply wp_deref; [apply between_root|]. wp_go.
  unfold has_tls. rewrite Htls, bool_decide_true by done. wp_go. apply thread_fs.
  apply use_tls; [eexists; apply between_fs|]. wp_go. apply write_p. wp_go.
  unfold resume. wp_go. apply current_root. wp_go. eapply wp_deref; [apply between_root|]. wp_go.
  rewrite Hctx. wp_go. apply write_root. cbn [run_frames run_frame]. wp_go. apply current_root. wp_go.
  apply wp_assert; [by rewrite bool_decide_true|]. wp_go. apply write_root. done.
Qed.

(** The second task before a round: it has not begun, or waits in its loop. *)
Definition ready_p (t : task) : Prop :=
  own t ∧ t_run_state t = SUSPENDED ∧ (t_ctx t = Some [FTaskEntry] ∨ t_ctx t = Some [FSwitch p]).

Lemma round_trip tp (Q : () → world → Prop) X U :
  ready_p tp → (∀ tp', ready_p tp' → Q () (in_root tp' root_task)) →
  wp (switch_to p;; resume;; mirror) Q X U (in_root tp root_task).
Proof.
  intros (Hown & Hs & Hctx) HQ.
  assert (∃ fr, t_ctx tp = Some fr ∧ ∀ Q' X' U' tr,
    Q' () (in_p (set_run_state RUNNING (set_ctx None tp)) tr) →
    wp (run_frames fr) Q' X' U' (in_p (set_ctx None tp) tr)) as (fr & Hc & Hfr).
  { destruct Hctx as [-> | ->]; eexists; (split; [done|]); intros Q' X' U' tr HQ';
      cbn [run_frames run_frame]; wp_go; apply current_p; wp_go; [by apply write_p; wp_go|].
    apply wp_assert; [by rewrite bool_decide_true|]. wp_go. by apply write_p; wp_go. }
  wp_go. apply (wp_post _ (λ _, wp resume (λ _, wp mirror Q X U) X U)); [|intros; by apply wp_bind].
  apply (to_p tp root_task fr (λ _, wp mirror Q X U)); [done..|].
  apply Hfr. apply to_root; [exact Hown|done..|]. apply HQ. split_and!; [exact Hown|done|by right].
Qed.

Lemma in_root_eq tp : in_root tp root_task = upd_tasks <[p := tp]> (created b wrapped a).
Proof.
  apply world_ext; try done.
  - cbn. f_equal. apply insert_id. rewrite lookup_insert_ne by done. apply lookup_insert_eq.
  - cbn. fold p. fold block. apply insert_id. destruct b; [|apply lookup_insert_eq].
    rewrite lookup_insert_ne by apply block_other. apply lookup_insert_eq.
Qed.

Lemma created_in_root : created b wrapped a = in_root (created_task b wrapped a) root_task.
Proof. rewrite in_root_eq. apply (in_use_created b wrapped a). Qed.

Lemma wp_wrap_root (Q : () → world → Prop) X U :
  Q () wrapped → wp (wrap_current root) Q X U (upd_tasks <[root := default_task]> w).
Proof.
  intros HQ. unfold wrap_current, tls_current. wp_go.
  eapply wp_write; [apply lookup_insert_eq|]. wp_go. eapply wp_write; [apply lookup_insert_eq|]. wp_go.
  eapply wp_tls_set_thread; [exact Hblk|].
  match goal with |- Q () ?w' => assert (w' = wrapped) as -> end; [|done].
  apply world_ext; try done. cbn. by rewrite !insert_insert_eq.
Qed.

(** The second task is made and started. *)
Lemma wp_start_mirror (Q : () → world → Prop) X U :
  (∀ tp, ready_p tp → Q () (in_root tp root_task)) →
  wp (write p (set_entry_arg mirror_entry root)) (λ _, wp (start p) Q X U) X U (created b wrapped a).
Proof.
  intros HQ. rewrite created_in_root. apply write_p. unfold start. wp_go.
  eapply wp_deref; [apply between_p|]. wp_go. apply wp_assert; [done|]. wp_go. apply current_root. wp_go.
  apply wp_assert; [by rewrite bool_decide_true|]. wp_go. apply write_root. wp_go. apply write_p. wp_go.
  apply write_p. apply HQ. split_and!; [|done|by left]. by split_and!.
Qed.

Lemma wrapped_new : w_tasks wrapped !! p = None.
Proof. cbn. rewrite lookup_insert_ne by done. exact Hnew. Qed.
Lemma wrapped_fresh : w_tls wrapped !! block = None.
Proof. cbn. rewrite lookup_insert_ne by (apply not_eq_sym, block_other). exact Hfresh. Qed.

(** C23.  A switch and a switch back leave nothing behind.  A program that wraps
    its context in a task, starts a second task that only switches back, makes
    any number [n] of round trips and destroys the second task ends in the
    state in which it began, with or without a thread-local block for the
    second task; only the thread of its own block has become [root]. *)
Theorem round_trips_return n :
  benchmark_task_switch_to root mirror_entry n a w =
    Ret () (upd_tls <[fs := mkTlsBlock root (tb_node blk)]> w).
Proof.
  apply client_total. unfold benchmark_task_switch_to. wp_go. apply wp_wrap_root. wp_go.
  apply (wp_create b); [done..|]. fold p.
  set (I := λ w', ∃ tp, w' = in_root tp root_task ∧ ready_p tp).
  wp_go. eapply wp_post; [apply (wp_start_mirror (λ _, I)); unfold I; eauto|]. intros [] w1 H1.
  wp_go. eapply wp_post; [exact H1|]. intros [] w2 H2.
  wp_go. eapply wp_post; [apply (wp_rounds n _ I); [|exact H2]|].
  - intros w3 (tp & -> & Hready). apply round_trip; [done|]. unfold I. eauto.
  - intros [] w3 (tp & -> & (Htls & Hst & Htot & _) & _). wp_go.
    assert (in_use b wrapped a tp (in_root tp root_task)) as Hu by (by rewrite in_root_eq).
    apply (wp_destroy_in_use b wrapped a Ha Hmem wrapped_new wrapped_fresh tp _ _ _ _ Hu).
    unfold task_dtor. wp_go. eapply wp_deref; [apply lookup_insert_eq|]. wp_go.
    rewrite bool_decide_false by (by intros []). cbn [andb]. wp_go.
    apply world_ext; try done. cbn. rewrite delete_insert_eq. by apply delete_id.
Qed.


End mirrors.
