(* ===== verification/InvNode.v ===== *)
(** * [sched_node] keeps the invariant *)

From S2P Require Import Prelude Platform World Task TimeOrderedQueue Rq Freelist SchedNode Sched.
From S2P Require Import SchedSpec Inv InvSteps InvOps.

Section node.
Context {E : Env} {EOk : EnvOk E} (b : bool).
Implicit Types (w : world) (hot : list Z).

(** A state change [core] does not see. *)
Ltac unseen := (eapply core_ext; [|eassumption]; reflexivity).

Lemma wp_spin_lock w (Q : () → world → Prop) X U :
  nd_spin_lock (w_node w) = false → Q () (set_spin_lock true w) → wp spin_lock Q X U w.
Proof.
  intros Hs HQ. unfold spin_lock, spin_try_lock. wp_go. rewrite Hs. wp_go. done.
Qed.

Lemma wp_spin_unlock w (Q : () → world → Prop) X U :
  Q () (set_spin_lock false w) → wp spin_unlock Q X U w.
Proof. done. Qed.

Lemma wp_preempt_lock w c t (Q : () → world → Prop) X U :
  curr w c → w_tasks w !! c = Some t → t_no_preempt_flag t = false →
  Q () (upd_tasks <[c := set_no_preempt_flag true t]> w) → wp preempt_lock Q X U w.
Proof.
  intros [Hb _] Ht Hf HQ. unfold preempt_lock. wp_step. eapply wp_current; [done|]. simpl.
  wp_step. eapply wp_deref; [done|]. wp_step. wp_step; [by rewrite Hf|].
  by eapply wp_write.
Qed.

Lemma wp_preempt_unlock w c t (Q : () → world → Prop) X U :
  curr w c → w_tasks w !! c = Some t → t_no_preempt_flag t = true →
  Q () (upd_tasks <[c := set_no_preempt_flag false t]> w) → wp preempt_unlock Q X U w.
Proof.
  intros [Hb _] Ht Hf HQ. unfold preempt_unlock. wp_step. eapply wp_current; [done|]. simpl.
  wp_step. eapply wp_deref; [done|]. wp_step. wp_step; [by rewrite Hf|].
  by eapply wp_write.
Qed.

Lemma wp_preempt_node w c (Q : () → world → Prop) X U :
  curr w c → Q () w → wp preempt_node Q X U w.
Proof.
  intros [Hb _] HQ. unfold preempt_node, sched_node_current. wp_go.
  eapply wp_tls_deref; [done|]. wp_step. by apply wp_assert.
Qed.

(** ** The deferred task *)

(** What the return of a finished task leaves alone. *)
Definition kept w w' : Prop :=
  w_runqueue w' = w_runqueue w ∧ w_sleepqueue w' = w_sleepqueue w ∧
  w_handles w' = w_handles w ∧ w_waiters w' = w_waiters w ∧
  nd_spin_lock (w_node w') = nd_spin_lock (w_node w) ∧
  nd_last_tick (w_node w') = nd_last_tick (w_node w) ∧
  w_min_vruntime w' = w_min_vruntime w ∧ w_thread_reads w' = w_thread_reads w.

(** No task but [c] is new or changed, and only finished tasks are gone. *)
Record spared (ts ts' : gmap Z task) (c : Z) : Prop := {
  ot_same q tq : q ≠ c → ts' !! q = Some tq → ts !! q = Some tq;
  ot_live q tq : q ≠ c → ts !! q = Some tq → t_run_state tq ≠ STOPPED → ts' !! q = Some tq
}.
Definition others w w' c : Prop := spared (w_tasks w) (w_tasks w') c.

Lemma others_eq w w' c :
  (∀ q, q ≠ c → w_tasks w' !! q = w_tasks w !! q) → others w w' c.
Proof. intros H. split; intros q tq Hq; by rewrite H. Qed.

Lemma others_refl w c : others w w c.
Proof. by apply others_eq. Qed.

Lemma others_insert w w1 w' c t :
  others w w1 c → w_tasks w' = <[c := t]> (w_tasks w1) → others w w' c.
Proof. intros [Hs Hl] Et. split; intros q tq Hq; rewrite Et, lookup_insert_ne by done; auto. Qed.

Lemma others_after w w' c t : others w w' c → others w (upd_tasks <[c := t]> w') c.
Proof. intros Ho. by eapply others_insert. Qed.

Lemma others_trans w w1 w2 c : others w w1 c → others w1 w2 c → others w w2 c.
Proof. intros [Hs Hl] [Hs' Hl']. split; eauto. Qed.

Lemma others_before w w' c t : others (upd_tasks <[c := t]> w) w' c → others w w' c.
Proof. apply others_trans, others_after, others_refl. Qed.

Lemma kept_destroyed w p t : kept w (destroyed w p t).
Proof. unfold kept, destroyed. by destruct (has_tls t). Qed.

Lemma wp_return_deferred w hot c (Q : () → world → Prop) X U :
  core b w hot → curr w c →
  (nd_deferred (w_node w) ≠ 0 → (nd_deferred (w_node w) ∉ hot) ∧ nd_deferred (w_node w) ≠ c) →
  c ∉ fl_l (w_freelist w) →
  (∀ w', core b w' hot → curr w' c → nd_deferred (w_node w') = 0 → kept w w' →
     c ∉ fl_l (w_freelist w') → w_tasks w' !! c = w_tasks w !! c → others w w' c → Q () w') →
  wp return_deferred Q X U w.
Proof.
  intros C Hc Hd Hcf HQ. unfold return_deferred. wp_go.
  case_bool_decide as Hd0; [|wp_step; apply HQ; [try done..|apply others_refl]; lia].
  destruct (Hd Hd0) as [Hni Hdc]. destruct (c_deferred _ _ _ C Hd0) as (Hhost & t & Ht & Hs).
  (* the same state without the deferred task: it is retired there *)
  assert (core b (set_deferred 0 w) hot) as C0 by (by apply core_set_deferred).
  assert (retired (set_deferred 0 w) (nd_deferred (w_node w))) as Hret.
  { split_and!; [done| |done| |by exists t].
    - intros Hin. by destruct (c_free _ _ _ C _ Hin) as (_ & ? & _).
    - intros h Hh. by destruct (c_handle _ _ _ C h _ Hh Hd0) as (_ & _ & _ & ? & _). }
  wp_step. eapply wp_return_task; [done..| |].
  - intros l Hl Hsz. wp_step.
    change (Q () (set_freelist l (set_deferred 0 w))). apply HQ; try done.
    + by eapply (core_free_add b (set_deferred 0 w)).
    + simpl. rewrite Hl, not_elem_of_cons. auto.
  - wp_step.
    assert (set_deferred 0 (destroyed w (nd_deferred (w_node w)) t) =
            destroyed (set_deferred 0 w) (nd_deferred (w_node w)) t) as ->.
    { unfold destroyed. by destruct (has_tls t). }
    apply HQ.
    + by apply core_destroy.
    + by eapply curr_destroy.
    + unfold destroyed. by destruct (has_tls t).
    + unfold kept, destroyed. by destruct (has_tls t).
    + unfold destroyed. by destruct (has_tls t).
    + rewrite destroyed_tasks. simpl. by rewrite lookup_delete_ne.
    + split; intros q tq _; rewrite destroyed_tasks; simpl.
      * by intros [_ ?]%lookup_delete_Some.
      * intros Hq Hqs. rewrite lookup_delete_ne; [done|]. intros <-. congruence.
Qed.

(** ** [rq::pop] *)

Lemma wp_runqueue_emplace w x hot (Q : () → world → Prop) X U :
  core b w hot → is_Some (w_tasks w !! x) → x ∉ w_runqueue w →
  (∀ l, l ≡ₚ x :: w_runqueue w → rq_sorted (w_tasks w) l → Q () (set_runqueue l w)) →
  wp (runqueue_emplace x) Q X U w.
Proof.
  intros C Hx Hni HQ. unfold runqueue_emplace. wp_go. simpl.
  destruct (emplace_spec (w_tasks w) x (w_runqueue w)) as (l & Hl & Hp & Hs);
    [done|apply C|done|apply C|].
  eapply wp_need; [exact Hl|]. wp_step. by apply HQ.
Qed.

(** Which part of the state a pop changes. *)
Definition popped w w' : Prop :=
  w_tasks w' = w_tasks w ∧ w_tls w' = w_tls w ∧ w_fs w' = w_fs w ∧
  w_handles w' = w_handles w ∧ w_waiters w' = w_waiters w ∧
  w_freelist w' = w_freelist w ∧ nd_deferred (w_node w') = nd_deferred (w_node w) ∧
  nd_spin_lock (w_node w') = nd_spin_lock (w_node w) ∧ w_thread_reads w' = w_thread_reads w.

Lemma wp_pop_take w hot n rest (Q : Z → world → Prop) X U :
  core b w hot → w_runqueue w = n :: rest →
  (∀ w', core b w' hot → popped w w' → w_runqueue w' = rest →
     w_sleepqueue w' = w_sleepqueue w →
     (∃ tn, w_tasks w !! n = Some tn ∧
        w_min_vruntime w' = Z.max (w_min_vruntime w) (t_vruntime tn)) → Q n w') →
  wp pop_take Q X U w.
Proof.
  intros C Hrq HQ. unfold pop_take. wp_go. rewrite Hrq.
  destruct (c_rq_live _ _ _ C n) as [t Ht]; [rewrite Hrq; by left|].
  assert (core b (set_runqueue rest w) hot) as C'.
  { apply core_set_runqueue; [done| | |].
    - intros x Hx. assert (x ∈ w_runqueue w) by (rewrite Hrq; by right).
      split_and!; [by apply C|by apply (c_rq_sq _ _ _ C)|]. intros ?. apply (c_ready _ _ _ C); auto.
    - pose proof (c_rq_nodup _ _ _ C) as Hnd. rewrite Hrq in Hnd. by apply NoDup_cons in Hnd as [_ ?].
    - pose proof (c_rq_sorted _ _ _ C) as Hs. rewrite Hrq in Hs.
      by apply StronglySorted_inv in Hs as [? _]. }
  wp_go. eapply wp_deref; [done|]. wp_go.
  change (w_min_vruntime (set_runqueue rest w)) with (w_min_vruntime w).
  destruct (Z.ltb_spec (w_min_vruntime w) (t_vruntime t)); wp_go; apply HQ; try done.
  - unseen.
  - exists t. split; [done|]. change (t_vruntime t = Z.max (w_min_vruntime w) (t_vruntime t)). lia.
  - exists t. split; [done|]. change (w_min_vruntime w = Z.max (w_min_vruntime w) (t_vruntime t)). lia.
Qed.

(** The fault of the idle path: the run queue then holds a null pointer. *)
Lemma wp_pop_take_null w (Q : Z → world → Prop) X U hot :
  core b w hot → ∀ w1, w_tasks w1 = w_tasks w → w_runqueue w1 = [0] → U null_deref →
  wp pop_take Q X U w1.
Proof.
  intros C w1 Et Hrq HU. unfold pop_take. wp_go. rewrite Hrq. wp_go.
  unfold wp, deref. simpl. rewrite Et. by rewrite (core_no_null b w hot C).
Qed.

(** The first sleeper leaves the sleep queue. *)
Lemma core_wake w c ripe s q n :
  core b w [c] → is_Some (w_tasks w !! c) → w_sleepqueue w = (ripe, s) :: q →
  core b (set_sleepqueue q (set_system_reads n w)) [c] ∧
  (s ∉ w_runqueue w) ∧ (s ∉ q.*2) ∧ is_Some (w_tasks w !! s) ∧ (s ≠ c → ready w s).
Proof.
  intros C Hc Hsq. assert (sleepers w = s :: q.*2) as Hsl by (unfold sleepers; by rewrite Hsq).
  pose proof (c_sq_nodup _ _ _ C) as Hnd. rewrite Hsl in Hnd. apply NoDup_cons in Hnd as [Hns Hnd].
  assert (s ≠ c → ready w s) as Hready.
  { intros Hne. apply (c_ready _ _ _ C); [|auto]. right. rewrite Hsl. by left. }
  split_and!; [| |done| |exact Hready].
  - apply core_set_sleepqueue; [unseen| |done|].
    + intros x Hx. assert (x ∈ sleepers w) as Hx' by (rewrite Hsl; by right). split.
      * intros Hin. by apply (c_rq_sq _ _ _ C x).
      * intros Hni. apply (c_ready _ _ _ C); auto.
    + pose proof (c_sq_sorted _ _ _ C) as Hs. rewrite Hsq in Hs.
      by apply StronglySorted_inv in Hs as [? _].
  - intros Hin. apply (c_rq_sq _ _ _ C s Hin). rewrite Hsl. by left.
  - destruct (decide (s = c)) as [->|Hne]; [done|]. by apply ready_live, Hready.
Qed.

Lemma wp_pop_refill w c tc (Q : () → world → Prop) X (U : fault → Prop) :
  core b w [c] → w_tasks w !! c = Some tc → nd_spin_lock (w_node w) = true →
  (∀ w1, core b w1 [c] → popped w w1 → w_runqueue w1 ≠ [] →
     (∀ x, x ∈ w_runqueue w1 ∨ x ∈ sleepers w1 → x ∈ w_runqueue w ∨ x ∈ sleepers w) →
     w_min_vruntime w1 = w_min_vruntime w → (w_sleepqueue w = [] → w1 = w) → Q () w1) →
  (∀ w1, sleepers w ≠ [] → w_tasks w1 = w_tasks w → w_runqueue w1 = [0] → Q () w1) →
  (w_runqueue w = [] → w_sleepqueue w = [] → X deadlock w) →
  wp (pop_refill idle_thunk) Q X U w.
Proof.
  intros C Htc Hspin HQ Hnull HX. unfold pop_refill. wp_go.
  destruct (w_sleepqueue w) as [|[ripe s] q'] eqn:Hsq.
  { simpl. destruct (w_runqueue w) as [|n rest] eqn:Hrq.
    - unfold log_fatal. wp_step. by apply HX.
    - wp_step. apply HQ; [done|done|by rewrite Hrq|by rewrite Hrq|done|done]. }
  assert (sleepers w = s :: q'.*2) as Hsl by (unfold sleepers; by rewrite Hsq).
  cbn [toq_empty]. unfold sleepqueue_pop, read_system_clock. wp_go.
  change (w_sleepqueue (set_system_reads _ w)) with (w_sleepqueue w). rewrite Hsq. unfold toq_pop.
  destruct (Z.leb_spec (system_now (w_system_reads w)) ripe); wp_go; simpl.
  - (* the first sleeper moves to the run queue *)
    destruct (core_wake w c ripe s q' (S (w_system_reads w))) as (C1 & Hsr & Hns & Hlive & Hready);
      [done|eauto|done|].
    rewrite bool_decide_true by (by eapply (core_live_pos b w [c])).
    eapply wp_runqueue_emplace; [exact C1|done..|]. intros l Hl Hsorted. apply HQ.
    + apply core_set_runqueue; [done| | |done].
      * intros x. rewrite Hl. intros [->|Hx]%elem_of_cons.
        -- split_and!; [done..|]. intros Hni. apply Hready. intros ->. by apply Hni; left.
        -- split_and!; [by apply (c_rq_live _ _ _ C)|by apply (c_rq_sq _ _ _ C1)|].
           intros ?. apply (c_ready _ _ _ C); auto.
      * rewrite Hl. constructor; [done|apply C].
    + done.
    + change (l ≠ []). intros ->. by apply Permutation_nil_cons in Hl.
    + intros x [Hx|Hx]; rewrite Hsl.
      * change (x ∈ l) in Hx. rewrite Hl in Hx. apply elem_of_cons in Hx as [->|Hx]; [|by left].
        right. by left.
      * right. by right.
    + done.
    + done.
  - set (w1 := set_sleepqueue _ _).
    assert (core b w1 [c]) as C1.
    { eapply core_ext; [|exact C]. unfold core_view, w1. simpl. by rewrite <-Hsq. }
    destruct (w_runqueue w) as [|n rest] eqn:Hrq.
    + unfold idle_thunk, spin_unlock, read_system_clock. wp_go.
      apply wp_spin_lock; [done|]. wp_go. apply wp_assert.
      { apply Z.leb_le. apply sleep_until_passed. }
      unfold runqueue_emplace. wp_go. apply (wp_need _ _ [0]).
      { change (emplace (w_tasks w) 0 (w_runqueue w) = Some [0]). by rewrite Hrq. }
      wp_step. apply Hnull; [by rewrite Hsl|done..].
    + wp_step. apply HQ; [done|done| | |done|done].
      * change (w_runqueue w ≠ []). by rewrite Hrq.
      * intros x. change (w_runqueue w1) with (w_runqueue w).
        change (sleepers w1) with (s :: q'.*2). by rewrite Hsl, Hrq.
Qed.

(** The task [n] taken by a pop comes before all that remain. *)
Record elected w w' n : Prop := {
  el_sorted : rq_sorted (w_tasks w') (n :: w_runqueue w');
  el_rest : w_sleepqueue w = [] → w_runqueue w = n :: w_runqueue w' ∧ w_sleepqueue w' = [];
  el_min : ∃ tn, w_tasks w' !! n = Some tn ∧
    w_min_vruntime w' = Z.max (w_min_vruntime w) (t_vruntime tn)
}.

Lemma wp_pop w c tc (Q : Z → world → Prop) X (U : fault → Prop) :
  core b w [c] → w_tasks w !! c = Some tc → nd_spin_lock (w_node w) = true →
  (∀ n w', core b w' [c] → popped w w' → n ∉ w_runqueue w' → n ∉ sleepers w' →
     n ∈ w_runqueue w ∨ n ∈ sleepers w → (n ≠ c → ready w' n) →
     (c ∈ w_runqueue w' ∨ c ∈ sleepers w' → c ∈ w_runqueue w ∨ c ∈ sleepers w) →
     elected w w' n → Q n w') →
  (w_runqueue w = [] → w_sleepqueue w = [] → X deadlock w) →
  (sleepers w ≠ [] → U null_deref) →
  wp (pop idle_thunk) Q X U w.
Proof.
  intros C Htc Hspin HQ HX HU. unfold pop. wp_step. eapply wp_pop_refill; [done..| | |done].
  2:{ intros w1 Hsl Et Hrq. eapply wp_pop_take_null; eauto. }
  intros w1 C1 (P1 & P2 & P3 & P4 & P5 & P6 & P7 & P8 & P9) Hne Hsub Emin Hsame.
  destruct (w_runqueue w1) as [|n rest] eqn:Hrq; [done|].
  eapply wp_pop_take; [done..|].
  intros w2 C2 (R1 & R2 & R3 & R4 & R5 & R6 & R7 & R8 & R9) Hrq2 Hsq2 (tn & Htn & Emin2).
  assert (sleepers w2 = sleepers w1) as Esl by (by unfold sleepers; rewrite Hsq2).
  assert (n ∈ w_runqueue w1) as Hin by (rewrite Hrq; by left).
  apply HQ; [done| | | | | | |].
  - split_and!; congruence.
  - rewrite Hrq2. pose proof (c_rq_nodup _ _ _ C1) as Hnd. rewrite Hrq in Hnd.
    by apply NoDup_cons in Hnd as [? _].
  - rewrite Esl. by apply (c_rq_sq _ _ _ C1).
  - apply Hsub. left. by left.
  - intros Hne'. destruct (c_ready _ _ _ C1 n) as (t & fs & Ht & ?); [by left|auto|].
    exists t, fs. unfold joined. rewrite R1, R4, R5. auto.
  - rewrite Hrq2, Esl. intros Hc. apply Hsub. destruct Hc; [left; by right|auto].
  - constructor.
    + rewrite R1, Hrq2, <-Hrq. apply C1.
    + intros Hsq. rewrite Hsq2, Hrq2. rewrite Hsame in Hrq |- * by done. done.
    + exists tn. by rewrite R1, Emin2, Emin.
Qed.

(** ** [get_next_task] *)

Lemma touch_vruntime p t v :
  (t_run_state t = STOPPED → p ≠ host_task) → touch p t (set_vruntime v t).
Proof. by constructor. Qed.

Lemma core_not_host w hot p t :
  core b w hot → w_tasks w !! p = Some t → t_run_state t = STOPPED → p ≠ host_task.
Proof.
  intros C Ht Hs Heq. destruct (c_host _ _ _ C) as (th & Hth & _ & _ & _ & Hns).
  rewrite <-Heq in Hth. congruence.
Qed.

(** The vruntime of the running task after its slice. *)
Definition charged w (t : task) : Z :=
  t_vruntime t + to_microseconds (thread_clock_now (w_thread_reads w) - nd_last_tick (w_node w)).

Lemma wp_charge w c t (Q : () → world → Prop) X U :
  w_tasks w !! c = Some t →
  Q () (upd_tasks <[c := set_vruntime (charged w t) t]>
          (set_thread_reads (S (w_thread_reads w)) w)) →
  wp (charge c) Q X U w.
Proof.
  intros Ht HQ. unfold charge, read_thread_clock. wp_go.
  eapply wp_deref; [done|]. by eapply wp_write.
Qed.

(** The current task goes back to the run queue, or is left for its return. *)
Definition requeue (c : Z) (t : task) : P () :=
  if bool_decide (t_run_state t = RUNNING) then push c
  else if bool_decide (t_run_state t = STOPPED) && t_detached t
  then modify (set_deferred c) else mret ().

(** The running task is runnable as long as it did not stop or start to wait. *)
Definition own (c : Z) (t : task) : list Z :=
  if bool_decide (t_run_state t = RUNNING) then [c] else [].

Lemma wp_requeue w c t (Q : () → world → Prop) X U :
  core b w [c] → curr w c → w_tasks w !! c = Some t → c ∉ w_runqueue w →
  (t_run_state t = RUNNING → c ∉ sleepers w) → c ∉ fl_l (w_freelist w) →
  (∀ w', core b w' [c] → curr w' c → w_tasks w' = w_tasks w →
     w_sleepqueue w' = w_sleepqueue w → w_runqueue w' ≡ₚ own c t ++ w_runqueue w →
     w_handles w' = w_handles w → w_waiters w' = w_waiters w →
     nd_spin_lock (w_node w') = nd_spin_lock (w_node w) →
     w_min_vruntime w' = w_min_vruntime w → w_thread_reads w' = w_thread_reads w → Q () w') →
  wp (requeue c t) Q X U w.
Proof.
  intros C Hc Ht Hrq Hsq Hfree HQ. unfold requeue, own in *. case_bool_decide as Hrun.
  - unfold push. eapply wp_runqueue_emplace; [done|eauto|done|]. intros l Hl Hs.
    apply HQ; try done. apply core_set_runqueue; [done| | |done].
    + intros x. rewrite Hl. intros [->|Hx]%elem_of_cons.
      * split_and!; [eauto|by apply Hsq|]. intros Hni. by destruct Hni; left.
      * split_and!; [by apply C|by apply (c_rq_sq _ _ _ C)|]. intros ?. apply (c_ready _ _ _ C); auto.
    + rewrite Hl. constructor; [done|apply C].
  - case_bool_decide as Hst; simpl; [|by wp_step; apply HQ].
    destruct (t_detached t) eqn:Hdet; [|by wp_step; apply HQ]. wp_step.
    apply HQ; try done. apply core_set_deferred; [done|]. intros Hc0. split_and!; [|done| |eauto].
    + by eapply core_not_host.
    + intros h Hh. destruct (c_handle _ _ _ C h c Hh Hc0) as (_ & _ & _ & _ & t0 & ? & ?). congruence.
Qed.

(** The choice of the scheduler when the task [c] yields: [n] comes before all
    the tasks that stay on the run queue; the time [c] used is charged, and the
    slice of [n] begins at the second reading of the clock. *)
Record picked w w' c t n : Prop := {
  pk_sorted : rq_sorted (w_tasks w') (n :: w_runqueue w');
  pk_rest : w_sleepqueue w = [] →
    n :: w_runqueue w' ≡ₚ own c t ++ w_runqueue w ∧ w_sleepqueue w' = [];
  pk_min : ∃ tn, w_tasks w' !! n = Some tn ∧
    w_min_vruntime w' = Z.max (w_min_vruntime w) (t_vruntime tn);
  pk_charge : ∃ tc, w_tasks w' !! c = Some tc ∧ t_vruntime tc = charged w t;
  pk_reads : w_thread_reads w' = S (S (w_thread_reads w));
  pk_tick : nd_last_tick (w_node w') = thread_clock_now (S (w_thread_reads w))
}.

Definition no_runnable w t : Prop :=
  w_sleepqueue w = [] ∧ w_runqueue w = [] ∧ t_run_state t ≠ RUNNING.

Lemma rq_sorted_vruntime ts p t t' l :
  ts !! p = Some t → t_vruntime t' = t_vruntime t →
  rq_sorted ts l → rq_sorted (<[p := t']> ts) l.
Proof.
  intros Hp Hv. apply rq_sorted_ext. intros x _. destruct (decide (x = p)) as [->|Hne].
  - rewrite lookup_insert_eq, Hp. simpl. by rewrite Hv.
  - by rewrite lookup_insert_ne.
Qed.

Lemma picked_after w w' c t n p tp tp' :
  picked w w' c t n → w_tasks w' !! p = Some tp → t_vruntime tp' = t_vruntime tp →
  picked w (upd_tasks <[p := tp']> w') c t n.
Proof.
  intros [Hs Hr (tn & Hn & Hm) (tc & Hc & Hch) Hrd Htk] Hp Hv.
  assert (∀ x tx, w_tasks w' !! x = Some tx →
            ∃ tx', <[p := tp']> (w_tasks w') !! x = Some tx' ∧ t_vruntime tx' = t_vruntime tx) as Hx.
  { intros x tx Htx. destruct (decide (x = p)) as [->|Hne].
    - rewrite lookup_insert_eq. exists tp'. split; [done|]. congruence.
    - rewrite lookup_insert_ne by done. eauto. }
  constructor; simpl.
  - by eapply rq_sorted_vruntime.
  - done.
  - destruct (Hx n tn Hn) as (tn' & ? & Ev). exists tn'. by rewrite Ev.
  - destruct (Hx c tc Hc) as (tc' & ? & Ev). exists tc'. by rewrite Ev.
  - done.
  - done.
Qed.

Lemma picked_ext w w2 w3 c t n :
  picked w w2 c t n → w_tasks w3 = w_tasks w2 → nd_rq (w_node w3) = nd_rq (w_node w2) →
  w_thread_reads w3 = w_thread_reads w2 →
  nd_last_tick (w_node w3) = nd_last_tick (w_node w2) →
  picked w w3 c t n.
Proof.
  unfold w_runqueue, w_sleepqueue. intros [] Et En Er Ek.
  constructor; unfold w_runqueue, w_sleepqueue, w_min_vruntime in *; by rewrite ?Et, ?En, ?Er, ?Ek.
Qed.

Lemma picked_unspin w w' x c t n : picked (set_spin_lock x w) w' c t n → picked w w' c t n.
Proof. intros []. by constructor. Qed.

Lemma picked_before w w' c t t' f n :
  picked (upd_tasks f w) w' c t' n → t_vruntime t' = t_vruntime t →
  t_run_state t' = t_run_state t → picked w w' c t n.
Proof.
  intros [] Hv Hs. constructor; unfold own, charged in *; by rewrite <-?Hs, <-?Hv.
Qed.

Lemma wp_get_next_task w c t (Q : Z → world → Prop) (X : exn → world → Prop) (U : fault → Prop) :
  core b w [c] → curr w c → w_tasks w !! c = Some t → c ∉ w_runqueue w →
  (t_run_state t = RUNNING → c ∉ sleepers w) → c ∉ fl_l (w_freelist w) →
  nd_spin_lock (w_node w) = true →
  (∀ n w', core b w' [c] → curr w' c → w_tasks w' !! c = Some (set_vruntime (charged w t) t) →
     n ∉ w_runqueue w' → n ∉ sleepers w' → (n ≠ c → ready w' n) →
     (n = c ∨ c ∈ w_runqueue w' ∨ c ∈ sleepers w' → t_run_state t = RUNNING ∨ c ∈ sleepers w) →
     w_handles w' = w_handles w → w_waiters w' = w_waiters w →
     nd_spin_lock (w_node w') = true → others w w' c → picked w w' c t n → Q n w') →
  (∀ w', curr w' c → w_tasks w' !! c = Some (set_vruntime (charged w t) t) →
     no_runnable w t → X deadlock w') →
  (sleepers w ≠ [] → U null_deref) →
  wp (get_next_task c) Q X U w.
Proof.
  intros C Hc Ht Hrq Hsq Hfree Hspin HQ HX HU. unfold get_next_task. wp_step.
  eapply wp_charge; [done|]. set (t1 := set_vruntime (charged w t) t).
  assert (core b (upd_tasks <[c := t1]> (set_thread_reads (S (w_thread_reads w)) w)) [c]) as C1.
  { eapply core_touch; [unseen|by left|done| |by left].
    apply touch_vruntime. intros ?. by eapply core_not_host. }
  assert (curr (upd_tasks <[c := t1]> (set_thread_reads (S (w_thread_reads w)) w)) c) as Hc1.
  { by eapply curr_touch. }
  set (w1 := upd_tasks <[c := t1]> _) in *.
  assert (w_tasks w1 !! c = Some t1) as Ht1 by apply lookup_insert_eq.
  wp_step. eapply wp_deref; [exact Ht1|]. wp_step.
  change (wp (requeue c t1)
    (λ _, wp (next_task ← pop idle_thunk;
              now ← read_thread_clock; modify (set_last_tick now);; mret next_task) Q X U) X U w1).
  eapply wp_requeue; [done..|]. intros w2 C2 Hc2 Et2 Esq2 Hr2 Eh2 Ew2 Esp2 Em2 Er2.
  assert (sleepers w2 = sleepers w) as Es2 by (by unfold sleepers; rewrite Esq2).
  assert (w_tasks w2 !! c = Some t1) as Ht2 by (by rewrite Et2).
  wp_step. eapply wp_pop; [exact C2|exact Ht2|by rewrite Esp2| |..].
  2:{ intros Hrq2 Hsq2. apply HX; [done..|]. rewrite Hrq2 in Hr2.
      apply Permutation_nil_l in Hr2. symmetry in Hr2. apply app_nil in Hr2 as [Hown Hrqw]. split_and!.
      - etrans; [symmetry; exact Esq2|done].
      - done.
      - unfold own in Hown. by case_bool_decide. }
  2:{ rewrite Es2. exact HU. }
  intros n w3 C3 (P1 & P2 & P3 & P4 & P5 & P6 & P7 & P8 & P9) Hn1 Hn2 Hn3 Hready Hcin [El1 El2 El3].
  unfold read_thread_clock. wp_go. apply HQ; try done.
  - unseen.
  - destruct Hc2 as [Hb2 Hc2]. unfold curr. simpl. by rewrite P1, P2, P3.
  - simpl. by rewrite P1.
  - intros Hor. assert (c ∈ w_runqueue w2 ∨ c ∈ sleepers w2) as [?|?].
    + destruct Hor as [->|?]; auto.
    + rewrite Hr2 in *. unfold own in *. apply elem_of_app in H as [H|H]; [|by destruct Hrq].
      left. case_bool_decide; [done|by apply elem_of_nil in H].
    + right. by rewrite Es2 in *.
  - etrans; [exact P4|exact Eh2].
  - etrans; [exact P5|exact Ew2].
  - etrans; [exact P8|]. by rewrite Esp2.
  - apply others_eq. intros q Hq. simpl. rewrite P1, Et2. simpl. by rewrite lookup_insert_ne.
  - constructor; try done.
    + intros Hsq0. destruct El2 as [El2 ?]; [by rewrite Esq2|]. split; [|done].
      change (n :: w_runqueue w3 ≡ₚ own c t ++ w_runqueue w). by rewrite <-El2, Hr2.
    + destruct El3 as (tn & Htn & El3). exists tn. split; [done|].
      change (w_min_vruntime w3 = Z.max (w_min_vruntime w) (t_vruntime tn)). by rewrite El3, Em2.
    + exists t1. simpl. by rewrite P1.
    + simpl. rewrite P9. by f_equal.
    + simpl. rewrite P9. by rewrite Er2.
Qed.

(** ** Switching *)

(** The state [switch_to_internal] leaves a task in. *)
Definition suspend (t : task) : task :=
  if bool_decide (t_run_state t = RUNNING) then set_run_state SUSPENDED t else t.

Lemma touch_suspend p t fs :
  (t_run_state t = STOPPED → p ≠ host_task) → touch p t (set_ctx fs (suspend t)).
Proof.
  intros Hh. unfold suspend. case_bool_decide as Hr; constructor; try done.
  simpl. by rewrite Hr.
Qed.

Lemma suspend_vruntime t : t_vruntime (suspend t) = t_vruntime t.
Proof. unfold suspend. by case_bool_decide. Qed.
Lemma suspend_flag t : t_no_preempt_flag (suspend t) = t_no_preempt_flag t.
Proof. unfold suspend. by case_bool_decide. Qed.
Lemma suspend_state t : t_run_state (suspend t) =
  if bool_decide (t_run_state t = RUNNING) then SUSPENDED else t_run_state t.
Proof. unfold suspend. by case_bool_decide. Qed.

(** The thread-local block of the task switched to. *)
Lemma core_tls_target w hot c tc n tn :
  core b w hot → curr w c → w_tasks w !! c = Some tc → w_tasks w !! n = Some tn →
  is_Some (w_tls w !! tls_of tn) ∧ (has_tls tn = false → w_fs w = tls_of tn).
Proof.
  intros C (Hblk & tc' & Htc' & Hfs) Htc Htn. assert (tc' = tc) as -> by congruence.
  pose proof host_tls_pos. unfold has_tls, tls_of at 1 2.
  destruct (decide (n = host_task)) as [->|Hn].
  { destruct (c_host _ _ _ C) as (th & Hth & _ & Htls & _). assert (th = tn) as -> by congruence.
    rewrite Htls, bool_decide_true by lia. split; [apply C|done]. }
  destruct (c_layout _ _ _ C n tn Hn Htn) as (? & _ & ? & ? & Htls & Hb). pose proof sizes_pos.
  destruct (decide (t_tls tn ≠ 0)) as [Hz|Hz].
  - rewrite bool_decide_true by done. split; [|done]. apply Hb.
    destruct b; [done|]. by rewrite Htls in Hz.
  - rewrite bool_decide_false by done. split; [apply C|]. intros _. rewrite Hfs.
    destruct b; [lia|]. unfold tls_of. destruct (decide (c = host_task)) as [->|Hc].
    + destruct (c_host _ _ _ C) as (th & Hth & _ & Htlsh & _).
      assert (th = tc) as -> by congruence. rewrite Htlsh. by case_bool_decide.
    + by destruct (c_layout _ _ _ C c tc Hc Htc) as (_ & _ & _ & _ & -> & _).
Qed.

(** What a switch leaves alone. *)
Definition unswitched w w' : Prop :=
  w_node w' = w_node w ∧ w_handles w' = w_handles w ∧ w_waiters w' = w_waiters w ∧
  w_freelist w' = w_freelist w ∧ w_thread_reads w' = w_thread_reads w.

Lemma wp_switch_to w c n tc tn (Q : flow → world → Prop) X U :
  core b w [c] → curr w c → w_tasks w !! c = Some tc → w_tasks w !! n = Some tn → n ≠ c →
  (∀ w', core b w' [c] → curr w' n → unswitched w w' →
     w_tasks w' = <[c := set_ctx (Some [FSwitch c]) (suspend tc)]> (w_tasks w) →
     Q (Switched c) w') →
  wp (switch_to_internal n set_current_node) Q X U w.
Proof.
  intros C Hc Htc Htn Hne HQ. pose proof Hc as (Hblk & _ & _).
  destruct (core_tls_target w [c] c tc n tn C Hc Htc Htn) as [[bn Hbn] Hsame].
  unfold switch_to_internal. wp_go. eapply wp_current; [done|]. simpl.
  wp_go. apply wp_assert; [by rewrite bool_decide_true|]. wp_go. eapply wp_deref; [done|].
  wp_go.
  (* the task switched from *)
  set (w1 := upd_tasks <[c := suspend tc]> w).
  assert (∀ Q', Q' () w1 → wp (if bool_decide (t_run_state tc = RUNNING)
            then write c (set_run_state SUSPENDED) else mret ()) Q' X U w) as Hsusp.
  { intros Q' HQ'. unfold w1, suspend in *. case_bool_decide; [by eapply wp_write|]. wp_go.
    destruct w. unfold upd_tasks in HQ'. simpl in *. by rewrite insert_id in HQ'. }
  apply Hsusp. wp_go. eapply wp_deref; [by simpl; rewrite lookup_insert_ne|]. wp_go.
  (* the thread-local block *)
  set (w2 := upd_tls <[tls_of tn := mkTlsBlock n true]> (set_fs (tls_of tn) w1)).
  assert (wp (write c (set_ctx (Some [FSwitch c])))
            (λ _, wp (mret (Switched c)) Q X U) X U w2) as Hfin.
  { eapply wp_write; [apply lookup_insert_eq|]. wp_go. apply HQ.
    - assert (core b (upd_tasks <[c := set_ctx (Some [FSwitch c]) (suspend tc)]> w) [c]) as C'.
      { eapply core_touch; [done|by left|done| |right; apply suspend_vruntime].
        apply touch_suspend. intros ?. by eapply core_not_host. }
      eapply core_ext; [|apply (core_upd_tls b _ _ <[tls_of tn := mkTlsBlock n true]> C')].
      + unfold core_view. simpl. by rewrite insert_insert_eq.
      + intros k Hk. destruct (decide (k = tls_of tn)) as [->|]; [rewrite lookup_insert_eq; eauto|].
        by rewrite lookup_insert_ne.
    - split; [apply lookup_insert_eq|]. exists tn. simpl. by rewrite !lookup_insert_ne.
    - done.
    - simpl. by rewrite insert_insert_eq. }
  destruct (has_tls tn) eqn:Hz.
  - assert (tls_of tn = t_tls tn) as Etls by (unfold tls_of, has_tls in *; by rewrite Hz).
    rewrite <-Etls. unfold tls_use, set_current_node. wp_go. eapply wp_tls_set_thread; [done|]. wp_go.
    eapply wp_tls_deref; [apply lookup_insert_eq|]. wp_go.
    eapply wp_tls_deref; [apply lookup_insert_eq|]. wp_go.
    revert Hfin. unfold w2, upd_tls, set_fs. cbn. by rewrite insert_insert_eq.
  - unfold tls_current, set_current_node. wp_go. specialize (Hsame eq_refl).
    change (w_fs w1) with (w_fs w). rewrite Hsame.
    eapply wp_tls_set_thread; [done|]. wp_go. change (w_fs (upd_tls _ w1)) with (w_fs w).
    rewrite Hsame. eapply wp_tls_deref; [apply lookup_insert_eq|]. wp_go.
    revert Hfin. unfold w2, upd_tls, set_fs. cbn. rewrite insert_insert_eq.
    by rewrite <-Hsame at 2.
Qed.

(** ** Calls that may switch away *)

Lemma wp_and_then m rest later (Q : flow → world → Prop) X U w :
  wp m (λ r w', match r with
                | Returned => wp rest (λ _, Q Returned) X U w'
                | Switched p => ∃ t fs, w_tasks w' !! p = Some t ∧ t_ctx t = Some fs ∧
                    Q (Switched p) (upd_tasks <[p := set_ctx (Some (fs ++ [later])) t]> w')
                end) X U w →
  wp (and_then m rest later) Q X U w.
Proof.
  intros H. unfold and_then. wp_go. eapply wp_post; [exact H|].
  intros [|p] w'.
  - intros H'. wp_go. eapply wp_post; [exact H'|]. intros [] w'' HQ. by wp_go.
  - intros (t & fs & Ht & Hfs & HQ). wp_go. eapply wp_deref; [done|]. wp_go.
    eapply wp_write; [done|]. wp_go. by rewrite Hfs.
Qed.

Lemma wp_guarded lock unlock later m (Q : flow → world → Prop) X U w :
  wp lock (λ _, wp m (λ r w', match r with
                | Returned => wp unlock (λ _, Q Returned) X U w'
                | Switched p => ∃ t fs, w_tasks w' !! p = Some t ∧ t_ctx t = Some fs ∧
                    Q (Switched p) (upd_tasks <[p := set_ctx (Some (fs ++ [later])) t]> w')
                end) (λ e, wp unlock (λ _ w', X e w') X U) U) X U w →
  wp (guarded lock unlock later m) Q X U w.
Proof.
  intros H. unfold guarded. wp_go. eapply wp_post; [exact H|]. intros [] w' H'.
  by apply wp_and_then, wp_on_throw.
Qed.

(** The running task [c] has been left for [n], with the frames [fs] to come
    when it is resumed; [t] is [c] before the switch. *)
Record left_for (w : world) (c n : Z) (fs : list frame) (t : task) : Prop := {
  lf_core : core b w [c];
  lf_curr : curr w n;
  lf_ne : n ≠ c;
  lf_ready : ready w n;
  lf_rq : n ∉ w_runqueue w;
  lf_sq : n ∉ sleepers w;
  lf_spin : nd_spin_lock (w_node w) = false;
  lf_task : w_tasks w !! c = Some (set_ctx (Some fs) (suspend t))
}.

Lemma left_append w c n fs f t :
  left_for w c n fs t →
  left_for (upd_tasks <[c := set_ctx (Some (fs ++ [f])) (set_ctx (Some fs) (suspend t))]> w)
    c n (fs ++ [f]) t.
Proof.
  intros [C Hc Hne Hr Hrq Hsq Hs Ht].
  assert (touch c (set_ctx (Some fs) (suspend t))
            (set_ctx (Some (fs ++ [f])) (set_ctx (Some fs) (suspend t)))) as Htouch.
  { constructor; try done. intros ?. by eapply core_not_host. }
  constructor; try done.
  - eapply core_touch; [done|by left|done|done|by right].
  - by eapply curr_touch.
  - eapply ready_touch; [done|by left|done|done|by right|auto|done].
  - simpl. by rewrite lookup_insert_eq.
Qed.

(** ** [sched_node::yield] *)

(** The world after the switch, when the task that is switched to was ready
    before it. *)
Lemma switched_left w2 w3 c n t v :
  core b w2 [c] → w_tasks w2 !! c = Some (set_vruntime v t) → n ≠ c →
  n ∉ w_runqueue w2 → n ∉ sleepers w2 → core b w3 [c] → curr w3 n →
  unswitched (set_spin_lock false w2) w3 →
  w_tasks w3 = <[c := set_ctx (Some [FSwitch c]) (suspend (set_vruntime v t))]> (w_tasks w2) →
  ready w2 n → left_for w3 c n [FSwitch c] (set_vruntime v t).
Proof.
  intros C2 Ht2 Hne Hrq Hsq C3 Hc3 (U1 & U2 & U3 & _) Et3 Hready.
  assert (w_runqueue w3 = w_runqueue w2 ∧ sleepers w3 = sleepers w2) as [Erq3 Esl3].
  { unfold w_runqueue, sleepers, w_sleepqueue. by rewrite U1. }
  constructor; try done.
  - assert (ready (upd_tasks <[c := set_ctx (Some [FSwitch c]) (suspend (set_vruntime v t))]> w2) n)
      as (tn' & fs' & Hn' & Hr).
    { eapply ready_touch; [done|by left|done| |right; apply suspend_vruntime|auto|done].
      apply touch_suspend. intros Hst. by apply (core_not_host w2 [c] c _ C2 Ht2). }
    exists tn', fs'. unfold joined in *. simpl in *. rewrite Et3, U2, U3. done.
  - by rewrite Erq3.
  - by rewrite Esl3.
  - by rewrite U1.
  - rewrite Et3. by rewrite lookup_insert_eq.
Qed.

Lemma wp_yield_locked w c t (Q : flow → world → Prop) (X : exn → world → Prop) (U : fault → Prop) :
  core b w [c] → curr w c → w_tasks w !! c = Some t → c ∉ w_runqueue w →
  (t_run_state t = RUNNING → c ∉ sleepers w) → c ∉ fl_l (w_freelist w) →
  nd_deferred (w_node w) ≠ c → nd_spin_lock (w_node w) = true →
  (∀ w' v, core b w' [c] → curr w' c → w_tasks w' !! c = Some (set_vruntime v t) →
     c ∉ w_runqueue w' → c ∉ sleepers w' → t_run_state t = RUNNING ∨ c ∈ sleepers w →
     w_handles w' = w_handles w → w_waiters w' = w_waiters w → others w w' c →
     picked w w' c t c → Q Returned w') →
  (∀ w' n v, left_for w' c n [FSwitch c; FRelockSpin] (set_vruntime v t) →
     (c ∈ w_runqueue w' ∨ c ∈ sleepers w' → t_run_state t = RUNNING ∨ c ∈ sleepers w) →
     w_handles w' = w_handles w → w_waiters w' = w_waiters w → others w w' c →
     picked w w' c t n → Q (Switched c) w') →
  (∀ w' v, curr w' c → w_tasks w' !! c = Some (set_vruntime v t) → no_runnable w t →
     X deadlock w') →
  (sleepers w ≠ [] → U null_deref) →
  wp yield_locked Q X U w.
Proof.
  intros C Hc Ht Hrq Hsq Hfree Hdef Hspin HR HS HX HU. unfold yield_locked. wp_go.
  eapply (wp_return_deferred w [c] c); [done..| |done|].
  { intros ?. split; [|done]. by apply not_elem_of_single. }
  intros w1 C1 Hc1 Hd1 (K1 & K2 & K3 & K4 & K5 & K6 & K7 & K8) Hf1 Et1 Ho1.
  assert (sleepers w1 = sleepers w) as Esl by (by unfold sleepers; rewrite K2).
  wp_go. eapply wp_current; [apply Hc1|]. simpl. wp_go.
  eapply (wp_get_next_task w1 c t); rewrite ?Et1, ?K1, ?K5, ?Esl; try done.
  2:{ intros w2 Hc2 Ht2 (N1 & N2 & N3). eapply HX; [done..|].
      split_and!; [by rewrite <-K2|by rewrite <-K1|done]. }
  intros n w2 C2 Hc2 Ht2 Hn1 Hn2 Hready Hin Eh2 Ew2 Hsp2 Ho2 Hpick2.
  assert (others w w2 c) as Ho by (by eapply others_trans).
  assert (picked w w2 c t n) as Hpick.
  { destruct Hpick2. constructor; unfold charged in *; by rewrite <-?K1, <-?K2, <-?K6, <-?K7, <-?K8. }
  case_bool_decide as Hne.
  - wp_go. unfold spin_unlock. wp_go.
    destruct (Hready Hne) as (tn & fsn & Htn & Hready').
    eapply wp_and_then, (wp_switch_to (set_spin_lock false w2) c n); [unseen|exact Hc2|done..|].
    intros w3 C3 Hc3 Hun Et3. pose proof Hun as (U1 & U2 & U3 & U4 & U5).
    assert (w_runqueue w3 = w_runqueue w2 ∧ sleepers w3 = sleepers w2) as [Erq3 Esl3].
    { unfold w_runqueue, sleepers, w_sleepqueue. by rewrite U1. }
    assert (left_for w3 c n [FSwitch c] (set_vruntime (charged w1 t) t)) as Hleft.
    { by eapply (switched_left w2); [..|by apply Hready]. }
    assert (picked w w3 c t n) as Hpick3.
    { eapply picked_ext; [eapply (picked_after w w2 c t n c); [done|exact Ht2|]|exact Et3|by rewrite U1|exact U5|by rewrite U1].
      apply suspend_vruntime. }
    eexists _, _. split_and!; [apply Hleft|done|].
    apply left_append with (f := FRelockSpin) in Hleft. eapply HS; [exact Hleft|..].
    + change (c ∈ w_runqueue w3 ∨ c ∈ sleepers w3 → t_run_state t = RUNNING ∨ c ∈ sleepers w).
      rewrite Erq3, Esl3. auto.
    + etrans; [exact U2|]. etrans; [exact Eh2|done].
    + etrans; [exact U3|]. etrans; [exact Ew2|done].
    + apply others_after. by eapply others_insert.
    + eapply picked_after; [exact Hpick3|rewrite Et3; apply lookup_insert_eq|done].
  - subst n. wp_go. eapply HR; try done.
    + auto.
    + by rewrite Eh2.
    + by rewrite Ew2.
Qed.

End node.
