(* ===== verification/InvSched.v ===== *)
(** * The functions of namespace [sched] keep the invariant *)

From S2P Require Import Prelude Platform World Task TimeOrderedQueue Rq Freelist SchedNode Sched.
From S2P Require Import SchedSpec Inv InvSteps InvOps InvNode.

Section sched.
Context {E : Env} {EOk : EnvOk E} (b : bool).
Implicit Types (w : world) (hot : list Z).

Ltac unseen := (eapply core_ext; [|eassumption]; reflexivity).

(** ** The state in which the scheduler is called *)

Record at_yield w (c : Z) (t : task) : Prop := {
  ay_core : core b w [c];
  ay_curr : curr w c;
  ay_task : w_tasks w !! c = Some t;
  ay_rq : c ∉ w_runqueue w;
  ay_sq : c ∈ sleepers w → t_run_state t = WAITING;
  ay_free : c ∉ fl_l (w_freelist w);
  ay_deferred : nd_deferred (w_node w) ≠ c;
  ay_spin : nd_spin_lock (w_node w) = false
}.

(** A task that has not stopped is neither listed nor deferred. *)
Lemma core_not_retired w hot c t :
  core b w hot → w_tasks w !! c = Some t → t_run_state t ≠ STOPPED →
  (c ∉ fl_l (w_freelist w)) ∧ nd_deferred (w_node w) ≠ c.
Proof.
  intros C Ht Hns. split.
  - intros Hin. destruct (c_free _ _ _ C c Hin) as (_ & _ & t' & ? & ?). congruence.
  - intros Heq. destruct (c_deferred _ _ _ C) as (_ & t' & Ht' & ?).
    + rewrite Heq. eapply (core_live_pos b w hot); eauto.
    + rewrite Heq in Ht'. congruence.
Qed.

Lemma inv_at_yield w c :
  inv_at b w c → ∃ t, at_yield w c t ∧ idle w c ∧ t_ctx t = None ∧
    t_no_preempt_flag t = false ∧ (t_run_state t = RUNNING ∨ t_run_state t = WAITING).
Proof.
  intros [C Hc Hs (t & Ht & Hctx & Hf & Hst)]. exists t.
  assert (t_run_state t ≠ STOPPED) as Hns by (destruct Hst; congruence).
  assert (idle w c) as Hidle by (eapply (core_idle b w []); [done|by apply not_elem_of_nil|done|auto]).
  split_and!; [|done..]. constructor; try done.
  - eapply core_weaken; [|done]. by apply list_subseteq_nil.
  - apply Hidle.
  - intros Hin. by destruct Hidle as (_ & ? & _).
  - by eapply core_not_retired.
  - by eapply core_not_retired.
Qed.

Lemma at_yield_touch w c t t' :
  at_yield w c t → touch c t t' → (c ∈ sleepers w → t_run_state t' = WAITING) →
  at_yield (upd_tasks <[c := t']> w) c t'.
Proof.
  intros [] Htouch Hsq. constructor; try done.
  - eapply core_touch; [done|by left|done|done|by left].
  - eapply curr_touch; [done..|apply Htouch].
  - simpl. by rewrite lookup_insert_eq.
Qed.

(** A change of the running task alone leaves it in no queue. *)
Lemma idle_insert w c p tp tp' :
  idle w c → w_tasks w !! p = Some tp → t_joiner tp' = t_joiner tp →
  (t_run_state tp = STOPPED → t_run_state tp' = STOPPED) → idle (upd_tasks <[p := tp']> w) c.
Proof.
  intros (? & ? & Hj & ?) Hp Ej Es. split_and!; [done..| |done]. intros q tq. simpl.
  destruct (decide (q = p)) as [->|Hne].
  - rewrite lookup_insert_eq. intros [= <-] Hs. rewrite Ej. apply (Hj p tp Hp). tauto.
  - rewrite lookup_insert_ne by done. apply Hj.
Qed.

Lemma idle_touch w p t t' :
  idle w p → w_tasks w !! p = Some t → touch p t t' → idle (upd_tasks <[p := t']> w) p.
Proof. intros Hi Ht []. by eapply idle_insert. Qed.

(** Back to the program: the running task gave up its locks. *)
Lemma at_yield_inv w c t :
  at_yield w c t → idle w c → t_ctx t = None → t_no_preempt_flag t = false →
  t_run_state t = RUNNING ∨ t_run_state t = WAITING → inv_at b w c.
Proof.
  intros [] Hidle Hctx Hf Hst. constructor; try done; [|eauto].
  by eapply core_close_idle.
Qed.

(** ** [sched_node::yield] and the preemption lock *)

Lemma wp_node_yield w c t (Q : flow → world → Prop) (X : exn → world → Prop) (U : fault → Prop) :
  at_yield w c t →
  (∀ w' v, at_yield w' c (set_vruntime v t) → c ∉ sleepers w' →
     t_run_state t = RUNNING ∨ c ∈ sleepers w →
     w_handles w' = w_handles w → w_waiters w' = w_waiters w → others w w' c →
     picked w w' c t c → Q Returned w') →
  (∀ w' n v, left_for b w' c n [FSwitch c; FRelockSpin; FUnlockSpin] (set_vruntime v t) →
     (c ∈ w_runqueue w' ∨ c ∈ sleepers w' → t_run_state t = RUNNING ∨ c ∈ sleepers w) →
     w_handles w' = w_handles w → w_waiters w' = w_waiters w → others w w' c →
     picked w w' c t n → Q (Switched c) w') →
  (∀ w' v, curr w' c → w_tasks w' !! c = Some (set_vruntime v t) → no_runnable w t →
     X deadlock w') →
  (sleepers w ≠ [] → U null_deref) →
  wp node_yield Q X U w.
Proof.
  intros [] HR HS HX HU. unfold node_yield. wp_go.
  rewrite (proj1 (c_started _ _ _ ay_core0)). apply wp_guarded, wp_spin_lock; [done|].
  eapply (wp_yield_locked b (set_spin_lock true w) c t); try done.
  - unseen.
  - intros Hr Hin. by rewrite ay_sq0 in Hr.
  - intros w' v C' Hc' Ht' Hrq' Hsq' Hor Eh Ew Ho Hpk. apply wp_spin_unlock.
    assert (t_run_state (set_vruntime v t) ≠ STOPPED) as Hns.
    { simpl. destruct Hor as [->|Hin%ay_sq0]; [done|]. by rewrite Hin. }
    destruct (core_not_retired _ _ _ _ C' Ht' Hns).
    apply (HR _ v); try done; [|by eapply picked_ext; [eapply picked_unspin|..]].
    constructor; try done. unseen.
  - intros w' n v Hleft Hin Eh Ew Ho Hpk. eexists _, _. split_and!; [apply Hleft|done|].
    pose proof (lf_task _ _ _ _ _ _ Hleft) as Htc.
    apply left_append with (f := FUnlockSpin) in Hleft. eapply HS; [done..| |].
    + by apply others_after.
    + by eapply picked_after; [eapply picked_unspin|..].
  - intros w' v Hc' Ht' Hno. apply wp_spin_unlock. by eapply HX.
Qed.

(** What a call under the preemption lock has to establish. *)
Definition unlocks (c : Z) (Q : flow → world → Prop) : flow → world → Prop := λ r w,
  match r with
  | Returned => curr w c ∧ ∃ t, w_tasks w !! c = Some t ∧ t_no_preempt_flag t = true ∧
      Q Returned (upd_tasks <[c := set_no_preempt_flag false t]> w)
  | Switched p => ∃ t fs, w_tasks w !! p = Some t ∧ t_ctx t = Some fs ∧
      Q (Switched p) (upd_tasks <[p := set_ctx (Some (fs ++ [FUnlockPreempt])) t]> w)
  end.
Definition unlocks_exn (c : Z) (X : exn → world → Prop) : exn → world → Prop := λ e w,
  curr w c ∧ ∃ t, w_tasks w !! c = Some t ∧ t_no_preempt_flag t = true ∧
    X e (upd_tasks <[c := set_no_preempt_flag false t]> w).

Lemma wp_with_preempt_lock w c t m (Q : flow → world → Prop) X U :
  curr w c → w_tasks w !! c = Some t → t_no_preempt_flag t = false →
  wp m (unlocks c Q) (unlocks_exn c X) U (upd_tasks <[c := set_no_preempt_flag true t]> w) →
  wp (with_preempt_lock m) Q X U w.
Proof.
  intros Hc Ht Hf Hm. unfold with_preempt_lock. apply wp_guarded.
  eapply wp_preempt_lock; [done..|]. wp_go.
  eapply wp_preempt_node; [by eapply curr_touch|]. eapply wp_mono; [exact Hm|..].
  - intros [|p] w'; [|done]. intros (Hc' & t' & Ht' & Hf' & HQ). by eapply wp_preempt_unlock.
  - intros e w' (Hc' & t' & Ht' & Hf' & HX). by eapply wp_preempt_unlock.
  - done.
Qed.

(** The yield that ends a call under the preemption lock. *)
Lemma wp_yield_unlocks w c t (Q : flow → world → Prop) (X : exn → world → Prop) (U : fault → Prop) :
  at_yield w c t → t_no_preempt_flag t = true →
  (∀ w' v, at_yield w' c (set_no_preempt_flag false (set_vruntime v t)) →
     c ∉ sleepers w' → t_run_state t = RUNNING ∨ c ∈ sleepers w →
     w_handles w' = w_handles w → w_waiters w' = w_waiters w → others w w' c →
     picked w w' c t c → Q Returned w') →
  (∀ w' n v, left_for b w' c n (plain_frames c) (set_vruntime v t) →
     (c ∈ w_runqueue w' ∨ c ∈ sleepers w' → t_run_state t = RUNNING ∨ c ∈ sleepers w) →
     w_handles w' = w_handles w → w_waiters w' = w_waiters w → others w w' c →
     picked w w' c t n → Q (Switched c) w') →
  (no_runnable w t → ∀ w', X deadlock w') → (sleepers w ≠ [] → U null_deref) →
  wp node_yield (unlocks c Q) (unlocks_exn c X) U w.
Proof.
  intros Hay Hf HR HS HX HU. eapply wp_node_yield; [exact Hay|..|done].
  - intros w' v Hay' Hsq Hor Eh Ew Ho Hpk. split; [apply Hay'|].
    eexists. split_and!; [apply Hay'|done|]. apply (HR _ v); try done.
    + apply (at_yield_touch w' c (set_vruntime v t)); [done| |by intros ?].
      constructor; try done. simpl. intros Hs. eapply core_not_host; [apply Hay'..|done].
    + by apply others_after.
    + eapply picked_after; [done|apply Hay'|done].
  - intros w' n v Hleft Hin Eh Ew Ho Hpk. eexists _, _. split_and!; [apply Hleft|done|].
    pose proof (lf_task _ _ _ _ _ _ Hleft) as Htc.
    apply left_append with (f := FUnlockPreempt) in Hleft. eapply HS; [done..| |].
    + by apply others_after.
    + by eapply picked_after.
  - intros w' v Hc' Ht' Hno. split; [done|]. eexists. split_and!; [done..|]. by apply HX.
Qed.

(** A yield of the running task, from the program's point of view. *)
Lemma wp_locked_yield w c t (Q : flow → world → Prop) (X : exn → world → Prop) (U : fault → Prop) :
  at_yield w c t → t_no_preempt_flag t = false → t_run_state t ≠ STOPPED →
  (∀ w' v, at_yield w' c (set_no_preempt_flag false (set_vruntime v (set_no_preempt_flag true t))) →
     c ∉ sleepers w' → t_run_state t = RUNNING ∨ c ∈ sleepers w →
     w_handles w' = w_handles w → w_waiters w' = w_waiters w → others w w' c →
     picked w w' c t c → Q Returned w') →
  (∀ w' n v, left_for b w' c n (plain_frames c) (set_vruntime v (set_no_preempt_flag true t)) →
     (c ∈ w_runqueue w' ∨ c ∈ sleepers w' → t_run_state t = RUNNING ∨ c ∈ sleepers w) →
     w_handles w' = w_handles w → w_waiters w' = w_waiters w → others w w' c →
     picked w w' c t n → Q (Switched c) w') →
  (no_runnable w t → ∀ w', X deadlock w') → (sleepers w ≠ [] → U null_deref) →
  wp (with_preempt_lock node_yield) Q X U w.
Proof.
  intros Hay Hf Hns HR HS HX HU. eapply wp_with_preempt_lock; [apply Hay..|done|].
  eapply (wp_yield_unlocks _ c (set_no_preempt_flag true t));
    [| |intros w' v ????? Ho ?|intros w' n v ???? Ho ?|done..].
  - apply (at_yield_touch w c t); [done| |apply Hay]. by constructor.
  - done.
  - eapply HR; try done; [by eapply others_before|by eapply picked_before].
  - eapply HS; try done; [by eapply others_before|by eapply picked_before].
Qed.

Lemma wp_sched_node_current w c (Q : bool → world → Prop) X U :
  curr w c → Q true w → wp sched_node_current Q X U w.
Proof.
  intros [Hb _] HQ. unfold sched_node_current. wp_go. eapply wp_tls_deref; [done|]. by wp_go.
Qed.

Lemma wp_sched_yield w c (Q : flow → world → Prop) X U :
  curr w c → wp (with_preempt_lock node_yield) Q X U w → wp sched_yield Q X U w.
Proof.
  intros Hc H. unfold sched_yield. wp_go. by eapply wp_sched_node_current.
Qed.

(** ** [join] *)

Lemma wp_handle_task w hot h q (Q : Z → world → Prop) X U :
  core b w hot → w_handles w !! h = Some q → Q (if bool_decide (h = 0) then 0 else q) w →
  wp (handle_task h) Q X U w.
Proof.
  intros C Hh HQ. unfold handle_task. wp_go. rewrite Hh. case_bool_decide; by wp_go.
Qed.

Lemma wp_sched_context_get w hot (Q : () → world → Prop) X U :
  core b w hot → Q () w → wp sched_context_get Q X U w.
Proof.
  intros C HQ. unfold sched_context_get. wp_go.
  rewrite (proj1 (proj2 (c_started _ _ _ C))). by wp_go.
Qed.

(** The handle [h] no longer names the task [q], which is back on the free list
    or destroyed; [ws] are the words of the program afterwards. *)
Record dropped w w' (c h q : Z) (ws : gmap Z Z) : Prop := {
  dr_core : core b w' [c];
  dr_curr : curr w' c;
  dr_tasks x : x ≠ q → w_tasks w' !! x = w_tasks w !! x;
  dr_gone t : w_tasks w' !! q = Some t → w_tasks w !! q = Some t;
  dr_node : w_node w' = w_node w;
  dr_waiters : w_waiters w' = w_waiters w;
  dr_handles : w_handles w' = <[h := 0]> (w_handles w);
  dr_words : w_words w' = ws;
  dr_reads : w_thread_reads w' = w_thread_reads w
}.

Lemma dropped_sub w w' c h q ws x tx :
  dropped w w' c h q ws → w_tasks w' !! x = Some tx → w_tasks w !! x = Some tx.
Proof.
  intros Hd Hx. destruct (decide (x = q)) as [->|Hne]; [by apply Hd|]. by rewrite <-(dr_tasks _ _ _ _ _ _ Hd).
Qed.

Lemma dropped_others w w' c h q ws tq :
  dropped w w' c h q ws → w_tasks w !! q = Some tq → t_run_state tq = STOPPED → others w w' c.
Proof.
  intros Hd Hq Hs. split; intros x tx _.
  - by apply (dropped_sub w w' c h q ws).
  - intros Hx Hns. rewrite (dr_tasks _ _ _ _ _ _ Hd); [done|]. intros ->. congruence.
Qed.

(** A stopped task whose handle is dropped is returned to the free list. *)
Lemma wp_drop_task w c h q tq (Q : () → world → Prop) X U :
  core b w [c] → curr w c → w_handles w !! h = Some q → q ≠ 0 → q ≠ c →
  w_tasks w !! q = Some tq → t_run_state tq = STOPPED → t_joiner tq = 0 ∨ t_joiner tq = c →
  (∀ w', dropped w w' c h q (w_words w) → Q () w') →
  wp (return_task q;; modify (upd_handles <[h := 0]>)) Q X U w.
Proof.
  intros C Hc Hh Hq0 Hqc Hq Hs Hj HQ.
  destruct (c_handle _ _ _ C h q Hh Hq0) as (Hh0 & Hhost & Hnf & Hnd & _).
  assert (core b (upd_handles <[h := 0]> w) [c]) as C0.
  { eapply core_handle_clear; [done..|]. destruct Hj as [? | ->]; [by left|right; by left]. }
  assert (retired (upd_handles <[h := 0]> w) q) as Hret.
  { split_and!; [done..| |by exists tq]. intros h'. simpl.
    destruct (decide (h' = h)) as [->|Hne]; [rewrite lookup_insert_eq; congruence|].
    rewrite lookup_insert_ne by done. intros Hh'. by apply Hne, (c_handle_inj _ _ _ C h' h q). }
  wp_go. eapply (wp_return_task b w [c] q tq); [done..| |].
  - intros l Hl Hsz. wp_go. change (Q () (set_freelist l (upd_handles <[h := 0]> w))).
    apply HQ. constructor; try done. by eapply core_free_add.
  - wp_go.
    assert (upd_handles <[h := 0]> (destroyed w q tq) =
            destroyed (upd_handles <[h := 0]> w) q tq) as ->.
    { unfold destroyed. by destruct (has_tls tq). }
    apply HQ. constructor; try (unfold destroyed; by destruct (has_tls tq)).
    + apply core_destroy; try done. by apply not_elem_of_single.
    + by eapply curr_destroy.
    + intros x Hx. rewrite destroyed_tasks. simpl. by rewrite lookup_delete_ne.
    + intros t. rewrite destroyed_tasks. simpl. by rewrite lookup_delete_eq.
Qed.

Lemma wp_join_finish w c h rv q tq (Q : () → world → Prop) X U :
  core b w [c] → curr w c → w_handles w !! h = Some q → q ≠ 0 → q ≠ c →
  w_tasks w !! q = Some tq → t_run_state tq = STOPPED → t_joiner tq = 0 ∨ t_joiner tq = c →
  (∀ w', dropped w w' c h q (stored rv (t_return_value tq) (w_words w)) → Q () w') →
  wp (join_finish h rv) Q X U w.
Proof.
  intros C Hc Hh Hq0 Hqc Hq Hs Hj HQ. unfold join_finish. wp_go.
  eapply wp_handle_task; [done..|].
  rewrite bool_decide_false by apply (c_handle _ _ _ C h q Hh Hq0).
  wp_go. eapply wp_deref; [done|]. wp_go. apply wp_assert; [by rewrite bool_decide_true|]. wp_go.
  unfold stored in HQ. case_bool_decide; wp_go.
  - eapply wp_sched_context_get; [unseen|]. eapply wp_drop_task; [unseen|done..|].
    intros w2 []. apply HQ. by constructor.
  - eapply wp_sched_context_get; [done|]. by eapply wp_drop_task.
Qed.

Lemma idle_sub w w' c :
  idle w c → w_node w' = w_node w → w_waiters w' = w_waiters w →
  (∀ x tx, w_tasks w' !! x = Some tx → w_tasks w !! x = Some tx) → idle w' c.
Proof.
  intros (Hr & Hsl & Hj & Hw) En Ew Hsub.
  unfold idle, w_runqueue, sleepers, w_sleepqueue in *. rewrite En, Ew.
  split_and!; [done..| |done]. intros q tq Hq. eauto.
Qed.

(** ** [resume] *)

(** A task that can be switched to and has left the queues is in no queue. *)
Lemma ready_idle w n :
  core b w [] → ready w n → n ∉ w_runqueue w → n ∉ sleepers w → idle w n.
Proof.
  intros C (t & fs & Ht & Hctx & Hrp & Hf & Hst & Hjoin & Hpark) Hrq Hsq.
  assert (n ≠ 0) as Hn0 by (eapply (core_live_pos b w []); eauto).
  split_and!; [done..| |].
  - intros q tq Hq Hs Heq.
    destruct (c_pending _ _ _ C q tq Hq Hs) as (tj & h & rv & Htj & Hcj & _ & _ & Hh).
    + by rewrite Heq.
    + apply not_elem_of_nil.
    + rewrite Heq in Htj, Hcj. simplify_eq.
      destruct (Hjoin h rv eq_refl) as (q' & tq' & ? & ? & ? & ? & ?). congruence.
  - intros a Ha. destruct (c_parked _ _ _ C a n Ha Hn0) as (tj & fs' & Htj & Hcj & Hfs' & _).
    + apply not_elem_of_nil.
    + simplify_eq. by apply (Hpark a).
Qed.

Lemma at_yield_idle_state w n t :
  core b w [] → curr w n → w_tasks w !! n = Some t → idle w n → t_run_state t ≠ STOPPED →
  nd_spin_lock (w_node w) = false → at_yield w n t.
Proof.
  intros C Hc Ht (Hr & Hs & _ & _) Hns Hspin.
  destruct (core_not_retired w [] n t C Ht Hns).
  constructor; try done. eapply core_weaken; [|done]. by apply list_subseteq_nil.
Qed.

(** The frames of [switch_to_internal] and [sched_node::yield], then the end of
    the preemption lock. *)
Lemma wp_run_plain w n t rest (Q : () → world → Prop) X U :
  at_yield w n t → idle w n → t_no_preempt_flag t = true → t_run_state t ≠ STOPPED →
  (∀ w', at_yield w' n (set_no_preempt_flag false (set_run_state RUNNING t)) → idle w' n →
     w_handles w' = w_handles w → w_waiters w' = w_waiters w → w_words w' = w_words w →
     w_node w' = w_node w → w_thread_reads w' = w_thread_reads w →
     w_tasks w' = <[n := set_no_preempt_flag false (set_run_state RUNNING t)]> (w_tasks w) →
     wp (run_frames rest) Q X U w') →
  wp (run_frames (FSwitch n :: FRelockSpin :: FUnlockSpin :: FUnlockPreempt :: rest)) Q X U w ∧
  wp (run_frames (FSwitch n :: FUnlockPreempt :: rest)) Q X U w.
Proof.
  intros Hay Hidle Hf Hns Hrest.
  set (t1 := set_run_state RUNNING t).
  set (w1 := upd_tasks <[n := t1]> w).
  assert (touch n t t1) as Htouch by (by constructor).
  assert (at_yield w1 n t1) as Hay1.
  { apply (at_yield_touch w n t); [done..|]. intros Hin. by destruct Hidle as (_ & ? & _). }
  assert (idle w1 n) as Hidle1 by (eapply idle_touch; [done|apply Hay|done]).
  assert (wp (run_frame FUnlockPreempt) (λ _, wp (run_frames rest) Q X U) X U w1) as Hend.
  { simpl. eapply wp_preempt_unlock; [apply Hay1..|done|]. apply Hrest.
    - apply (at_yield_touch w1 n t1); [done|by constructor|].
      intros Hin. by destruct Hidle1 as (_ & ? & _).
    - eapply idle_touch; [done|apply Hay1|by constructor].
    - done.
    - done.
    - done.
    - done.
    - done.
    - simpl. by rewrite insert_insert_eq. }
  assert (∀ k, wp k Q X U w1 → wp (run_frame (FSwitch n);; k) Q X U w) as Hswitch.
  { intros k Hk. wp_go. cbn [run_frame]. wp_go. eapply wp_current; [apply Hay|]. simpl. wp_go.
    apply wp_assert; [by rewrite bool_decide_true|]. eapply wp_write; [apply Hay|done]. }
  split; cbn [run_frames]; apply Hswitch; wp_go; [|done].
  cbn [run_frame]. apply wp_spin_lock; [apply Hay1|]. wp_go. apply wp_spin_unlock. wp_go.
  assert (set_spin_lock false (set_spin_lock true w1) = w1) as ->; [|done].
  pose proof (ay_spin _ _ _ Hay) as Hspin. unfold w1 in *. destruct w as [???? [] ?????? ???].
  simpl in *. by subst.
Qed.

(** The end of the call a task was in, by the last of its frames: the end of a
    [join] stores the value of the finished task and drops it. *)
Definition continued w w' (fs : list frame) : Prop :=
  match last fs with
  | Some (FJoin h rv) =>
      ∃ q tq, w_handles w !! h = Some q ∧ q ≠ 0 ∧ w_tasks w !! q = Some tq ∧
        t_run_state tq = STOPPED ∧ (∀ x, x ≠ q → is_Some (w_tasks w !! x) → is_Some (w_tasks w' !! x)) ∧
        w_handles w' = <[h := 0]> (w_handles w) ∧
        w_words w' = stored rv (t_return_value tq) (w_words w)
  | _ => w_handles w' = w_handles w ∧ w_words w' = w_words w
  end.

(** What the resumed task [n] finds: it runs, with the run queue, its virtual
    time and the other tasks as they were, at the end of its call. *)
Record resumed w w' n : Prop := {
  re_running : ∃ t t', w_tasks w !! n = Some t ∧ w_tasks w' !! n = Some t' ∧
    t_run_state t' = RUNNING ∧ t_vruntime t' = t_vruntime t ∧ t_ctx t' = None ∧
    t_entry t' = t_entry t ∧ t_arg t' = t_arg t ∧ t_joiner t' = t_joiner t;
  re_node : w_node w' = w_node w;
  re_reads : w_thread_reads w' = w_thread_reads w;
  re_waiters : w_waiters w' = w_waiters w;
  re_others : others w w' n;
  re_call t fs : w_tasks w !! n = Some t → t_ctx t = Some fs → continued w w' fs
}.

(** In particular, a task that was waiting in [join] finds the value of the
    finished task where it asked for it, and its handle empty. *)
Lemma resumed_joined w w' n t h rv q tq :
  resumed w w' n → w_tasks w !! n = Some t → t_ctx t = Some (plain_frames n ++ [FJoin h rv]) →
  w_handles w !! h = Some q → w_tasks w !! q = Some tq →
  (rv ≠ 0 → w_words w' !! rv = Some (t_return_value tq)) ∧ w_handles w' !! h = Some 0.
Proof.
  intros Hre Ht Hctx Hh Hq. pose proof (re_call _ _ _ Hre t _ Ht Hctx) as Hc. unfold continued in Hc.
  rewrite last_snoc in Hc. destruct Hc as (q' & tq' & Hh' & _ & Hq' & _ & _ & -> & ->).
  rewrite lookup_insert_eq. split; [|done]. intros Hrv. unfold stored.
  rewrite bool_decide_true, lookup_insert_eq by done. congruence.
Qed.

Lemma resumed_intro w w' n t t' fs :
  w_tasks w !! n = Some t → t_ctx t = Some fs →
  at_yield w' n t' → idle w' n → t' = set_no_preempt_flag false (set_run_state RUNNING (set_ctx None t)) →
  w_node w' = w_node w → w_thread_reads w' = w_thread_reads w → w_waiters w' = w_waiters w →
  others w w' n → continued w w' fs → inv_at b w' n ∧ resumed w w' n.
Proof.
  intros Ht Hctx Hay' Hidle' -> ???? Hdone. split; [eapply at_yield_inv; eauto|].
  constructor; try done.
  - eexists t, _. split_and!; [done|apply Hay'|done..].
  - intros t0 fs0 Ht0 Hc0. congruence.
Qed.

(** The end of a [join]: what [wp_join_finish] gives back, the running task included. *)
Lemma at_yield_sub w w' c t :
  at_yield w c t → core b w' [c] → curr w' c → w_tasks w' !! c = Some t →
  w_node w' = w_node w → t_run_state t ≠ STOPPED → at_yield w' c t.
Proof.
  intros [] C' Hc' Ht' En Hs. destruct (core_not_retired w' [c] c t C' Ht'); [done|].
  constructor; try done; unfold w_runqueue, sleepers, w_sleepqueue; by rewrite En.
Qed.

Lemma wp_resume w n (X : exn → world → Prop) (U : fault → Prop) :
  core b w [] → curr w n → ready w n → n ∉ w_runqueue w → n ∉ sleepers w →
  nd_spin_lock (w_node w) = false →
  wp resume (λ _ w', inv_at b w' n ∧ resumed w w' n) X U w.
Proof.
  intros C Hc Hready Hrq Hsq Hspin.
  pose proof (ready_idle w n C Hready Hrq Hsq) as Hidle.
  destruct Hready as (t & fs & Ht & Hctx & Hrp & Hf & Hst & Hjoin & Hpark).
  assert (t_run_state t ≠ STOPPED) as Hns by (destruct Hst; congruence).
  pose proof (at_yield_idle_state w n t C Hc Ht Hidle Hns Hspin) as Hay.
  unfold resume. wp_go. eapply wp_current; [apply Hc|]. simpl. wp_go.
  eapply wp_deref; [done|]. wp_go. eapply wp_need; [exact Hctx|]. wp_go.
  eapply wp_write; [done|].
  set (t1 := set_ctx None t). assert (touch n t t1) as Htouch by (by constructor).
  assert (at_yield (upd_tasks <[n := t1]> w) n t1) as Hay1.
  { apply (at_yield_touch w n t); [done..|]. intros Hin. by destruct Hidle as (_ & ? & _). }
  assert (idle (upd_tasks <[n := t1]> w) n) as Hidle1 by (by eapply idle_touch).
  set (w1 := upd_tasks <[n := t1]> w) in *.
  assert (others w w1 n) as Ho1 by apply others_after, others_refl.
  destruct Hrp as [| |h rv|a|a].
  2,4,5: (eapply wp_run_plain; [done..|]; intros w' Hay' Hidle' Eh Ew Ewd En Er Et; simpl; wp_go;
    eapply (resumed_intro w _ n t _ _ Ht Hctx); try done; by eapply others_insert).
  - (* a new task enters its entry function *)
    cbn [run_frames run_frame]. wp_go. eapply wp_current; [apply Hay1|]. simpl.
    eapply wp_write; [apply Hay1|]. wp_go.
    assert (touch n t1 (set_run_state RUNNING t1)) as Htouch' by (by constructor).
    apply (resumed_intro w _ n t (set_run_state RUNNING t1) _ Ht Hctx); try done.
    + apply (at_yield_touch w1 n t1); [done..|]. intros Hin. by destruct Hidle1 as (_ & ? & _).
    + eapply idle_touch; [done|apply Hay1|done].
    + unfold t1. simpl in Hf. destruct t; simpl in *. by subst.
    + by apply others_after.
  - eapply wp_run_plain; [done..|]. intros w2 Hay2 Hidle2 Eh Ew Ewd En Er Et. simpl. wp_go.
    destruct (Hjoin h rv eq_refl) as (q & tq & Hh & Hq0 & Hq & Hs & Hj).
    assert (q ≠ n) as Hqn by (intros ->; congruence).
    assert (w_tasks w2 !! q = Some tq) as Hq2 by (rewrite Et; simpl; by rewrite !lookup_insert_ne).
    eapply (wp_join_finish w2 n h rv q tq); [apply Hay2..|by rewrite Eh|done|done|done|done|by right|].
    intros w3 Hd. wp_go. pose proof Hd as [].
    eapply (resumed_intro w _ n t _ _ Ht Hctx); [| |reflexivity|by rewrite dr_node0, En
      |by rewrite dr_reads0, Er|by rewrite dr_waiters0, Ew|..].
    + eapply (at_yield_sub w2); [done..|by rewrite dr_tasks0 by done; apply Hay2|done|done].
    + eapply idle_sub; [done..|]. intros x tx. by eapply dropped_sub.
    + eapply others_trans; [|by eapply dropped_others]. by eapply others_insert.
    + unfold continued. rewrite last_snoc. exists q, tq. split_and!; try done.
      * intros x Hx Hlive. rewrite dr_tasks0, Et by done. simpl.
        rewrite !lookup_insert_is_Some. destruct (decide (n = x)); auto.
      * rewrite dr_handles0. by rewrite Eh.
      * rewrite dr_words0. by rewrite Ewd.
Qed.

End sched.
