(* ===== verification/InvExec.v ===== *)
(** * Every call of a program keeps the invariant

    One rule per function of namespace [sched] and of [waiter]: from a state
    that satisfies the invariant, the call ends in one that does, possibly in
    another task. *)

From S2P Require Import Prelude Platform World Task TimeOrderedQueue Rq Freelist SchedNode Sched.
From S2P Require Import SchedSpec Keeps Inv InvSteps InvOps InvNode InvSched.

Section exec.
Context {E : Env} {EOk : EnvOk E} (b : bool).
Implicit Types (w : world) (hot : list Z) (X : exn → world → Prop) (U : fault → Prop).

Ltac unseen := (eapply core_ext; [|eassumption]; reflexivity).

(** No task but the running one can run. *)
Definition nothing_else w : Prop := w_runqueue w = [] ∧ w_sleepqueue w = [].

Lemma no_runnable_nothing w t : no_runnable w t → nothing_else w.
Proof. by intros (? & ? & _). Qed.

(** ** How a call ends *)

(** The program has control again, or the task that was switched to can be
    resumed. *)
Definition settled (r : flow) w : Prop :=
  match r with
  | Returned => inv b w
  | Switched _ => ∃ n, core b w [] ∧ curr w n ∧ ready w n ∧ (n ∉ w_runqueue w) ∧
      (n ∉ sleepers w) ∧ nd_spin_lock (w_node w) = false
  end.

Lemma wp_exec o w X U : wp (call o) settled X U w → wp (exec o) (λ _, inv b) X U w.
Proof.
  intros H. unfold exec. wp_go. eapply wp_post; [exact H|]. intros [|c] w'.
  - intros H'. by wp_go.
  - intros (n & C & Hc & Hr & Hrq & Hsq & Hs).
    eapply wp_post; [by eapply (wp_resume b w' n)|]. intros [] w'' [? _]. by exists n.
Qed.

(** Nobody waits in [join] for a task to be collected by [c]. *)
Definition unjoined w c : Prop :=
  ∀ q tq, w_tasks w !! q = Some tq → t_run_state tq ≠ STOPPED → t_joiner tq ≠ c.

Lemma unjoined_others w w' c t :
  unjoined w c → others w w' c → w_tasks w' !! c = Some t →
  (t_run_state t = STOPPED ∨ t_joiner t ≠ c) → unjoined w' c.
Proof.
  intros Hu Ho Ht Hor q tq Hq Hs. destruct (decide (q = c)) as [->|Hne].
  - assert (tq = t) as -> by congruence. by destruct Hor.
  - by apply (Hu q tq); [apply (ot_same _ _ _ Ho)|].
Qed.

(** ** Leaving a task *)

Lemma left_settled w c n fs t :
  left_for b w c n fs t →
  (c ∈ w_runqueue w ∨ c ∈ sleepers w → ready w c) →
  (∀ q tq, w_tasks w !! q = Some tq → t_run_state tq ≠ STOPPED → t_joiner tq = c →
     pending w q c) →
  (∀ a, w_waiters w !! a = Some c → parked w a c) →
  settled (Switched c) w.
Proof.
  intros [] Hr Hp Hw. exists n. split_and!; try done.
  apply (core_close b w c []); [done..| |].
  - intros q tq Hq Hs Hj _. by eapply Hp.
  - intros a Ha _. by apply Hw.
Qed.

(** A task that left [sched_node::yield] to be continued by the scheduler. *)
Lemma left_plain_ready w c n t :
  left_for b w c n (plain_frames c) t → t_no_preempt_flag t = true →
  t_run_state t = RUNNING ∨ t_run_state t = WAITING → ready w c.
Proof.
  intros [] Hf Hs. eexists _, _. split_and!; [done..|constructor| | |done|].
  - simpl. by rewrite suspend_flag, Hf.
  - simpl. rewrite suspend_state. case_bool_decide; [by left|]. by destruct Hs; [done|right].
  - by intros a [? | ?].
Qed.

Lemma left_joiner w c n fs t :
  left_for b w c n fs t → ∃ t', w_tasks w !! c = Some t' ∧ t_joiner t' = t_joiner t ∧
    (t_run_state t = STOPPED → t_run_state t' = STOPPED).
Proof.
  intros []. eexists. split_and!; [done|..]; simpl; unfold suspend.
  - by case_bool_decide.
  - intros Hs. by rewrite Hs.
Qed.

(** The call of [c] left for the task [n], which was taken from the runnable
    tasks [l]: [t1] and [w1] are [c] and the state when the scheduler was
    called, and the frames [fs] are what [c] has to do when it is resumed. *)
Record leaves w1 (c : Z) (t1 : task) (fs : list frame) (l : list Z) w' (n : Z) : Prop := {
  lv_left : ∃ v, left_for b w' c n fs (set_vruntime v t1);
  lv_others : others w1 w' c;
  lv_queue : w_sleepqueue w1 = [] → n :: w_runqueue w' ≡ₚ l;
  lv_handles : w_handles w' = w_handles w1;
  lv_waiters : w_waiters w' = w_waiters w1
}.

Lemma leaves_append w1 c t1 fs l w' n v f :
  leaves w1 c t1 fs l w' n → left_for b w' c n fs (set_vruntime v t1) →
  leaves w1 c t1 (fs ++ [f]) l
    (upd_tasks <[c := set_ctx (Some (fs ++ [f])) (set_ctx (Some fs) (suspend (set_vruntime v t1)))]> w') n.
Proof.
  intros [] Hleft. constructor; try done.
  - exists v. by apply left_append.
  - by apply others_after.
Qed.

Lemma leaves_before w1 w2 c t1 fs l w' n :
  leaves w2 c t1 fs l w' n → others w1 w2 c → w_sleepqueue w2 = w_sleepqueue w1 →
  w_handles w2 = w_handles w1 → w_waiters w2 = w_waiters w1 → leaves w1 c t1 fs l w' n.
Proof.
  intros [Hl Ho Hq Hh Hw] Ho1 Es Eh Ew.
  constructor; [done|by eapply others_trans|by rewrite <-Es|by rewrite Hh|by rewrite Hw].
Qed.

(** ** [yield] and the timer *)

(** What the turn of the running task [c] leads to: the state is settled, and
    the next task was picked by its virtual time. *)
Record turned w (c : Z) (t : task) (r : flow) w' : Prop := {
  tu_settled : settled r w';
  tu_others : others w w' c;
  tu_picked : ∃ n, curr w' n ∧ picked w w' c t n;
  tu_handles : w_handles w' = w_handles w;
  tu_waiters : w_waiters w' = w_waiters w;
  tu_task : ∃ v, match r with
    | Returned => inv_at b w' c ∧ w_tasks w' !! c =
        Some (set_no_preempt_flag false (set_vruntime v (set_no_preempt_flag true t)))
    | Switched _ => ∃ n,
        left_for b w' c n (plain_frames c) (set_vruntime v (set_no_preempt_flag true t))
    end
}.

Lemma wp_turn w c t X U :
  inv_at b w c → w_tasks w !! c = Some t →
  (no_runnable w t → ∀ w', X deadlock w') → (sleepers w ≠ [] → U null_deref) →
  wp (with_preempt_lock node_yield) (turned w c t) X U w.
Proof.
  intros Hi Ht HX HU. destruct (inv_at_yield b w c Hi) as (t0 & Hay & Hidle & Hctx & Hf & Hst).
  assert (t0 = t) as -> by (pose proof (ay_task _ _ _ _ Hay); congruence).
  assert (t_run_state t ≠ STOPPED) as Hns by (destruct Hst; congruence).
  destruct Hidle as (Hrq & Hsq & Hj & Hw).
  eapply wp_locked_yield; [exact Hay|done..| | |by apply HX|done].
  - intros w' v Hay' Hsq' _ Eh Ew Ho Hpk.
    assert (inv_at b w' c) as Hi'.
    { eapply at_yield_inv; [exact Hay'| |done..]. split_and!; [apply Hay'|done| |by rewrite Ew].
      eapply unjoined_others; [exact Hj|exact Ho|apply Hay'|]. right. by apply (Hj c t). }
    constructor; [by exists c|done|exists c; split; [apply Hi'|done]|done|done|].
    exists v. split; [done|apply Hay'].
  - intros w' n v Hleft _ Eh Ew Ho Hpk.
    constructor; [|done|exists n; split; [apply Hleft|done]|done|done|by exists v, n].
    eapply left_settled; [exact Hleft|..].
    + intros _. eapply left_plain_ready; [exact Hleft|done..].
    + destruct (left_joiner _ _ _ _ _ Hleft) as (t' & Ht' & Hj' & _).
      intros q tq Hq Hs Heq. exfalso. revert q tq Hq Hs Heq.
      eapply unjoined_others; [exact Hj|exact Ho|exact Ht'|]. right. rewrite Hj'.
      by apply (Hj c t).
    + intros a Ha. rewrite Ew in Ha. by destruct (Hw a).
Qed.

Lemma wp_program_yield w c X U :
  inv_at b w c → (∀ t, w_tasks w !! c = Some t → no_runnable w t → ∀ w', X deadlock w') →
  (sleepers w ≠ [] → U null_deref) → wp (with_preempt_lock node_yield) settled X U w.
Proof.
  intros Hi HX HU. pose proof (i_cur _ _ _ Hi) as (t & Ht & _).
  eapply wp_post; [by eapply wp_turn; [| |apply HX|]|]. intros r w' Htu. apply Htu.
Qed.

Lemma wp_call_yield w c X U :
  inv_at b w c → (∀ t, w_tasks w !! c = Some t → no_runnable w t → ∀ w', X deadlock w') → (sleepers w ≠ [] → U null_deref) →
  wp sched_yield settled X U w.
Proof.
  intros Hi HX HU. eapply wp_sched_yield; [apply Hi|]. by eapply wp_program_yield.
Qed.

(** The signal of the timer, when it traps. *)
Lemma wp_alarm w c (Q : flow → world → Prop) X U :
  inv_at b w c → al_trap (w_alarm w) = true → wp (with_preempt_lock node_yield) Q X U w →
  wp alarm_handler Q X U w.
Proof.
  intros Hi Htrap H. unfold alarm_handler, trap. wp_go. rewrite Htrap. wp_go.
  pose proof Hi as [_ Hc _ (t & Ht & _ & Hf & _)].
  eapply wp_sched_node_current; [done|]. wp_go. eapply wp_current; [apply Hc|]. simpl. wp_go.
  eapply wp_deref; [done|]. by rewrite Hf.
Qed.

Lemma wp_call_tick w c X U :
  inv_at b w c → (∀ t, w_tasks w !! c = Some t → no_runnable w t → ∀ w', X deadlock w') → (sleepers w ≠ [] → U null_deref) →
  wp alarm_handler settled X U w.
Proof.
  intros Hi HX HU. destruct (al_trap (w_alarm w)) eqn:Htrap.
  - eapply wp_alarm; [done..|]. by eapply wp_program_yield.
  - unfold alarm_handler. wp_go. rewrite Htrap. wp_go. by exists c.
Qed.

(** ** [sleep_for] *)

(** The running task enters the sleep queue. *)
Lemma at_yield_sleep w c t ripe n :
  at_yield b w c t → c ∉ sleepers w → t_run_state t = WAITING →
  at_yield b (set_sleepqueue (toq_push ripe c (w_sleepqueue w)) (set_system_reads n w)) c t.
Proof.
  intros [] Hsq Hst.
  assert ((toq_push ripe c (w_sleepqueue w)).*2 ≡ₚ c :: sleepers w) as Hp.
  { unfold sleepers. by rewrite toq_push_perm. }
  constructor; try done. apply core_set_sleepqueue.
  - eapply core_ext; [|exact ay_core]. reflexivity.
  - intros x. rewrite Hp. intros [->|Hx]%elem_of_cons.
    + split; [done|]. intros Hni. by destruct Hni; left.
    + split; [|intros ?; apply (c_ready _ _ _ ay_core); auto].
      intros Hin. by apply (c_rq_sq _ _ _ ay_core x).
  - rewrite Hp. constructor; [done|apply ay_core].
  - apply toq_push_ok, ay_core.
Qed.

Lemma sleep_state w c t1 t2 ripe n :
  nd_spin_lock (w_node w) = false →
  set_spin_lock false (set_sleepqueue (toq_push ripe c (w_sleepqueue w))
    (upd_tasks <[c := t2]> (set_system_reads n
       (upd_tasks <[c := t2]> (set_spin_lock true (upd_tasks <[c := t1]> w)))))) =
  set_sleepqueue (toq_push ripe c (w_sleepqueue w))
    (set_system_reads n (upd_tasks <[c := t2]> (upd_tasks <[c := t1]> w))).
Proof.
  intros Hs. destruct w as [ts ??? [] ?????????]. simpl in *. subst.
  match goal with |- _ = ?w' =>
    change (upd_tasks (λ _, <[c := t2]> (<[c := t2]> (<[c := t1]> ts))) w' = w') end.
  by rewrite insert_insert_eq.
Qed.

Lemma wp_call_sleep_for w c d X U :
  inv_at b w c → U null_deref →
  wp (sched_sleep_for d) settled X U w.
Proof.
  intros Hi HU. destruct (inv_at_yield b w c Hi) as (t & Hay & Hidle & Hctx & Hf & Hst).
  assert (t_run_state t ≠ STOPPED) as Hns by (destruct Hst; congruence).
  destruct Hidle as (Hrq & Hsq & Hj & Hw). pose proof (ay_task _ _ _ _ Hay) as Ht.
  unfold sched_sleep_for. eapply wp_with_preempt_lock; [apply Hay..|done|].
  set (t1 := set_no_preempt_flag true t). set (w1 := upd_tasks <[c := t1]> w).
  assert (at_yield b w1 c t1) as Hay1.
  { apply (at_yield_touch b w c t); [done| |apply Hay]. by constructor. }
  unfold node_yield_for. wp_go. eapply wp_current; [apply Hay1|]. simpl. wp_go.
  apply wp_spin_lock; [apply Hay1|]. wp_go. eapply wp_write; [apply Hay1|]. wp_go.
  unfold sleep_push, read_system_clock. wp_go. eapply wp_current; [apply Hay1|]. simpl. wp_go.
  eapply wp_write; [apply lookup_insert_eq|]. wp_go. apply wp_spin_unlock.
  set (t2 := set_run_state WAITING t1). set (w2 := upd_tasks <[c := t2]> w1).
  assert (at_yield b w2 c t2) as Hay2.
  { apply (at_yield_touch b w1 c t1); [done| |done]. by constructor. }
  match goal with |- wp _ _ _ _ ?w' => set (w3 := w') end.
  assert (∃ ripe, w3 = set_sleepqueue (toq_push ripe c (w_sleepqueue w2))
                    (set_system_reads (S (w_system_reads w)) w2)) as [ripe Ew3].
  { exists (system_now (w_system_reads w) + d).
    exact (sleep_state w c t1 t2 _ _ (i_spin _ _ _ Hi)). }
  assert (at_yield b w3 c t2) as Hay3 by (rewrite Ew3; by apply at_yield_sleep).
  assert (others w w3 c) as Ho3.
  { rewrite Ew3. apply others_eq. intros q Hq. simpl. by rewrite !lookup_insert_ne. }
  assert (w_waiters w3 = w_waiters w) as Ew by (by rewrite Ew3).
  assert (w_sleepqueue w3 ≠ []) as Hq3.
  { rewrite Ew3. intros Hnil. change (toq_push ripe c (w_sleepqueue w2) = []) in Hnil.
    pose proof (toq_push_perm ripe c (w_sleepqueue w2)) as Hp. rewrite Hnil in Hp.
    by apply Permutation_nil_cons in Hp. }
  clearbody w3. clear Ew3.
  eapply wp_yield_unlocks; [exact Hay3|done| | |by intros (? & _)|done].
  - intros w' v Hay' Hsq' _ _ Ew' Ho _. exists c. eapply at_yield_inv; [exact Hay'| |done..|by right].
    split_and!; [apply Hay'|done| |by rewrite Ew', Ew].
    eapply unjoined_others; [exact Hj| |apply Hay'|right; by apply (Hj c t)].
    by eapply others_trans.
  - intros w' n v Hleft _ _ Ew' Ho _. eapply left_settled; [exact Hleft|..].
    + intros _. eapply left_plain_ready; [exact Hleft|done|by right].
    + destruct (left_joiner _ _ _ _ _ Hleft) as (t' & Ht' & Hj' & _).
      intros q tq Hq Hs Heq. exfalso. revert q tq Hq Hs Heq.
      eapply unjoined_others; [exact Hj| |exact Ht'|right; rewrite Hj'; by apply (Hj c t)].
      by eapply others_trans.
    + intros a Ha. rewrite Ew', Ew in Ha. by destruct (Hw a).
Qed.

(** ** [schedule] *)

Lemma set_vruntime_same t : set_vruntime (t_vruntime t) t = t.
Proof. by destruct t. Qed.

(** What a task object tells about its task: the entry function and its
    argument, the task that waits for its end, where it goes on, and its result
    once it has stopped.  The rest serves the scheduler. *)
Definition view (t : task) : Z * Z * Z * option (list frame) * option Z :=
  (t_entry t, t_arg t, t_joiner t, t_ctx t,
   if bool_decide (t_run_state t = STOPPED) then Some (t_return_value t) else None).

Lemma view_stopped t t' : view t = view t' → t_run_state t = STOPPED ↔ t_run_state t' = STOPPED.
Proof. unfold view. intros [= _ _ _ _ H]. by do 2 case_bool_decide. Qed.

(** As [others], but the objects may have changed in what only the scheduler
    uses. *)
Record resembles (ts ts' : gmap Z task) (c : Z) : Prop := {
  ak_same q tq' : q ≠ c → ts' !! q = Some tq' → ∃ tq, ts !! q = Some tq ∧ view tq' = view tq;
  ak_live q tq : q ≠ c → ts !! q = Some tq → t_run_state tq ≠ STOPPED →
    ∃ tq', ts' !! q = Some tq' ∧ view tq' = view tq
}.
Definition alike w w' (c : Z) : Prop := resembles (w_tasks w) (w_tasks w') c.

Lemma others_alike w w' c : others w w' c → alike w w' c.
Proof. intros [Hs Hl]. split; eauto. Qed.

Lemma alike_trans w w1 w2 c : alike w w1 c → alike w1 w2 c → alike w w2 c.
Proof.
  intros [Hs Hl] [Hs' Hl']. split; intros q tq Hne Hq.
  - destruct (Hs' q tq Hne Hq) as (tq1 & Hq1 & ->). by apply Hs.
  - intros Hns. destruct (Hl q tq Hne Hq Hns) as (tq1 & Hq1 & Hv).
    destruct (Hl' q _ Hne Hq1) as (tq2 & Hq2 & Hv2); [by rewrite (view_stopped _ _ Hv)|].
    exists tq2. by rewrite Hv2.
Qed.

(** One object changed, in what only the scheduler uses. *)
Lemma alike_insert w w' p t t' c :
  w_tasks w' = <[p := t']> (w_tasks w) → w_tasks w !! p = Some t → view t' = view t →
  alike w w' c.
Proof.
  intros Et Hp Hv. split; intros q tq Hne; rewrite Et; destruct (decide (q = p)) as [->|Hqp].
  - rewrite lookup_insert_eq. intros [= <-]. eauto.
  - rewrite lookup_insert_ne by done. eauto.
  - intros Hq _. rewrite lookup_insert_eq. exists t'. split; [done|]. congruence.
  - intros Hq _. rewrite lookup_insert_ne by done. eauto.
Qed.

(** The task [p] has been put on the run queue. *)
Record scheduled w w' p tp v : Prop := {
  sd_tasks : w_tasks w' = <[p := set_vruntime v tp]> (w_tasks w);
  sd_rq : w_runqueue w' ≡ₚ p :: w_runqueue w;
  sd_sq : w_sleepqueue w' = w_sleepqueue w;
  sd_tls : w_tls w' = w_tls w;
  sd_fs : w_fs w' = w_fs w;
  sd_handles : w_handles w' = w_handles w;
  sd_waiters : w_waiters w' = w_waiters w;
  sd_free : w_freelist w' = w_freelist w;
  sd_deferred : nd_deferred (w_node w') = nd_deferred (w_node w);
  sd_spin : nd_spin_lock (w_node w') = false
}.

Lemma wp_schedule w hot p tp (Q : () → world → Prop) X U :
  core b w hot → w_tasks w !! p = Some tp → p ∉ hot → ready w p →
  p ∉ w_runqueue w → p ∉ sleepers w → nd_spin_lock (w_node w) = false →
  (∀ w' v, core b w' hot → scheduled w w' p tp v → Q () w') →
  wp (schedule p) Q X U w.
Proof.
  intros C Hp Hni Hready Hrq Hsq Hspin HQ. unfold schedule. wp_go.
  apply wp_spin_lock; [done|]. wp_go. eapply wp_deref; [done|]. wp_go.
  set (v := if bool_decide (t_vruntime tp = 0) then w_min_vruntime w else t_vruntime tp).
  set (w1 := upd_tasks <[p := set_vruntime v tp]> (set_spin_lock true w)).
  assert (wp (push p) (λ _, wp spin_unlock Q X U) X U w1) as Hpush.
  { assert (write_ok w hot p tp (set_vruntime v tp)) as Hok.
    { destruct Hready as (t & fs & Ht & _ & _ & _ & Hst & _). assert (t = tp) as -> by congruence.
      assert (t_run_state tp ≠ STOPPED) as Hns by (destruct Hst; congruence).
      constructor; try done.
      - intros ->. destruct (c_host _ _ _ C) as (th & Hth & _ & _ & ? & ?).
        assert (th = tp) as -> by congruence. done.
      - intros Hne ?. by apply (c_entry _ _ _ C p tp).
      - by right.
      - by right.
      - intros h Hh. destruct (c_handle _ _ _ C h p Hh) as (_ & _ & _ & _ & t0 & Ht0 & Hd).
        + eapply (core_live_pos b w); eauto.
        + simpl. congruence.
      - by left. }
    assert (core b w1 hot) as C1.
    { eapply core_ext; [|exact (core_write b w hot p tp _ Hp Hok C)]. reflexivity. }
    assert (ready w1 p) as Hready1.
    { pose proof (write_ready w hot p tp _ Hp Hok p Hni Hready) as Hr. exact Hr. }
    unfold push. eapply wp_runqueue_emplace; [exact C1|..].
    - simpl. rewrite lookup_insert_eq. eauto.
    - done.
    - intros l Hl Hs. apply wp_spin_unlock. apply (HQ _ v).
      + assert (core b (set_runqueue l w1) hot) as C2; [|unseen].
        apply core_set_runqueue; [done| | |done].
        * intros x. rewrite Hl. intros [->|Hx]%elem_of_cons.
          -- split_and!; [|done|done]. by apply ready_live.
          -- split_and!; [by apply (c_rq_live _ _ _ C1)|by apply (c_rq_sq _ _ _ C1)|].
             intros ?. apply (c_ready _ _ _ C1); auto.
        * rewrite Hl. constructor; [done|apply C].
      + by constructor. }
  unfold v in *. case_bool_decide as Hv.
  - eapply wp_write; [done|]. by wp_go.
  - wp_go. revert Hpush. unfold w1. by rewrite set_vruntime_same, upd_tasks_id.
Qed.

Lemma alike_scheduled w w' p tp v c :
  scheduled w w' p tp v → w_tasks w !! p = Some tp → alike w w' c.
Proof. intros [] Hp. by eapply alike_insert. Qed.

(** What the scheduled state means for the running task. *)
Lemma scheduled_at_yield w w' p tp v c t :
  scheduled w w' p tp v → core b w' [c] → at_yield b w c t → p ≠ c → at_yield b w' c t.
Proof.
  intros [] C' [] Hne. constructor; try done.
  - destruct ay_curr as (Hb & tc & Htc & Hfs). unfold curr. rewrite sd_tls0, sd_fs0.
    split; [done|]. exists tc. rewrite sd_tasks0. by rewrite lookup_insert_ne.
  - rewrite sd_tasks0. by rewrite lookup_insert_ne.
  - rewrite sd_rq0. by apply not_elem_of_cons.
  - unfold sleepers. rewrite sd_sq0. done.
  - by rewrite sd_free0.
  - by rewrite sd_deferred0.
Qed.

Lemma scheduled_unjoined w w' p tp v c :
  scheduled w w' p tp v → w_tasks w !! p = Some tp → unjoined w c → unjoined w' c.
Proof.
  intros [] Hp Hu q tq. rewrite sd_tasks0. destruct (decide (q = p)) as [->|Hne].
  - rewrite lookup_insert_eq. intros [= <-]. apply (Hu p tp Hp).
  - rewrite lookup_insert_ne by done. apply Hu.
Qed.

(** ** [exit] *)

(** The joiner of a running task waits for it and is in no queue. *)
Lemma joiner_pending w c t :
  inv_at b w c → w_tasks w !! c = Some t → t_run_state t ≠ STOPPED → t_joiner t ≠ 0 →
  pending w c (t_joiner t) ∧ t_joiner t ≠ c ∧ (t_joiner t ∉ w_runqueue w) ∧
  (t_joiner t ∉ sleepers w).
Proof.
  intros Hi Ht Hns Hj. pose proof (i_core _ _ _ Hi) as C.
  pose proof (c_pending _ _ _ C c t Ht Hns Hj (not_elem_of_nil _)) as Hp.
  assert (t_joiner t ∈ w_runqueue w ∨ t_joiner t ∈ sleepers w → False) as Hno.
  { intros Hin. destruct Hp as (tj & h & rv & Htj & Hcj & _ & _ & Hh).
    destruct (c_ready _ _ _ C _ Hin (not_elem_of_nil _)) as (t' & fs & Ht' & Hc' & _ & _ & _ & Hjn & _).
    assert (t' = tj) as -> by congruence. assert (fs = plain_frames (t_joiner t) ++ [FJoin h rv]) as ->
      by congruence.
    destruct (Hjn h rv eq_refl) as (q & tq & Hq & _ & Htq & Hs & _). congruence. }
  split_and!; [done| |by auto|by auto].
  intros Heq. destruct Hp as (tj & h & rv & Htj & Hcj & _). rewrite Heq in Htj.
  destruct (i_cur _ _ _ Hi) as (t0 & Ht0 & Hctx & _). congruence.
Qed.

(** Once the task has stopped, its joiner can be resumed. *)
Lemma joiner_ready w c t t' :
  inv_at b w c → w_tasks w !! c = Some t → t_run_state t ≠ STOPPED → t_joiner t ≠ 0 →
  t_run_state t' = STOPPED → t_joiner t' = t_joiner t →
  ready (upd_tasks <[c := t']> w) (t_joiner t).
Proof.
  intros Hi Ht Hns Hj Hs' Hj'.
  destruct (joiner_pending w c t Hi Ht Hns Hj) as ((tj & h & rv & Htj & Hcj & Hf & Hst & Hh) & Hne & _).
  exists tj, (plain_frames (t_joiner t) ++ [FJoin h rv]). split_and!; try done.
  - simpl. by rewrite lookup_insert_ne.
  - constructor.
  - by right.
  - intros h' rv' [= <- <-]. exists c, t'. simpl. rewrite lookup_insert_eq. split_and!; try done.
    eapply (core_live_pos b w []); [apply Hi|eauto].
  - intros a [? | ?]; done.
Qed.

(** The task that waits for the end of [t], if any. *)
Definition woken (t : task) : list Z := if bool_decide (t_joiner t ≠ 0) then [t_joiner t] else [].

(** The state in which the task [c] has left [sched::exit] for good. *)
Record exited w w' c t v : Prop := {
  ex_task : ∃ tc, w_tasks w' !! c = Some tc ∧ t_run_state tc = STOPPED ∧ t_return_value tc = v ∧
    t_entry tc = t_entry t ∧ t_arg tc = t_arg t ∧ t_joiner tc = t_joiner t;
  ex_handles : w_handles w' = w_handles w;
  ex_waiters : w_waiters w' = w_waiters w;
  ex_tasks : alike w w' c;
  ex_next : w_sleepqueue w = [] → ∃ n, curr w' n ∧ n :: w_runqueue w' ≡ₚ woken t ++ w_runqueue w
}.

(** The yield at the end of [exit], once the joiner has been woken. *)
Lemma wp_exit_yield w w2 c t t1 v X U :
  at_yield b w2 c t1 → unjoined w2 c → t_run_state t1 = STOPPED → t_return_value t1 = v →
  t_entry t1 = t_entry t → t_arg t1 = t_arg t → t_joiner t1 = t_joiner t →
  t_no_preempt_flag t1 = true → c ∉ sleepers w → (∀ a, w_waiters w !! a ≠ Some c) →
  w_sleepqueue w2 = w_sleepqueue w → w_waiters w2 = w_waiters w → w_handles w2 = w_handles w →
  w_runqueue w2 ≡ₚ woken t ++ w_runqueue w → alike w w2 c →
  (w_sleepqueue w = [] → woken t ++ w_runqueue w = [] → ∀ w', X deadlock w') → (sleepers w ≠ [] → U null_deref) →
  wp node_yield (unlocks c (λ r w', r = Switched c ∧ settled r w' ∧ exited w w' c t v))
    (unlocks_exn c X) U w2.
Proof.
  intros Hay2 Hu2 Hst Hrv Hen Har Hjo Hf Hsq Hw Esq Ew2 Eh2 Erq Hctx HX HU.
  assert (sleepers w2 = sleepers w) as Es2 by (unfold sleepers; by rewrite Esq).
  eapply wp_yield_unlocks; [exact Hay2|done| | | |by rewrite Es2].
  - intros w' v' _ _ [? | Hin]; [congruence|]. by rewrite Es2 in Hin.
  - intros w' n v' Hleft Hin Eh' Ew' Ho Hpk. split_and!; [done| |].
    + eapply left_settled; [exact Hleft|..].
      * intros Hc. destruct (Hin Hc) as [? | Hin']; [congruence|]. by rewrite Es2 in Hin'.
      * destruct (left_joiner _ _ _ _ _ Hleft) as (t' & Ht' & _ & Hs').
        intros q tq Hq Hs Heq. exfalso. revert q tq Hq Hs Heq.
        eapply unjoined_others; [exact Hu2|exact Ho|exact Ht'|left; by apply Hs'].
      * intros a Ha. rewrite Ew', Ew2 in Ha. by destruct (Hw a).
    + constructor.
      * eexists. split; [apply Hleft|]. unfold suspend. simpl. by rewrite Hst.
      * by rewrite Eh', Eh2.
      * by rewrite Ew', Ew2.
      * by eapply alike_trans, others_alike.
      * intros Hq0. exists n. split; [apply Hleft|].
        destruct (pk_rest _ _ _ _ _ Hpk) as [Hp _]; [by rewrite Esq|].
        rewrite Hp, Erq. unfold own. by rewrite Hst.
  - intros (Hn1 & Hn2 & _) w'. apply HX; [by rewrite <-Esq|]. rewrite Hn2 in Erq.
    by apply Permutation_nil_l in Erq.
Qed.

Lemma wp_call_exit w c t v X U :
  inv_at b w c → w_tasks w !! c = Some t → (c = host_task → X root_exit w) →
  (c ≠ host_task → w_sleepqueue w = [] → woken t ++ w_runqueue w = [] → ∀ w', X deadlock w') → (sleepers w ≠ [] → U null_deref) →
  wp (sched_exit v) (λ r w', r = Switched c ∧ settled r w' ∧ exited w w' c t v) X U w.
Proof.
  intros Hi Ht HXr HX HU. destruct (inv_at_yield b w c Hi) as (t0 & Hay & Hidle & Hctx & Hf & Hst).
  assert (t0 = t) as -> by (pose proof (ay_task _ _ _ _ Hay); congruence).
  assert (t_run_state t ≠ STOPPED) as Hns by (destruct Hst; congruence).
  destruct Hidle as (Hrq & Hsq & Hj & Hw).
  unfold sched_exit. wp_go. eapply wp_current; [apply Hi|]. simpl. wp_go.
  eapply wp_deref; [done|]. wp_go. case_bool_decide as He.
  { unfold log_fatal. wp_step. apply HXr.
    destruct (decide (c = host_task)) as [|Hne]; [done|].
    by destruct (c_entry _ _ _ (i_core _ _ _ Hi) c t Hne Ht Hns). }
  assert (c ≠ host_task) as Hhost.
  { intros ->. destruct (c_host _ _ _ (i_core _ _ _ Hi)) as (th & Hth & _ & _ & ? & _).
    apply He. congruence. }
  specialize (HX Hhost).
  eapply wp_with_preempt_lock; [apply Hi|done|done|].
  wp_go. eapply wp_write; [apply lookup_insert_eq|]. wp_go.
  eapply wp_write; [apply lookup_insert_eq|]. wp_go. eapply wp_deref; [apply lookup_insert_eq|].
  set (t1 := set_run_state STOPPED (set_return_value v (set_no_preempt_flag true t))).
  set (w1 := upd_tasks <[c := t1]> w). rewrite !upd_tasks_twice. fold w1.
  assert (at_yield b w1 c t1) as Hay1.
  { apply (at_yield_touch b w c t); [done| |]; [by constructor|]. intros ?. done. }
  assert (unjoined w1 c) as Hu1.
  { eapply unjoined_others; [exact Hj| |apply Hay1|by left].
    apply others_after, others_refl. }
  assert (alike w w1 c) as Hsame by apply others_alike, others_after, others_refl.
  wp_go. case_bool_decide as Hj0.
  - destruct (joiner_pending w c t Hi Ht Hns Hj0) as ((tj & h & rv & Htj & _) & Hjne & Hjrq & Hjsq).
    assert (w_tasks w1 !! t_joiner t = Some tj) as Htj1 by (simpl; by rewrite lookup_insert_ne).
    eapply (wp_schedule w1 [c] (t_joiner t) tj);
      [apply Hay1|done|by apply not_elem_of_single|by apply joiner_ready|done|done|apply Hay1|].
    intros w2 v2 C2 Hsd. pose proof Hsd as [].
    eapply (wp_exit_yield w w2 c t t1); try done.
    + by eapply scheduled_at_yield.
    + by eapply scheduled_unjoined.
    + unfold woken. by rewrite bool_decide_true.
    + eapply alike_trans; [exact Hsame|]. by eapply alike_scheduled.
  - wp_go. eapply (wp_exit_yield w w1 c t t1); try done. unfold woken.
    simpl in Hj0. rewrite bool_decide_false by (by intros []). done.
Qed.

Lemma inv_at_touch w c t t' :
  inv_at b w c → w_tasks w !! c = Some t → touch c t t' → t_ctx t' = None →
  t_no_preempt_flag t' = false → t_run_state t' = t_run_state t →
  inv_at b (upd_tasks <[c := t']> w) c.
Proof.
  intros Hi Ht Htouch Hctx Hf Hst.
  destruct (inv_at_yield b w c Hi) as (t0 & Hay & Hidle & _ & _ & Hst0).
  assert (t0 = t) as -> by (pose proof (ay_task _ _ _ _ Hay); congruence).
  eapply (at_yield_inv b _ c t'); [| |done|done|by rewrite Hst].
  - apply (at_yield_touch b w c t); [done..|]. rewrite Hst. apply Hay.
  - by eapply idle_touch.
Qed.

Lemma wp_call_return w c t v X U :
  inv_at b w c → w_tasks w !! c = Some t →
  (c = host_task → inv_at b (upd_tasks <[c := set_return_value v t]> w) c →
     X root_exit (upd_tasks <[c := set_return_value v t]> w)) →
  (c ≠ host_task → w_sleepqueue w = [] → woken t ++ w_runqueue w = [] → ∀ w', X deadlock w') →
  (sleepers w ≠ [] → U null_deref) →
  wp (entry_returns v) (λ r w', r = Switched c ∧ settled r w' ∧ exited w w' c t v) X U w.
Proof.
  intros Hi Ht HXr HX HU. pose proof Hi as [C Hc _ (t0 & Ht0 & Hctx & Hf & Hst)].
  assert (t0 = t) as -> by congruence.
  unfold entry_returns, stop. wp_go. eapply wp_current; [apply Hc|]. simpl. wp_go.
  eapply wp_write; [done|]. wp_go. simpl.
  rewrite (proj2 (proj2 (c_started _ _ _ C))). unfold task_end_handler. wp_go.
  eapply wp_deref; [apply lookup_insert_eq|]. simpl.
  assert (inv_at b (upd_tasks <[c := set_return_value v t]> w) c) as Hi'.
  { eapply inv_at_touch; [done..| |done|done|done]. constructor; try done.
    intros Hs. simpl in Hs. destruct Hst; congruence. }
  eapply wp_post; [eapply (wp_call_exit _ c); [done|apply lookup_insert_eq|by auto|done|done]|].
  intros r w' (-> & Hs & [Hxt Hxh Hxw Hxs Hxn]). wp_go. split_and!; [done|done|].
  constructor; try done.
  eapply alike_trans; [|exact Hxs]. apply others_alike, others_after, others_refl.
Qed.

(** ** [join] *)

(** Taking and releasing the preemption lock changes nothing. *)
Lemma lock_unlock w c t :
  w_tasks w !! c = Some t → t_no_preempt_flag t = false →
  upd_tasks <[c := set_no_preempt_flag false (set_no_preempt_flag true t)]>
    (upd_tasks <[c := set_no_preempt_flag true t]> w) = w.
Proof.
  intros Ht Hf. rewrite upd_tasks_twice. apply upd_tasks_id. rewrite Ht. f_equal.
  destruct t. simpl in *. by subst.
Qed.

(** After the joined task was collected the program goes on. *)
Lemma collected_inv w w' c t :
  at_yield b w c t → idle w c → t_ctx t = None → t_no_preempt_flag t = false →
  t_run_state t = RUNNING ∨ t_run_state t = WAITING →
  core b w' [c] → curr w' c → w_tasks w' !! c = w_tasks w !! c →
  w_node w' = w_node w → w_waiters w' = w_waiters w →
  (∀ x tx, w_tasks w' !! x = Some tx → w_tasks w !! x = Some tx) → inv_at b w' c.
Proof.
  intros [] Hidle Hctx Hf Hst C' Hc' Et En Ew Hsub.
  assert (w_tasks w' !! c = Some t) as Ht' by (by rewrite Et).
  destruct (core_not_retired b w' [c] c t C' Ht'); [destruct Hst; congruence|].
  eapply (at_yield_inv b w' c t); [|by eapply idle_sub|done..].
  constructor; try done; unfold w_runqueue, sleepers, w_sleepqueue; by rewrite En.
Qed.

(** A live task gets another joiner or another [detached] mark. *)
Record mark (t t' : task) : Prop := {
  mk_tls : t_tls t' = t_tls t;
  mk_ctx : t_ctx t' = t_ctx t;
  mk_stack : t_stack t' = t_stack t;
  mk_total : t_total_stack_size t' = t_total_stack_size t;
  mk_state : t_run_state t' = t_run_state t;
  mk_entry : t_entry t' = t_entry t;
  mk_vruntime : t_vruntime t' = t_vruntime t;
  mk_flag : t_no_preempt_flag t' = t_no_preempt_flag t
}.

Lemma at_yield_mark w c t p tp tp' :
  at_yield b w c t → w_tasks w !! p = Some tp → t_run_state tp ≠ STOPPED → p ≠ host_task →
  mark tp tp' → t_joiner tp' = t_joiner tp ∨ t_joiner tp' = c →
  (∀ h, w_handles w !! h ≠ Some p) ∨ t_detached tp' = t_detached tp →
  ∃ t', at_yield b (upd_tasks <[p := tp']> w) c t' ∧ mark t t' ∧ (p ≠ c → t' = t) ∧
    (p = c → t' = tp').
Proof.
  intros [] Hp Hns Hhost [] Hj Hd.
  assert (core b (upd_tasks <[p := tp']> w) [c]) as C'.
  { apply (core_write b w [c] p tp); [done| |done]. constructor; try done.
    - intros _ _. rewrite mk_entry0. by apply (c_entry _ _ _ ay_core p tp).
    - by right.
    - intros _ Hj0. destruct Hj as [?| ->]; [by right|]. left. by left.
    - intros h Hh. destruct Hd as [Hno| ->]; [by destruct (Hno h)|].
      destruct (c_handle _ _ _ ay_core h p Hh) as (_ & _ & _ & _ & t0 & Ht0 & ?).
      + eapply (core_live_pos b w); eauto.
      + congruence.
    - by right. }
  destruct (decide (p = c)) as [->|Hne].
  - assert (tp = t) as -> by congruence. exists tp'.
    split_and!; [|by constructor|done|done].
    constructor; try done; [by eapply curr_touch|apply lookup_insert_eq|by rewrite mk_state0].
  - exists t. split_and!; [|by constructor|done|done].
    constructor; try done; [by eapply curr_touch|]. simpl. by rewrite lookup_insert_ne.
Qed.

(** A pointer to a handle of the program, or [nullptr]. *)
Definition handle_ok w (h : Z) : Prop := h = 0 ∨ is_Some (w_handles w !! h).

Lemma wp_handle w c h (Q : Z → world → Prop) X U :
  inv_at b w c → handle_ok w h → (h = 0 ∨ w_handles w !! h = Some 0 → Q 0 w) →
  (∀ q tq, w_handles w !! h = Some q → q ≠ 0 → h ≠ 0 → w_tasks w !! q = Some tq →
     q ≠ host_task → Q q w) →
  wp (handle_task h) Q X U w.
Proof.
  intros Hi Hok H0 HQ. unfold handle_task. wp_go.
  destruct Hok as [-> | [q Hq]].
  { assert (Q 0 w) by auto. by destruct (w_handles w !! 0). }
  rewrite Hq. case_bool_decide; [wp_go; auto|]. wp_go.
  destruct (decide (q = 0)) as [->|Hne]; [auto|].
  destruct (c_handle _ _ _ (i_core _ _ _ Hi) h q Hq Hne) as (? & ? & _ & _ & tq & Htq & _).
  by eapply HQ.
Qed.

(** The running task [t] is about to wait for [p]: its state [t1] when it calls
    the scheduler. *)
Record awaiting (c p : Z) (t t1 : task) : Prop := {
  aw_state : t_run_state t1 = WAITING;
  aw_entry : t_entry t1 = t_entry t;
  aw_arg : t_arg t1 = t_arg t;
  aw_joiner : t_joiner t1 = if bool_decide (p = c) then c else t_joiner t
}.

(** What [join] leads to: the finished task [p] was collected, or [c] waits for
    its end. *)
Definition joins w (c : Z) (t : task) (h rv p : Z) (tp : task) (r : flow) w' : Prop :=
  match r with
  | Returned => t_run_state tp = STOPPED ∧ inv_at b w' c ∧
      dropped b w w' c h p (stored rv (t_return_value tp) (w_words w))
  | Switched _ => t_run_state tp ≠ STOPPED ∧ w_words w' = w_words w ∧
      ∃ t1 n, awaiting c p t t1 ∧
        leaves (upd_tasks <[p := set_joiner c tp]> w) c t1 (plain_frames c ++ [FJoin h rv])
          (w_runqueue w) w' n
  end.

(** Nobody but the joined task [p] has [c] as its joiner. *)
Lemma only_joined w w' c t t3 p tp q tq :
  (∀ q tq, w_tasks w !! q = Some tq → t_run_state tq ≠ STOPPED → t_joiner tq ≠ c) →
  others (upd_tasks <[c := t3]> (upd_tasks <[p := set_joiner c tp]> w)) w' c →
  w_tasks w !! c = Some t → t_run_state t ≠ STOPPED →
  (q = c ∧ (p ≠ c → t_joiner tq = t_joiner t)) ∨ (q ≠ c ∧ w_tasks w' !! q = Some tq) →
  t_run_state tq ≠ STOPPED → t_joiner tq = c → q = p.
Proof.
  intros Hj Ho Ht Hst [[-> Hsame]|[Hqc Hq]] Hs Heq.
  - destruct (decide (p = c)) as [|Hpc]; [done|]. exfalso. apply (Hj c t); [done..|].
    by rewrite <-Hsame.
  - apply Ho in Hq; [|done]. simpl in Hq. rewrite lookup_insert_ne in Hq by done.
    destruct (decide (q = p)) as [|Hqp]; [done|]. rewrite lookup_insert_ne in Hq by done.
    by destruct (Hj q tq Hq Hs).
Qed.

(** The waiting half of [join]. *)
Lemma wp_join_wait w c t h rv p tp X U :
  at_yield b w c t → idle w c → t_ctx t = None → t_no_preempt_flag t = true →
  t_run_state t = RUNNING ∨ t_run_state t = WAITING →
  w_handles w !! h = Some p → w_tasks w !! p = Some tp → p ≠ host_task →
  t_run_state tp ≠ STOPPED →
  (nothing_else w → ∀ w', X deadlock w') → (sleepers w ≠ [] → U null_deref) →
  wp (write p (set_joiner c);;
      write c (set_run_state WAITING);;
      preempt_unlock;;
      and_then sched_yield (join_finish h rv) (FJoin h rv))
    (λ r w', settled r w' ∧ joins w c t h rv p tp r w') X U w.
Proof.
  intros Hay Hidle Hctx Hf Hst Hh Hp Hhost Hps HX HU.
  destruct Hidle as (Hrq & Hsq & Hj & Hw).
  wp_go. eapply wp_write; [exact Hp|]. wp_go.
  destruct (at_yield_mark w c t p tp (set_joiner c tp)) as (t1 & Hay1 & [] & Hj1 & Hj2);
    [done..|by constructor|by right|by right|]. rename mk_flag0 into Hf1, mk_state0 into Hst1.
  set (w1 := upd_tasks <[p := set_joiner c tp]> w) in *.
  eapply wp_write; [apply Hay1|]. wp_go. set (t2 := set_run_state WAITING t1).
  assert (at_yield b (upd_tasks <[c := t2]> w1) c t2) as Hay2.
  { apply (at_yield_touch b w1 c t1); [done| |done]. constructor; try done.
    simpl. intros Hs. rewrite Hst1 in Hs. destruct Hst; congruence. }
  eapply wp_preempt_unlock; [apply Hay2..|by simpl; rewrite Hf1|].
  rewrite upd_tasks_twice. set (t3 := set_no_preempt_flag false t2).
  assert (at_yield b (upd_tasks <[c := t3]> w1) c t3) as Hay3.
  { apply (at_yield_touch b w1 c t1); [done| |done]. constructor; try done.
    simpl. intros Hs. rewrite Hst1 in Hs. destruct Hst; congruence. }
  set (w3 := upd_tasks <[c := t3]> w1) in *.
  eapply wp_and_then, wp_sched_yield; [apply Hay3|].
  assert (w_context w3 = true) as Hcx by apply (c_started _ _ _ (ay_core _ _ _ _ Hay3)).
  eapply (wp_keeps (words_are (w_words w))); [apply words_locked_yield|by split|].
  eapply wp_locked_yield; [exact Hay3|done..| | |by intros Hn%no_runnable_nothing ? _; apply HX|done].
  { intros w' v _ _ [? | Hin]; [done|]. by destruct Hsq. }
  intros w' n v Hleft Hin Eh Ew Ho Hpk [_ Ewd].
  eexists _, _. split; [apply Hleft|split; [done|]].
  assert (leaves w3 c (set_no_preempt_flag true t3) (plain_frames c) (w_runqueue w) w' n) as Hlv.
  { constructor; [by exists v|done| |done|done]. intros Hq. by destruct (pk_rest _ _ _ _ _ Hpk Hq). }
  split; [|split_and!; [done..|]].
  2:{ exists (set_no_preempt_flag true t3), n. split.
      - destruct (decide (p = c)) as [Hpc|Hpc].
        + assert (tp = t) as -> by (destruct Hay; congruence).
          constructor; simpl; rewrite ?bool_decide_true by done; by rewrite ?(Hj2 Hpc).
        + constructor; simpl; rewrite ?bool_decide_false by done; by rewrite ?(Hj1 Hpc).
      - eapply (leaves_before w1 w3); [by apply leaves_append| |done..].
        apply others_after, others_refl. }
  apply left_append with (f := FJoin h rv) in Hleft.
  eapply left_settled; [exact Hleft|..].
  - intros Hc. destruct (Hin Hc) as [? | Hin']; [done|]. by destruct Hsq.
  - (* the only task [c] waits for is [p] *)
    intros q tq Hq Hs Heq. destruct (left_joiner _ _ _ _ _ Hleft) as (t' & Ht' & Hj' & _).
    assert (q = p) as ->.
    { eapply (only_joined w w' c t (set_no_preempt_flag false t2) p tp q tq); try done; [apply Hay|..].
      - destruct Hst; congruence.
      - destruct (decide (q = c)) as [->|Hqc].
        + left. assert (tq = t') as -> by congruence. split; [done|]. intros Hpc. rewrite Hj'. simpl.
          by rewrite (Hj1 Hpc).
        + right. simpl in Hq. by rewrite lookup_insert_ne in Hq. }
    eexists _, h, rv. split_and!; [apply Hleft|done..|].
    simpl. by rewrite Eh.
  - intros a Ha. simpl in Ha. rewrite Ew in Ha. by destruct (Hw a).
Qed.

(** Whether the preemption lock is held makes no difference. *)
Lemma joins_locked w c t h rv p tp tp0 r w' (w1 := upd_tasks <[c := set_no_preempt_flag true t]> w) :
  joins w1 c (set_no_preempt_flag true t) h rv p tp r w' → t_run_state tp ≠ STOPPED →
  w_tasks w !! c = Some t → w_tasks w1 !! p = Some tp → w_tasks w !! p = Some tp0 →
  joins w c t h rv p tp0 r w'.
Proof.
  intros Hjs Hr Ht Htp Htp0. destruct r as [|x]; [by destruct Hjs|]. destruct Hjs as (Hns & Ewd & t1 & n & [] & Hlv).
  unfold w1 in *. simpl in Htp. destruct (decide (p = c)) as [->|Hpc].
  - rewrite lookup_insert_eq in Htp. simplify_eq. split_and!; [done..|]. exists t1, n.
    split; [by constructor|]. eapply leaves_before; [exact Hlv| |done..].
    apply others_eq. intros q Hq. simpl. by rewrite !lookup_insert_ne.
  - rewrite lookup_insert_ne in Htp by done. simplify_eq. split_and!; [done..|]. exists t1, n.
    split; [by constructor|]. eapply leaves_before; [exact Hlv| |done..].
    apply others_eq. intros q Hq. simpl. destruct (decide (q = p)) as [->|Hqp].
    + by rewrite !lookup_insert_eq.
    + by rewrite !lookup_insert_ne.
Qed.

Lemma wp_call_join w c t h rv X U :
  inv_at b w c → w_tasks w !! c = Some t → handle_ok w h →
  (h = 0 ∨ w_handles w !! h = Some 0 → X bad_handle w) →
  (∀ q tq, w_handles w !! h = Some q → w_tasks w !! q = Some tq → t_joiner tq ≠ 0 →
     X joined_twice w) →
  (∀ q tq, w_handles w !! h = Some q → w_tasks w !! q = Some tq → t_joiner tq = 0 →
     t_run_state tq ≠ STOPPED → nothing_else w → ∀ w', X deadlock w') →
  (∀ q tq, w_handles w !! h = Some q → w_tasks w !! q = Some tq → t_run_state tq ≠ STOPPED →
     sleepers w ≠ [] → U null_deref) →
  wp (join h rv) (λ r w', settled r w' ∧ ∃ p tp, w_handles w !! h = Some p ∧ p ≠ 0 ∧
    w_tasks w !! p = Some tp ∧ t_joiner tp = 0 ∧ joins w c t h rv p tp r w') X U w.
Proof.
  intros Hi Ht Hok HXb HXj HX HU.
  destruct (inv_at_yield b w c Hi) as (t0 & Hay & Hidle & Hctx & Hf & Hst).
  assert (t0 = t) as -> by (pose proof (ay_task _ _ _ _ Hay); congruence).
  unfold join. wp_go. eapply wp_handle; [done..| |].
  { intros Hnone. rewrite bool_decide_true by done. wp_step. auto. }
  intros p tp0 Hh Hp0 Hh0 Hp Hhost. rewrite bool_decide_false by done. wp_go.
  eapply wp_current; [apply Hi|]. simpl. wp_go. eapply wp_preempt_lock; [apply Hi|done..|].
  set (t1 := set_no_preempt_flag true t). set (w1 := upd_tasks <[c := t1]> w).
  assert (touch c t t1) as Htouch by (constructor; try done; simpl; destruct Hst; congruence).
  assert (at_yield b w1 c t1) as Hay1 by (apply (at_yield_touch b w c t); [done..|apply Hay]).
  assert (idle w1 c) as Hidle1 by (by eapply idle_touch).
  assert (∃ tp, w_tasks w1 !! p = Some tp ∧ t_run_state tp = t_run_state tp0 ∧
            t_joiner tp = t_joiner tp0) as (tp & Htp & Etp & Ejp).
  { unfold w1; simpl. destruct (decide (p = c)) as [->|Hne].
    - rewrite lookup_insert_eq. exists t1. assert (tp0 = t) as -> by congruence. done.
    - rewrite lookup_insert_ne by done. eauto. }
  wp_go. apply wp_on_throw. wp_go. eapply wp_deref; [exact Htp|].
  case_bool_decide as Hjoiner.
  { wp_step. eapply wp_preempt_unlock; [apply Hay1..|done|]. unfold w1, t1.
    rewrite lock_unlock by done. eapply HXj; [done..|]. by rewrite <-Ejp. }
  wp_go. case_bool_decide as Hstop.
  - eapply wp_post; [eapply (wp_join_wait w1 c t1 h rv p tp); try done|].
    { by eapply HX; [done|done|rewrite <-Ejp|rewrite <-Etp]. }
    { by eapply HU; [..|rewrite <-Etp]. }
    intros r w' [Hse Hjs]. split; [done|]. exists p, tp0. rewrite <-Ejp. split_and!; try done.
    eapply joins_locked; [exact Hjs|done..].
  - wp_go. eapply wp_preempt_unlock; [apply Hay1..|done|]. unfold w1, t1.
    rewrite lock_unlock by done.
    assert (t_run_state tp0 = STOPPED) as Hps by congruence.
    wp_go. eapply (wp_join_finish b w c h rv p tp0); [apply Hay|apply Hay|done..| |done|done| |].
    + intros ->. assert (tp0 = t) as -> by congruence. destruct Hst; congruence.
    + left. by rewrite <-Ejp.
    + intros w' Hd. wp_go. pose proof Hd as []. assert (p ≠ c) as Hpc.
      { intros ->. assert (tp0 = t) as -> by congruence. destruct Hst; congruence. }
      assert (inv_at b w' c) as Hi'.
      { eapply (collected_inv w w' c t); try done; [by apply dr_tasks|].
        intros x tx. by eapply dropped_sub. }
      split; [by exists c|]. exists p, tp0. split_and!; try done. by rewrite <-Ejp.
Qed.

End exec.
