(* ===== verification/InvCalls.v ===== *)
(** * Every call of a program keeps the invariant, continued

    [detach], the operations of [waiter] and [spawn]. *)

From S2P Require Import Prelude Platform World Task TimeOrderedQueue Rq Freelist SchedNode Sched.
From S2P Require Import SchedSpec Inv InvSteps InvOps InvNode InvSched InvExec.

Section calls.
Context {E : Env} {EOk : EnvOk E} (b : bool).
Implicit Types (w : world) (hot : list Z) (X : exn → world → Prop) (U : fault → Prop).

(** ** [detach] *)

(** The world a [detach] of a task that still runs leaves: the handle cleared, the task marked
    detached, the node lock held; the invariant holds once the lock is released. *)
Lemma detached_inv w c t h p tp (t1 := set_no_preempt_flag true t)
    (w1 := upd_tasks <[c := t1]> (upd_handles <[h := 0]> w)) :
  inv_at b w c → at_yield b w c t → idle w c → t_ctx t = None →
  (t_run_state t = RUNNING ∨ t_run_state t = WAITING) →
  w_handles w !! h = Some p → p ≠ 0 → p ≠ host_task → w_tasks w !! p = Some tp →
  t_run_state tp ≠ STOPPED → t_joiner tp = 0 →
  ∃ tp1, w_tasks w1 !! p = Some tp1 ∧ t_run_state tp1 = t_run_state tp ∧
    let w2 := upd_tasks <[p := set_detached true tp1]> w1 in
    ∃ t2, at_yield b w2 c t2 ∧ t_no_preempt_flag t2 = true ∧ t_run_state t2 = t_run_state t ∧
      inv_at b (upd_tasks <[c := set_no_preempt_flag false t2]> w2) c.
Proof.
  intros Hi Hay Hidle Hctx Hst Hh Hp0 Hhost Hp Hps Hnoj.
  pose proof (ay_task _ _ _ _ Hay) as Ht. pose proof (i_core _ _ _ Hi) as C.
  set (w0 := upd_handles <[h := 0]> w).
  assert (core b w0 [c]) as C0 by (eapply (core_handle_clear b); [apply Hay|done..|by left]).
  assert (touch c t t1) as Htouch by (constructor; try done; simpl; destruct Hst; congruence).
  assert (at_yield b w0 c t) as Hay0 by (destruct Hay; by constructor).
  assert (at_yield b w1 c t1) as Hay1 by (apply (at_yield_touch b w0 c t); [done..|apply Hay]).
  assert (idle w1 c) as Hidle1 by (by eapply (idle_touch w0)).
  assert (∃ tp1, w_tasks w1 !! p = Some tp1 ∧ t_run_state tp1 = t_run_state tp) as (tp1 & Hp1 & Es1).
  { unfold w1; simpl. destruct (decide (p = c)) as [->|Hne].
    - rewrite lookup_insert_eq. assert (tp = t) as -> by congruence. eauto.
    - rewrite lookup_insert_ne by done. eauto. }
  exists tp1. split_and!; [done..|].
  destruct (at_yield_mark b w1 c t1 p tp1 (set_detached true tp1)) as (t2 & Hay2 & [] & _ & _);
    try done; [by rewrite Es1|by left|..].
  { left. intros h'. simpl. destruct (decide (h' = h)) as [->|Hne].
    - rewrite lookup_insert_eq. congruence.
    - rewrite lookup_insert_ne by done. intros Hh'. destruct Hne.
      by apply (c_handle_inj _ _ _ C h' h p). }
  exists t2. split_and!; [done|by rewrite mk_flag|by rewrite mk_state|].
  assert (touch c t2 (set_no_preempt_flag false t2)) as Htouch2.
  { constructor; try done. simpl. rewrite mk_state. simpl. destruct Hst; congruence. }
  eapply (at_yield_inv b _ c (set_no_preempt_flag false t2)).
  - apply (at_yield_touch b _ c t2); [done..|apply Hay2].
  - eapply idle_touch; [by eapply idle_insert|apply Hay2|done].
  - simpl. by rewrite mk_ctx.
  - done.
  - simpl. by rewrite mk_state.
Qed.

(** The running task is in the same state as before the call. *)
Definition stays w w' (c : Z) : Prop :=
  t_run_state <$> w_tasks w' !! c = t_run_state <$> w_tasks w !! c.

(** The task [tp] of the handle [h] is dropped if it has stopped; if not, the
    handle is emptied. *)
Definition detaches w (c h p : Z) (tp : task) w' : Prop :=
  if bool_decide (t_run_state tp = STOPPED) then dropped b w w' c h p (w_words w)
  else alike w w' 0 ∧ w_handles w' = <[h := 0]> (w_handles w) ∧
    w_waiters w' = w_waiters w ∧ w_node w' = w_node w ∧ stays w w' c.

Lemma wp_call_detach w c h X U :
  inv_at b w c → handle_ok w h →
  (∀ q tq, w_handles w !! h = Some q → w_tasks w !! q = Some tq → t_joiner tq = 0) →
  (h = 0 ∨ w_handles w !! h = Some 0 → X bad_handle w) →
  wp (detach h) (λ r w', r = Returned ∧ inv_at b w' c ∧ ∃ p tp, w_handles w !! h = Some p ∧ p ≠ 0 ∧
    w_tasks w !! p = Some tp ∧ detaches w c h p tp w') X U w.
Proof.
  intros Hi Hok Hnoj HXb.
  destruct (inv_at_yield b w c Hi) as (t & Hay & Hidle & Hctx & Hf & Hst).
  pose proof (ay_task _ _ _ _ Hay) as Ht. pose proof (i_core _ _ _ Hi) as C.
  unfold detach. wp_go. eapply (wp_handle b); [done..| |].
  { intros Hnone. rewrite bool_decide_true by done. wp_step. auto. }
  intros p tp Hh Hp0 Hh0 Hp Hhost. rewrite bool_decide_false by done. wp_go.
  eapply wp_preempt_lock; [apply Hi|done..|]. wp_go.
  destruct (decide (t_run_state tp = STOPPED)) as [Hps|Hps].
  - assert (p ≠ c) as Hpc.
    { intros ->. assert (tp = t) as -> by congruence. destruct Hst; congruence. }
    eapply wp_deref; [simpl; by rewrite lookup_insert_ne|]. wp_go.
    rewrite bool_decide_false by (by intros []). wp_go.
    eapply wp_preempt_unlock; [by eapply curr_touch; [apply Hi|..]|apply lookup_insert_eq|done|].
    rewrite lock_unlock by done. wp_go. apply wp_assert; [by rewrite bool_decide_true|]. wp_go.
    eapply (wp_sched_context_get b); [exact C|].
    match goal with |- wp _ ?Q _ _ _ =>
      assert (wp (return_task p;; modify (upd_handles <[h := 0]>))
                (λ _, wp (mret Returned) Q X U) X U w) as Hd end.
    { eapply (wp_drop_task b w c h p tp); [apply Hay|apply Hay|done..|left; by eapply Hnoj|].
      intros w' Hd. wp_go. pose proof Hd as []. split_and!; [done| |].
      - eapply (collected_inv b w w' c t); try done; [by apply dr_tasks|].
        intros x tx. by eapply dropped_sub.
      - exists p, tp. split_and!; try done. unfold detaches. by rewrite bool_decide_true. }
    revert Hd. unfold wp, mbind, M_bind. by destruct (return_task p w).
  - destruct (detached_inv w c t h p tp) as (tp1 & Hp1 & Es1 & t2 & Hay2 & Hfl2 & Hs2 & Hi2); try done;
      [by eapply Hnoj|].
    eapply wp_deref; [exact Hp1|]. wp_go. rewrite bool_decide_true by (by rewrite Es1).
    wp_go. eapply wp_write; [exact Hp1|]. wp_go.
    eapply wp_preempt_unlock; [apply Hay2..|done|]. wp_go. split_and!; [done..|].
    exists p, tp. split_and!; try done. unfold detaches. rewrite bool_decide_false by done.
    split_and!; try done.
    + eapply alike_trans; [|eapply (alike_insert _ _ c t2); [reflexivity|apply Hay2|done]].
      eapply alike_trans; [|eapply (alike_insert _ _ p tp1); [reflexivity|exact Hp1|done]].
      by eapply (alike_insert w _ c t).
    + unfold stays. simpl. rewrite lookup_insert_eq, Ht. simpl. by rewrite Hs2.
Qed.

(** ** [waiter] *)

Lemma wp_waiter_load w a v (Q : Z → world → Prop) X U :
  w_waiters w !! a = Some v → Q v w → wp (waiter_load a) Q X U w.
Proof. intros Ha HQ. unfold waiter_load. wp_go. by eapply wp_need. Qed.

Lemma wp_waiter_store w a v v' (Q : () → world → Prop) X U :
  w_waiters w !! a = Some v → Q () (upd_waiters <[a := v']> w) → wp (waiter_store a v') Q X U w.
Proof. intros Ha HQ. unfold waiter_store. wp_go. eapply wp_waiter_load; [done|]. done. Qed.

(** What [park_if] leads to: somebody else is parked, the thunk refuses, or [c]
    is parked. *)
Definition parks w (c : Z) (t : task) (a v : Z) (check : bool) (r : flow) w' : Prop :=
  match r with
  | Returned => w' = w ∧ (v ≠ 0 ∨ check = false)
  | Switched _ => v = 0 ∧ check = true ∧ ∃ n,
      leaves b (upd_waiters <[a := c]> w) c (set_no_preempt_flag true (set_run_state WAITING t))
        (plain_frames c ++ [FPark a]) (w_runqueue w) w' n
  end.

Lemma wp_call_park_if w c t a v check X U :
  inv_at b w c → w_tasks w !! c = Some t → w_waiters w !! a = Some v →
  (v = 0 → check = true → nothing_else w → ∀ w', X deadlock w') →
  (sleepers w ≠ [] → U null_deref) →
  wp (park_if a check) (λ r w', settled b r w' ∧ parks w c t a v check r w') X U w.
Proof.
  intros Hi Ht Ha HX HU. destruct (inv_at_yield b w c Hi) as (t0 & Hay & Hidle & Hctx & Hf & Hst).
  assert (t0 = t) as -> by (pose proof (ay_task _ _ _ _ Hay); congruence).
  destruct Hidle as (Hrq & Hsq & Hj & Hw).
  unfold park_if. wp_go. eapply wp_current; [apply Hi|]. simpl. wp_go.
  eapply wp_waiter_load; [done|]. case_bool_decide as Hv.
  { wp_go. split; [by exists c|split; auto]. }
  wp_go.
  assert (v = 0) as -> by lia. eapply wp_waiter_store; [done|].
  destruct check; simpl; wp_go.
  2:{ eapply (wp_waiter_store _ a c); [apply lookup_insert_eq|]. wp_go.
      assert (upd_waiters <[a := 0]> (upd_waiters <[a := c]> w) = w) as ->;
        [|split; [by exists c|split; auto]].
      destruct w. unfold upd_waiters. simpl in *. by rewrite insert_insert_eq, insert_id. }
  eapply wp_write; [exact Ht|]. wp_go.
  set (w1 := upd_waiters <[a := c]> w). set (t2 := set_run_state WAITING t).
  assert (at_yield b w1 c t) as Hay1.
  { destruct Hay. constructor; try done. apply core_set_waiter; [done|]. right. by left. }
  assert (touch c t t2) as Htouch by (constructor; try done; simpl; destruct Hst; congruence).
  assert (at_yield b (upd_tasks <[c := t2]> w1) c t2) as Hay2.
  { by apply (at_yield_touch b w1 c t). }
  eapply wp_and_then, wp_sched_yield; [apply Hay2|].
  eapply wp_locked_yield; [exact Hay2|done..| | |by intros Hn%no_runnable_nothing; apply HX|done].
  { intros w' v _ _ [? | Hin]; [done|]. by destruct Hsq. }
  intros w' n v Hleft Hin Eh Ew Ho Hpk. eexists _, _. split; [apply Hleft|split; [done|]].
  assert (leaves b w1 c (set_no_preempt_flag true t2) (plain_frames c) (w_runqueue w) w' n) as Hlv.
  { constructor; [by exists v|by eapply others_before| |done|done].
    intros Hq. by destruct (pk_rest _ _ _ _ _ Hpk Hq). }
  split; [|split_and!; [done..|]].
  2:{ exists n. by apply leaves_append. }
  apply left_append with (f := FPark a) in Hleft.
  eapply left_settled; [exact Hleft|..].
  - intros Hc. destruct (Hin Hc) as [? | Hin']; [done|]. by destruct Hsq.
  - destruct (left_joiner _ _ _ _ _ _ Hleft) as (t' & Ht' & Hj' & _).
    intros q tq Hq Hs Heq. exfalso. revert q tq Hq Hs Heq.
    eapply (unjoined_others w); [exact Hj| |exact Ht'|].
    + apply others_after. eapply others_before in Ho. exact Ho.
    + right. rewrite Hj'. apply (Hj c t); [done|]. destruct Hst; congruence.
  - intros a' Ha'. simpl in Ha'. rewrite Ew in Ha'. simpl in Ha'.
    destruct (decide (a' = a)) as [->|Hne].
    + eexists _, _. split_and!; [apply Hleft|done|by left|done..].
    + rewrite lookup_insert_ne in Ha' by done. by destruct (Hw a').
Qed.

(** What is known of the task found in a waiter. *)
Lemma parked_facts w c a j :
  inv_at b w c → w_waiters w !! a = Some j → j ≠ 0 →
  parked w a j ∧ j ≠ c ∧ (j ∉ w_runqueue w) ∧ (j ∉ sleepers w).
Proof.
  intros Hi Ha Hj. pose proof (i_core _ _ _ Hi) as C.
  pose proof (c_parked _ _ _ C a j Ha Hj (not_elem_of_nil _)) as Hp.
  assert (j ∈ w_runqueue w ∨ j ∈ sleepers w → False) as Hno.
  { intros Hin. destruct Hp as (tj & fs & Htj & Hcj & Hfs & _).
    destruct (c_ready _ _ _ C j Hin (not_elem_of_nil _)) as (t' & fs' & Ht' & Hc' & _ & _ & _ & _ & Hpk).
    assert (t' = tj) as -> by congruence. assert (fs' = fs) as -> by congruence.
    by apply (Hpk a). }
  split_and!; [done| |by auto|by auto]. intros ->.
  destruct Hp as (tj & fs & Htj & Hcj & _). destruct (i_cur _ _ _ Hi) as (t0 & Ht0 & Hctx & _).
  congruence.
Qed.

(** A parked task that is no longer in its waiter can be resumed. *)
Lemma parked_ready w a j tj fs rs :
  w_tasks w !! j = Some tj → t_ctx tj = Some fs →
  fs = plain_frames j ++ [FPark a] ∨ fs = swap_frames j a → t_no_preempt_flag tj = true →
  t_run_state tj = rs → rs = SUSPENDED ∨ rs = WAITING → w_waiters w !! a ≠ Some j → ready w j.
Proof.
  intros Ht Hctx Hfs Hf Hrs Hst Hw. exists tj, fs. subst rs. split_and!; try done.
  - destruct Hfs as [-> | ->]; constructor.
  - destruct Hfs as [-> | ->]; done.
  - intros h rv ->. by destruct Hfs.
  - intros a' Ha'. assert (a' = a) as ->; [|done].
    destruct Hfs as [-> | ->], Ha' as [Ha' | Ha']; try done; by injection Ha'.
Qed.

Lemma wp_takeable w j tj (Q : bool → world → Prop) X U :
  w_tasks w !! j = Some tj → j ≠ 0 → t_run_state tj = WAITING → Q true w →
  wp (takeable j) Q X U w.
Proof.
  intros Ht Hj Hs HQ. unfold takeable. rewrite bool_decide_false by done. wp_go.
  eapply wp_deref; [done|]. wp_go. by rewrite bool_decide_true.
Qed.

(** The end of a call under the preemption lock that did not switch away. *)
Lemma unlocks_inv w c t (Q : flow → world → Prop) :
  at_yield b w c t → idle w c → t_ctx t = None → t_no_preempt_flag t = true →
  t_run_state t = RUNNING ∨ t_run_state t = WAITING →
  (inv_at b (upd_tasks <[c := set_no_preempt_flag false t]> w) c →
     Q Returned (upd_tasks <[c := set_no_preempt_flag false t]> w)) →
  unlocks c Q Returned w.
Proof.
  intros Hay Hidle Hctx Hf Hst HQ. split; [apply Hay|]. exists t.
  split_and!; [apply Hay|done|].
  assert (touch c t (set_no_preempt_flag false t)) as Htouch.
  { constructor; try done. simpl. destruct Hst; congruence. }
  apply HQ. eapply (at_yield_inv b _ c (set_no_preempt_flag false t)); [| |done..].
  - apply (at_yield_touch b w c t); [done..|apply Hay].
  - eapply idle_touch; [done|apply Hay|done].
Qed.

Lemma scheduled_idle w w' p tp v c :
  scheduled w w' p tp v → w_tasks w !! p = Some tp → idle w c → p ≠ c → idle w' c.
Proof.
  intros Hsd Hp (? & ? & Hj & ?) Hne. pose proof Hsd as []. split_and!.
  - rewrite sd_rq. by apply not_elem_of_cons.
  - unfold sleepers. by rewrite sd_sq.
  - by eapply scheduled_unjoined.
  - by rewrite sd_waiters.
Qed.

(** The task [p] was put on the run queue by the running task [c]. *)
Record queued w w' (c p : Z) : Prop := {
  qd_alike : alike w w' p;
  qd_stays : stays w w' c;
  qd_rq : w_runqueue w' ≡ₚ p :: w_runqueue w;
  qd_handles : w_handles w' = w_handles w;
  qd_waiters : w_waiters w' = w_waiters w;
  qd_free : w_freelist w' = w_freelist w;
  qd_deferred : nd_deferred (w_node w') = nd_deferred (w_node w)
}.

(** Lock, schedule a task that can be resumed, unlock. *)
Lemma wp_locked_schedule w c t p tp (pre : P ()) (Q : flow → world → Prop) X U :
  inv_at b w c → w_tasks w !! c = Some t →
  (∀ w1 (Q' : () → world → Prop) X', at_yield b w1 c (set_no_preempt_flag true t) → idle w1 c →
     w1 = upd_tasks <[c := set_no_preempt_flag true t]> w →
     (∀ w2, core b w2 [c] → at_yield b w2 c (set_no_preempt_flag true t) → idle w2 c →
        ready w2 p → p ∉ w_runqueue w2 → p ∉ sleepers w2 →
        w2 = upd_tasks <[p := tp]> w1 → Q' () w2) →
     wp pre Q' X' U w1) → p ≠ c →
  (∀ w' v, inv_at b w' c → w_tasks w' !! p = Some (set_vruntime v tp) → queued w w' c p →
     Q Returned w') →
  wp (with_preempt_lock (pre;; schedule p;; mret Returned)) Q X U w.
Proof.
  intros Hi Ht Hpre Hpc HQ.
  destruct (inv_at_yield b w c Hi) as (t' & Hay & Hidle & Hctx & Hf & Hst).
  assert (t' = t) as -> by (pose proof (ay_task _ _ _ _ Hay); congruence).
  eapply wp_with_preempt_lock; [apply Hi|done|done|].
  assert (touch c t (set_no_preempt_flag true t)) as Htouch.
  { constructor; try done. simpl. destruct Hst; congruence. }
  wp_go. eapply Hpre; [apply (at_yield_touch b w c t); [done..|apply Hay]|by eapply idle_touch|done|].
  intros w2 C2 Hay2 Hidle2 Hr Hrq Hsq ->. wp_go. set (w1 := upd_tasks <[c := _]> w) in *.
  assert (w_tasks (upd_tasks <[p := tp]> w1) !! p = Some tp) as Hp by apply lookup_insert_eq.
  eapply (wp_schedule b _ [c] p tp);
    [done|done|by apply not_elem_of_single|done|done|done|apply Hay2|].
  intros w3 v C3 Hsd. wp_go.
  assert (at_yield b w3 c (set_no_preempt_flag true t)) as Hay3 by (by eapply scheduled_at_yield).
  eapply (unlocks_inv w3 c); [done| |done|done|done|].
  { by eapply scheduled_idle. }
  intros Hi4. pose proof Hsd as []. apply (HQ _ v).
  - done.
  - simpl. rewrite lookup_insert_ne, sd_tasks by done. apply lookup_insert_eq.
  - constructor; try done.
    + eapply alike_trans; [by eapply (alike_insert w w1 c t)|].
      eapply (alike_trans _ w3); [|eapply (alike_insert w3); [done|apply Hay3|done]].
      apply others_alike, others_eq. intros q Hq. rewrite sd_tasks. simpl.
      by rewrite (lookup_insert_ne _ p), (lookup_insert_ne _ p).
    + unfold stays. simpl. by rewrite lookup_insert_eq, Ht.
Qed.

(** A task left out of [alike] that looks as before. *)
Lemma alike_cover w w' p tp tp' :
  alike w w' p → w_tasks w !! p = Some tp → w_tasks w' !! p = Some tp' → view tp' = view tp →
  alike w w' 0.
Proof.
  intros [Hs Hl] Hp Hp' Hv. split; intros q tq _ Hq; destruct (decide (q = p)) as [->|Hne]; eauto.
  - exists tp. split; [done|]. congruence.
  - intros _. exists tp'. split; [done|]. congruence.
Qed.

(** Once its waiter is cleared, nothing refers to a parked task. *)
Lemma unparked_idle w c t a v tj fs :
  at_yield b w c t → v ≠ 0 → v ≠ c → w_tasks w !! v = Some tj → t_ctx tj = Some fs →
  fs = plain_frames v ++ [FPark a] ∨ fs = swap_frames v a →
  v ∉ w_runqueue w → v ∉ sleepers w → w_waiters w !! a = Some 0 → idle w v.
Proof.
  intros Hay Hv Hvc Htj Hcj Hfs Hrq Hsq Ha. split_and!; [done..| |].
  - intros q tq Hq Hs Heq.
    destruct (c_pending _ _ _ (ay_core _ _ _ _ Hay) q tq Hq Hs) as (t' & h & rv & Ht' & Hc' & _);
      rewrite Heq in *; [done|by apply not_elem_of_single|].
    assert (t' = tj) as -> by congruence. rewrite Hcj in Hc'. injection Hc' as ->. by destruct Hfs.
  - intros a' Ha'.
    destruct (c_parked _ _ _ (ay_core _ _ _ _ Hay) a' v Ha' Hv) as (t' & fs' & Ht' & Hc' & Hfs' & _);
      [by apply not_elem_of_single|].
    assert (t' = tj) as -> by congruence. rewrite Hcj in Hc'. injection Hc' as <-.
    assert (a' = a) as ->.
    { destruct Hfs as [-> | ->], Hfs' as [Hfs' | Hfs']; try done; by injection Hfs'. }
    congruence.
Qed.

Lemma wp_call_unpark w c a v X U :
  inv_at b w c → w_waiters w !! a = Some v →
  wp (unpark a) (λ r w', inv_at b w' c ∧ r = bool_decide (v ≠ 0) ∧
    if bool_decide (v ≠ 0) then alike (upd_waiters <[a := 0]> w) w' 0 ∧
      queued (upd_waiters <[a := 0]> w) w' c v else w' = w) X U w.
Proof.
  intros Hi Ha. unfold unpark. wp_go. eapply wp_waiter_load; [done|]. wp_go.
  destruct (decide (v = 0)) as [->|Hv].
  { unfold takeable. rewrite bool_decide_true by done. wp_go. simpl. wp_go. done. }
  destruct (parked_facts w c a v Hi Ha Hv) as ((tj & fs & Htj & Hcj & Hfs & Hfj & Hsj) & Hjc & Hjr & Hjs).
  eapply wp_takeable; [done..|]. simpl. wp_go. eapply wp_waiter_store; [done|].
  set (w0 := upd_waiters <[a := 0]> w).
  assert (core b w0 []) as C0 by (apply core_set_waiter; [apply Hi|by left]).
  assert (inv_at b w0 c) as Hi0 by (destruct Hi; by constructor).
  destruct (i_cur _ _ _ Hi0) as (t & Ht & _). wp_go.
  eapply (wp_locked_schedule w0 c t v (set_run_state SUSPENDED tj)
            (write v (set_run_state SUSPENDED))); [done|done| |done|].
  2:{ intros w' v' Hi' Hv' Hqd. wp_go. rewrite !bool_decide_true by done. split_and!; try done.
      eapply alike_cover; [apply Hqd|done|done|]. simpl. unfold view. simpl. by rewrite Hsj. }
  intros w1 Q' X' Hay1 Hidle1 -> HQ'. set (t1 := set_no_preempt_flag true t) in *.
  set (w1 := upd_tasks <[c := t1]> w0) in *.
  assert (w_tasks w1 !! v = Some tj) as Htj1 by (simpl; by rewrite lookup_insert_ne).
  eapply wp_write; [exact Htj1|]. set (tj' := set_run_state SUSPENDED tj).
  assert (idle w1 v) as Hidlev.
  { apply (unparked_idle w1 c t1 a v tj fs); try done. simpl. apply lookup_insert_eq. }
  assert (touch v tj tj') as Htouch by (constructor; try done; simpl; congruence).
  assert (core b (upd_tasks <[v := tj']> w1) [c]) as C2.
  { apply (core_close_idle b _ v); [|by eapply idle_touch].
    eapply core_touch; [|by left|exact Htj1|done|by left].
    eapply core_weaken; [|apply Hay1]. intros x Hx. by right. }
  apply HQ'; try done.
  - destruct Hay1. constructor; try done; [by eapply curr_touch|].
    simpl. rewrite lookup_insert_ne by done. apply lookup_insert_eq.
  - destruct Hidle1 as (? & ? & Hj & ?). split_and!; [done..| |done]. intros q tq. simpl.
    destruct (decide (q = v)) as [->|Hne].
    + rewrite lookup_insert_eq. intros [= <-] _. simpl.
      apply (Hj v tj Htj1). congruence.
    + rewrite lookup_insert_ne by done. apply Hj.
  - eapply (parked_ready _ a v tj'); [apply lookup_insert_eq|done|done|done|done|by left|].
    simpl. rewrite lookup_insert_eq. congruence.
Qed.

(** [sched_node::switch_to] *)
Lemma wp_node_switch_to w c t n tn (Q : flow → world → Prop) X U :
  at_yield b w c t → w_tasks w !! n = Some tn → n ≠ c → ready w n →
  n ∉ w_runqueue w → n ∉ sleepers w →
  (∀ w' v, left_for b w' c n [FSwitch c] (set_vruntime v t) →
     w_runqueue w' = w_runqueue w →
     sleepers w' = sleepers w → w_handles w' = w_handles w → w_waiters w' = w_waiters w →
     others w w' c → Q (Switched c) w') →
  wp (node_switch_to n) Q X U w.
Proof.
  intros Hay Hn Hnc Hready Hrq Hsq HQ. pose proof Hay as [].
  unfold node_switch_to, read_thread_clock. wp_go.
  apply wp_spin_lock; [done|]. wp_go. eapply wp_current; [apply ay_curr|]. simpl. wp_go.
  eapply wp_deref; [exact ay_task|]. wp_go. eapply wp_write; [exact ay_task|]. wp_go.
  apply wp_spin_unlock. set (v := t_vruntime t + _). set (t1 := set_vruntime v t).
  match goal with |- wp _ _ _ _ ?w' => set (w1 := w') end.
  assert (touch c t t1) as Htouch.
  { apply touch_vruntime. intros ?. by eapply (core_not_host b w). }
  pose proof (core_touch b w [c] c t t1) as C1.
  assert (core b w1 [c]) as C1'.
  { eapply core_ext; [|apply C1; try done; [by left|by left]]. reflexivity. }
  assert (ready w1 n) as Hr1.
  { assert (ready (upd_tasks <[c := t1]> w) n) as Hr; [|exact Hr].
    eapply (ready_touch b w [c]); [done|by left|done|done|by left|by apply not_elem_of_single|done]. }
  assert (curr w1 c) as Hc1.
  { assert (curr (upd_tasks <[c := t1]> w) c) as Hc by (by eapply curr_touch). exact Hc. }
  assert (w_tasks w1 !! c = Some t1) as Ht1 by apply lookup_insert_eq.
  assert (w_tasks w1 !! n = Some tn) as Hn1 by (simpl; by rewrite lookup_insert_ne).
  eapply (wp_switch_to b w1 c n t1 tn); [done..|].
  intros w2 C2 Hc2 (U1 & U2 & U3 & U4) Et2. apply (HQ w2 v).
  - constructor; try done.
    + assert (ready (upd_tasks <[c := set_ctx (Some [FSwitch c]) (suspend t1)]> w1) n) as Hr.
      { eapply (ready_touch b w1 [c]); [done|by left|done| |right; apply suspend_vruntime|auto|done].
        apply touch_suspend. apply Htouch. }
      destruct Hr as (tn' & fs' & Hn' & Hr). exists tn', fs'. unfold joined in *. simpl in *.
      rewrite Et2, U2, U3. done.
    + unfold w_runqueue. rewrite U1. done.
    + unfold sleepers, w_sleepqueue. rewrite U1. done.
    + by rewrite U1.
    + rewrite Et2. apply lookup_insert_eq.
  - unfold w_runqueue. rewrite U1. done.
  - unfold sleepers, w_sleepqueue. rewrite U1. done.
  - by rewrite U2.
  - by rewrite U3.
  - apply others_eq. intros q Hq. rewrite Et2. simpl. by rewrite !lookup_insert_ne.
Qed.

(** What [swap] leads to: nobody is parked, or [c] takes the place of the parked
    task, which runs. *)
Definition swaps w (c : Z) (t : task) (a v : Z) (r : flow) w' : Prop :=
  match r with
  | Returned => v = 0 ∧ w' = w
  | Switched _ => v ≠ 0 ∧
      leaves b (upd_waiters <[a := c]> w) c (set_run_state WAITING (set_no_preempt_flag true t))
        (swap_frames c a) (v :: w_runqueue w) w' v
  end.

Lemma wp_call_swap w c t a v X U :
  inv_at b w c → w_tasks w !! c = Some t → w_waiters w !! a = Some v →
  wp (swap a) (λ r w', settled b r w' ∧ swaps w c t a v r w') X U w.
Proof.
  intros Hi Ht Ha. destruct (inv_at_yield b w c Hi) as (t0 & Hay & Hidle & Hctx & Hf & Hst).
  assert (t0 = t) as -> by (pose proof (ay_task _ _ _ _ Hay); congruence).
  destruct Hidle as (Hrq & Hsq & Hj & Hw).
  unfold swap. wp_go. eapply wp_waiter_load; [done|]. wp_go.
  eapply wp_current; [apply Hi|]. simpl. wp_go.
  destruct (decide (v = 0)) as [->|Hv].
  { unfold takeable. rewrite bool_decide_true by done. wp_go. simpl. wp_go.
    split; [by exists c|done]. }
  destruct (parked_facts w c a v Hi Ha Hv) as ((tj & fs & Htj & Hcj & Hfs & Hfj & Hsj) & Hjc & Hjr & Hjs).
  eapply wp_takeable; [done..|]. simpl. wp_go. eapply wp_waiter_store; [done|].
  set (w0 := upd_waiters <[a := c]> w).
  assert (at_yield b w0 c t) as Hay0.
  { destruct Hay. constructor; try done. apply core_set_waiter; [done|]. right. by left. }
  eapply wp_and_then, wp_with_preempt_lock; [apply Hay0..|done|]. wp_go.
  eapply wp_write; [apply lookup_insert_eq|]. rewrite upd_tasks_twice.
  set (t1 := set_run_state WAITING (set_no_preempt_flag true t)).
  assert (touch c t t1) as Htouch by (constructor; try done; simpl; destruct Hst; congruence).
  set (w1 := upd_tasks <[c := t1]> w0).
  assert (at_yield b w1 c t1) as Hay1 by (by apply (at_yield_touch b w0 c t)).
  assert (w_tasks w1 !! v = Some tj) as Htj1 by (simpl; by rewrite lookup_insert_ne).
  eapply (wp_node_switch_to w1 c t1 v tj); [done..| |done|done|].
  { eapply (parked_ready w1 a v tj); [done|done|done|done|done|by right|].
    simpl. rewrite lookup_insert_eq. congruence. }
  intros w2 v' Hleft Hrq2 Es2 Eh2 Ew2 Ho2. eexists _, _. split; [apply Hleft|split; [done|]].
  assert (leaves b w0 c t1 [FSwitch c] (v :: w_runqueue w) w2 v) as Hlv.
  { constructor; [by exists v'|by eapply others_before| |done|done]. intros _. by rewrite Hrq2. }
  apply leaves_append with (v := v') (f := FUnlockPreempt) in Hlv; [|done].
  apply left_append with (f := FUnlockPreempt) in Hleft.
  eexists _, _. split; [apply Hleft|split; [done|]]. split;
    [|split; [done|by apply (leaves_append _ _ _ _ _ _ _ _ v' (FSwap a)) in Hlv]].
  apply left_append with (f := FSwap a) in Hleft. eapply left_settled; [exact Hleft|..].
  - intros [Hc|Hc]; [by change (c ∈ w_runqueue w2) in Hc; rewrite Hrq2 in Hc|]. change (c ∈ sleepers w2) in Hc. rewrite Es2 in Hc. by destruct Hsq.
  - destruct (left_joiner _ _ _ _ _ _ Hleft) as (t' & Ht' & Hj' & _).
    intros q tq Hq Hs Heq. exfalso. revert q tq Hq Hs Heq.
    eapply (unjoined_others w); [exact Hj| |exact Ht'|].
    + apply others_after, others_after. eapply others_before in Ho2. exact Ho2.
    + right. rewrite Hj'. apply (Hj c t); [done|]. destruct Hst; congruence.
  - intros a' Ha'. simpl in Ha'. rewrite Ew2 in Ha'. simpl in Ha'.
    destruct (decide (a' = a)) as [->|Hne].
    + eexists _, _. split_and!; [apply Hleft|done|by right|done..].
    + rewrite lookup_insert_ne in Ha' by done. by destruct (Hw a').
Qed.

(** ** [spawn] *)

(** The new task after [start]. *)
Definition started (e arg : Z) (t : task) : task :=
  set_run_state SUSPENDED (set_ctx (Some [FTaskEntry]) (set_entry_arg e arg t)).

Lemma core_started w p t e arg :
  core b w [] → retired w p → w_tasks w !! p = Some t → blank t → e ≠ 0 →
  core b (upd_tasks <[p := started e arg t]> w) [] ∧
  ready (upd_tasks <[p := started e arg t]> w) p ∧
  (p ∉ w_runqueue w) ∧ (p ∉ sleepers w).
Proof.
  intros C (Hhost & Hnf & Hnd & Hno & _) Ht (Hs & He & Hj & Hd & Hv & Hf) Hne.
  assert (idle w p) as Hidle.
  { eapply (core_idle b w []); [done|apply not_elem_of_nil|done|]. right. by rewrite Hs. }
  split_and!; [|..|apply Hidle|apply Hidle].
  - apply (core_close_idle b _ p).
    + apply (core_write b w [p] p t); [done| |].
      * constructor; try done; simpl.
        -- intros _. right. done.
        -- left. by left.
        -- by right.
      * eapply core_weaken; [|done]. by apply list_subseteq_nil.
    + destruct Hidle as (? & ? & Hjn & ?). split_and!; [done..| |done]. intros q tq. simpl.
      destruct (decide (q = p)) as [->|Hqp].
      * rewrite lookup_insert_eq. intros [= <-] _. simpl. rewrite Hj. intros <-.
        by rewrite (core_no_null b w [] C) in Ht.
      * rewrite lookup_insert_ne by done. apply Hjn.
  - exists (started e arg t), [FTaskEntry]. split_and!; try done.
    + apply lookup_insert_eq.
    + constructor.
    + by left.
    + by intros a [? | ?].
Qed.

Lemma inv_at_live w c : inv_at b w c → ∃ t, w_tasks w !! c = Some t ∧ t_run_state t ≠ STOPPED.
Proof. intros [_ _ _ (t & Ht & _ & _ & Hst)]. exists t. split; [done|]. by destruct Hst as [-> | ->]. Qed.

(** The part of [spawn] that makes the new task. *)
Lemma wp_spawn_new w c a e arg (Q : Z → world → Prop) X U :
  inv_at b w c → e ≠ 0 → attr_ok b a → memory_available (w_maps w) a →
  (∀ p t w', inv_at b w' c → w_tasks w' !! p = Some (started e arg t) → blank t → ready w' p →
     p ≠ c → p ≠ host_task → (p ∉ w_runqueue w') → (p ∉ sleepers w') →
     (p ∉ fl_l (w_freelist w')) → p ≠ nd_deferred (w_node w') →
     (∀ h, w_handles w' !! h ≠ Some p) → w_handles w' = w_handles w →
     w_waiters w' = w_waiters w → w_node w' = w_node w →
     (∀ q, q ≠ p → w_tasks w' !! q = w_tasks w !! q) →
     (∀ tp, w_tasks w !! p = Some tp → t_run_state tp = STOPPED) → Q p w') →
  wp (t ← make_task a; write t (set_entry_arg e arg);; start t;; mret t) Q X U w.
Proof.
  intros Hi He Hattr Hmem HQ. pose proof Hi as [C Hc Hspin (tc & Htc & Hctx & Hf & Hst)].
  destruct (inv_at_live w c Hi) as (tc' & Htc' & Hns). assert (tc' = tc) as -> by congruence.
  wp_go. eapply (wp_make_task b w []); [done|done|by exists tc| |done|done|].
  { intros x Hx. by apply elem_of_nil in Hx. }
  intros p t w' C' Hc' (En & Eh & Ew & _ & _) Hret _ Ht Hblank Hpc Hkeep Hold.
  assert (w_tasks w' !! c = Some tc) as Htc1 by (by rewrite Hkeep).
  destruct (core_started w' p t e arg C' Hret Ht Hblank He) as (C1 & Hready & Hrq & Hsq).
  wp_go. eapply wp_write; [exact Ht|]. unfold start. wp_go.
  eapply wp_deref; [apply lookup_insert_eq|]. wp_go.
  apply wp_assert; [rewrite bool_decide_true; [done|apply Hblank]|]. wp_go.
  eapply wp_current; [apply Hc'|]. simpl. wp_go.
  apply wp_assert; [by rewrite bool_decide_true|]. wp_go.
  eapply wp_write; [simpl; by rewrite lookup_insert_ne|].
  rewrite (upd_tasks_id _ c).
  2:{ simpl. rewrite lookup_insert_ne by done. rewrite Htc1. f_equal. destruct tc. simpl in *. by subst. }
  wp_go. eapply wp_write; [apply lookup_insert_eq|]. wp_go.
  eapply wp_write; [apply lookup_insert_eq|]. rewrite !upd_tasks_twice. wp_go.
  destruct Hret as (? & ? & ? & ? & _).
  apply (HQ p t (upd_tasks <[p := started e arg t]> w')); try done.
  - constructor; [done|by eapply curr_touch|by simpl; rewrite En|].
    exists tc. simpl. by rewrite lookup_insert_ne.
  - apply lookup_insert_eq.
  - intros q Hq. simpl. rewrite lookup_insert_ne by done. by apply Hkeep.
Qed.

Lemma spawn_eq h a e arg :
  e ≠ 0 → ∀ w, spawn h a e arg w =
  (sched_context_get;;
   t ← (t ← make_task a; write t (set_entry_arg e arg);; start t;; mret t);
   r ← with_preempt_lock (mret ();; schedule t;; mret Returned);
   modify (upd_handles <[h := t]>);; mret r) w.
Proof.
  intros He w. unfold spawn. rewrite bool_decide_false by done.
  unfold mbind, M_bind. destruct (sched_context_get w); [|done..].
  destruct (make_task a s); [|done..]. destruct (write _ _ _); [|done..].
  by destruct (start _ _).
Qed.

(** The handle names the new task [p], which waits on the run queue to be
    entered; its address belonged to no task, or to one that was collected. *)
Record spawned w w' (c h e arg p : Z) : Prop := {
  sp_task : ∃ t, w_tasks w' !! p = Some t ∧ t_entry t = e ∧ t_arg t = arg ∧ t_joiner t = 0 ∧
    t_ctx t = Some [FTaskEntry] ∧ t_run_state t ≠ STOPPED;
  sp_alike : alike w w' p;
  sp_stays : stays w w' c;
  sp_rq : w_runqueue w' ≡ₚ p :: w_runqueue w;
  sp_handles : w_handles w' = <[h := p]> (w_handles w);
  sp_waiters : w_waiters w' = w_waiters w;
  sp_fresh : ∀ h', w_handles w !! h' ≠ Some p;
  sp_old : ∀ tp, w_tasks w !! p = Some tp → t_run_state tp = STOPPED;
  sp_ne : p ≠ c ∧ p ≠ 0
}.

Lemma wp_call_spawn w c h a e arg X U :
  inv_at b w c → h ≠ 0 → w_handles w !! h = Some 0 → attr_ok b a →
  memory_available (w_maps w) a → (e = 0 → X no_entry w) →
  wp (spawn h a e arg) (λ r w', r = Returned ∧ e ≠ 0 ∧ inv_at b w' c ∧ ∃ p, spawned w w' c h e arg p) X U w.
Proof.
  intros Hi Hh0 Hh Ha Hm HX. destruct (decide (e = 0)) as [->|He].
  { unfold spawn. rewrite bool_decide_true by done. wp_step. by apply HX. }
  eapply wp_ext; [by apply spawn_eq|].
  apply wp_bind. eapply (wp_sched_context_get b); [apply Hi|]. apply wp_bind.
  apply (wp_spawn_new w c a e arg); [done..|].
  intros p t w1 Hi1 Hp Hblank Hready Hpc Hhost Hrq Hsq Hfree Hdef Hno Eh Ew En Hkeep Hold. wp_go.
  destruct (i_cur _ _ _ Hi1) as (tc & Htc & Hctx & Hf & Hst).
  eapply (wp_locked_schedule w1 c tc p (started e arg t)); [done|done| |done|].
  - intros w2 Q' X' Hay2 Hidle2 -> HQ'. wp_go. apply HQ'; try done.
    + apply Hay2.
    + eapply (ready_touch b w1 [c]); [|by left|done| |by right|by apply not_elem_of_single|done].
      * eapply core_weaken; [|apply Hi1]. by apply list_subseteq_nil.
      * constructor; try done. simpl. destruct Hst; congruence.
    + symmetry. apply upd_tasks_id. simpl. by rewrite lookup_insert_ne.
  - intros w3 v Hi3 Hp3 Hqd. wp_go. pose proof Hi3 as [C3 Hc3 Hs3 Hcur3]. destruct Hqd.
    assert (p ≠ 0) as Hp0 by (eapply (core_live_pos b w3 []); eauto).
    split_and!; [done|done| |exists p].
    + constructor; try done. eapply (core_handle_set b w3 [] h p); try done.
      * by rewrite qd_handles0, Eh.
      * by rewrite qd_free0.
      * by rewrite qd_deferred0.
      * apply Hblank.
      * intros h'. by rewrite qd_handles0.
    + constructor; simpl.
      * eexists. split_and!; [exact Hp3|done..|apply Hblank|done|done].
      * eapply alike_trans; [|exact qd_alike0]. by apply others_alike, others_eq.
      * unfold stays. by rewrite <-Hkeep.
      * rewrite qd_rq0. unfold w_runqueue. by rewrite En.
      * by rewrite qd_handles0, Eh.
      * by rewrite qd_waiters0.
      * intros h'. by rewrite <-Eh.
      * done.
      * done.
Qed.

End calls.
