(* ===== verification/Safety.v ===== *)
(** * Safety of every program that uses the scheduler

    [reachable] collects the states a program can bring the library into; the
    theorems say how a call behaves in such a state.  A program is expected to
    follow the rules of the interface ([op_ok]): it spawns into handles of its
    own that are empty, with attributes the library can serve, and does not
    detach a task somebody waits for. *)

From S2P Require Import Prelude Platform World Task TimeOrderedQueue Rq Freelist SchedNode Sched.
From S2P Require Import SchedSpec Inv InvSteps InvOps InvNode InvSched InvExec InvCalls Keeps.

Section safety.
Context {E : Env} (b : bool).
Implicit Types (w : world).

(** ** Calls *)

(** What a caller must respect. *)
Definition op_ok w (o : op) : Prop :=
  match o with
  | Spawn h a _ _ => h ≠ 0 ∧ w_handles w !! h = Some 0 ∧ attr_ok b a ∧ memory_available (w_maps w) a
  | Join h _ => handle_ok w h
  | Detach h => handle_ok w h ∧
      ∀ q tq, w_handles w !! h = Some q → w_tasks w !! q = Some tq → t_joiner tq = 0
  | ParkIf a _ | Unpark a | Swap a => is_Some (w_waiters w !! a)
  | Yield | SleepFor _ | Exit _ | Return _ | Tick => True
  end.

(** The exceptions by which a call refuses to act, and when it does. *)
Definition refusal w (o : op) (e : exn) : Prop :=
  match o with
  | Spawn _ _ entry _ => entry = 0 ∧ e = no_entry
  | Join h _ =>
      (e = bad_handle ∧ (h = 0 ∨ w_handles w !! h = Some 0)) ∨
      (e = joined_twice ∧ ∃ q tq, w_handles w !! h = Some q ∧ w_tasks w !! q = Some tq ∧
         t_joiner tq ≠ 0)
  | Detach h => e = bad_handle ∧ (h = 0 ∨ w_handles w !! h = Some 0)
  | Exit _ | Return _ => e = root_exit ∧ curr w host_task
  | _ => False
  end.

(** The calls that can find that nothing is left to run. *)
Definition gives_up (o : op) : bool :=
  match o with
  | Yield | Tick | Join _ _ | Exit _ | Return _ | ParkIf _ _ => true
  | _ => false
  end.

(** The calls that put their caller to sleep. *)
Definition sleeps (o : op) : bool := match o with SleepFor _ => true | _ => false end.

Definition outcome_ok w (o : op) (r : outcome world ()) : Prop :=
  match r with
  | Ret _ w' => inv b w'
  | Throw e w' =>
      (e = deadlock ∧ gives_up o = true ∧ nothing_else w) ∨ (refusal w o e ∧ inv b w')
  | Stuck f => f = null_deref ∧ (sleepers w ≠ [] ∨ sleeps o = true)
  end.

Context {EOk : EnvOk E}.

Lemma exec_ok w o : inv b w → op_ok w o → outcome_ok w o (exec o w).
Proof.
  intros [c Hi] Hok.
  assert (wp (exec o) (λ _, inv b)
    (λ e w', (e = deadlock ∧ gives_up o = true ∧ nothing_else w) ∨ (refusal w o e ∧ inv b w'))
    (λ f, f = null_deref ∧ (sleepers w ≠ [] ∨ sleeps o = true)) w) as H;
    [|unfold wp, outcome_ok in *; by destruct (exec o w)].
  assert (inv b w) as Hinv by (by exists c).
  destruct (i_cur _ _ _ Hi) as (t & Ht & _). apply wp_exec. destruct o; simpl in Hok |- *.
  - destruct Hok as (? & ? & ? & ?). eapply wp_post; [eapply wp_call_spawn; eauto|].
    intros r w' (-> & _ & ? & _). by exists c.
  - eapply wp_call_yield; [done| |by eauto]. intros t' Ht' Hn%no_runnable_nothing w'. by left.
  - eapply wp_call_sleep_for; eauto.
  - eapply wp_post; [eapply (wp_call_join b w c t); [done..| | |by left|by eauto]|].
    + intros ?. right. by eauto.
    + intros q tq ???. right. split; [|done]. right. eauto 10.
    + by intros r w' [? _].
  - destruct Hok as [? ?]. eapply wp_post; [eapply wp_call_detach; eauto|].
    intros r w' (-> & ? & _). by exists c.
  - eapply wp_post; [eapply (wp_call_exit b w c t); [done|done| | |by eauto]|].
    + intros ->. right. split; [|done]. split; [done|apply Hi].
    + intros _ Hq Hr w'. left. split_and!; [done..|]. split; [by apply app_nil in Hr as [_ ?]|done].
    + by intros r w' (-> & ? & _).
  - eapply wp_post; [eapply (wp_call_return b w c t); [done|done| | |by eauto]|].
    + intros -> ?. right. split; [|by exists host_task]. split; [done|apply Hi].
    + intros _ Hq Hr w'. left. split_and!; [done..|]. split; [by apply app_nil in Hr as [_ ?]|done].
    + by intros r w' (-> & ? & _).
  - eapply wp_call_tick; [done| |by eauto]. intros t' Ht' Hn%no_runnable_nothing w'. by left.
  - destruct Hok as [v ?].
    eapply wp_post; [eapply (wp_call_park_if b w c t); [done..|by left|by eauto]|].
    by intros r w' [? _].
  - destruct Hok as [v ?]. wp_go. eapply wp_post; [by eapply wp_call_unpark|].
    intros r w' [? _]. wp_go. by exists c.
  - destruct Hok as [v ?]. eapply wp_post; [by eapply (wp_call_swap b w c t)|].
    by intros r w' [? _].
Qed.

(** ** The first call *)

Definition empty_cells (l : list Z) : gmap Z Z := list_to_map ((λ h, (h, 0)) <$> l).

Lemma empty_cells_lookup l h v : empty_cells l !! h = Some v → v = 0.
Proof.
  intros H%elem_of_list_to_map_2. apply list_elem_of_fmap in H as (h' & [= _ ->] & _). done.
Qed.

Lemma empty_cells_in l h : h ∈ l → empty_cells l !! h = Some 0.
Proof.
  intros Hin. destruct (empty_cells l !! h) as [v|] eqn:Hv.
  - f_equal. by eapply empty_cells_lookup.
  - apply not_elem_of_list_to_map in Hv. destruct Hv.
    apply list_elem_of_fmap. exists (h, 0). split; [done|]. apply list_elem_of_fmap. eauto.
Qed.

(** The world when [sched_context::get] first returns. *)
Definition booted hs ws : world :=
  mkWorld {[ host_task := set_run_state RUNNING (set_tls_ptr host_tls default_task) ]}
    [(host_task, sizeof_task); (host_tls, tls_postfix_bytes)]
    {[ host_tls := mkTlsBlock host_task true ]} host_tls
    (mkNode false true 0 (mkRq [] [] 0) (thread_clock_now 0)) (mkFreelist [] freelist_size)
    (mkAlarm true preempt_interval true true) true true
    (empty_cells hs) ∅ (empty_cells ws) 1 0.

Lemma boot_eq hs ws :
  setitimer 0 preempt_interval = None → sched_context_get (boot hs ws) = Ret () (booted hs ws).
Proof.
  intros Hset. assert (wp sched_context_get (λ _ w, w = booted hs ws) (λ _ _, False) (λ _, False)
    (boot hs ws)) as H; [|unfold wp in H; destruct (sched_context_get _) as [[] ?|?|]; by subst].
  unfold sched_context_get, sched_context_construct, start_async, set_current_node. wp_go.
  cbn [boot w_context]. wp_go.
  eapply wp_tls_deref; [apply lookup_singleton_eq|]. unfold read_thread_clock, wrap_current, tls_current.
  wp_go. eapply wp_write; [apply lookup_insert_eq|]. wp_go.
  eapply wp_write; [apply lookup_insert_eq|]. wp_go.
  eapply wp_tls_set_thread; [apply lookup_insert_eq|]. wp_go. cbn [w_node nd_running set_running].
  set (t1 := set_tls_ptr host_tls default_task). set (t2 := set_run_state RUNNING t1).
  match goal with |- wp _ _ _ _ ?w' => assert (w' =
    mkWorld (<[host_task := t2]> (<[host_task := t1]> {[ host_task := default_task ]}))
      (w_maps (booted hs ws))
      (<[host_tls := mkTlsBlock host_task true]>
         (<[host_tls := mkTlsBlock 0 true]> {[ host_tls := mkTlsBlock 0 false ]}))
      host_tls (mkNode false false 0 (mkRq [] [] 0) (thread_clock_now 0))
      (mkFreelist [] freelist_size) (mkAlarm false 0 false false) false false
      (empty_cells hs) ∅ (empty_cells ws) 1 0) as -> by reflexivity end.
  unfold singletonM, map_singleton. rewrite !insert_insert_eq. wp_go.
  unfold enable_timer_preemption, set_interval, set_interval_impl, set_interval_internal, set_trap.
  fold preempt_interval. wp_go.
  cbn [w_alarm al_armed]. wp_go. change (itimer_fields preempt_interval) with (0, preempt_interval).
  cbn beta iota. rewrite Hset. wp_go. done.
Qed.

Lemma booted_inv hs ws : inv_at b (booted hs ws) host_task.
Proof.
  set (th := set_run_state RUNNING (set_tls_ptr host_tls default_task)).
  assert (∀ p t, w_tasks (booted hs ws) !! p = Some t → p = host_task ∧ t = th) as Hlook.
  { intros p t. cbn. intros H. by apply lookup_singleton_Some in H as [<- <-]. }
  assert (∀ h q, w_handles (booted hs ws) !! h = Some q → q = 0) as Hh.
  { intros h q. apply empty_cells_lookup. }
  assert (∀ a q, w_waiters (booted hs ws) !! a = Some q → q = 0) as Hw.
  { intros a q. apply empty_cells_lookup. }
  constructor.
  - constructor; try done.
    + exists th. split; [apply lookup_singleton_eq|done].
    + cbn. rewrite lookup_singleton_eq. eauto.
    + cbn. split; [by left|right; by left].
    + cbn. pose proof host_disjoint as Hd. unfold disjoint_region in *. simpl in *.
      intros r1 r2 [-> | ->%list_elem_of_singleton]%elem_of_cons
        [-> | ->%list_elem_of_singleton]%elem_of_cons; simpl; auto. right. lia.
    + by intros p t Hne [-> _]%Hlook.
    + by intros p t Hne [-> _]%Hlook.
    + intros x Hx. by apply elem_of_nil in Hx.
    + constructor.
    + constructor.
    + intros x Hx. by apply elem_of_nil in Hx.
    + constructor.
    + constructor.
    + intros x [Hx|Hx]; by apply elem_of_nil in Hx.
    + by intros q t [_ ->]%Hlook.
    + by intros a j ->%Hw.
    + by intros h q ->%Hh.
    + by intros h1 h2 q ->%Hh.
    + constructor.
    + intros x Hx. by apply elem_of_nil in Hx.
  - split; [apply lookup_singleton_eq|]. exists th. split; [apply lookup_singleton_eq|].
    pose proof host_tls_pos. unfold tls_of, th. simpl. by rewrite bool_decide_true by lia.
  - done.
  - exists th. split_and!; [apply lookup_singleton_eq|done|done|by left].
Qed.

(** ** Reachable states *)

(** The states in which a program can be when it has control, in whichever task.
    Its handles are [hs], its waiters are [ws], and the calls its tasks make
    are among [allowed]; it may catch the exceptions of refused calls. *)
Inductive reachable (allowed : op → Prop) (hs ws : list Z) : world → Prop :=
| reach_boot w : sched_context_get (boot hs ws) = Ret () w → reachable allowed hs ws w
| reach_call w o w' : reachable allowed hs ws w → allowed o → op_ok w o →
    exec o w = Ret () w' → reachable allowed hs ws w'
| reach_refused w o e w' : reachable allowed hs ws w → allowed o → op_ok w o →
    exec o w = Throw e w' → e ≠ deadlock → reachable allowed hs ws w'.

Lemma reachable_inv allowed hs ws w :
  setitimer 0 preempt_interval = None → reachable allowed hs ws w → inv b w.
Proof.
  intros Hset. induction 1 as [w Hw|w o w' _ IH _ Hok Hx|w o e w' _ IH _ Hok Hx He].
  - rewrite boot_eq in Hw by done. injection Hw as <-. exists host_task. apply booted_inv.
  - pose proof (exec_ok w o IH Hok) as H. by rewrite Hx in H.
  - pose proof (exec_ok w o IH Hok) as H. rewrite Hx in H.
    destruct H as [[? _]|[_ ?]]; done.
Qed.

(** The first [spawn] builds the context on its way. *)
Lemma spawn_boots hs ws h a e arg :
  setitimer 0 preempt_interval = None → e ≠ 0 →
  spawn h a e arg (boot hs ws) = spawn h a e arg (booted hs ws).
Proof.
  intros Hset He. unfold spawn. rewrite bool_decide_false by done.
  unfold mbind, M_bind. rewrite boot_eq by done. done.
Qed.

(** C3.  In every state a program can reach, every call that respects the
    interface ends in one of these ways: it returns and the invariant of the
    scheduler holds again (the current task is known to its thread-local block,
    every task on a queue has a context to resume, no lock is held, live
    handles name live tasks, regions do not overlap); it is refused with the
    documented exception, and the invariant still holds; it reports a deadlock,
    with both queues empty; or, and only if a task sleeps, the null pointer of
    the idle path is dereferenced. *)
Theorem reachable_safe allowed hs ws w o :
  setitimer 0 preempt_interval = None → reachable allowed hs ws w → op_ok w o →
  inv b w ∧ outcome_ok w o (exec o w).
Proof.
  intros Hset Hr Hok. pose proof (reachable_inv allowed hs ws w Hset Hr) as Hi.
  split; [done|by apply exec_ok].
Qed.

(** A task pointer the library keeps: in a queue, the free list, the slot of the
    task to be returned, a handle, a waiter, or as the one that joins a task
    that has not stopped. *)
Definition points_to w (x : Z) : Prop :=
  x ∈ w_runqueue w ∨ x ∈ sleepers w ∨ x ∈ fl_l (w_freelist w) ∨ nd_deferred (w_node w) = x ∨
  (∃ h, w_handles w !! h = Some x) ∨ (∃ a, w_waiters w !! a = Some x) ∨
  (∃ q tq, w_tasks w !! q = Some tq ∧ t_run_state tq ≠ STOPPED ∧ t_joiner tq = x).

(** The memory of a spawned task. *)
Definition stack_region (t : task) : region :=
  (t_stack t - t_total_stack_size t, t_total_stack_size t).

Lemma points_to_live w c x : inv_at b w c → points_to w x → x = 0 ∨ is_Some (w_tasks w !! x).
Proof.
  intros Hi Hx. pose proof (i_core _ _ _ Hi) as C. pose proof not_elem_of_nil (A := Z) as Hnil.
  destruct (decide (x = 0)) as [|Hx0]; [by left|right].
  destruct Hx as [Hx|[Hx|[Hx|[Hx|[[h Hx]|[[a Hx]|(q & tq & Hq & Hs & Hx)]]]]]].
  - by apply (c_rq_live _ _ _ C).
  - apply ready_live, (c_ready _ _ _ C); auto.
  - destruct (c_free _ _ _ C x Hx) as (_ & _ & t & ? & _). eauto.
  - subst x. destruct (c_deferred _ _ _ C Hx0) as (_ & t & ? & _). eauto.
  - destruct (c_handle _ _ _ C h x Hx Hx0) as (_ & _ & _ & _ & t & ? & _). eauto.
  - destruct (c_parked _ _ _ C a x Hx Hx0 (Hnil x)) as (t & fs & ? & _). eauto.
  - subst x. destruct (c_pending _ _ _ C q tq Hq Hs Hx0 (Hnil _)) as (t & h & rv & ? & _). eauto.
Qed.


Lemma awake_no_sleepers hs ws w :
  setitimer 0 preempt_interval = None →
  reachable (λ o, sleeps o = false) hs ws w → no_sleepers w.
Proof.
  intros Hset. assert (∀ o, sleeps o = false → ∀ d, o ≠ SleepFor d) as Hs by (by intros ? ? ? ->).
  induction 1 as [w Hw|w o w' _ IH Ha _ Hx|w o e w' _ IH Ha _ Hx _].
  - rewrite boot_eq in Hw by done. by injection Hw as <-.
  - pose proof (exec_no_sleepers o (Hs o Ha) w IH) as H. by rewrite Hx in H.
  - pose proof (exec_no_sleepers o (Hs o Ha) w IH) as H. by rewrite Hx in H.
Qed.



(** The virtual time of the run queue never goes back, whatever is called
    and however the call ends. *)
Theorem min_vruntime_monotone o w :
  w_context w = true →
  match exec o w with
  | Ret _ w' | Throw _ w' => w_min_vruntime w ≤ w_min_vruntime w'
  | Stuck _ => True
  end.
Proof.
  intros Hc. pose proof (exec_min_at_least (w_min_vruntime w) o w) as H.
  destruct (exec o w); [..|done]; by apply H.
Qed.

(** Whatever a program does, the free list holds at most 64 finished tasks,
    each of them stopped, listed once, and named by no handle and no queue. *)
Theorem freelist_bounded allowed hs ws w :
  setitimer 0 preempt_interval = None → reachable allowed hs ws w →
  Z.of_nat (length (fl_l (w_freelist w))) ≤ 64 ∧ NoDup (fl_l (w_freelist w)) ∧
  ∀ p, p ∈ fl_l (w_freelist w) →
    (∃ t, w_tasks w !! p = Some t ∧ t_run_state t = STOPPED) ∧
    (∀ h, w_handles w !! h ≠ Some p) ∧ (p ∉ w_runqueue w) ∧ (p ∉ sleepers w).
Proof.
  intros Hset Hr. assert (list_for 64 w) as [_ Hmax].
  { induction Hr as [w Hw|w o w' _ IH _ _ Hx|w o e w' _ IH _ _ Hx _].
    - rewrite boot_eq in Hw by done. by injection Hw as <-.
    - pose proof (exec_list_for 64 o w IH) as H. by rewrite Hx in H.
    - pose proof (exec_list_for 64 o w IH) as H. by rewrite Hx in H. }
  destruct (reachable_inv allowed hs ws w Hset Hr) as [c Hi].
  pose proof (i_core _ _ _ Hi) as C. split_and!.
  - rewrite <-Hmax. apply C.
  - apply C.
  - intros p Hp. destruct (c_free _ _ _ C p Hp) as (_ & _ & t & Ht & Hs). split_and!; [eauto|..].
    + intros h Hh. destruct (c_handle _ _ _ C h p Hh) as (_ & _ & ? & _); [|done].
      eapply core_live_pos; eauto.
    + assert (idle w p) as Hidle; [|by apply Hidle].
      eapply (core_idle b w []); [done|apply not_elem_of_nil|done|]. right. by rewrite Hs.
    + assert (idle w p) as Hidle; [|by apply Hidle].
      eapply (core_idle b w []); [done|apply not_elem_of_nil|done|]. right. by rewrite Hs.
Qed.

End safety.

(** ** The timer and the first use of the scheduler *)

Section timer.
Context {E : Env} {EOk : EnvOk E}.

Lemma disable_eq w :
  setitimer 0 0 = None →
  disable_timer_preemption w =
    Ret () (set_alarm (mkAlarm (al_trap (w_alarm w)) 0 (al_signal (w_alarm w)) (al_armed (w_alarm w))) w).
Proof.
  intros Hset. unfold disable_timer_preemption, clear_interval, set_interval_impl, set_interval_internal.
  change (itimer_fields 0) with (0, 0). cbn beta iota. by rewrite Hset.
Qed.

(** [disable_timer_preemption] does not outlast the first use of the
    scheduler: a program that calls it before anything else and then uses the
    scheduler runs with the timer on, because the constructor of the context,
    which runs at the first use, switches it on.  Called once the context
    exists, it does what it says. *)
Theorem first_use_enables_timer hs ws :
  setitimer 0 0 = None → setitimer 0 preempt_interval = None →
  (∃ w, (disable_timer_preemption;; sched_context_get) (boot hs ws) = Ret () w ∧
     al_trap (w_alarm w) = true ∧ al_interval (w_alarm w) = preempt_interval) ∧
  (∃ w, (disable_timer_preemption;; sched_context_get) (booted hs ws) = Ret () w ∧
     al_interval (w_alarm w) = 0).
Proof.
  intros Hoff Hon. split.
  - exists (booted hs ws). split; [|done]. unfold mbind, M_bind.
    rewrite disable_eq by done. exact (boot_eq hs ws Hon).
  - eexists. split; [unfold mbind, M_bind; rewrite disable_eq by done; reflexivity|done].
Qed.

End timer.
