(* ===== verification/Behaviour.v ===== *)
(** * What the calls of the scheduler achieve

    Functional behaviour of [spawn], [exit], [join] and [waiter::unpark] in a
    state that satisfies the invariant. *)

From S2P Require Import Prelude Platform World Task TimeOrderedQueue Rq Freelist SchedNode Sched.
From S2P Require Import SchedSpec Inv InvSteps InvOps InvNode InvSched InvExec InvCalls.

Section behaviour.
Context {E : Env} {EOk : EnvOk E} (b : bool).
Implicit Types (w : world).

Lemma curr_unique w c c' : curr w c → curr w c' → c = c'.
Proof. intros [H _] [H' _]. congruence. Qed.

(** A total execution from a rule that allows neither exception nor fault. *)
Lemma wp_total {A} (m : P A) (Q : A → world → Prop) w :
  wp m Q (λ _ _, False) (λ _, False) w → ∃ a w', m w = Ret a w' ∧ Q a w'.
Proof. unfold wp. destruct (m w); [eauto|done..]. Qed.


(** [join] of a task that has already stopped. *)
Lemma wp_join_stopped w c h rv q tq X U :
  inv_at b w c → w_handles w !! h = Some q → q ≠ 0 → w_tasks w !! q = Some tq →
  t_run_state tq = STOPPED → t_joiner tq = 0 →
  wp (join h rv) (λ r w', r = Returned ∧ inv_at b w' c ∧ w_handles w' !! h = Some 0 ∧
    (rv ≠ 0 → w_words w' !! rv = Some (t_return_value tq))) X U w.
Proof.
  intros Hi Hh Hq0 Hq Hs Hj. destruct (i_cur _ _ _ Hi) as (t & Ht & _).
  eapply wp_post; [eapply (wp_call_join b w c t); try done|].
  - right. eauto.
  - intros [-> | ?]; [|congruence]. by destruct (c_handle _ _ _ (i_core _ _ _ Hi) 0 q Hh Hq0).
  - intros q' tq' Hh' Hq' Hj'. congruence.
  - intros q' tq' Hh' Hq' _ Hs'. congruence.
  - intros q' tq' Hh' Hq' Hs'. congruence.
  - intros r w' (_ & q' & tq' & Hh' & _ & Hq' & _ & Hjs). simplify_eq.
    destruct r as [|x]; [|by destruct Hjs]. destruct Hjs as (_ & Hi' & []).
    rewrite dr_handles, dr_words, lookup_insert_eq. split_and!; [done..|].
    intros Hrv. unfold stored. by rewrite bool_decide_true, lookup_insert_eq.
Qed.


(** [exit] hands its value over: when nothing else can run, the task that
    waits in [join] for the caller is the next to run; it gets exactly the
    value passed to [exit] where it asked for it, its handle is empty
    afterwards, and it has control. *)
Theorem exit_hands_over w c t tj h rv v :
  inv_at b w c → w_tasks w !! c = Some t → c ≠ host_task → t_joiner t ≠ 0 → nothing_else w →
  w_tasks w !! t_joiner t = Some tj →
  t_ctx tj = Some (plain_frames (t_joiner t) ++ [FJoin h rv]) →
  ∃ w', exec (Exit v) w = Ret () w' ∧ inv_at b w' (t_joiner t) ∧
    w_handles w' !! h = Some 0 ∧ (rv ≠ 0 → w_words w' !! rv = Some v).
Proof.
  intros Hi Ht Hhost Hj [Hrq Hsq] Htj Hctx.
  destruct (wp_total (exec (Exit v)) (λ _ w', inv_at b w' (t_joiner t) ∧
    w_handles w' !! h = Some 0 ∧ (rv ≠ 0 → w_words w' !! rv = Some v)) w)
    as ([] & w' & ? & ?); [|eauto].
  destruct (inv_at_yield b w c Hi) as (t0 & Hay & _ & _ & _ & Hst0).
  assert (t0 = t) as -> by (pose proof (ay_task _ _ _ _ Hay); congruence).
  assert (t_run_state t ≠ STOPPED) as Hns by (destruct Hst0; congruence).
  destruct (joiner_pending b w c t Hi Ht Hns Hj) as ((tj' & h' & rv' & Htj' & Hctx' & _ & _ & Hh) & Hjc & _).
  assert (tj' = tj) as -> by congruence. rewrite Hctx in Hctx'. injection Hctx' as <- <-.
  assert (woken t = [t_joiner t]) as Hwk by (unfold woken; by rewrite bool_decide_true).
  unfold exec, call. wp_go. eapply wp_post; [eapply (wp_call_exit b w c t); [done..| |]|].
  - by rewrite Hwk.
  - unfold sleepers. by rewrite Hsq.
  - intros r w1 (-> & (n & C1 & Hc1 & Hready & Hrq1 & Hsq1 & Hspin1) & [(tc & Htc & _ & Hv & _) Eh _ Hsame Hnext]).
    destruct (Hnext Hsq) as (n' & Hc' & Hp). rewrite Hwk, Hrq, (curr_unique w1 n' n Hc' Hc1) in Hp.
    apply Permutation_singleton_r in Hp. injection Hp as -> Hnil.
    pose proof Hready as (tn & fs & Htn & _). destruct (ak_same _ _ _ Hsame _ tn Hjc Htn) as (tn0 & Htn0 & [= _ _ _ Ectx _]).
    assert (tn0 = tj) as -> by congruence.
    eapply wp_post; [by eapply (wp_resume b w1 (t_joiner t))|]. intros [] w2 [Hi2 Hre].
    destruct (resumed_joined w1 w2 (t_joiner t) tn h rv c tc) as [Hword Hh2]; try done.
    + by rewrite Ectx.
    + by rewrite Eh.
    + split_and!; [done..|]. by rewrite Hv in Hword.
Qed.

(** [unpark] answers whether a task was parked; if one was, that task is
    runnable afterwards and the waiter is empty, and the caller keeps the
    processor. *)
Theorem unpark_wakes w c a v :
  inv_at b w c → w_waiters w !! a = Some v →
  ∃ w', unpark a w = Ret (bool_decide (v ≠ 0)) w' ∧ inv_at b w' c ∧
    (v ≠ 0 → v ∈ w_runqueue w' ∧ w_waiters w' !! a = Some 0).
Proof.
  intros Hi Ha. destruct (wp_total (unpark a) _ w (wp_call_unpark b w c a v _ _ Hi Ha))
    as (r & w' & Hr & Hi' & -> & Hw'). exists w'. split_and!; [done..|]. intros Hv.
  rewrite bool_decide_true in Hw' by done. destruct Hw' as [_ []]. rewrite qd_rq, qd_waiters.
  split; [by left|apply lookup_insert_eq].
Qed.

(** ** Creation and reuse of tasks *)

Lemma sixteen_byte_align_spec p :
  sixteen_byte_align p ≤ p < sixteen_byte_align p + 16 ∧ sixteen_byte_align p `mod` 16 = 0.
Proof.
  unfold sixteen_byte_align. change 0xF with (Z.ones 4).
  rewrite <-Z.ldiff_land, Z.ldiff_ones_r, Z.shiftl_mul_pow2, Z.shiftr_div_pow2 by lia.
  change (2 ^ 4) with 16. pose proof (Z.div_mod p 16). pose proof (Z.mod_pos_bound p 16).
  split; [lia|]. apply Z.mod_mul. lia.
Qed.


(** A finished task can be reused for the attributes it was made with
    only if those ask for no guard pages: the free list compares the requested
    stack size with the size of the whole mapping. *)
Theorem reuse_needs_no_guard w a :
  attr_ok b a → memory_available (w_maps w) a →
  fits a (created_task b w a) = bool_decide (effective_guardsize a = 0).
Proof.
  intros Ha [Hm _]. destruct (attr_ok_total b a Ha) as [Htot Hroom].
  destruct (mmap_range (w_maps w) (total_size a) Hm) as [Hpos _]. pose proof sizes_pos.
  pose proof Ha as (_ & _ & _ & _ & _ & Hb).
  assert (has_tls (created_task b w a) = alloc_tls a) as Htls.
  { rewrite Hb. unfold has_tls, created_task, created_place, created_stack. simpl.
    destruct b; [|done]. apply bool_decide_eq_true. lia. }
  unfold fits. rewrite Htls, Bool.eqb_reflx, andb_true_r. unfold stack_size_of, created_task. simpl.
  apply bool_decide_ext. lia.
Qed.

(** ** The idle path *)

(** C40.  When nothing is runnable and the time of the first sleeper has passed,
    picking the next task ends in the dereference of a null pointer: the pop
    that should hand the sleeper out leaves it in the queue, and the null
    pointer of the failed pop is queued in its place. *)
Theorem overdue_sleeper_faults w hot ripe s q :
  core b w hot → w_runqueue w = [] → w_sleepqueue w = (ripe, s) :: q →
  ripe < system_now (w_system_reads w) → nd_spin_lock (w_node w) = true →
  pop idle_thunk w = Stuck null_deref.
Proof.
  intros C Hrq Hsq Hlate Hspin.
  assert (wp (pop idle_thunk) (λ _ _, False) (λ _ _, False) (λ f, f = null_deref) w) as H;
    [|unfold wp in H; destruct (pop idle_thunk w); by subst].
  unfold pop, pop_refill, sleepqueue_pop, read_system_clock. wp_go. rewrite Hsq, Hrq.
  cbn [toq_empty]. wp_go. change (w_sleepqueue (set_system_reads _ w)) with (w_sleepqueue w).
  rewrite Hsq. unfold toq_pop. rewrite (proj2 (Z.leb_gt _ _)) by done. wp_go. simpl.
  unfold idle_thunk, spin_unlock. wp_go. apply wp_spin_lock; [done|]. wp_go.
  apply wp_assert; [apply Z.leb_le, sleep_until_passed|]. unfold runqueue_emplace. wp_go.
  apply (wp_need _ _ [0]).
  { change (emplace (w_tasks w) 0 (w_runqueue w) = Some [0]). by rewrite Hrq. }
  wp_go. by apply (wp_pop_take_null b w _ _ _ hot C).
Qed.

End behaviour.
