(* ===== verification/SchedAbs.v ===== *)
(** * From states of the library to states of the specification

    [abs] forgets stacks, contexts, virtual times, queues, locks and recycled
    task objects: what is left of a state of the library is a state of
    [SchedSpec].  The lemmas say what the effects of the code look like there:
    what a call leaves alone, the collection of a finished task, the switch to
    the next task. *)

From S2P Require Import Prelude Platform World Task TimeOrderedQueue Rq Freelist SchedNode Sched.
From S2P Require Import SchedSpec Keeps Inv InvSteps InvOps InvNode InvSched InvExec InvCalls.
From S2P Require Import Safety Behaviour.

Section abs.
Context {E : Env} {EOk : EnvOk E} (b : bool).
Implicit Types (w : world) (A : astate).

(** ** The abstraction *)

(** What a task goes on with, and what it waits for, by the call that its saved
    context ends in. *)
Definition cont_of (t : task) : cont :=
  match t_ctx t ≫= last with Some (FJoin h rv) => CJoin h rv | _ => CPlain end.
Definition waits_in (t : task) : status :=
  match t_ctx t ≫= last with
  | Some (FJoin h rv) => Joining h rv
  | Some (FPark a) | Some (FSwap a) => Parked a
  | _ => Asleep
  end.

Definition abs_status (queued : bool) (t : task) : status :=
  if bool_decide (t_run_state t = STOPPED) then Finished (t_return_value t)
  else if queued then Ready (cont_of t) else waits_in t.

(** A task object stands for a task until it has stopped and no handle names
    it; after that it is kept for reuse. *)
Definition abs_task (hs : gmap Z Z) (l : list Z) (q : Z) (t : task) : option atask :=
  if bool_decide (t_run_state t = STOPPED) && negb (named hs q) then None
  else Some (mkAtask (t_entry t) (t_arg t) (t_joiner t) (abs_status (bool_decide (q ∈ l)) t)).

Definition abs_tasks w (l : list Z) : gmap Z atask :=
  map_imap (abs_task (w_handles w) l) (w_tasks w).

(** The state of the program when [c] has the processor. *)
Definition abs w (c : Z) : astate :=
  mkAstate c (abs_tasks w (c :: w_runqueue w)) (w_handles w) (w_waiters w) (w_words w).

Lemma abs_lookup w l q : abs_tasks w l !! q = w_tasks w !! q ≫= abs_task (w_handles w) l q.
Proof. apply map_lookup_imap. Qed.

Lemma named_true hs q : named hs q = true ↔ ∃ h, hs !! h = Some q.
Proof.
  unfold named. rewrite bool_decide_eq_true. split.
  - intros (h & p & Hp & ->). eauto.
  - intros [h Hh]. exists h, q. done.
Qed.

Lemma named_insert hs h x y q :
  hs !! h = Some x → q ≠ x → q ≠ y → named (<[h := y]> hs) q = named hs q.
Proof.
  intros Hh Hx Hy. apply eq_bool_prop_intro. rewrite !Is_true_true, !named_true.
  split; intros [h' Hh']; exists h'; destruct (decide (h' = h)) as [->|Hne].
  - rewrite lookup_insert_eq in Hh'. congruence.
  - by rewrite lookup_insert_ne in Hh'.
  - congruence.
  - by rewrite lookup_insert_ne.
Qed.

(** The abstraction looks at what [view] shows. *)
Lemma abs_task_view hs hs' l l' q t t' :
  view t' = view t → named hs' q = named hs q → (q ∈ l' ↔ q ∈ l) →
  abs_task hs' l' q t' = abs_task hs l q t.
Proof.
  intros Hv Hn Hl. pose proof (view_stopped _ _ Hv) as Hs. unfold view in Hv.
  injection Hv as He Ha Hj Hc Hr. unfold abs_task, abs_status, cont_of, waits_in.
  rewrite Hn, He, Ha, Hj, Hc, (bool_decide_ext _ _ Hl), (bool_decide_ext _ _ Hs).
  destruct (decide (t_run_state t = STOPPED)) as [Hst|Hst].
  - rewrite !bool_decide_true in Hr by tauto. injection Hr as ->. done.
  - by rewrite !(bool_decide_false _ Hst).
Qed.

Lemma abs_list w l l' q : (q ∈ l' ↔ q ∈ l) → abs_tasks w l' !! q = abs_tasks w l !! q.
Proof.
  intros Hq. rewrite !abs_lookup. destruct (w_tasks w !! q); [|done]. simpl. by apply abs_task_view.
Qed.

(** The tasks that a call leaves alone. *)
Lemma abs_alike w w' l l' c q hot' :
  w_tasks w !! 0 = None → core b w' hot' → alike w w' c → q ≠ c ∨ q = 0 →
  (q ≠ 0 → named (w_handles w') q = named (w_handles w) q ∨
     ∃ t, w_tasks w !! q = Some t ∧ t_run_state t ≠ STOPPED) →
  (q ∈ l' ↔ q ∈ l) → abs_tasks w' l' !! q = abs_tasks w l !! q.
Proof.
  intros H0 C' [Hs Hl] Hne Hn Hq. rewrite !abs_lookup.
  destruct (decide (q = 0)) as [->|Hq0]; [by rewrite H0, (core_no_null b w' hot' C')|].
  assert (q ≠ c) as Hqc by (by destruct Hne). specialize (Hn Hq0).
  destruct (w_tasks w' !! q) as [t'|] eqn:Ht'; simpl.
  - destruct (Hs q t' Hqc Ht') as (t & Ht & Hv). rewrite Ht in Hn |- *. simpl.
    destruct Hn as [?|(t0 & [= <-] & Hst)]; [by apply abs_task_view|].
    assert (t_run_state t' ≠ STOPPED) as Hst' by (by rewrite (view_stopped _ _ Hv)).
    rewrite <-(abs_task_view (w_handles w) (w_handles w) l l' q t t') by done.
    unfold abs_task. by rewrite (bool_decide_false _ Hst').
  - destruct (w_tasks w !! q) as [t|] eqn:Ht; [|done]. simpl. unfold abs_task.
    destruct (decide (t_run_state t = STOPPED)) as [Hst|Hst].
    + rewrite bool_decide_true by done. destruct (named (w_handles w) q) eqn:Hnm; [|done].
      destruct Hn as [[h Hh]%named_true|(t0 & [= <-] & ?)]; [|done].
      destruct (c_handle _ _ _ C' h q Hh Hq0) as (_ & _ & _ & _ & t' & ? & _). congruence.
    + destruct (Hl q t Hqc Ht Hst) as (t' & ? & _). congruence.
Qed.

(** A task that has stopped and that no handle names is none. *)
Lemma abs_gone w l q :
  named (w_handles w) q = false → (∀ t, w_tasks w !! q = Some t → t_run_state t = STOPPED) →
  abs_tasks w l !! q = None.
Proof.
  intros Hn Hs. rewrite abs_lookup. destruct (w_tasks w !! q) as [t|] eqn:Ht; [|done]. simpl.
  unfold abs_task. by rewrite Hn, bool_decide_true by auto.
Qed.

(** A live task. *)
Lemma abs_live w l q t :
  w_tasks w !! q = Some t → t_run_state t ≠ STOPPED →
  abs_tasks w l !! q =
    Some (mkAtask (t_entry t) (t_arg t) (t_joiner t) (abs_status (bool_decide (q ∈ l)) t)).
Proof.
  intros Ht Hs. rewrite abs_lookup, Ht. simpl. unfold abs_task. by rewrite bool_decide_false.
Qed.

Lemma astate_eq A A' :
  s_cur A = s_cur A' → (∀ q, s_tasks A !! q = s_tasks A' !! q) → s_handles A = s_handles A' →
  s_waiters A = s_waiters A' → s_words A = s_words A' → A = A'.
Proof.
  destruct A, A'. simpl. intros -> Ht -> -> ->. f_equal. by apply map_eq.
Qed.

(** Only queued tasks can run. *)
Lemma runnable_queued w c q : runnable (abs w c) q = true → q ∈ c :: w_runqueue w.
Proof.
  unfold runnable. simpl. rewrite abs_lookup. destruct (w_tasks w !! q) as [t|]; [|done]. simpl.
  unfold abs_task, abs_status. destruct (decide (q ∈ c :: w_runqueue w)) as [|Hq]; [done|].
  rewrite (bool_decide_false (q ∈ _)) by done.
  case_bool_decide; simpl; [by destruct (named _ _)|].
  unfold waits_in. by destruct (t_ctx t ≫= last) as [[]|].
Qed.

(** ** The finished task is collected *)

Lemma collect_eq A h rv q v :
  s_handles A !! h = Some q → at_status <$> s_tasks A !! q = Some (Finished v) →
  collect h rv A = on_tasks (delete q) (on_handles <[h := 0]> (on_words (stored rv v) A)).
Proof. intros Hh Hq. unfold collect. by rewrite Hh, Hq. Qed.

Lemma abs_stopped w l h q tq :
  w_handles w !! h = Some q → w_tasks w !! q = Some tq → t_run_state tq = STOPPED →
  abs_tasks w l !! q =
    Some (mkAtask (t_entry tq) (t_arg tq) (t_joiner tq) (Finished (t_return_value tq))).
Proof.
  intros Hh Hq Hs. rewrite abs_lookup, Hq. simpl. unfold abs_task, abs_status.
  rewrite !(bool_decide_true (t_run_state tq = STOPPED)) by done.
  assert (named (w_handles w) q = true) as -> by (apply named_true; eauto). done.
Qed.

Lemma abs_dropped w w' l l' c h q tq x hot hot' :
  core b w hot → core b w' hot' → alike w w' c → x ≠ c → q ≠ c →
  w_handles w !! h = Some q → q ≠ 0 → w_tasks w !! q = Some tq → t_run_state tq = STOPPED →
  w_handles w' = <[h := 0]> (w_handles w) → (x ∈ l' ↔ x ∈ l) →
  abs_tasks w' l' !! x = delete q (abs_tasks w l) !! x.
Proof.
  intros C C' Hal Hxc Hqc Hh Hq0 Hq Hs Eh Hx. destruct (decide (x = q)) as [->|Hne].
  - rewrite lookup_delete_eq. apply abs_gone.
    + apply not_true_is_false. intros [h' Hh']%named_true. rewrite Eh in Hh'.
      destruct (decide (h' = h)) as [->|Hne]; [rewrite lookup_insert_eq in Hh'; congruence|].
      rewrite lookup_insert_ne in Hh' by done. apply Hne, (c_handle_inj _ _ _ C h' h q Hh' Hh Hq0).
    + intros t' Ht'. destruct (ak_same _ _ _ Hal q t' Hqc Ht') as (t & Ht & Hv).
      rewrite (view_stopped _ _ Hv). congruence.
  - rewrite lookup_delete_ne by done.
    eapply abs_alike; [by eapply core_no_null|done|done|by left| |done].
    intros Hx0. left. rewrite Eh. by apply (named_insert _ h q 0).
Qed.

(** ** The task that gets the processor *)

Lemma resumed_abs w w' n :
  core b w [] → core b w' [] → ready w n → resumed w w' n → abs w' n = dispatch n (abs w n).
Proof.
  intros C C' (t & fs & Ht & Hctx & _ & _ & Hst & Hjoin & _) Hre.
  assert (t_run_state t ≠ STOPPED) as Hns by (destruct Hst; congruence).
  pose proof (re_call _ _ _ Hre t fs Ht Hctx) as Hcall.
  destruct Hre as [(t0 & t' & Ht0 & Ht' & Hrun & _ & Hctx' & He & Ha & Hj) En _ Ew Ho _].
  assert (t0 = t) as -> by congruence. apply others_alike in Ho.
  assert (w_runqueue w' = w_runqueue w) as Erq by (unfold w_runqueue; by rewrite En).
  set (at0 := mkAtask (t_entry t) (t_arg t) (t_joiner t) (Ready CPlain)).
  assert (abs_tasks w' (n :: w_runqueue w') !! n = Some at0) as Hn'.
  { rewrite (abs_live w' _ n t' Ht') by (by rewrite Hrun). unfold abs_status, cont_of, at0.
    rewrite Hrun, Hctx', He, Ha, Hj. simpl. by rewrite (bool_decide_true (n ∈ _)) by (by left). }
  assert (abs_tasks w (n :: w_runqueue w) !! n = Some (set_at_status (Ready (cont_of t)) at0)) as Hn.
  { rewrite (abs_live w _ n t Ht Hns). unfold abs_status.
    by rewrite (bool_decide_false _ Hns), (bool_decide_true (n ∈ _)) by (by left). }
  unfold dispatch. cbn [abs s_tasks]. rewrite Hn. cbn [fmap option_fmap option_map at_status set_at_status].
  destruct (cont_of t) as [|h rv] eqn:Hk.
  - assert (w_handles w' = w_handles w ∧ w_words w' = w_words w) as [Eh Ewd].
    { unfold cont_of in Hk. rewrite Hctx in Hk. simpl in Hk. unfold continued in Hcall.
      by destruct (last fs) as [[]|]. }
    apply astate_eq; simpl; [done| |done..]. intros q. destruct (decide (q = n)) as [->|Hne].
    + by rewrite Hn', Hn.
    + eapply abs_alike; [by eapply core_no_null|done|done|by left|left; by rewrite Eh|by rewrite Erq].
  - assert (last fs = Some (FJoin h rv)) as Hl.
    { unfold cont_of in Hk. rewrite Hctx in Hk. simpl in Hk.
      by destruct (last fs) as [[]|]; simplify_eq. }
    unfold continued in Hcall. rewrite Hl in Hcall.
    destruct Hcall as (q & tq & Hh & Hq0 & Hq & Hs & _ & Eh & Ewd).
    assert (q ≠ n) as Hqn by (intros ->; congruence).
    rewrite (collect_eq _ h rv q (t_return_value tq)); [|done|].
    2:{ simpl. by rewrite lookup_alter_ne, (abs_stopped w _ h q tq) by done. }
    apply astate_eq; simpl; [done| |done..]. intros x. destruct (decide (x = n)) as [->|Hne].
    + by rewrite lookup_delete_ne, lookup_alter_eq, Hn, Hn' by done.
    + rewrite (abs_dropped w w' (n :: w_runqueue w) _ n h q tq x [] []) by (done || by rewrite Erq).
      destruct (decide (x = q)) as [->|]; [by rewrite !lookup_delete_eq|].
      by rewrite !lookup_delete_ne, lookup_alter_ne by done.
Qed.

(** A task that can be switched to is runnable once it is chosen. *)
Lemma ready_runnable w n : ready w n → runnable (abs w n) n = true.
Proof.
  intros (t & fs & Ht & _ & _ & _ & Hst & _).
  assert (t_run_state t ≠ STOPPED) as Hns by (destruct Hst; congruence).
  unfold runnable. simpl. rewrite (abs_live w _ n t Ht Hns). simpl. unfold abs_status.
  by rewrite (bool_decide_false _ Hns), (bool_decide_true (n ∈ _)) by (by left).
Qed.

(** ** The task that gives the processor away *)

Lemma leaves_abs w1 c t1 fs l w' n :
  leaves b w1 c t1 fs l w' n → w_sleepqueue w1 = [] → w_tasks w1 !! 0 = None → core b w' [] →
  t_run_state t1 ≠ STOPPED →
  abs_tasks w' (n :: w_runqueue w') !! c = Some (mkAtask (t_entry t1) (t_arg t1) (t_joiner t1)
    (abs_status (bool_decide (c ∈ l)) (set_ctx (Some fs) t1))) ∧
  ∀ q, q ≠ c → abs_tasks w' (n :: w_runqueue w') !! q = abs_tasks w1 l !! q.
Proof.
  intros [[v Hleft] Ho Hq Eh Ew] Hsq H0 C' Hns. specialize (Hq Hsq). split.
  - pose proof (lf_task _ _ _ _ _ _ Hleft) as Ht.
    assert (t_run_state (suspend (set_vruntime v t1)) ≠ STOPPED) as Hns'.
    { rewrite suspend_state. by case_bool_decide. }
    rewrite (abs_live w' _ c _ Ht Hns'). unfold abs_status, cont_of, waits_in. simpl.
    rewrite (bool_decide_false _ Hns'), (bool_decide_false _ Hns).
    rewrite (bool_decide_ext _ (c ∈ l)) by (by rewrite Hq).
    unfold suspend. by case_bool_decide.
  - intros q Hne. eapply abs_alike; [done|done|by apply others_alike|by left|left; by rewrite Eh|].
    by rewrite Hq.
Qed.

(** The running task. *)
Lemma abs_cur w c t :
  w_tasks w !! c = Some t → t_run_state t ≠ STOPPED → t_ctx t = None →
  abs_tasks w (c :: w_runqueue w) !! c =
    Some (mkAtask (t_entry t) (t_arg t) (t_joiner t) (Ready CPlain)).
Proof.
  intros Ht Hns Hctx. rewrite (abs_live w _ c t Ht Hns). unfold abs_status, cont_of.
  by rewrite (bool_decide_false _ Hns), (bool_decide_true (c ∈ _)), Hctx by (by left).
Qed.

(** A parked task that becomes runnable. *)
Lemma abs_unparked w a v l l' :
  parked w a v → v ∈ l' →
  abs_tasks w l' !! v = set_at_status (Ready CPlain) <$> abs_tasks w l !! v.
Proof.
  intros (t & fs & Ht & Hctx & Hfs & _ & Hst) Hl.
  assert (t_run_state t ≠ STOPPED) as Hns by congruence.
  rewrite !(abs_live w _ v t Ht Hns). unfold abs_status, cont_of.
  rewrite (bool_decide_false _ Hns), (bool_decide_true (v ∈ l')), Hctx by done. simpl.
  by destruct Hfs as [-> | ->].
Qed.

(** A task whose [join] ends. *)
Lemma abs_joined w q j l l' :
  pending w q j → j ∉ l → j ∈ l' → abs_tasks w l' !! j = wake j (abs_tasks w l) !! j.
Proof.
  intros (t & h & rv & Ht & Hctx & _ & Hst & _) Hl Hl'.
  assert (t_run_state t ≠ STOPPED) as Hns by congruence. unfold wake. rewrite lookup_alter_eq.
  rewrite !(abs_live w _ j t Ht Hns). unfold abs_status, cont_of, waits_in.
  rewrite (bool_decide_false _ Hns), (bool_decide_true (j ∈ l')), (bool_decide_false (j ∈ l)) by done.
  by rewrite Hctx.
Qed.

End abs.
