(* ===== verification/SchedRefine.v ===== *)
(** * The scheduler implements its specification

    Every call of a program that does not sleep is one step of [SchedSpec]: the
    same exception, the same effect on handles, waiters and words, a next task
    that can run, and a reported deadlock exactly when nobody can. *)

From S2P Require Import Prelude Platform World Task TimeOrderedQueue Rq Freelist SchedNode Sched.
From S2P Require Import SchedSpec Keeps Inv InvSteps InvOps InvNode InvSched InvExec InvCalls.
From S2P Require Import Safety Behaviour SchedAbs.

Section refine.
Context {E : Env} {EOk : EnvOk E} (b : bool).
Implicit Types (w : world) (A : astate).

(** ** States and outcomes *)

(** The task [c] has control, and nobody sleeps. *)
Record calm w (c : Z) : Prop := {
  ca_inv : inv_at b w c;
  ca_awake : w_sleepqueue w = [];
  ca_running : t_run_state <$> w_tasks w !! c = Some RUNNING
}.

(** How the call [o] made in [w] by [c] may end, without the rest of the call of
    the task that was switched to. *)
Definition simulated w (c : Z) (o : op) (r : flow) w' : Prop :=
  match r with
  | Returned => inv_at b w' c ∧ t_run_state <$> w_tasks w' !! c = Some RUNNING ∧
      astep (abs w c) o (abs w' c)
  | Switched _ => settled b r w' ∧ ∃ n, curr w' n ∧
      (effect_of 0 (abs w c) o = Give (set_cur c (abs w' n)) ∨
       effect_of 0 (abs w c) o = Hand n (set_cur c (abs w' n)))
  end.

Definition sim_exn w (c : Z) (o : op) (e : exn) w' : Prop :=
  (e = deadlock ∧ stalls (abs w c) o) ∨
  (refuses (abs w c) o e ∧ inv_at b w' c ∧ t_run_state <$> w_tasks w' !! c = Some RUNNING ∧
   abs w' c = abs w c).

Lemma wp_simulated w c o :
  wp (call o) (simulated w c o) (sim_exn w c o) (λ _, False) w →
  wp (exec o) (λ _ w', ∃ c', inv_at b w' c' ∧ t_run_state <$> w_tasks w' !! c' = Some RUNNING ∧
    astep (abs w c) o (abs w' c')) (sim_exn w c o) (λ _, False) w.
Proof.
  intros H. unfold exec. wp_go. eapply wp_post; [exact H|]. intros [|x] w'.
  - intros (? & ? & ?). wp_go. eauto.
  - intros ((n & C & Hc & Hr & Hrq & Hsq & Hs) & n' & Hc' & Heff).
    assert (n' = n) as -> by (by apply (curr_unique w')).
    eapply wp_post; [by eapply (wp_resume b w' n)|]. intros [] w'' [Hi Hre]. exists n.
    split_and!; [done| |].
    + destruct (re_running _ _ _ Hre) as (_ & t' & _ & -> & <- & _). done.
    + rewrite (resumed_abs b w' w'' n C (i_core _ _ _ Hi) Hr Hre).
      rewrite <-(dispatch_set_cur n c). pose proof (ready_runnable w' n Hr) as Hrun.
      destruct Heff; [by apply astep_give|by apply astep_hand].
Qed.

(** What the calls have in common. *)
Section calls.
Context (w : world) (c : Z) (t : task).
Hypothesis (Hcalm : calm w c) (Ht : w_tasks w !! c = Some t).
Let A : astate := abs w c.

Lemma calm_running : t_run_state t = RUNNING.
Proof. pose proof (ca_running _ _ Hcalm) as H. rewrite Ht in H. by injection H. Qed.

Lemma calm_live : t_run_state t ≠ STOPPED.
Proof. by rewrite calm_running. Qed.

Lemma calm_ctx : t_ctx t = None.
Proof. destruct (i_cur _ _ _ (ca_inv _ _ Hcalm)) as (t' & Ht' & ? & _). congruence. Qed.

Lemma calm_null : w_tasks w !! 0 = None.
Proof. exact (core_no_null b w [] (i_core _ _ _ (ca_inv _ _ Hcalm))). Qed.

Lemma calm_unqueued : c ∉ w_runqueue w.
Proof. by destruct (inv_at_yield b w c (ca_inv _ _ Hcalm)) as (t' & [] & _). Qed.

Lemma calm_cur :
  s_tasks A !! c = Some (mkAtask (t_entry t) (t_arg t) (t_joiner t) (Ready CPlain)).
Proof. apply abs_cur; [done|apply calm_live|apply calm_ctx]. Qed.

Lemma calm_awake : sleepers w ≠ [] → False.
Proof. unfold sleepers. by rewrite (ca_awake _ _ Hcalm). Qed.

(** The list without the running task. *)
Lemma calm_others q : q ≠ c → abs_tasks w (w_runqueue w) !! q = s_tasks A !! q.
Proof. intros Hq. apply abs_list. rewrite elem_of_cons. split; [by right|by intros [-> | ?]]. Qed.

(** Nobody else can run. *)
Lemma calm_nothing A1 :
  w_runqueue w = [] → runnable A1 c = false →
  (∀ q, q ≠ c → s_tasks A1 !! q = s_tasks A !! q ∨ runnable A1 q = false) →
  ∀ n, runnable A1 n = false.
Proof.
  intros Hrq Hc Ho n. destruct (decide (n = c)) as [->|Hn]; [done|].
  destruct (Ho n Hn) as [Heq|]; [|done]. apply not_true_is_false. intros Hr.
  assert (runnable A n = true) as Hr' by (unfold runnable in *; by rewrite <-Heq).
  apply runnable_queued in Hr'. rewrite Hrq in Hr'. by apply list_elem_of_singleton in Hr'.
Qed.

(** Only [join] stores into a word. *)
Lemma sim_words o (Q : flow → world → Prop) X U :
  (∀ d, o ≠ SleepFor d) → (∀ h rv, o ≠ Join h rv) →
  wp (call o) (λ r w', w_words w' = w_words w → Q r w') X U w → wp (call o) Q X U w.
Proof.
  intros Hs Hj Hwp. eapply (wp_keeps (words_are (w_words w))).
  - by apply words_call.
  - split; [apply (c_started _ _ _ (i_core _ _ _ (ca_inv _ _ Hcalm)))|done].
  - eapply wp_mono; [exact Hwp| | |done].
    + intros r w' HQ [_ ?]. auto.
    + auto.
Qed.

(** ** [yield] and the timer *)

Lemma dispatch_self : dispatch c A = A.
Proof. unfold dispatch. rewrite calm_cur. done. Qed.

Lemma cur_runnable : runnable A c = true.
Proof. unfold runnable. by rewrite calm_cur. Qed.

Lemma turned_simulated o r w' :
  effect_of 0 A o = Give A → w_words w' = w_words w → turned b w c t r w' → simulated w c o r w'.
Proof.
  intros Heff Ewd [Hse Ho (n & Hn & Hpk) Eh Ew [v Hv]].
  destruct (pk_rest _ _ _ _ _ Hpk (ca_awake _ _ Hcalm)) as [Hp _].
  unfold own in Hp. rewrite bool_decide_true in Hp by apply calm_running. destruct r as [|x]; simpl.
  - destruct Hv as [Hi' Ht']. assert (n = c) as -> by (apply (curr_unique w'); [done|apply Hi']).
    split_and!; [done|rewrite Ht'; simpl; by rewrite calm_running|].
    assert (abs w' c = A) as ->; [|rewrite <-dispatch_self; by apply astep_give, cur_runnable].
    apply astate_eq; simpl; [done| |done..]. intros q. destruct (decide (q = c)) as [->|Hne].
    + rewrite (abs_cur w' c _ Ht'); [|apply calm_live|apply calm_ctx]. symmetry. apply calm_cur.
    + eapply abs_alike; [apply calm_null|apply Hi'|by apply others_alike|by left|left; by rewrite Eh|].
      by rewrite Hp.
  - split; [done|]. exists n. split; [done|]. left. etrans; [exact Heff|]. f_equal.
    destruct Hse as (n' & C' & Hn' & _). destruct Hv as (n'' & Hleft).
    assert (n'' = n) as -> by (apply (curr_unique w'); [apply Hleft|done]).
    destruct (leaves_abs b w c (set_no_preempt_flag true t) (plain_frames c) (c :: w_runqueue w) w' n)
      as [Hc Hq]; [by constructor; [exists v|..]|apply Hcalm|apply calm_null|done|apply calm_live|].
    apply astate_eq; simpl; [done| |done..]. intros q. destruct (decide (q = c)) as [->|Hne].
    + etrans; [exact calm_cur|]. rewrite Hc. unfold abs_status. simpl.
      by rewrite (bool_decide_false _ calm_live), bool_decide_true by (by left).
    + by rewrite Hq.
Qed.

Lemma sim_locked_yield o :
  effect_of 0 A o = Give A →
  wp (with_preempt_lock node_yield) (λ r w', w_words w' = w_words w → simulated w c o r w')
    (sim_exn w c o) (λ _, False) w.
Proof.
  intros Heff. eapply wp_post; [eapply (wp_turn b w c t); [apply Hcalm|done| |apply calm_awake]|].
  - intros (_ & _ & H). by destruct H; apply calm_running.
  - intros r w' Htu Ewd. by apply turned_simulated.
Qed.

Lemma sim_yield : wp (call Yield) (simulated w c Yield) (sim_exn w c Yield) (λ _, False) w.
Proof.
  apply sim_words; [done..|]. eapply wp_sched_yield; [apply Hcalm|]. by apply sim_locked_yield.
Qed.

Lemma sim_tick : wp (call Tick) (simulated w c Tick) (sim_exn w c Tick) (λ _, False) w.
Proof.
  apply sim_words; [done..|]. destruct (al_trap (w_alarm w)) eqn:Htrap.
  - cbn [call]. eapply wp_alarm; [apply Hcalm|done|]. by apply sim_locked_yield.
  - simpl. unfold alarm_handler. wp_go. rewrite Htrap. wp_go. intros _.
    split_and!; [apply Hcalm|apply Hcalm|]. fold A. rewrite <-dispatch_self at 2.
    apply astep_give; [done|apply cur_runnable].
Qed.

(** ** Calls that wait *)

(** The state [A1] is the one in which the scheduler chose [n]. *)
Lemma leaves_gives A1 w1 t1 fs l w' n x :
  leaves b w1 c t1 fs l w' n → settled b (Switched x) w' → w_sleepqueue w1 = [] →
  w_tasks w1 !! 0 = None → t_run_state t1 = WAITING → c ∉ l → s_cur A1 = c →
  s_tasks A1 !! c = Some (mkAtask (t_entry t1) (t_arg t1) (t_joiner t1)
    (waits_in (set_ctx (Some fs) t1))) →
  (∀ q, q ≠ c → s_tasks A1 !! q = abs_tasks w1 l !! q) → s_handles A1 = w_handles w1 →
  s_waiters A1 = w_waiters w1 → s_words A1 = w_words w' →
  curr w' n ∧ A1 = set_cur c (abs w' n).
Proof.
  intros Hlv (n' & C' & _) Hsq H0 Hst Hl Hcur Hc Hq Eh Ew Ewd.
  split; [by destruct (lv_left _ _ _ _ _ _ _ _ Hlv) as [u []]|].
  pose proof (lv_handles _ _ _ _ _ _ _ _ Hlv) as Eh'. pose proof (lv_waiters _ _ _ _ _ _ _ _ Hlv) as Ew'.
  assert (t_run_state t1 ≠ STOPPED) as Hns by (by rewrite Hst).
  apply leaves_abs in Hlv as [Hc' Hq']; [|done..].
  apply astate_eq; simpl; [done| |congruence..]. intros q. destruct (decide (q = c)) as [->|Hne].
  - rewrite Hc, Hc'. unfold abs_status. simpl.
    by rewrite (bool_decide_false _ Hns), (bool_decide_false _ Hl).
  - by rewrite Hq, Hq'.
Qed.

(** ** [waiter] *)

Lemma sim_park a check :
  is_Some (w_waiters w !! a) →
  wp (call (ParkIf a check)) (simulated w c (ParkIf a check)) (sim_exn w c (ParkIf a check))
    (λ _, False) w.
Proof.
  intros [v Ha]. apply sim_words; [done..|].
  set (A1 := turn_to c (Parked a) (on_waiters <[a := c]> A)).
  assert (v = 0 → check = true → effect_of 0 A (ParkIf a check) = Give A1) as Heff.
  { intros -> ->. simpl. by rewrite Ha. }
  assert (s_tasks A1 !! c = Some (mkAtask (t_entry t) (t_arg t) (t_joiner t) (Parked a))) as Hc.
  { unfold A1. cbn [turn_to on_tasks on_waiters s_tasks]. by rewrite lookup_alter_eq, calm_cur. }
  cbn [call]. eapply wp_post; [eapply (wp_call_park_if b w c t a v check); [apply Hcalm|done|done| |apply calm_awake]|].
  - intros Hv Hck [Hrq _] w'. left. split; [done|]. exists A1. split; [by apply Heff|].
    apply calm_nothing; [done|unfold runnable; by rewrite Hc|].
    intros q Hq. left. simpl. by rewrite lookup_alter_ne.
  - intros r w' [Hse Hpk] Ewd. destruct r as [|x].
    + destruct Hpk as [-> Hno]. split_and!; [apply Hcalm|apply Hcalm|]. apply astep_keep with 0; [done|].
      simpl. rewrite Ha. destruct Hno as [Hv| ->]; by destruct v.
    + split; [done|]. destruct Hpk as (Hv & Hck & n & Hlv). exists n.
      destruct (leaves_gives A1 _ _ _ _ _ n x Hlv) as [Hn <-];
        [done|apply Hcalm|apply calm_null|done|apply calm_unqueued|done|exact Hc| |done..|].
      * intros q Hq. simpl. rewrite lookup_alter_ne by done. symmetry. by apply calm_others.
      * split; [done|]. left. by apply Heff.
Qed.

Lemma parked_calm a v :
  w_waiters w !! a = Some v → v ≠ 0 → parked w a v ∧ v ≠ c.
Proof. intros Ha Hv. by destruct (parked_facts b w c a v (ca_inv _ _ Hcalm) Ha Hv) as (? & ? & _). Qed.

Lemma sim_swap a :
  is_Some (w_waiters w !! a) →
  wp (call (Swap a)) (simulated w c (Swap a)) (sim_exn w c (Swap a)) (λ _, False) w.
Proof.
  intros [v Ha]. apply sim_words; [done..|].
  set (A1 := turn_to v (Ready CPlain) (turn_to c (Parked a) (on_waiters <[a := c]> A))).
  assert (effect_of 0 A (Swap a) = if bool_decide (v = 0) then Keep A else Hand v A1) as Heff.
  { simpl. by rewrite Ha. }
  eapply wp_post; [by eapply (wp_call_swap b w c t a v); [apply Hcalm|..]|].
  intros r w' [Hse Hsw] Ewd. destruct r as [|x].
  - destruct Hsw as [-> ->]. split_and!; [apply Hcalm|apply Hcalm|]. by apply astep_keep with 0.
  - split; [done|]. destruct Hsw as [Hv Hlv]. exists v. rewrite bool_decide_false in Heff by done.
    destruct (parked_calm a v Ha Hv) as [Hpk Hvc].
    destruct (leaves_gives A1 _ _ _ _ _ v x Hlv) as [Hn <-];
      [done|apply Hcalm|apply calm_null|done| |done| | |done..|by split; [|right]].
    + apply not_elem_of_cons. split; [done|apply calm_unqueued].
    + unfold A1. cbn [turn_to on_tasks on_waiters s_tasks].
      by rewrite lookup_alter_ne, lookup_alter_eq, calm_cur by done.
    + intros q Hq. cbn [A1 turn_to on_tasks on_waiters s_tasks].
      destruct (decide (q = v)) as [->|Hqv].
      * rewrite lookup_alter_eq, lookup_alter_ne by done. symmetry.
        apply (abs_unparked w a v); [done|by left].
      * rewrite !lookup_alter_ne by done. apply (abs_list w). rewrite !elem_of_cons. tauto.
Qed.

Lemma sim_unpark a :
  is_Some (w_waiters w !! a) →
  wp (call (Unpark a)) (simulated w c (Unpark a)) (sim_exn w c (Unpark a)) (λ _, False) w.
Proof.
  intros [v Ha]. apply sim_words; [done..|]. simpl. wp_go.
  eapply wp_post; [by eapply (wp_call_unpark b w c a v); [apply Hcalm|]|].
  intros r w' (Hi' & _ & Hun). wp_go. intros Ewd. case_bool_decide as Hv.
  - destruct Hun as [Hal []]. destruct (parked_calm a v Ha Hv) as [Hpk Hvc]. split; [done|].
    split; [rewrite qd_stays; apply Hcalm|]. apply astep_keep with 0; [done|].
    simpl. rewrite Ha. simpl. rewrite bool_decide_false by done. f_equal.
    apply astate_eq; simpl; [done| |done..]. intros q.
    assert (abs_tasks w' (c :: w_runqueue w') !! q = abs_tasks w (c :: v :: w_runqueue w) !! q) as ->.
    { eapply (abs_alike b (upd_waiters <[a := 0]> w)); [apply calm_null|apply Hi'|exact Hal| | |].
      - destruct (decide (q = 0)); auto.
      - intros _. left. by rewrite qd_handles.
      - by rewrite qd_rq. }
    destruct (decide (q = v)) as [->|Hqv].
    + rewrite lookup_alter_eq. symmetry. apply (abs_unparked w a v); [done|right; by left].
    + rewrite lookup_alter_ne by done. apply abs_list. rewrite !elem_of_cons. tauto.
  - subst w'. split_and!; [apply Hcalm|apply Hcalm|]. apply astep_keep with 0; [done|].
    simpl. rewrite Ha. simpl. by rewrite bool_decide_true by lia.
Qed.

(** ** [join] and [detach] *)

(** What a handle names. *)
Lemma target_none h :
  h = 0 ∨ w_handles w !! h = Some 0 → target A h = None.
Proof.
  unfold target. simpl. intros Hh. case_bool_decide; [done|]. destruct Hh as [?|Hh]; [done|].
  rewrite Hh. simpl. rewrite abs_lookup, calm_null. done.
Qed.

Lemma target_some h q tq :
  w_handles w !! h = Some q → q ≠ 0 → w_tasks w !! q = Some tq →
  ∃ x, target A h = Some (q, mkAtask (t_entry tq) (t_arg tq) (t_joiner tq) x) ∧
    s_tasks A !! q = Some (mkAtask (t_entry tq) (t_arg tq) (t_joiner tq) x) ∧
    if bool_decide (t_run_state tq = STOPPED) then x = Finished (t_return_value tq)
    else ∀ v, x ≠ Finished v.
Proof.
  intros Hh Hq0 Hq.
  destruct (c_handle _ _ _ (i_core _ _ _ (ca_inv _ _ Hcalm)) h q Hh Hq0) as (Hh0 & _).
  unfold target. rewrite bool_decide_false by done. simpl. rewrite Hh. simpl. case_bool_decide as Hs.
  - rewrite (abs_stopped w _ h q tq Hh Hq Hs). simpl. eauto.
  - rewrite (abs_live w _ q tq Hq Hs). simpl. eexists. split_and!; [done..|].
    intros v. unfold abs_status, waits_in. rewrite (bool_decide_false _ Hs).
    case_bool_decide; [done|]. by destruct (t_ctx tq ≫= last) as [[]|].
Qed.

(** The finished task was collected. *)
Lemma dropped_collect w' h rv q tq :
  dropped b w w' c h q (stored rv (t_return_value tq) (w_words w)) → inv_at b w' c →
  w_handles w !! h = Some q → q ≠ 0 → w_tasks w !! q = Some tq → t_run_state tq = STOPPED →
  abs w' c = collect h rv A ∧ t_run_state <$> w_tasks w' !! c = Some RUNNING.
Proof.
  intros Hd Hi' Hh Hq0 Hq Hs. pose proof Hd as []. pose proof calm_running as Hrun.
  assert (q ≠ c) as Hqc by (intros ->; congruence).
  split; [|rewrite dr_tasks by done; apply Hcalm].
  rewrite (collect_eq A h rv q (t_return_value tq)); [|done|].
  2:{ simpl. by rewrite (abs_stopped w _ h q tq). }
  apply astate_eq; simpl; [done| |done..]. intros x.
  assert (w_runqueue w' = w_runqueue w) as Erq by (unfold w_runqueue; by rewrite dr_node).
  destruct (decide (x = c)) as [->|Hne].
  - rewrite lookup_delete_ne by done. rewrite (abs_cur w' c t); [symmetry; apply calm_cur| |apply calm_live|apply calm_ctx].
    by rewrite dr_tasks.
  - eapply (abs_dropped b); [apply Hcalm|apply Hi'| |done|exact Hqc|done..|by rewrite Erq].
    eapply others_alike, dropped_others; eauto.
Qed.

Section join.
Context (h rv q : Z) (tq : task).
Hypothesis (Hh : w_handles w !! h = Some q) (Hq0 : q ≠ 0) (Hq : w_tasks w !! q = Some tq).
Hypothesis (Hj : t_joiner tq = 0).

Lemma await_effect :
  t_run_state tq ≠ STOPPED → effect_of 0 A (Join h rv) = Give (await h rv q A).
Proof.
  intros Hs. destruct (target_some h q tq Hh Hq0 Hq) as (x & Htg & _ & Hx).
  rewrite bool_decide_false in Hx by done. cbn. rewrite Htg. cbn. rewrite Hj. cbn.
  destruct x; try done. by destruct (Hx v).
Qed.

Lemma collect_effect :
  t_run_state tq = STOPPED → effect_of 0 A (Join h rv) = Keep (collect h rv A).
Proof.
  intros Hs. destruct (target_some h q tq Hh Hq0 Hq) as (x & Htg & _ & Hx).
  rewrite bool_decide_true in Hx by done. subst x. cbn. rewrite Htg. cbn. by rewrite Hj.
Qed.

Lemma await_stalls : w_runqueue w = [] → ∀ n, runnable (await h rv q A) n = false.
Proof.
  intros Hrq. apply calm_nothing; [done| |].
  - unfold runnable. cbn [await turn_to on_tasks s_tasks s_cur]. rewrite lookup_alter_eq.
    change (s_cur A) with c. by destruct (alter (set_at_joiner c) q (s_tasks A) !! c).
  - intros x Hx. cbn [await turn_to on_tasks s_tasks s_cur]. rewrite lookup_alter_ne by done.
    destruct (decide (x = q)) as [->|Hxq]; [|left; by rewrite lookup_alter_ne].
    right. apply not_true_is_false. unfold runnable. cbn [await turn_to on_tasks s_tasks s_cur].
    rewrite lookup_alter_ne, lookup_alter_eq by done. intros Hr.
    assert (runnable A q = true) as Hr'.
    { unfold runnable. by destruct (s_tasks A !! q) as [[? ? ? []]|]. }
    apply runnable_queued in Hr'. rewrite Hrq in Hr'. by apply list_elem_of_singleton in Hr'.
Qed.

Lemma await_gives w' t1 n x :
  awaiting c q t t1 → settled b (Switched x) w' → w_words w' = w_words w →
  leaves b (upd_tasks <[q := set_joiner c tq]> w) c t1 (plain_frames c ++ [FJoin h rv])
    (w_runqueue w) w' n →
  t_run_state tq ≠ STOPPED → curr w' n ∧ await h rv q A = set_cur c (abs w' n).
Proof.
  intros [] Hse Ewd Hlv Hs. eapply leaves_gives; [exact Hlv|done|apply Hcalm| |done|apply calm_unqueued|done| | |done..].
  - simpl. rewrite lookup_insert_ne by done. apply calm_null.
  - cbn [await turn_to on_tasks s_tasks s_cur]. rewrite lookup_alter_eq, aw_entry, aw_arg, aw_joiner.
    change (s_cur A) with c. case_bool_decide as Hqc.
    + by rewrite Hqc, lookup_alter_eq, calm_cur.
    + by rewrite lookup_alter_ne, calm_cur by done.
  - intros y Hy. cbn [await turn_to on_tasks s_tasks s_cur]. change (s_cur A) with c.
    rewrite lookup_alter_ne by done. destruct (decide (y = q)) as [->|Hyq].
    + rewrite lookup_alter_eq, <-calm_others by done.
      rewrite (abs_live w _ q tq Hq Hs).
      by rewrite (abs_live (upd_tasks <[q := set_joiner c tq]> w) _ q (set_joiner c tq) (lookup_insert_eq _ _ _) Hs).
    + rewrite lookup_alter_ne, <-calm_others by done. rewrite !abs_lookup. simpl.
      by rewrite lookup_insert_ne.
Qed.
End join.

Lemma sim_join h rv :
  handle_ok w h →
  wp (call (Join h rv)) (simulated w c (Join h rv)) (sim_exn w c (Join h rv)) (λ _, False) w.
Proof.
  intros Hok. pose proof (ca_inv _ _ Hcalm) as Hi.
  assert (∀ q tq, w_tasks w !! q = Some tq → q ≠ 0) as Hpos.
  { intros q tq Hq ->. by rewrite calm_null in Hq. }
  simpl. eapply wp_post; [eapply (wp_call_join b w c t h rv); [done..| | | |intros ?????; apply calm_awake]|].
  - intros Hnone. right. split_and!; [|done|apply Hcalm|done]. unfold refuses. cbn.
    by rewrite target_none.
  - intros q tq Hh Hq Hj. right. split_and!; [|done|apply Hcalm|done].
    destruct (target_some h q tq Hh (Hpos q tq Hq) Hq) as (x & Htg & _).
    unfold refuses. cbn. change (abs w c) with A. rewrite Htg. cbn. by rewrite bool_decide_true.
  - intros q tq Hh Hq Hj Hs [Hrq _] w'. left. split; [done|]. exists (await h rv q A).
    split; [by eapply await_effect; eauto|by apply await_stalls].
  - intros r w' (Hse & q & tq & Hh & Hq0 & Hq & Hj & Hjs). destruct r as [|x].
    + destruct Hjs as (Hs & Hi' & Hd).
      destruct (dropped_collect w' h rv q tq Hd Hi' Hh Hq0 Hq Hs) as [Habs Hrun].
      split_and!; [done..|]. apply astep_keep with 0; [done|]. rewrite Habs.
      by eapply collect_effect.
    + split; [done|]. destruct Hjs as (Hs & Ewd & t1 & n & Haw & Hlv). exists n.
      destruct (await_gives h rv q tq Hq0 Hq w' t1 n x) as [Hn <-]; [done..|].
      split; [done|]. left. by eapply await_effect.
Qed.

Lemma sim_detach h :
  op_ok b w (Detach h) →
  wp (call (Detach h)) (simulated w c (Detach h)) (sim_exn w c (Detach h)) (λ _, False) w.
Proof.
  intros [Hok Hnoj]. pose proof (ca_inv _ _ Hcalm) as Hi. apply sim_words; [done..|].
  simpl. eapply wp_post; [eapply (wp_call_detach b w c h); [done..|]|].
  - intros Hnone. right. split_and!; [|done|apply Hcalm|done]. unfold refuses. cbn.
    by rewrite target_none.
  - intros r w' (-> & Hi' & q & tq & Hh & Hq0 & Hq & Hdt) Ewd.
    destruct (target_some h q tq Hh Hq0 Hq) as (x & Htg & _ & Hx). unfold detaches in Hdt.
    case_bool_decide as Hs.
    + destruct (dropped_collect w' h 0 q tq Hdt Hi' Hh Hq0 Hq Hs) as [Habs Hrun].
      split_and!; [done..|]. apply astep_keep with 0; [done|]. rewrite Habs. subst x.
      cbn. change (abs w c) with A. by rewrite Htg.
    + destruct Hdt as (Hal & Eh & Ew & En & Hstay). split; [done|].
      split; [rewrite Hstay; apply Hcalm|]. apply astep_keep with 0; [done|].
      assert (effect_of 0 A (Detach h) = Keep (on_handles <[h := 0]> A)) as Heff.
      { cbn. rewrite Htg. cbn. destruct x; try done. by destruct (Hx v). }
      etrans; [exact Heff|]. f_equal. apply astate_eq; simpl; [done| |done..]. intros y. symmetry.
      eapply (abs_alike b w); [apply calm_null|apply Hi'|exact Hal|destruct (decide (y = 0)); auto| |].
      * intros Hy. destruct (decide (y = q)) as [->|Hyq]; [by right; eauto|left].
        rewrite Eh. by apply (named_insert _ h q 0).
      * unfold w_runqueue. by rewrite En.
Qed.

(** ** [exit] *)

Lemma finish_eq v :
  finish c v A =
    on_tasks (if named (s_handles A) c then alter (set_at_status (Finished v)) c else delete c)
      (on_tasks (wake (t_joiner t)) A).
Proof. unfold finish. by rewrite calm_cur. Qed.

Lemma finish_other v q :
  q ≠ c → s_tasks (finish c v A) !! q = wake (t_joiner t) (s_tasks A) !! q.
Proof.
  intros Hq. rewrite finish_eq. cbn [on_tasks s_tasks].
  destruct (named _ _); [by rewrite lookup_alter_ne|by rewrite lookup_delete_ne].
Qed.

(** Its joiner, if it has one, waits for it. *)
Lemma calm_joiner :
  t_joiner t ≠ 0 → pending w c (t_joiner t) ∧ (t_joiner t ∉ c :: w_runqueue w).
Proof.
  intros Hj. destruct (joiner_pending b w c t (ca_inv _ _ Hcalm) Ht calm_live Hj) as (? & ? & ? & _).
  split; [done|]. by apply not_elem_of_cons.
Qed.

Lemma wake_other q : q ≠ t_joiner t ∨ t_joiner t = 0 → wake (t_joiner t) (s_tasks A) !! q = s_tasks A !! q.
Proof.
  intros Hq. unfold wake. destruct (decide (q = t_joiner t)) as [->|Hne].
  - destruct Hq as [? | ->]; [done|]. rewrite lookup_alter_eq. simpl. by rewrite abs_lookup, calm_null.
  - by rewrite lookup_alter_ne.
Qed.

Lemma wake_cur :
  wake (t_joiner t) (s_tasks A) !! c = Some (mkAtask (t_entry t) (t_arg t) (t_joiner t) (Ready CPlain)).
Proof.
  rewrite wake_other; [apply calm_cur|]. destruct (decide (t_joiner t = 0)) as [|Hj]; [by right|left].
  destruct (calm_joiner Hj) as [_ Hni]. intros Heq. apply Hni. rewrite <-Heq. by left.
Qed.

Lemma finish_cur v :
  s_tasks (finish c v A) !! c =
    if named (w_handles w) c
    then Some (mkAtask (t_entry t) (t_arg t) (t_joiner t) (Finished v)) else None.
Proof.
  rewrite finish_eq. cbn [on_tasks s_tasks]. change (s_handles A) with (w_handles w).
  destruct (named _ _); [by rewrite lookup_alter_eq, wake_cur|by rewrite lookup_delete_eq].
Qed.

Lemma finish_stalls v :
  woken t ++ w_runqueue w = [] → ∀ n, runnable (finish c v A) n = false.
Proof.
  intros [Hwk Hrq]%app_nil. apply calm_nothing; [done| |].
  - unfold runnable. rewrite finish_cur. by destruct (named _ _).
  - intros q Hq. left. rewrite finish_other by done. apply wake_other. right.
    unfold woken in Hwk. case_bool_decide; [done|lia].
Qed.

Lemma exited_gives w' v :
  exited w w' c t v → settled b (Switched c) w' → w_words w' = w_words w →
  ∃ n, curr w' n ∧ finish c v A = set_cur c (abs w' n).
Proof.
  intros [(tc & Htc & Hs & Hv & He & Ha & Hj) Eh Ew Hal Hnext] (n & C' & Hn & _) Ewd.
  destruct (Hnext (ca_awake _ _ Hcalm)) as (n' & Hn' & Hp).
  assert (n' = n) as -> by (by apply (curr_unique w')). exists n. split; [done|].
  apply astate_eq.
  - rewrite finish_eq. done.
  - intros q. simpl. destruct (decide (q = c)) as [->|Hne].
    + rewrite finish_cur. destruct (named (w_handles w) c) eqn:Hnm.
      * apply named_true in Hnm as [h Hh].
        rewrite (abs_stopped w' _ h c tc), He, Ha, Hj, Hv by (done || by rewrite Eh). done.
      * symmetry. apply abs_gone; [by rewrite Eh|]. intros t' Ht'. congruence.
    + rewrite finish_other by done.
      rewrite (abs_alike b w w' (woken t ++ w_runqueue w) _ c q []);
        [|apply calm_null|done|done|by left|left; by rewrite Eh|by rewrite Hp].
      unfold woken. destruct (decide (t_joiner t = 0)) as [Hj0|Hj0].
      * rewrite wake_other, bool_decide_false by (by right || intros []). symmetry. by apply calm_others.
      * rewrite bool_decide_true by done. destruct (calm_joiner Hj0) as [Hpd Hni].
        destruct (decide (q = t_joiner t)) as [->|Hqj].
        -- symmetry. apply (abs_joined w c); [done|done|by left].
        -- rewrite wake_other by (by left). apply (abs_list w). simpl. rewrite !elem_of_cons. tauto.
  - rewrite finish_eq. simpl. by rewrite Eh.
  - rewrite finish_eq. simpl. by rewrite Ew.
  - rewrite finish_eq. simpl. by rewrite Ewd.
Qed.

Lemma exit_effect o v :
  o = Exit v ∨ o = Return v →
  effect_of 0 A o = if bool_decide (t_entry t = 0) then Refuse root_exit else Give (finish c v A).
Proof.
  intros Ho. assert (effect_of 0 A o = if bool_decide (at_entry <$> s_tasks A !! c = Some 0)
    then Refuse root_exit else Give (finish c v A)) as -> by (by destruct Ho as [-> | ->]).
  rewrite calm_cur. cbn. do 2 case_bool_decide; congruence.
Qed.

Lemma exit_entry : t_entry t = 0 ↔ c = host_task.
Proof.
  pose proof (i_core _ _ _ (ca_inv _ _ Hcalm)) as C. split; intros Hc.
  - destruct (decide (c = host_task)) as [|Hne]; [done|].
    destruct (c_entry _ _ _ C c t Hne Ht calm_live Hc).
  - destruct (c_host _ _ _ C) as (th & Hth & _ & _ & ? & _). rewrite <-Hc in Hth. congruence.
Qed.

(** The ending of [exit] and of the entry function. *)
Lemma exited_simulated o v r w' :
  o = Exit v ∨ o = Return v → r = Switched c ∧ settled b r w' ∧ exited w w' c t v →
  w_words w' = w_words w → simulated w c o r w'.
Proof.
  intros Ho (-> & Hse & Hex) Ewd. split; [done|].
  destruct (exited_gives w' v Hex Hse Ewd) as (n & Hn & Hfin). exists n.
  rewrite <-Hfin. split; [done|]. left.
  change (abs w c) with A. rewrite (exit_effect o v Ho), bool_decide_false; [done|].
  rewrite exit_entry. intros Hc. destruct Hse as (n' & C' & _).
  destruct (c_host _ _ _ C') as (th & Hth & _ & _ & _ & Hs).
  destruct (ex_task _ _ _ _ _ Hex) as (tc & Htc & ? & _). rewrite <-Hc in Hth. congruence.
Qed.

Lemma exit_stalls o v w' :
  o = Exit v ∨ o = Return v → c ≠ host_task → woken t ++ w_runqueue w = [] →
  sim_exn w c o deadlock w'.
Proof.
  intros Ho Hc Hn. left. split; [done|]. exists (finish c v A). split; [|by apply finish_stalls].
  change (abs w c) with A. rewrite (exit_effect o v Ho), bool_decide_false; [done|]. by rewrite exit_entry.
Qed.

Lemma exit_refused o v w' :
  o = Exit v ∨ o = Return v → c = host_task → inv_at b w' c →
  t_run_state <$> w_tasks w' !! c = Some RUNNING → abs w' c = A → sim_exn w c o root_exit w'.
Proof.
  intros Ho Hc Hi' Hrun Habs. right. split_and!; [|done..]. unfold refuses. change (abs w c) with A.
  by rewrite (exit_effect o v Ho), bool_decide_true by (by rewrite exit_entry).
Qed.

Lemma sim_exit v : wp (call (Exit v)) (simulated w c (Exit v)) (sim_exn w c (Exit v)) (λ _, False) w.
Proof.
  apply sim_words; [done..|].
  cbn [call]. eapply wp_post; [eapply (wp_call_exit b w c t v); [apply Hcalm|done| | |apply calm_awake]|].
  - intros Hc. eapply exit_refused; [by left|done|apply Hcalm|apply Hcalm|done].
  - intros Hc _ Hn w'. eapply exit_stalls; [by left|done..].
  - intros r w' Hex Ewd. eapply exited_simulated; [by left|done..].
Qed.

Lemma sim_return v :
  wp (call (Return v)) (simulated w c (Return v)) (sim_exn w c (Return v)) (λ _, False) w.
Proof.
  apply sim_words; [done..|].
  cbn [call]. eapply wp_post; [eapply (wp_call_return b w c t v); [apply Hcalm|done| | |apply calm_awake]|].
  - intros Hc Hi'. eapply exit_refused; [by right|done|done| |].
    + simpl. rewrite lookup_insert_eq. simpl. by rewrite calm_running.
    + apply astate_eq; simpl; [done| |done..]. intros q.
      eapply (abs_alike b w _ _ _ 0); [apply calm_null|apply Hi'| |destruct (decide (q = 0)); auto|by left|done].
      eapply (alike_insert w _ c t); [done|done|]. unfold view. simpl. by rewrite calm_running.
  - intros Hc _ Hn w'. eapply exit_stalls; [by right|done..].
  - intros r w' Hex Ewd. eapply exited_simulated; [by right|done..].
Qed.

(** ** [spawn] *)

Lemma sim_spawn h a e arg :
  op_ok b w (Spawn h a e arg) →
  wp (call (Spawn h a e arg)) (simulated w c (Spawn h a e arg)) (sim_exn w c (Spawn h a e arg))
    (λ _, False) w.
Proof.
  intros (Hh0 & Hh & Ha & Hm). pose proof (ca_inv _ _ Hcalm) as Hi. apply sim_words; [done..|].
  cbn [call]. eapply wp_post; [eapply (wp_call_spawn b w c h a e arg); [done..|]|].
  - intros ->. right. split_and!; [done|done|apply Hcalm|done].
  - intros r w' (-> & He & Hi' & p & [(tp & Htp & Hen & Har & Hjo & Hcx & Hst) Hal Hstay Hrq Eh Ew Hno Hold [Hpc Hp0]]) Ewd.
    split; [done|]. split; [rewrite Hstay; apply Hcalm|].
    assert (s_tasks A !! p = None) as Hfresh.
    { apply abs_gone; [|done]. apply not_true_is_false. intros [h' Hh']%named_true. by destruct (Hno h'). }
    apply astep_keep with p; [done|]. cbn. rewrite bool_decide_false by done. f_equal.
    apply astate_eq; simpl; [done| |done..]. intros q. destruct (decide (q = p)) as [->|Hne].
    + rewrite lookup_insert_eq, (abs_live w' _ p tp Htp Hst), Hen, Har, Hjo.
      unfold abs_status, cont_of. rewrite (bool_decide_false _ Hst), Hcx.
      rewrite bool_decide_true; [done|]. rewrite Hrq. right. by left.
    + rewrite lookup_insert_ne by done. symmetry.
      eapply (abs_alike b w); [apply calm_null|apply Hi'|exact Hal|by left| |].
      * intros Hq0. left. rewrite Eh. by apply (named_insert _ h 0 p).
      * rewrite Hrq, !elem_of_cons. tauto.
Qed.

End calls.

(** ** Every call *)

Lemma exec_simulates w c o :
  calm w c → op_ok b w o → sleeps o = false →
  wp (exec o) (λ _ w', ∃ c', calm w' c' ∧ astep (abs w c) o (abs w' c'))
    (λ e w', (e = deadlock ∧ stalls (abs w c) o) ∨
       (refuses (abs w c) o e ∧ calm w' c ∧ abs w' c = abs w c)) (λ _, False) w.
Proof.
  intros Hcalm Hok Hs. destruct (i_cur _ _ _ (ca_inv _ _ Hcalm)) as (t & Ht & _).
  eapply (wp_keeps no_sleepers).
  { apply exec_no_sleepers. by intros d ->. }
  { split; [apply (c_started _ _ _ (i_core _ _ _ (ca_inv _ _ Hcalm)))|apply Hcalm]. }
  eapply wp_mono; [apply (wp_simulated w c o)| | |done].
  - destruct o; try done.
    + by apply (sim_spawn w c).
    + by apply (sim_yield w c t).
    + by apply (sim_join w c t).
    + by apply (sim_detach w c t).
    + by apply (sim_exit w c t).
    + by apply (sim_return w c t).
    + by apply (sim_tick w c t).
    + by apply (sim_park w c t).
    + by apply (sim_unpark w c).
    + by apply (sim_swap w c t).
  - intros [] w' (c' & Hi' & Hrun & Hst) [_ Hsq]. exists c'. split; [by constructor|done].
  - intros e w' [?|(Hr & Hi' & Hrun & Habs)] [_ Hsq]; [by left|right].
    split_and!; [done|by constructor|done].
Qed.

Lemma booted_abs hs ws : abs (booted hs ws) host_task = start_state host_task hs ws.
Proof.
  apply astate_eq; simpl; [done| |done..]. intros q. rewrite abs_lookup. simpl.
  destruct (decide (q = host_task)) as [->|Hne].
  - rewrite !lookup_singleton_eq. simpl. unfold abs_task, abs_status, cont_of. simpl.
    by rewrite bool_decide_true by (by left).
  - by rewrite !lookup_singleton_ne.
Qed.

Lemma reachable_calm hs ws w :
  setitimer 0 preempt_interval = None → reachable b (λ o, sleeps o = false) hs ws w →
  ∃ c, calm w c ∧ areachable host_task hs ws (abs w c).
Proof.
  intros Hset. induction 1 as [w Hw|w o w' _ IH Hs Hok Hx|w o e w' _ IH Hs Hok Hx He].
  - rewrite boot_eq in Hw by done. injection Hw as <-. exists host_task.
    rewrite booted_abs. split; [|constructor].
    constructor; [by apply booted_inv|done|].
    simpl. by rewrite lookup_singleton_eq.
  - destruct IH as (c & Hc & HA). pose proof (exec_simulates w c o Hc Hok Hs) as H. unfold wp in H.
    rewrite Hx in H. destruct H as (c' & Hc' & Hst). exists c'. split; [done|by econstructor].
  - destruct IH as (c & Hc & HA). pose proof (exec_simulates w c o Hc Hok Hs) as H. unfold wp in H.
    rewrite Hx in H. destruct H as [[? _]|(_ & Hc' & Habs)]; [done|]. exists c. by rewrite Habs.
Qed.

(** C1.  The scheduler implements its specification.  In every state a program
    that does not sleep can reach, the library is in a state of the
    specification, and every call that respects the interface is a step of it:
    the call returns, possibly in another task that the specification lets run,
    and handles, waiters, words and tasks are as the specification says; or it
    is refused with the exception of the specification and nothing changes; or
    it reports a deadlock, and then the specification has no step either. *)
Theorem scheduler_refines hs ws w o :
  setitimer 0 preempt_interval = None → reachable b (λ o, sleeps o = false) hs ws w →
  op_ok b w o → sleeps o = false →
  ∃ c, curr w c ∧ areachable host_task hs ws (abs w c) ∧
    match exec o w with
    | Ret _ w' => ∃ c', curr w' c' ∧ astep (abs w c) o (abs w' c')
    | Throw e w' =>
        (e = deadlock ∧ stalls (abs w c) o) ∨
        (refuses (abs w c) o e ∧ curr w' c ∧ abs w' c = abs w c)
    | Stuck _ => False
    end.
Proof.
  intros Hset Hr Hok Hs. destruct (reachable_calm hs ws w Hset Hr) as (c & Hc & HA).
  exists c. split_and!; [apply Hc|done|]. pose proof (exec_simulates w c o Hc Hok Hs) as H.
  unfold wp in H. destruct (exec o w) as [[] w'|e w'|f]; [| |done].
  - destruct H as (c' & H & ?). exists c'. split; [apply H|done].
  - destruct H as [?|(? & H & ?)]; [by left|right]. split_and!; [done|apply H|done].
Qed.

End refine.
