(* ===== verification/Client.v ===== *)
(** * Programs on top of the scheduler

    A program is the code of its tasks: given the memory the tasks share and
    the running task, the next step is a step of its own or a call.  [run]
    executes it on the library, with the timer interrupting it at arbitrary
    points.  [Verified] lists what has to be shown of a program against the
    specification [SchedSpec], and [client_runs] carries it over to the
    library: whatever the timer does, the program makes its steps and comes to
    its end. *)

From S2P Require Import Prelude Platform World Task TimeOrderedQueue Rq Freelist SchedNode Sched.
From S2P Require Import SchedSpec Keeps Inv InvSteps InvOps InvNode InvSched InvExec InvCalls.
From S2P Require Import Safety Behaviour SchedAbs SchedRefine.

Inductive next (L : Type) := Local (l : L) | Call (o : op) (l : L) | Stop.
Arguments Local {L} l.
Arguments Call {L} o l.
Arguments Stop {L}.

(** The code of a program: what the task [c] does next. *)
Definition code (L : Type) : Type := L → Z → next L.

(** The timer interrupts the running task, or it makes a step. *)
Inductive event := Interrupt | Go.
#[global] Instance event_eq_dec : EqDecision event.
Proof. solve_decision. Defined.

(** The number of steps of the program among the events. *)
Definition steps (evs : list event) : nat := length (filter (.= Go) evs).

(** ** Against the specification *)

(** The rules of the interface, for programs that do not sleep. *)
Definition aop_ok (b : bool) (A : astate) (o : op) : Prop :=
  match o with
  | Spawn h a _ _ => h ≠ 0 ∧ s_handles A !! h = Some 0 ∧ attr_ok b a
  | Join h _ => is_Some (s_handles A !! h)
  | Detach h => is_Some (s_handles A !! h) ∧
      ∀ q t, s_handles A !! h = Some q → s_tasks A !! q = Some t → at_joiner t = 0
  | ParkIf a _ | Unpark a | Swap a => is_Some (s_waiters A !! a)
  | Exit _ | Return _ | Yield | Tick => True
  | SleepFor _ => False
  end.

(** A program with an invariant [J] under which its steps respect the interface,
    are not refused and do not stall, and with the number [cost] of its steps
    to come, whoever gets the processor. *)
Class Verified (b : bool) {L : Type} (P : code L) (J : astate → L → nat → Prop) : Prop := {
  v_running A l n : J A l n → runnable A (s_cur A) = true;
  v_tick A l n A' : J A l n → astep A Tick A' → J A' l n;
  v_step A l n : J A l (S n) →
    match P l (s_cur A) with
    | Stop => False
    | Local l' => J A l' n
    | Call o l' => aop_ok b A o ∧ (∀ e, ¬ refuses A o e) ∧ ¬ stalls A o ∧
        ∀ A', astep A o A' → J A' l' n
    end
}.

(** ** On the library *)

Section run.
Context {E : Env} {EOk : EnvOk E} (b : bool) {L : Type} (P : code L).
Implicit Types (w : world).

Definition cur_of w : option Z := tb_thread <$> w_tls w !! w_fs w.

Definition after_call (o : op) (l : L) w : option (world * L) :=
  match exec o w with Ret _ w' => Some (w', l) | _ => None end.

Definition run_event (ev : event) (s : world * L) : option (world * L) :=
  let '(w, l) := s in
  match ev with
  | Interrupt => after_call Tick l w
  | Go => c ← cur_of w;
      match P l c with
      | Local l' => Some (w, l')
      | Call o l' => after_call o l' w
      | Stop => None
      end
  end.

Fixpoint run (evs : list event) (s : world * L) : option (world * L) :=
  match evs with
  | [] => Some s
  | ev :: evs' => s' ← run_event ev s; run evs' s'
  end.

(** Every [spawn] of the program finds the memory it needs. *)
Definition memory_for (s : world * L) : Prop :=
  ∀ c h a e arg l', cur_of s.1 = Some c → P s.2 c = Call (Spawn h a e arg) l' →
    memory_available (w_maps s.1) a.
Definition enough_memory (evs : list event) (s : world * L) : Prop :=
  ∀ k s', run (take k evs) s = Some s' → memory_for s'.

Lemma enough_memory_next ev evs s s' :
  enough_memory (ev :: evs) s → run_event ev s = Some s' → enough_memory evs s'.
Proof. intros He Hs k s'' Hk. apply (He (S k)). cbn [take run]. by rewrite Hs. Qed.

(** ** The transfer *)

Lemma cur_of_curr w c : curr w c → cur_of w = Some c.
Proof. intros [H _]. unfold cur_of. by rewrite H. Qed.

Lemma aop_op_ok w c o :
  aop_ok b (abs w c) o →
  (∀ h a e arg, o = Spawn h a e arg → memory_available (w_maps w) a) → op_ok b w o.
Proof.
  destruct o; simpl; try done.
  - intros (? & ? & ?) Hm. eauto 10.
  - intros ? _. by right.
  - intros [? Hj] _. split; [by right|]. intros q tq Hh Hq.
    destruct (decide (t_run_state tq = STOPPED)) as [Hs|Hs].
    + exact (Hj q _ Hh (abs_stopped w _ h q tq Hh Hq Hs)).
    + exact (Hj q _ Hh (abs_live w _ q tq Hq Hs)).
Qed.

(** A call that the specification neither refuses nor stalls returns. *)
Lemma exec_returns w c o :
  calm b w c → op_ok b w o → sleeps o = false → (∀ e, ¬ refuses (abs w c) o e) →
  ¬ stalls (abs w c) o →
  ∃ w' c', exec o w = Ret () w' ∧ calm b w' c' ∧ astep (abs w c) o (abs w' c').
Proof.
  intros Hc Hok Hs Hr Hst. pose proof (exec_simulates b w c o Hc Hok Hs) as H. unfold wp in H.
  destruct (exec o w) as [[] w'|e w'|f]; [|destruct H as [[_ ?]|[Hre _]]; [done|by destruct (Hr e)]|done].
  destruct H as (c' & ? & ?). eauto.
Qed.

Context {J : astate → L → nat → Prop} {HJ : Verified b P J}.

Lemma interrupt_runs w c l n :
  calm b w c → J (abs w c) l n →
  ∃ w' c', run_event Interrupt (w, l) = Some (w', l) ∧ calm b w' c' ∧ J (abs w' c') l n.
Proof.
  intros Hc Hj. destruct (exec_returns w c Tick) as (w' & c' & Hx & Hc' & Hst); [done..| |].
  - intros (A1 & [= <-] & Hno). pose proof (v_running (P := P) _ _ _ Hj) as Hrun.
    by rewrite Hno in Hrun.
  - exists w', c'. simpl. unfold after_call. rewrite Hx. split_and!; [done..|].
    by eapply (v_tick (P := P)).
Qed.

Lemma go_runs w c l n :
  calm b w c → J (abs w c) l (S n) → memory_for (w, l) →
  ∃ w' l' c', run_event Go (w, l) = Some (w', l') ∧ calm b w' c' ∧ J (abs w' c') l' n.
Proof.
  intros Hc Hj Hm. pose proof (cur_of_curr w c (i_curr _ _ _ (ca_inv _ _ _ Hc))) as Hcur.
  pose proof (v_step (P := P) _ _ _ Hj) as Hv. cbn [s_cur abs] in Hv.
  cbn [run_event]. rewrite Hcur. cbn [mbind option_bind].
  destruct (P l c) as [l'|o l'|] eqn:Hp; [|destruct Hv as (Hok & Hr & Hst & Hnext)|done].
  - by exists w, l', c.
  - destruct (exec_returns w c o) as (w' & c' & Hx & Hc' & Hstep); [done| | |done|done|].
    + eapply aop_op_ok; [exact Hok|]. intros h a e arg ->. by eapply (Hm c h a e arg l').
    + by destruct o.
    + exists w', l', c'. unfold after_call. rewrite Hx. auto.
Qed.

(** A verified program runs on the library: with as many of its own steps as it
    has to make, in any order with the interrupts of the timer, it reaches its
    end; no call throws, faults or reports a deadlock on the way. *)
Lemma client_runs evs : ∀ w c l,
  calm b w c → J (abs w c) l (steps evs) → enough_memory evs (w, l) →
  ∃ w' c' l', run evs (w, l) = Some (w', l') ∧ calm b w' c' ∧ J (abs w' c') l' 0.
Proof.
  induction evs as [|ev evs IH]; intros w c l Hc Hj Hm; [by exists w, c, l|].
  assert (∃ w1 c1 l1, run_event ev (w, l) = Some (w1, l1) ∧ calm b w1 c1 ∧ J (abs w1 c1) l1 (steps evs))
    as (w1 & c1 & l1 & Hr & Hc1 & Hj1).
  { destruct ev.
    - destruct (interrupt_runs w c l (steps evs)) as (w1 & c1 & ? & ? & ?); eauto 10.
    - destruct (go_runs w c l (steps evs)) as (w1 & l1 & c1 & ? & ? & ?); [done..| |eauto 10].
      by apply (Hm 0%nat). }
  destruct (IH w1 c1 l1 Hc1 Hj1) as (w' & c' & l' & Hrun & ? & ?).
  - by eapply enough_memory_next.
  - exists w', c', l'. cbn [run]. rewrite Hr. eauto.
Qed.

End run.
