(* ===== verification/ForkJoin.v ===== *)
(** * sched/sched_benchmark.cc: fork and join

    [benchmark_sched_default_attr] and [benchmark_sched_light_attr] spawn a
    task per handle and then join them all, as often as the benchmark asks for;
    [something] is what the tasks do.  The program is verified against the
    specification of the scheduler, and so runs on the library: whenever the
    timer interrupts it, it makes its steps, terminates, and leaves nothing
    behind.

    Both functions forget to advance [i], so that all the tasks increment the
    first word of [shared]; an increment is a load and a store, and the timer
    may come in between. *)

From S2P Require Import Prelude Platform World Task TimeOrderedQueue Rq Freelist SchedNode Sched.
From S2P Require Import SchedSpec Keeps Inv InvSteps InvOps InvNode InvSched InvExec InvCalls.
From S2P Require Import Safety Behaviour SchedAbs SchedRefine Client.

(** ** The program *)

(** Where the benchmark is: [more] rounds are to come after this one, and the
    handle number [i] is next. *)
Inductive mpc := MSpawn (more i : nat) | MJoin (more i : nat) | MDone.
(** Where a call of [something] is: [++*thing] loads, then stores. *)
Inductive wpc := WLoad | WStore (v : Z) | WReturn.

(** The local state of the tasks (a task that has not begun is not listed) and
    [shared[0]]. *)
Record fj := mkFj { fj_main : mpc; fj_pcs : gmap Z wpc; fj_shared : Z }.

Definition set_main (x : mpc) (l : fj) : fj := mkFj x (fj_pcs l) (fj_shared l).
Definition pc_of (l : fj) (c : Z) : wpc := default WLoad (fj_pcs l !! c).

Section program.
Context (a : attr) (main something shared : Z) (threads : list Z).

Definition after_spawn (more i : nat) : mpc :=
  if (S i <? length threads)%nat then MSpawn more (S i) else MJoin more 0.
Definition after_join (more i : nat) : mpc :=
  if (S i <? length threads)%nat then MJoin more (S i)
  else match more with O => MDone | S more' => MSpawn more' 0 end.

(** The task [main] runs the benchmark, the others run [something]. *)
Definition fork_join : code fj := λ l c,
  if bool_decide (c = main) then
    match fj_main l with
    | MSpawn more i =>
        match threads !! i with
        | Some h => Call (Spawn h a something shared) (set_main (after_spawn more i) l)
        | None => Stop
        end
    | MJoin more i =>
        match threads !! i with
        | Some h => Call (Join h 0) (set_main (after_join more i) l)
        | None => Stop
        end
    | MDone => Stop
    end
  else
    match pc_of l c with
    | WLoad => Local (mkFj (fj_main l) (<[c := WStore (fj_shared l)]> (fj_pcs l)) (fj_shared l))
    | WStore v => Local (mkFj (fj_main l) (<[c := WReturn]> (fj_pcs l)) (wrap64 (v + 1)))
    | WReturn => Call (Return 0) (mkFj (fj_main l) (delete c (fj_pcs l)) (fj_shared l))
    end.

Definition fork_join_start (rounds : nat) : fj :=
  mkFj (match rounds with O => MDone | S more => MSpawn more 0 end) ∅ 0.

(** ** Steps and stores to come *)

Definition pc_cost (x : wpc) : nat := match x with WLoad => 3 | WStore _ => 2 | WReturn => 1 end.
Definition pc_stores (x : wpc) : nat := match x with WLoad | WStore _ => 1 | WReturn => 0 end.

Definition main_cost (x : mpc) : nat :=
  let n := length threads in
  match x with
  | MSpawn more i => 4 * (n - i) + n + more * (5 * n)
  | MJoin more i => (n - i) + more * (5 * n)
  | MDone => 0
  end.
Definition main_stores (x : mpc) : nat :=
  let n := length threads in
  match x with
  | MSpawn more i => (n - i) + more * n
  | MJoin more _ => more * n
  | MDone => 0
  end.

(** ** What the handles name *)

Inductive slot := SEmpty | SRun (p : Z) | SFin (p v : Z).

Definition task_of (s : slot) : option Z :=
  match s with SEmpty => None | SRun p | SFin p _ => Some p end.

Definition slot_cost (f : wpc → nat) (l : fj) (s : slot) : nat :=
  match s with SRun p => f (pc_of l p) | _ => O end.
Definition slot_sum (f : wpc → nat) (l : fj) (sl : list slot) : nat :=
  sum_list_with (slot_cost f l) sl.

(** The handles the benchmark has filled and not yet joined. *)
Definition due (x : mpc) (k : nat) : Prop :=
  match x with
  | MSpawn _ i => (k < i)%nat
  | MJoin _ i => (i ≤ k < length threads)%nat
  | MDone => False
  end.
Definition index_ok (x : mpc) : Prop :=
  match x with MSpawn _ i | MJoin _ i => (i < length threads)%nat | MDone => True end.

(** The task of the handle number [k], if the benchmark waits in [join] for it,
    knows its joiner. *)
Definition joiner (wait : option nat) (k : nat) : Z := if bool_decide (wait = Some k) then main else 0.

Definition slot_ok (ts : gmap Z atask) (hd : gmap Z Z) (l : fj) (wait : option nat)
    (k : nat) (h : Z) (s : slot) : Prop :=
  match s with
  | SEmpty => hd !! h = Some 0
  | SRun p => p ≠ main ∧ p ≠ 0 ∧ hd !! h = Some p ∧
      ts !! p = Some (mkAtask something shared (joiner wait k) (Ready CPlain))
  | SFin p v => p ≠ main ∧ p ≠ 0 ∧ hd !! h = Some p ∧ fj_pcs l !! p = None ∧
      ts !! p = Some (mkAtask something shared (joiner wait k) (Finished v))
  end.

Definition main_status (sl : list slot) (wait : option nat) : status :=
  match wait with
  | None => Ready CPlain
  | Some k =>
      match threads !! k, sl !! k with
      | Some h, Some (SFin _ _) => Ready (CJoin h 0)
      | Some h, _ => SchedSpec.Joining h 0
      | None, _ => Ready CPlain
      end
  end.

Record inv (ts : gmap Z atask) (hd : gmap Z Z) (l : fj) (sl : list slot) (wait : option nat) : Prop := {
  fi_main : ts !! main = Some (mkAtask 0 0 0 (main_status sl wait));
  fi_len : length sl = length threads;
  fi_slot k h s : threads !! k = Some h → sl !! k = Some s → slot_ok ts hd l wait k h s;
  fi_tasks q t : ts !! q = Some t → q = main ∨ ∃ k s, sl !! k = Some s ∧ task_of s = Some q;
  fi_inj k k' s s' q : sl !! k = Some s → sl !! k' = Some s' → task_of s = Some q →
    task_of s' = Some q → k = k';
  fi_pcs q pc : fj_pcs l !! q = Some pc → ∃ k, sl !! k = Some (SRun q);
  fi_due k s : sl !! k = Some s → s = SEmpty ↔ ¬ (due (fj_main l) k ∨ wait = Some k);
  fi_wait k : wait = Some k → ¬ due (fj_main l) k ∧ (k < length threads)%nat;
  fi_index : index_ok (fj_main l)
}.

Context (Hmain : main ≠ 0) (Hsomething : something ≠ 0) (Hdup : NoDup threads) (Hnull : 0 ∉ threads).

Lemma inv_slot ts hd l sl wait k h :
  inv ts hd l sl wait → threads !! k = Some h →
  ∃ s, sl !! k = Some s ∧ slot_ok ts hd l wait k h s.
Proof.
  intros Hi Hh. pose proof (lookup_lt_Some _ _ _ Hh) as Hk. rewrite <-(fi_len _ _ _ _ _ Hi) in Hk.
  apply lookup_lt_is_Some in Hk as [s Hs]. exists s. split; [done|]. by eapply fi_slot.
Qed.

Lemma inv_handle ts hd l sl wait k s :
  inv ts hd l sl wait → sl !! k = Some s → ∃ h, threads !! k = Some h ∧ slot_ok ts hd l wait k h s.
Proof.
  intros Hi Hs. pose proof (lookup_lt_Some _ _ _ Hs) as Hk. rewrite (fi_len _ _ _ _ _ Hi) in Hk.
  apply lookup_lt_is_Some in Hk as [h Hh]. exists h. split; [done|]. by eapply fi_slot.
Qed.

Lemma slot_live ts hd l wait k h s q :
  slot_ok ts hd l wait k h s → task_of s = Some q →
  q ≠ main ∧ q ≠ 0 ∧ hd !! h = Some q ∧ is_Some (ts !! q).
Proof.
  destruct s as [|p|p v]; simpl; [done|..].
  - intros (? & ? & ? & ?) [= <-]. eauto.
  - intros (? & ? & ? & ? & ?) [= <-]. eauto.
Qed.

(** ** A change of one slot *)

Lemma inv_update ts hd l sl wait ts' hd' l' wait' k h s s' :
  inv ts hd l sl wait → threads !! k = Some h → sl !! k = Some s →
  ts' !! main = Some (mkAtask 0 0 0 (main_status (<[k := s']> sl) wait')) →
  slot_ok ts' hd' l' wait' k h s' →
  (∀ j hj x, j ≠ k → threads !! j = Some hj → sl !! j = Some x → hj ≠ h →
     (∀ q, task_of x = Some q → task_of s ≠ Some q ∧ q ≠ main ∧ q ≠ 0) →
     slot_ok ts hd l wait j hj x → slot_ok ts' hd' l' wait' j hj x) →
  (∀ q t, ts' !! q = Some t → q = main ∨ task_of s' = Some q ∨
     (is_Some (ts !! q) ∧ task_of s ≠ Some q)) →
  (∀ q, task_of s' = Some q → task_of s = Some q ∨ ts !! q = None) →
  (∀ q pc, fj_pcs l' !! q = Some pc → s' = SRun q ∨ (is_Some (fj_pcs l !! q) ∧ task_of s ≠ Some q)) →
  (∀ j, j ≠ k → due (fj_main l') j ∨ wait' = Some j ↔ due (fj_main l) j ∨ wait = Some j) →
  (s' = SEmpty ↔ ¬ (due (fj_main l') k ∨ wait' = Some k)) →
  (∀ j, wait' = Some j → ¬ due (fj_main l') j ∧ (j < length threads)%nat) →
  index_ok (fj_main l') → inv ts' hd' l' (<[k := s']> sl) wait'.
Proof.
  intros Hi Hh Hs Hm' Hok Hothers Hts Hnew Hpcs Hdue Hdue' Hw Hx.
  assert (∀ j x, j ≠ k → <[k := s']> sl !! j = Some x → sl !! j = Some x) as Hne.
  { intros j x Hj. by rewrite list_lookup_insert_ne. }
  assert (<[k := s']> sl !! k = Some s') as Heq.
  { apply list_lookup_insert_eq. by eapply lookup_lt_Some. }
  assert (∀ j x q, j ≠ k → sl !! j = Some x → task_of x = Some q →
            task_of s ≠ Some q ∧ task_of s' ≠ Some q ∧ q ≠ main ∧ q ≠ 0) as Hdist.
  { intros j x q Hj Hxj Hq. destruct (inv_handle _ _ _ _ _ j x Hi Hxj) as (hj & _ & Hokj).
    destruct (slot_live _ _ _ _ _ _ _ q Hokj Hq) as (? & ? & _ & [t Ht]).
    assert (task_of s ≠ Some q) as Hsq.
    { intros Hsq. by destruct Hj; eapply (fi_inj _ _ _ _ _ Hi j k x s q). }
    split_and!; [done| |done|done]. intros Hs'. destruct (Hnew q Hs'); congruence. }
  constructor; [done| | | | | | |done|done].
  - rewrite length_insert. apply Hi.
  - intros j hj x Hhj Hxj. destruct (decide (j = k)) as [->|Hj]; [congruence|].
    apply Hne in Hxj; [|done]. apply Hothers; try done.
    + intros ->. by destruct Hj; eapply NoDup_lookup.
    + intros q Hq. by destruct (Hdist j x q Hj Hxj Hq) as (? & _ & ? & ?).
    + by eapply fi_slot.
  - intros q t Ht. destruct (Hts q t Ht) as [->|[Hq|[[t0 Hq] Hsq]]]; [by left|right; eauto|].
    destruct (fi_tasks _ _ _ _ _ Hi q t0 Hq) as [->|(j & x & Hxj & Hxq)]; [by left|right].
    exists j, x. split; [|done]. rewrite list_lookup_insert_ne; [done|]. intros ->. congruence.
  - intros j j' x x' q Hxj Hxj' Hq Hq'. destruct (decide (j = k)) as [->|Hj], (decide (j' = k)) as [->|Hj'].
    + done.
    + apply Hne in Hxj'; [|done]. destruct (Hdist j' x' q Hj' Hxj' Hq') as (_ & ? & _). congruence.
    + apply Hne in Hxj; [|done]. destruct (Hdist j x q Hj Hxj Hq) as (_ & ? & _). congruence.
    + eapply (fi_inj _ _ _ _ _ Hi); eauto.
  - intros q pc Hq. destruct (Hpcs q pc Hq) as [->|[[pc0 Hq0] Hsq]]; [eauto|].
    destruct (fi_pcs _ _ _ _ _ Hi q pc0 Hq0) as [j Hj]. exists j.
    rewrite list_lookup_insert_ne; [done|]. intros ->. rewrite Hs in Hj. injection Hj as ->. done.
  - intros j x Hxj. destruct (decide (j = k)) as [->|Hj]; [by rewrite Heq in Hxj; injection Hxj as <-|].
    rewrite Hdue by done. eapply fi_due; eauto.
Qed.

Lemma slot_sum_update f l l' sl k s s' :
  sl !! k = Some s →
  (∀ j p, j ≠ k → sl !! j = Some (SRun p) → pc_of l' p = pc_of l p) →
  (slot_sum f l' (<[k := s']> sl) + slot_cost f l s = slot_sum f l sl + slot_cost f l' s')%nat.
Proof.
  revert k. unfold slot_sum. induction sl as [|x sl IH]; intros k Hk Hext; [done|].
  destruct k as [|k]; simpl in *.
  - injection Hk as ->. assert (sum_list_with (slot_cost f l') sl = sum_list_with (slot_cost f l) sl) as ->; [|lia].
    clear IH. assert (∀ j p, sl !! j = Some (SRun p) → pc_of l' p = pc_of l p) as Hsl
      by (intros j p Hj; by apply (Hext (S j) p)).
    clear Hext. induction sl as [|y sl IH]; simpl; [done|]. f_equal.
    + destruct y as [|p|]; simpl; try done. by rewrite (Hsl 0%nat p).
    + apply IH. intros j p. by apply (Hsl (S j) p).
  - assert (slot_cost f l' x = slot_cost f l x) as ->.
    { destruct x as [|p|]; simpl; try done. by rewrite (Hext 0%nat p). }
    specialize (IH k Hk). rewrite <-!Nat.add_assoc. f_equal. apply IH.
    intros j p Hj. apply (Hext (S j) p). lia.
Qed.

(** ** The effects of the calls *)

(** The other slots do not see a change of handle [h], of task [p] and of the
    local state of [p]. *)
Lemma slot_elsewhere ts hd l wait ts' hd' l' wait' j h s :
  slot_ok ts hd l wait j h s → hd' !! h = hd !! h →
  (∀ q, task_of s = Some q → ts' !! q = ts !! q ∧ (fj_pcs l !! q = None → fj_pcs l' !! q = None)) →
  (wait' = Some j ↔ wait = Some j) → slot_ok ts' hd' l' wait' j h s.
Proof.
  intros Hok Eh Hq Hw. assert (joiner wait' j = joiner wait j) as Ej
    by (unfold joiner; by rewrite (bool_decide_ext _ _ Hw)).
  destruct s as [|p|p v]; simpl in *; rewrite ?Eh, ?Ej; [done|..].
  - destruct (Hq p eq_refl) as [-> _]. done.
  - destruct (Hq p eq_refl) as [-> Hpc], Hok as (? & ? & ? & ? & ?). auto 10.
Qed.

Lemma due_after_join more i j :
  (i < length threads)%nat → due (after_join more i) j ↔ due (MJoin more i) j ∧ j ≠ i.
Proof.
  intros Hi. unfold after_join. destruct (Nat.ltb_spec (S i) (length threads)); simpl.
  - lia.
  - destruct more; simpl; lia.
Qed.

Lemma due_after_spawn more i j :
  (i < length threads)%nat → due (after_spawn more i) j ↔ due (MSpawn more i) j ∨ j = i.
Proof.
  intros Hi. unfold after_spawn. destruct (Nat.ltb_spec (S i) (length threads)); simpl; lia.
Qed.

Lemma index_after more i :
  (i < length threads)%nat → index_ok (after_spawn more i) ∧ index_ok (after_join more i).
Proof.
  intros Hi. unfold after_spawn, after_join.
  destruct (Nat.ltb_spec (S i) (length threads)); simpl; [done|]. destruct more; simpl; lia.
Qed.

Lemma cost_after more i :
  (i < length threads)%nat →
  main_cost (MSpawn more i) = (4 + main_cost (after_spawn more i))%nat ∧
  main_cost (MJoin more i) = S (main_cost (after_join more i)) ∧
  main_stores (MSpawn more i) = S (main_stores (after_spawn more i)) ∧
  main_stores (MJoin more i) = main_stores (after_join more i).
Proof.
  intros Hi. unfold after_spawn, after_join.
  destruct (Nat.ltb_spec (S i) (length threads)); [|destruct more as [|more]]; cbn [main_cost main_stores]; lia.
Qed.

(** A finished task is collected. *)
Lemma inv_collect ts ts' hd l l' sl wait k h p v :
  inv ts hd l sl wait → threads !! k = Some h → sl !! k = Some (SFin p v) →
  ts' !! main = Some (mkAtask 0 0 0 (Ready CPlain)) → (∀ q, q ≠ main → ts' !! q = ts !! q) →
  fj_pcs l' = fj_pcs l → wait = None ∨ wait = Some k →
  (∀ j, due (fj_main l') j ↔ (due (fj_main l) j ∨ wait = Some j) ∧ j ≠ k) →
  index_ok (fj_main l') →
  inv (delete p ts') (<[h := 0]> hd) l' (<[k := SEmpty]> sl) None.
Proof.
  intros Hi Hh Hs Hm Hts Hpcs Hw Hdue Hx.
  pose proof (fi_slot _ _ _ _ _ Hi k h _ Hh Hs) as (Hpm & Hp0 & _ & Hpc & Htp).
  apply (inv_update ts hd l sl wait _ _ l' None k h (SFin p v)); try done.
  - by rewrite lookup_delete_ne.
  - apply lookup_insert_eq.
  - intros j hj x Hj Hhj Hxj Hne Hq Hok. apply (slot_elsewhere ts hd l wait); [done| | |].
    + by rewrite lookup_insert_ne.
    + intros q Hxq. destruct (Hq q Hxq) as (Hsq & ? & ?). simpl in Hsq.
      rewrite Hpcs, lookup_delete_ne, Hts by congruence. done.
    + destruct Hw as [->| ->]; split; congruence.
  - intros q t Ht. apply lookup_delete_Some in Ht as [Hqp Ht]. right. right.
    destruct (decide (q = main)) as [->|Hqm]; [|rewrite <-Hts by done; simpl; split; [eauto|congruence]].
    split; [rewrite (fi_main _ _ _ _ _ Hi); eauto|simpl; congruence].
  - intros q pc Hq. right. rewrite Hpcs in Hq. split; [eauto|]. simpl. congruence.
  - intros j Hj. rewrite Hdue. split; [by intros [[? _]|?]|by left].
  - split; [|done]. intros _ [Hd|?]; [|done]. by apply Hdue in Hd as [_ ?].
Qed.

(** A task is spawned. *)
Lemma inv_spawn ts hd l sl k more h p :
  inv ts hd l sl None → fj_main l = MSpawn more k → threads !! k = Some h → p ≠ 0 → ts !! p = None →
  inv (<[p := mkAtask something shared 0 (Ready CPlain)]> ts) (<[h := p]> hd)
    (set_main (after_spawn more k) l) (<[k := SRun p]> sl) None ∧ sl !! k = Some SEmpty.
Proof.
  intros Hi Hl Hh Hp0 Hp. destruct (inv_slot _ _ _ _ _ k h Hi Hh) as (s & Hs & Hok).
  pose proof (lookup_lt_Some _ _ _ Hh) as Hk.
  assert (s = SEmpty) as ->.
  { apply (fi_due _ _ _ _ _ Hi k s Hs). rewrite Hl. simpl. intros [?|?]; [lia|done]. }
  split; [|done].
  assert (p ≠ main) as Hpm by (intros ->; by rewrite (fi_main _ _ _ _ _ Hi) in Hp).
  apply (inv_update ts hd l sl None _ _ _ None k h SEmpty); try done.
  - rewrite lookup_insert_ne by done. apply Hi.
  - simpl. rewrite !lookup_insert_eq. done.
  - intros j hj x Hj Hhj Hxj Hne Hq Hok'. apply (slot_elsewhere ts hd l None); [done| | |done].
    + by rewrite lookup_insert_ne.
    + intros q Hxq. destruct (slot_live _ _ _ _ _ _ _ q Hok' Hxq) as (_ & _ & _ & [t Ht]).
      split; [|done]. rewrite lookup_insert_ne; [done|]. intros ->. congruence.
  - intros q t Ht. apply lookup_insert_Some in Ht as [[-> _]|[_ Ht]]; [auto|]. right. right. eauto.
  - intros q [= <-]. by right.
  - intros q pc Hq. right. eauto.
  - intros j Hj. simpl. rewrite due_after_spawn, Hl by done. tauto.
  - split; [done|]. intros []. left. simpl. rewrite due_after_spawn by done. by right.
  - by apply index_after.
Qed.

(** The benchmark waits for a task that still runs. *)
Lemma inv_await A l sl k more h p :
  inv (s_tasks A) (s_handles A) l sl None → s_cur A = main → fj_main l = MJoin more k →
  threads !! k = Some h → sl !! k = Some (SRun p) →
  inv (s_tasks (await h 0 p A)) (s_handles A) (set_main (after_join more k) l) sl (Some k).
Proof.
  intros Hi Hcur Hl Hh Hs. pose proof (lookup_lt_Some _ _ _ Hh) as Hk.
  pose proof (fi_slot _ _ _ _ _ Hi k h _ Hh Hs) as (Hpm & Hp0 & Hhp & Htp).
  rewrite <-(list_insert_id sl k (SRun p)) by done. unfold await. cbn [turn_to on_tasks s_tasks].
  rewrite Hcur.
  apply (inv_update (s_tasks A) (s_handles A) l sl None _ _ _ (Some k) k h (SRun p)); try done.
  - rewrite lookup_alter_eq, lookup_alter_ne, (fi_main _ _ _ _ _ Hi) by done. simpl.
    by rewrite Hh, list_lookup_insert_eq by (by eapply lookup_lt_Some).
  - simpl. split_and!; [done..|]. rewrite lookup_alter_ne, lookup_alter_eq, Htp by done.
    unfold joiner. by rewrite (bool_decide_true (Some k = Some k)).
  - intros j hj x Hj Hhj Hxj Hne Hq Hok. apply (slot_elsewhere (s_tasks A) (s_handles A) l None); [done|done| |].
    + intros q Hxq. destruct (Hq q Hxq) as (Hsq & ? & ?). simpl in Hsq.
      by rewrite !lookup_alter_ne by congruence.
    + split; [|done]. intros [= ->]. done.
  - intros q t Ht. assert (is_Some (s_tasks A !! q)) as [t0 Hq].
    { destruct (s_tasks A !! q) as [t0|] eqn:Hq; [eauto|].
      rewrite (proj2 (lookup_alter_None _ _ _ _)) in Ht; [done|]. by apply lookup_alter_None. }
    destruct (decide (q = p)) as [->|Hqp]; [auto|]. right. right. split; [eauto|]. simpl. congruence.
  - by left.
  - intros q pc Hq. destruct (decide (q = p)) as [->|Hqp]; [auto|]. right. split; [eauto|]. simpl. congruence.
  - intros j Hj. simpl. rewrite due_after_join, Hl by done. split; [|intros [?|?]; [auto|done]].
    intros [[? _]|[= ->]]; [by left|done].
  - split; [done|]. intros []. by right.
  - intros j [= <-]. split; [|done]. simpl. rewrite due_after_join by done. by intros [_ ?].
  - by apply index_after.
Qed.

(** A task ends. *)
Lemma inv_finish A l sl wait k h c :
  inv (s_tasks A) (s_handles A) l sl wait → threads !! k = Some h → sl !! k = Some (SRun c) →
  let l' := mkFj (fj_main l) (delete c (fj_pcs l)) (fj_shared l) in
  inv (s_tasks (finish c 0 A)) (s_handles A) l' (<[k := SFin c 0]> sl) wait ∧
  s_handles (finish c 0 A) = s_handles A.
Proof.
  intros Hi Hh Hs l'. pose proof (fi_slot _ _ _ _ _ Hi k h _ Hh Hs) as (Hcm & Hc0 & Hhc & Htc).
  unfold finish. rewrite Htc. split; [|done]. cbn [on_tasks s_tasks at_joiner].
  assert (named (s_handles A) c = true) as -> by (apply named_true; eauto).
  assert (∀ q, q ≠ c → q ≠ main → alter (set_at_status (Finished 0)) c
            (wake (joiner wait k) (s_tasks A)) !! q = s_tasks A !! q) as Hsame.
  { intros q Hqc Hqm. rewrite lookup_alter_ne by done. unfold wake, joiner.
    case_bool_decide; [by rewrite lookup_alter_ne|]. destruct (decide (q = 0)) as [->|Hq0].
    - rewrite lookup_alter_eq. destruct (s_tasks A !! 0) as [t|] eqn:Ht; [|done].
      destruct (fi_tasks _ _ _ _ _ Hi 0 t Ht) as [Heq|(j & x & Hxj & Hx)]; [by destruct Hmain|].
      destruct (inv_handle _ _ _ _ _ j x Hi Hxj) as (hj & _ & Hok).
      by destruct (slot_live _ _ _ _ _ _ _ 0 Hok Hx) as (_ & ? & _).
    - by rewrite lookup_alter_ne. }
  apply (inv_update (s_tasks A) (s_handles A) l sl wait _ _ l' wait k h (SRun c)); try done.
  - rewrite lookup_alter_ne by done. unfold wake, joiner, main_status.
    pose proof (fi_main _ _ _ _ _ Hi) as Hm. unfold main_status in Hm. case_bool_decide as Hw.
    + rewrite Hw in Hm |- *. rewrite Hh, Hs in Hm. rewrite lookup_alter_eq, Hm. simpl.
      by rewrite Hh, list_lookup_insert_eq by (by eapply lookup_lt_Some).
    + rewrite lookup_alter_ne, Hm by done. destruct wait as [j|]; [|done].
      by rewrite list_lookup_insert_ne by congruence.
  - simpl. rewrite lookup_delete_eq, lookup_alter_eq. split_and!; try done. unfold wake.
    rewrite lookup_alter_ne, Htc; [done|]. unfold joiner. by case_bool_decide.
  - intros j hj x Hj Hhj Hxj Hne Hq Hok. apply (slot_elsewhere (s_tasks A) (s_handles A) l wait); [done|done| |done].
    intros q Hxq. destruct (Hq q Hxq) as (Hsq & ? & ?). simpl in Hsq.
    rewrite Hsame by congruence. split; [done|]. intros Hn. simpl. rewrite lookup_delete_None. by right.
  - intros q t Ht. destruct (decide (q = main)) as [|Hqm]; [by left|].
    destruct (decide (q = c)) as [->|Hqc]; [auto|]. rewrite Hsame in Ht by done. right. right.
    split; [eauto|]. simpl. congruence.
  - by left.
  - intros q pc Hq. simpl in Hq. apply lookup_delete_Some in Hq as [? Hq]. right. split; [eauto|].
    simpl. congruence.
  - split; [done|]. intros Hno. pose proof (fi_due _ _ _ _ _ Hi k _ Hs) as [_ Hd]. by specialize (Hd Hno).
  - exact (fi_wait _ _ _ _ _ Hi).
  - apply Hi.
Qed.

(** A task makes a step of its own. *)
Lemma inv_local ts hd l sl wait k h c pc v :
  inv ts hd l sl wait → threads !! k = Some h → sl !! k = Some (SRun c) →
  inv ts hd (mkFj (fj_main l) (<[c := pc]> (fj_pcs l)) v) sl wait.
Proof.
  intros Hi Hh Hs. pose proof (fi_slot _ _ _ _ _ Hi k h _ Hh Hs) as Hok.
  rewrite <-(list_insert_id sl k (SRun c)) by done.
  apply (inv_update ts hd l sl wait _ _ _ wait k h (SRun c)); try done.
  - rewrite list_insert_id by done. apply Hi.
  - intros j hj x Hj Hhj Hxj Hne Hq Hok'. apply (slot_elsewhere ts hd l wait); [done|done| |done].
    intros q Hxq. destruct (Hq q Hxq) as (Hsq & _). split; [done|]. simpl in *.
    rewrite lookup_insert_ne by congruence. done.
  - intros q t Ht. destruct (decide (q = c)) as [->|Hqc]; [auto|]. right. right.
    split; [eauto|]. simpl. congruence.
  - by left.
  - intros q x Hq. simpl in Hq. apply lookup_insert_Some in Hq as [[-> _]|[? Hq]]; [by left|right].
    split; [eauto|]. simpl. congruence.
  - split; [done|]. intros Hno. pose proof (fi_due _ _ _ _ _ Hi k _ Hs) as [_ Hd]. by specialize (Hd Hno).
  - exact (fi_wait _ _ _ _ _ Hi).
  - apply Hi.
Qed.

(** ** The invariant of the program *)

(** The value of the word never exceeds the stores made so far out of [total]. *)
Definition bounded (total : Z) (l : fj) (stores : nat) : Prop :=
  0 ≤ fj_shared l ∧ fj_shared l + Z.of_nat stores ≤ total ∧
  ∀ q v, fj_pcs l !! q = Some (WStore v) → 0 ≤ v ∧ v + Z.of_nat stores ≤ total.

Definition cost (l : fj) (sl : list slot) : nat := main_cost (fj_main l) + slot_sum pc_cost l sl.
Definition stores (l : fj) (sl : list slot) : nat := main_stores (fj_main l) + slot_sum pc_stores l sl.

(** Between two steps, but for who runs. *)
Definition paused (total : Z) (A : astate) (l : fj) (n : nat) : Prop :=
  ∃ sl wait, inv (s_tasks A) (s_handles A) l sl wait ∧ bounded total l (stores l sl) ∧ n = cost l sl.
Definition at_step (total : Z) (A : astate) (l : fj) (n : nat) : Prop :=
  paused total A l n ∧ at_status <$> s_tasks A !! s_cur A = Some (Ready CPlain).

Lemma runnable_ready A q : runnable A q = true → ∃ t k, s_tasks A !! q = Some t ∧ at_status t = Ready k.
Proof.
  unfold runnable. destruct (s_tasks A !! q) as [t|]; [|done]. simpl.
  destruct (at_status t) eqn:Hs; try done. eauto.
Qed.

(** The slot of the handle [join] waits for is not empty. *)
Lemma inv_wait ts hd l sl k :
  inv ts hd l sl (Some k) → ∃ h s, threads !! k = Some h ∧ sl !! k = Some s ∧ s ≠ SEmpty ∧
    slot_ok ts hd l (Some k) k h s.
Proof.
  intros Hi. destruct (fi_wait _ _ _ _ _ Hi k eq_refl) as [_ Hk].
  apply lookup_lt_is_Some in Hk as [h Hh]. destruct (inv_slot _ _ _ _ _ k h Hi Hh) as (s & Hs & Hok).
  exists h, s. split_and!; [done..| |done]. rewrite (fi_due _ _ _ _ _ Hi k s Hs). tauto.
Qed.

(** A runnable task is the benchmark or a task of a handle. *)
Lemma inv_runnable A l sl wait q :
  inv (s_tasks A) (s_handles A) l sl wait → runnable A q = true → q ≠ main →
  ∃ k h, threads !! k = Some h ∧ sl !! k = Some (SRun q).
Proof.
  intros Hi (t & x & Ht & Hx)%runnable_ready Hq.
  destruct (fi_tasks _ _ _ _ _ Hi q t Ht) as [?|(k & s & Hs & Hsq)]; [done|].
  destruct (inv_handle _ _ _ _ _ k s Hi Hs) as (h & Hh & Hok). exists k, h. split; [done|].
  destruct s as [|p|p v]; simpl in Hsq; [done|..]; injection Hsq as ->; [done|].
  destruct Hok as (_ & _ & _ & _ & Hp). rewrite Ht in Hp. injection Hp as ->. done.
Qed.

Lemma someone_runs A l sl wait :
  inv (s_tasks A) (s_handles A) l sl wait → ∃ q, runnable A q = true.
Proof.
  intros Hi. pose proof (fi_main _ _ _ _ _ Hi) as Hm. unfold main_status in Hm.
  destruct wait as [k|]; [|exists main; unfold runnable; by rewrite Hm].
  destruct (inv_wait _ _ _ _ _ Hi) as (h & s & Hh & Hs & Hne & Hok). rewrite Hh, Hs in Hm.
  destruct s as [|p|p v]; [done|..].
  - exists p. unfold runnable. destruct Hok as (_ & _ & _ & ->). done.
  - exists main. unfold runnable. by rewrite Hm.
Qed.

Lemma slot_sum_main f x l sl : slot_sum f (set_main x l) sl = slot_sum f l sl.
Proof. done. Qed.

Lemma slot_sum_collect f l l' sl k p v :
  sl !! k = Some (SFin p v) → fj_pcs l' = fj_pcs l →
  slot_sum f l' (<[k := SEmpty]> sl) = slot_sum f l sl.
Proof.
  intros Hs Hp. pose proof (slot_sum_update f l l' sl k (SFin p v) SEmpty Hs) as H.
  simpl in H. rewrite !Nat.add_0_r in H. apply H. intros j q _ _. unfold pc_of. by rewrite Hp.
Qed.

Lemma dispatch_step total A l n q :
  paused total A l n → runnable A q = true → at_step total (dispatch q A) l n.
Proof.
  intros (sl & wait & Hi & Hb & ->) Hr. destruct (decide (q = main)) as [->|Hq].
  2:{ destruct (inv_runnable A l sl wait q Hi Hr Hq) as (k & h & Hh & Hs).
      destruct (fi_slot _ _ _ _ _ Hi k h _ Hh Hs) as (_ & _ & _ & Hp).
      unfold dispatch. rewrite Hp. simpl. split; [by exists sl, wait|]. simpl. by rewrite Hp. }
  pose proof (fi_main _ _ _ _ _ Hi) as Hm. unfold main_status in Hm. destruct wait as [k|].
  2:{ unfold dispatch. rewrite Hm. simpl. split; [by exists sl, None|]. simpl. by rewrite Hm. }
  destruct (inv_wait _ _ _ _ _ Hi) as (h & s & Hh & Hs & Hne & Hok). rewrite Hh, Hs in Hm.
  destruct s as [|p|p v]; [done|unfold runnable in Hr; by rewrite Hm in Hr|].
  destruct Hok as (Hpm & Hp0 & Hhp & Hpc & Hp). unfold dispatch. rewrite Hm. simpl.
  rewrite (collect_eq _ h 0 p v); [|done|by simpl; rewrite lookup_alter_ne, Hp].
  assert (alter (set_at_status (Ready CPlain)) main (s_tasks A) !! main =
            Some (mkAtask 0 0 0 (Ready CPlain))) as Hm' by (by rewrite lookup_alter_eq, Hm).
  split.
  - exists (<[k := SEmpty]> sl), None. unfold cost, stores in *.
    rewrite !(slot_sum_collect _ l l sl k p v) by done. split_and!; [|done..]. simpl.
    eapply (inv_collect _ _ _ _ _ _ _ _ _ _ v Hi Hh Hs Hm'); [|done|by right| |apply Hi].
    + intros x Hx. by rewrite lookup_alter_ne.
    + intros j. destruct (fi_wait _ _ _ _ _ Hi k eq_refl) as [Hd _]. split.
      * intros Hj. split; [by left|]. by intros ->.
      * intros [[Hj|Hj] Hne']; [done|]. congruence.
  - simpl. by rewrite lookup_delete_ne, Hm'.
Qed.

(** ** The steps of the benchmark *)

Lemma main_waits_not A l sl wait :
  inv (s_tasks A) (s_handles A) l sl wait → s_cur A = main →
  at_status <$> s_tasks A !! s_cur A = Some (Ready CPlain) → wait = None.
Proof.
  intros Hi -> Hst. rewrite (fi_main _ _ _ _ _ Hi) in Hst. destruct wait as [k|]; [|done].
  destruct (inv_wait _ _ _ _ _ Hi) as (h & s & Hh & Hs & _). simpl in Hst. rewrite Hh, Hs in Hst.
  by destruct s.
Qed.

Lemma bounded_main total l x n : bounded total (set_main x l) n ↔ bounded total l n.
Proof. done. Qed.

Lemma spawn_step total A l sl more i h n p :
  inv (s_tasks A) (s_handles A) l sl None → bounded total l (stores l sl) → S n = cost l sl →
  fj_main l = MSpawn more i → threads !! i = Some h → s_cur A = main → p ≠ 0 → s_tasks A !! p = None →
  at_step total (on_handles <[h := p]> (on_tasks <[p := mkAtask something shared 0 (Ready CPlain)]> A))
    (set_main (after_spawn more i) l) n.
Proof.
  intros Hi Hb Hn Hl Hh Hcur Hp0 Hp.
  destruct (inv_spawn _ _ _ _ _ _ _ _ Hi Hl Hh Hp0 Hp) as [Hi' Hs].
  destruct (cost_after more i (lookup_lt_Some _ _ _ Hh)) as (Hc1 & _ & Hc2 & _).
  assert (pc_of l p = WLoad) as Hpc.
  { unfold pc_of. destruct (fj_pcs l !! p) as [x|] eqn:Hx; [|done].
    destruct (fi_pcs _ _ _ _ _ Hi p x Hx) as [k Hk].
    destruct (inv_handle _ _ _ _ _ k _ Hi Hk) as (hk & _ & _ & _ & _ & ?). congruence. }
  split.
  - exists (<[i := SRun p]> sl), None. split; [exact Hi'|]. unfold cost, stores in *.
    rewrite !slot_sum_main. simpl. rewrite Hl in Hn, Hb.
    pose proof (slot_sum_update pc_cost l l sl i SEmpty (SRun p) Hs ltac:(done)) as U1.
    pose proof (slot_sum_update pc_stores l l sl i SEmpty (SRun p) Hs ltac:(done)) as U2.
    simpl in U1, U2. rewrite Hpc in U1, U2. simpl in U1, U2. split; [|lia].
    apply bounded_main. replace (_ + _)%nat with (main_stores (MSpawn more i) + slot_sum pc_stores l sl)%nat by lia.
    done.
  - simpl. rewrite Hcur, lookup_insert_ne; [by rewrite (fi_main _ _ _ _ _ Hi)|]. intros ->.
    by rewrite (fi_main _ _ _ _ _ Hi) in Hp.
Qed.

(** The effect of [join] on the handle of a slot. *)
Lemma target_slot A l sl k h s q t :
  inv (s_tasks A) (s_handles A) l sl None → threads !! k = Some h → sl !! k = Some s →
  task_of s = Some q → s_tasks A !! q = Some t → target A h = Some (q, t).
Proof.
  intros Hi Hh Hs Hq Ht. pose proof (fi_slot _ _ _ _ _ Hi k h s Hh Hs) as Hok.
  destruct (slot_live _ _ _ _ _ _ _ q Hok Hq) as (_ & _ & Hhq & _).
  unfold target. rewrite bool_decide_false, Hhq; [by simpl; rewrite Ht|].
  intros ->. apply Hnull. by eapply list_elem_of_lookup_2.
Qed.

Lemma join_collect_step total A l sl more i h n p v :
  inv (s_tasks A) (s_handles A) l sl None → bounded total l (stores l sl) → S n = cost l sl →
  fj_main l = MJoin more i → threads !! i = Some h → s_cur A = main → sl !! i = Some (SFin p v) →
  effect_of 0 A (Join h 0) = Keep (collect h 0 A) ∧
  at_step total (collect h 0 A) (set_main (after_join more i) l) n.
Proof.
  intros Hi Hb Hn Hl Hh Hcur Hs. pose proof (lookup_lt_Some _ _ _ Hh) as Hk.
  pose proof (fi_slot _ _ _ _ _ Hi i h _ Hh Hs) as (Hpm & Hp0 & Hhp & Hpc & Hp).
  pose proof (target_slot A l sl i h _ p _ Hi Hh Hs eq_refl Hp) as Htg.
  split; [cbn; by rewrite Htg|]. rewrite (collect_eq _ h 0 p v); [|done|by rewrite Hp].
  destruct (cost_after more i Hk) as (_ & Hc1 & _ & Hc2). split.
  - exists (<[i := SEmpty]> sl), None. unfold cost, stores in *.
    rewrite !(slot_sum_collect _ l _ sl i p v) by done. rewrite Hl in Hn, Hb. simpl.
    split_and!; [|apply bounded_main; by rewrite <-Hc2|lia].
    eapply (inv_collect _ _ _ _ _ _ _ _ _ _ v Hi Hh Hs); [apply Hi|done|done|by left| |by apply index_after].
    intros j. simpl. rewrite due_after_join, Hl by done. split; [by intros [? ?]; auto|].
    by intros [[?|?] ?].
  - simpl. by rewrite Hcur, lookup_delete_ne, (fi_main _ _ _ _ _ Hi).
Qed.

Lemma join_await_step total A l sl more i h n p :
  inv (s_tasks A) (s_handles A) l sl None → bounded total l (stores l sl) → S n = cost l sl →
  fj_main l = MJoin more i → threads !! i = Some h → s_cur A = main → sl !! i = Some (SRun p) →
  effect_of 0 A (Join h 0) = Give (await h 0 p A) ∧
  paused total (await h 0 p A) (set_main (after_join more i) l) n.
Proof.
  intros Hi Hb Hn Hl Hh Hcur Hs. pose proof (lookup_lt_Some _ _ _ Hh) as Hk.
  pose proof (fi_slot _ _ _ _ _ Hi i h _ Hh Hs) as (Hpm & Hp0 & Hhp & Hp).
  pose proof (target_slot A l sl i h _ p _ Hi Hh Hs eq_refl Hp) as Htg.
  split; [cbn; by rewrite Htg|]. destruct (cost_after more i Hk) as (_ & Hc1 & _ & Hc2).
  exists sl, (Some i). split; [exact (inv_await A l sl i more h p Hi Hcur Hl Hh Hs)|]. unfold cost, stores in *.
  rewrite !slot_sum_main. rewrite Hl in Hn, Hb. simpl. split; [|lia].
  apply bounded_main. by rewrite <-Hc2.
Qed.

(** ** The steps of [something] *)

Lemma local_step total A l sl wait k h c pc v n :
  inv (s_tasks A) (s_handles A) l sl wait → threads !! k = Some h → sl !! k = Some (SRun c) →
  at_status <$> s_tasks A !! s_cur A = Some (Ready CPlain) → S n = cost l sl →
  pc_cost (pc_of l c) = S (pc_cost pc) →
  let l' := mkFj (fj_main l) (<[c := pc]> (fj_pcs l)) v in
  (∀ d, (d + pc_stores (pc_of l c) = stores l sl + pc_stores pc)%nat → bounded total l' d) →
  at_step total A l' n.
Proof.
  intros Hi Hh Hs Hcur Hn Hpc l' Hb.
  assert (∀ f, (slot_sum f l' sl + f (pc_of l c) = slot_sum f l sl + f pc)%nat) as Hsum.
  { intros f. pose proof (slot_sum_update f l l' sl k (SRun c) (SRun c) Hs) as U.
    rewrite list_insert_id in U by done. simpl in U. unfold pc_of in U at 4. simpl in U.
    rewrite lookup_insert_eq in U. apply U. intros j p Hj Hp. unfold pc_of. simpl.
    rewrite lookup_insert_ne; [done|]. intros ->. by destruct Hj; eapply (fi_inj _ _ _ _ _ Hi). }
  split; [|done]. exists sl, wait. split; [by eapply inv_local|].
  unfold cost, stores in *. pose proof (Hsum pc_cost). pose proof (Hsum pc_stores).
  split; [|cbn [fj_main l'] in *; lia]. apply Hb. cbn [fj_main l'] in *. lia.
Qed.

Lemma return_step total A l sl wait k h n c :
  inv (s_tasks A) (s_handles A) l sl wait → bounded total l (stores l sl) → S n = cost l sl →
  threads !! k = Some h → sl !! k = Some (SRun c) → s_cur A = c → pc_of l c = WReturn →
  effect_of 0 A (Return 0) = Give (finish c 0 A) ∧
  paused total (finish c 0 A) (mkFj (fj_main l) (delete c (fj_pcs l)) (fj_shared l)) n.
Proof.
  intros Hi Hb Hn Hh Hs Hcur Hpc.
  destruct (fi_slot _ _ _ _ _ Hi k h _ Hh Hs) as (_ & _ & _ & Hc).
  split. { cbn. rewrite Hcur, Hc. cbn. rewrite bool_decide_false; [done|]. by intros [= ?]. }
  destruct (inv_finish A l sl wait k h c Hi Hh Hs) as [Hi' Eh].
  set (l' := mkFj _ _ _) in *.
  assert (∀ f, (slot_sum f l' (<[k := SFin c 0]> sl) + f WReturn = slot_sum f l sl)%nat) as Hsum.
  { intros f. pose proof (slot_sum_update f l l' sl k (SRun c) (SFin c 0) Hs) as U. simpl in U.
    rewrite Hpc, Nat.add_0_r in U. apply U. intros j p Hj Hp. unfold pc_of. simpl.
    rewrite lookup_delete_ne; [done|]. intros ->. by destruct Hj; eapply (fi_inj _ _ _ _ _ Hi). }
  exists (<[k := SFin c 0]> sl), wait. rewrite Eh. split; [done|]. unfold cost, stores in *.
  pose proof (Hsum pc_cost) as H1. pose proof (Hsum pc_stores) as H2. simpl in H1, H2.
  change (fj_main l') with (fj_main l). split; [|lia]. destruct Hb as (? & ? & Hv).
  split_and!; cbn [fj_shared fj_pcs l']; [done|lia|]. intros q v Hq. apply lookup_delete_Some in Hq as [_ Hq].
  specialize (Hv q v Hq). lia.
Qed.

(** Nothing is left to do when every handle is empty. *)
Lemma empty_sum f l sl : (∀ k s, sl !! k = Some s → s = SEmpty) → slot_sum f l sl = O.
Proof.
  unfold slot_sum. induction sl as [|x sl IH]; intros Hall; [done|]. simpl.
  rewrite IH by (intros k s Hs; by apply (Hall (S k))). by rewrite (Hall 0%nat x).
Qed.

Context {E : Env} (b : bool) (Hattr : attr_ok b a) (total : Z) (Htotal : 0 ≤ total < two64).

Lemma main_step A l n :
  at_step total A l (S n) → s_cur A = main →
  match fork_join l main with
  | Stop => False
  | Local l' => at_step total A l' n
  | Call o l' => aop_ok b A o ∧ (∀ e, ¬ refuses A o e) ∧ ¬ stalls A o ∧
      ∀ A', astep A o A' → at_step total A' l' n
  end.
Proof.
  intros [(sl & wait & Hi & Hb & Hn) Hst] Hcur.
  assert (wait = None) as -> by (by eapply main_waits_not). pose proof (fi_index _ _ _ _ _ Hi) as Hx.
  unfold fork_join. rewrite bool_decide_true by done. destruct (fj_main l) as [more i|more i|] eqn:Hl.
  - apply lookup_lt_is_Some in Hx as [h Hh]. rewrite Hh.
    assert (h ≠ 0) as Hh0 by (intros ->; apply Hnull; by eapply list_elem_of_lookup_2).
    destruct (inv_slot _ _ _ _ _ i h Hi Hh) as (s & Hs & Hok).
    assert (s = SEmpty) as ->.
    { apply (fi_due _ _ _ _ _ Hi i s Hs). rewrite Hl. simpl. intros [?|?]; [lia|done]. }
    split; [done|]. unfold refuses, stalls. cbn. rewrite bool_decide_false by done.
    split_and!; [done|by intros (? & ? & _)|]. intros A' Hst'.
    destruct Hst' as [p A' [Hp0 Hp] Hk|A1 q Hg _|A1 q Hg _]; cbn in *;
      rewrite bool_decide_false in * by done; [|done..].
    injection Hk as <-. by eapply spawn_step.
  - apply lookup_lt_is_Some in Hx as [h Hh]. rewrite Hh.
    destruct (inv_slot _ _ _ _ _ i h Hi Hh) as (s & Hs & Hok).
    pose proof (lookup_lt_Some _ _ _ Hh) as Hk.
    destruct s as [|p|p v].
    { exfalso. apply (fi_due _ _ _ _ _ Hi i _ Hs); [done|]. left. rewrite Hl. simpl. lia. }
    + destruct (join_await_step total A l sl more i h n p) as [Heff Hp]; try done.
      split; [destruct Hok as (_ & _ & Hhp & _); cbn; by rewrite Hhp|]. unfold refuses, stalls. rewrite Heff.
      split_and!; [done| |].
      * intros (A1 & [= <-] & Hno). destruct Hp as (sl' & w' & Hi' & _).
        destruct (someone_runs _ _ _ _ Hi') as [q Hq]. by rewrite Hno in Hq.
      * intros A' Hst'. destruct Hst' as [q A' Hq0 Hg|A1 q Hg Hr|A1 q Hg _]; [cbn in Hq0; subst q| |];
          rewrite Heff in Hg; [done| |done]. injection Hg as <-. by apply dispatch_step.
    + destruct (join_collect_step total A l sl more i h n p v) as [Heff Hp]; try done.
      split; [destruct Hok as (_ & _ & Hhp & _); cbn; by rewrite Hhp|]. unfold refuses, stalls. rewrite Heff.
      split_and!; [done|by intros (? & ? & _)|]. intros A' Hst'.
      destruct Hst' as [q A' Hq0 Hg|A1 q Hg _|A1 q Hg _]; [cbn in Hq0; subst q| |];
        rewrite Heff in Hg; [|done..]. by injection Hg as <-.
  - unfold cost in Hn. rewrite Hl, (empty_sum pc_cost l sl) in Hn; [done|]. intros k s Hs.
    apply (fi_due _ _ _ _ _ Hi k s Hs). rewrite Hl. by intros [?|?].
Qed.

Lemma worker_step A l n :
  at_step total A l (S n) → s_cur A ≠ main →
  match fork_join l (s_cur A) with
  | Stop => False
  | Local l' => at_step total A l' n
  | Call o l' => aop_ok b A o ∧ (∀ e, ¬ refuses A o e) ∧ ¬ stalls A o ∧
      ∀ A', astep A o A' → at_step total A' l' n
  end.
Proof.
  intros [(sl & wait & Hi & Hb & Hn) Hst] Hcur.
  assert (runnable A (s_cur A) = true) as Hr.
  { unfold runnable. by destruct (s_tasks A !! s_cur A) as [[? ? ? []]|]. }
  destruct (inv_runnable A l sl wait _ Hi Hr Hcur) as (k & h & Hh & Hs).
  unfold fork_join. rewrite bool_decide_false by done. pose proof Hb as (Hs0 & Hs1 & Hv).
  destruct (pc_of l (s_cur A)) as [|v|] eqn:Hpc.
  - eapply (local_step total A l sl wait k h (s_cur A)); try done; [by rewrite Hpc|].
    intros d Hd. rewrite Hpc in Hd. simpl in Hd. split_and!; simpl; [done|lia|].
    intros q x Hq. apply lookup_insert_Some in Hq as [[_ [= <-]]|[_ Hq]]; [lia|].
    specialize (Hv q x Hq). lia.
  - eapply (local_step total A l sl wait k h (s_cur A)); try done; [by rewrite Hpc|].
    intros d Hd. rewrite Hpc in Hd. simpl in Hd.
    assert (0 ≤ v ∧ v + Z.of_nat (stores l sl) ≤ total) as [Hv0 Hv1].
    { apply (Hv (s_cur A)). unfold pc_of in Hpc. destruct (fj_pcs l !! s_cur A); simpl in Hpc; congruence. }
    split_and!; simpl; rewrite ?wrap64_small by lia; [lia|lia|].
    intros q x Hq. apply lookup_insert_Some in Hq as [[_ ?]|[_ Hq]]; [done|].
    specialize (Hv q x Hq). lia.
  - destruct (return_step total A l sl wait k h n (s_cur A)) as [Heff Hp]; try done.
    split; [done|]. unfold refuses, stalls. rewrite Heff. split_and!; [done| |].
    + intros (A1 & [= <-] & Hno). destruct Hp as (sl' & w' & Hi' & _).
      destruct (someone_runs _ _ _ _ Hi') as [q Hq]. by rewrite Hno in Hq.
    + intros A' Hst'. destruct Hst' as [q A' Hq0 Hg|A1 q Hg Hr'|A1 q Hg _]; [cbn in Hq0; subst q| |];
        rewrite Heff in Hg; [done| |done]. injection Hg as <-. by apply dispatch_step.
Qed.

(** The program respects the specification of the scheduler. *)
#[local] Instance fork_join_verified : Verified b fork_join (at_step total).
Proof.
  split.
  - intros A l n [_ Hst]. unfold runnable. by rewrite Hst.
  - intros A l n A' [Hp _] Hst. destruct Hst as [p A' _ Hg|A1 q Hg Hr|A1 q Hg _]; [done| |done].
    injection Hg as <-. by apply dispatch_step.
  - intros A l n Hj. destruct (decide (s_cur A = main)) as [Hcur|Hcur]; [|by apply worker_step].
    rewrite Hcur. by apply main_step.
Qed.

(** ** Beginning and end *)

Lemma start_step hs ws rounds :
  (∀ h, h ∈ threads → h ∈ hs) → threads ≠ [] → total = Z.of_nat (rounds * length threads) →
  at_step total (start_state main hs ws) (fork_join_start rounds) (rounds * (5 * length threads)).
Proof.
  intros Hsub Hne Htot. assert (0 < length threads)%nat as Hlen by (destruct threads; simpl; [done|lia]).
  assert (∀ k s, replicate (length threads) SEmpty !! k = Some s → s = SEmpty) as Hsl.
  { intros k s Hs. by apply lookup_replicate in Hs as [-> _]. }
  split; [|by simpl; rewrite lookup_singleton_eq].
  exists (replicate (length threads) SEmpty), None. unfold cost, stores.
  rewrite !empty_sum by done. split_and!; [| |destruct rounds; simpl; lia].
  - constructor; try done.
    + apply lookup_singleton_eq.
    + by rewrite length_replicate.
    + intros k h s Hh Hs. rewrite (Hsl k s Hs). apply empty_cells_in, Hsub. by eapply list_elem_of_lookup_2.
    + intros q t Ht. simpl in Ht. apply lookup_singleton_Some in Ht as [-> _]. by left.
    + intros k k' s s' q Hs _ Hq. by rewrite (Hsl k s Hs) in Hq.
    + intros k s Hs. rewrite (Hsl k s Hs). split; [|done]. intros _ [Hd|?]; [|done].
      destruct rounds; simpl in Hd; [done|lia].
    + by destruct rounds.
  - split_and!; simpl; [done|destruct rounds; simpl in *; lia|by intros q v ?].
Qed.

Lemma end_step A l :
  at_step total A l 0 →
  fj_main l = MDone ∧ s_cur A = main ∧ (∀ h, h ∈ threads → s_handles A !! h = Some 0) ∧
  (∀ q t, s_tasks A !! q = Some t → q = main) ∧ 0 ≤ fj_shared l ≤ total.
Proof.
  intros [(sl & wait & Hi & (Hs0 & Hs1 & _) & Hn) Hst]. unfold cost in Hn.
  assert (∀ k p, sl !! k ≠ Some (SRun p)) as Hno.
  { intros k p Hk. pose proof (slot_sum_update pc_cost l l sl k (SRun p) SEmpty Hk ltac:(done)) as U.
    simpl in U. assert (1 ≤ pc_cost (pc_of l p))%nat by (destruct (pc_of l p); simpl; lia). lia. }
  assert (fj_main l = MDone) as Hl.
  { pose proof (fi_index _ _ _ _ _ Hi) as Hx. destruct (fj_main l) as [more i|more i|]; simpl in *; [lia|lia|done]. }
  assert (s_cur A = main) as Hcur.
  { destruct (decide (s_cur A = main)) as [|Hne]; [done|]. exfalso.
    destruct (inv_runnable A l sl wait (s_cur A) Hi) as (k & h & _ & Hk); [|done|by apply (Hno k (s_cur A))].
    unfold runnable. by rewrite Hst. }
  assert (wait = None) as -> by (by eapply main_waits_not).
  assert (∀ k s, sl !! k = Some s → s = SEmpty) as Hsl.
  { intros k s Hs. apply (fi_due _ _ _ _ _ Hi k s Hs). rewrite Hl. by intros [?|?]. }
  split_and!; [done|done| | |lia|lia].
  - intros h Hh. apply list_elem_of_lookup in Hh as [k Hk].
    destruct (inv_slot _ _ _ _ _ k h Hi Hk) as (s & Hs & Hok). by rewrite (Hsl k s Hs) in Hok.
  - intros q t Ht. destruct (fi_tasks _ _ _ _ _ Hi q t Ht) as [|(k & s & Hs & Hq)]; [done|].
    by rewrite (Hsl k s Hs) in Hq.
Qed.

End program.

Section on_the_library.
Context {E : Env} {EOk : EnvOk E} (b : bool).

(** The two functions of the benchmark: the context it runs in is the first
    task, [something] the address of the function, [shared] that of the word. *)
Definition benchmark_sched_default_attr : Z → Z → list Z → code fj := fork_join k_default_attr host_task.
Definition benchmark_sched_light_attr : Z → Z → list Z → code fj := fork_join k_light_attr host_task.

(** C2.  The fork-join program of the benchmark runs to its end on the library.
    Let it be interrupted by the timer at any points: after its [5 * n] steps
    per round, for [n] handles (a [spawn], a [join], and the load, the store
    and the return of [something] for each), every call has returned, the
    benchmark is done and runs alone, its handles are empty, every task it
    spawned has been collected, and the shared word holds at most the number
    of increments. *)
Theorem fork_join_completes a something shared threads hs ws rounds evs :
  setitimer 0 preempt_interval = None → attr_ok b a → something ≠ 0 →
  NoDup threads → 0 ∉ threads → threads ≠ [] → (∀ h, h ∈ threads → h ∈ hs) →
  Z.of_nat (rounds * length threads) < two64 →
  steps evs = (rounds * (5 * length threads))%nat →
  let P := fork_join a host_task something shared threads in
  enough_memory P evs (booted hs ws, fork_join_start rounds) →
  ∃ w l, run P evs (booted hs ws, fork_join_start rounds) = Some (w, l) ∧
    fj_main l = MDone ∧ curr w host_task ∧ (∀ h, h ∈ threads → w_handles w !! h = Some 0) ∧
    (∀ q t, w_tasks w !! q = Some t → q = host_task ∨ t_run_state t = STOPPED) ∧
    0 ≤ fj_shared l ≤ Z.of_nat (rounds * length threads).
Proof.
  intros Hset Ha Hsome Hdup Hnull Hne Hsub Htot Hsteps P Hmem.
  pose proof host_task_pos as Hpos. set (total := Z.of_nat (rounds * length threads)) in *.
  assert (0 ≤ total < two64) as Htotal by (subst total; lia).
  assert (Verified b P (at_step host_task something shared threads total)) as HJ.
  { apply fork_join_verified; try done. lia. }
  destruct (reachable_calm b hs ws (booted hs ws)) as (c & Hc & _); [done|by apply reach_boot, boot_eq|].
  assert (c = host_task) as ->.
  { apply (curr_unique (booted hs ws)); [apply Hc|]. by apply (booted_inv b). }
  destruct (client_runs b P evs (booted hs ws) host_task (fork_join_start rounds))
    as (w & c & l & Hrun & Hcalm & Hend); [done| |done|].
  { rewrite booted_abs, Hsteps. apply start_step; try done. lia. }
  apply end_step in Hend as (Hm & Hcur & Hh & Ht & Hsh); try done. simpl in Hcur. subst c.
  exists w, l. split_and!; [done|done|apply Hcalm|exact Hh| |lia|lia].
  intros q t Hq. destruct (decide (t_run_state t = STOPPED)) as [|Hs]; [by right|left].
  exact (Ht q _ (abs_live w _ q t Hq Hs)).
Qed.

End on_the_library.
