(* ===== verification/Fairness.v ===== *)
(** * Every runnable task runs again

    The turns of the scheduler, one after the other: whether tasks yield or are
    preempted by the timer, a task on the run queue waits for a bounded number
    of turns.  The measure is the virtual time by which the others may still
    stay ahead of it. *)

From S2P Require Import Prelude Platform World Task TimeOrderedQueue Rq Freelist SchedNode Sched.
From S2P Require Import Inv InvSteps InvOps InvNode InvSched InvExec InvCalls Keeps Safety Behaviour.

Section fairness.
Context {E : Env} {EOk : EnvOk E} (b : bool).
Implicit Types (w : world).

(** ** The last tick is a reading of the clock *)

(** The timer traps into the scheduler, and the running slice began at a
    reading of the thread clock that has been made. *)
Definition ticked w : Prop :=
  w_context w = true ∧ al_trap (w_alarm w) = true ∧
  ∃ k, nd_last_tick (w_node w) = thread_clock_now k ∧ (k < w_thread_reads w)%nat.

#[local] Instance ticked_unqueued : Unqueued ticked.
Proof.
  split; try (by intros ?? (? & ? & ?)).
  - intros w (? & ? & k & ? & ?). split_and!; [done..|]. exists k. split; [done|simpl; lia].
  - intros k w (? & ? & _) ?. split_and!; [done..|]. by exists k.
  - by intros w (? & _).
Qed.

#[local] Instance ticked_unworded : Unworded ticked.
Proof. by intros f w (? & ? & ?). Qed.

Lemma exec_ticked o : keeps ticked (exec o).
Proof.
  assert (keeps ticked (pop idle_thunk)) as Hpop by (apply keeps_pop_unseen; [apply _|done..]).
  apply keeps_exec; [apply _|done|apply _|]. intros d _. apply keeps_sleep_unseen; [apply _|done..].
Qed.

Lemma reachable_ticked allowed hs ws w :
  setitimer 0 preempt_interval = None → reachable b allowed hs ws w → ticked w.
Proof.
  intros Hset. induction 1 as [w Hw|w o w' _ IH _ _ Hx|w o e w' _ IH _ _ Hx _].
  - rewrite boot_eq in Hw by done. injection Hw as <-. split_and!; [done..|]. exists 0%nat.
    split; [done|]. simpl. lia.
  - pose proof (exec_ticked o w IH) as H. by rewrite Hx in H.
  - pose proof (exec_ticked o w IH) as H. by rewrite Hx in H.
Qed.

(** ** One turn *)

(** The running task yields, or the timer preempts it. *)
Definition gives_way (o : op) : Prop := o = Yield ∨ o = Tick.

Definition vrt w (x : Z) : option Z := t_vruntime <$> w_tasks w !! x.

(** The turn of [c], whose virtual time becomes [v]: [n] has the processor. *)
Record turn w (c v : Z) w' (n : Z) : Prop := {
  tn_inv : inv_at b w' n;
  tn_running : ∃ t, w_tasks w' !! n = Some t ∧ t_run_state t = RUNNING;
  tn_awake : w_sleepqueue w' = [];
  tn_queue : n :: w_runqueue w' ≡ₚ c :: w_runqueue w;
  tn_sorted : rq_sorted (w_tasks w') (n :: w_runqueue w');
  tn_charged : vrt w' c = Some v;
  tn_others x : x ∈ w_runqueue w → vrt w' x = vrt w x;
  tn_reads : w_thread_reads w' = S (S (w_thread_reads w));
  tn_tick : nd_last_tick (w_node w') = thread_clock_now (S (w_thread_reads w))
}.

Lemma others_vrt w w' n x :
  others w w' n → x ≠ n → is_Some (w_tasks w' !! x) → vrt w' x = vrt w x.
Proof. intros Ho Hne [tx Hx]. unfold vrt. by rewrite Hx, (ot_same _ _ _ Ho x tx). Qed.

Lemma resumed_vrt w w' n x : resumed w w' n → is_Some (w_tasks w' !! x) → vrt w' x = vrt w x.
Proof.
  intros [(t & t' & Ht & Ht' & _ & Hv & _) _ _ _ Ho _] Hx. destruct (decide (x = n)) as [->|Hne].
  - unfold vrt. rewrite Ht, Ht'. simpl. by rewrite Hv.
  - by eapply others_vrt.
Qed.

(** The tasks that can run are alive. *)
Lemma live_tasks w c x : inv_at b w c → x ∈ c :: w_runqueue w → is_Some (w_tasks w !! x).
Proof.
  intros Hi [->|Hx]%elem_of_cons; [|by apply (c_rq_live _ _ _ (i_core _ _ _ Hi))].
  destruct (i_cur _ _ _ Hi) as (t & ? & _). eauto.
Qed.

Lemma inv_at_unqueued w c : inv_at b w c → c ∉ w_runqueue w.
Proof. intros Hi. by destruct (inv_at_yield b w c Hi) as (t & [] & _). Qed.

(** From the choice of [n] in the state [w1] to the state [w2] where it runs. *)
Lemma picked_turn w c t w1 n w2 :
  inv_at b w c → t_run_state t = RUNNING → w_sleepqueue w = [] → others w w1 c →
  picked w w1 c t n → inv_at b w2 n →
  (∃ t', w_tasks w2 !! n = Some t' ∧ t_run_state t' = RUNNING) →
  w_node w2 = w_node w1 → w_thread_reads w2 = w_thread_reads w1 →
  (∀ x, is_Some (w_tasks w2 !! x) → vrt w2 x = vrt w1 x) →
  turn w c (charged w t) w2 n.
Proof.
  intros Hi Hrun Hsq Ho [Hs Hp _ (tc & Htc & Hch) Hrd Htk] Hi2 Hrun2 En Er Hv.
  destruct (Hp Hsq) as [Hperm Hsq1]. unfold own in Hperm. rewrite bool_decide_true in Hperm by done.
  assert (w_runqueue w2 = w_runqueue w1) as Erq by (unfold w_runqueue; by rewrite En).
  assert (∀ x, x ∈ c :: w_runqueue w → is_Some (w_tasks w2 !! x)) as Hlive.
  { intros x Hx. apply (live_tasks w2 n); [done|]. by rewrite Erq, Hperm. }
  constructor; try done.
  - unfold w_sleepqueue. by rewrite En.
  - by rewrite Erq.
  - rewrite Erq. eapply rq_sorted_ext; [|exact Hs]. intros x Hx. symmetry. apply Hv, Hlive.
    by rewrite <-Hperm.
  - rewrite Hv by (apply Hlive; by left). unfold vrt. by rewrite Htc; simpl; rewrite Hch.
  - intros x Hx. assert (x ≠ c) as Hne by (intros ->; by apply (inv_at_unqueued w c)).
    rewrite Hv by (apply Hlive; by right). eapply others_vrt; [done..|].
    specialize (Hv x (Hlive x (list_elem_of_further _ _ _ Hx))).
    destruct (Hlive x (list_elem_of_further _ _ _ Hx)) as [tx Htx]. unfold vrt in Hv.
    rewrite Htx in Hv. destruct (w_tasks w1 !! x); [eauto|done].
  - by rewrite Er.
  - by rewrite En.
Qed.

Lemma exec_turn o w c t :
  gives_way o → inv_at b w c → w_tasks w !! c = Some t → t_run_state t = RUNNING →
  w_sleepqueue w = [] → al_trap (w_alarm w) = true →
  ∃ w' n, exec o w = Ret () w' ∧ turn w c (charged w t) w' n.
Proof.
  intros Ho Hi Ht Hrun Hsq Htrap.
  destruct (wp_total (exec o) (λ _ w', ∃ n, turn w c (charged w t) w' n) w)
    as ([] & w' & ? & n & ?); [|eauto].
  unfold exec. wp_go. eapply (wp_post _ (turned b w c t)).
  { destruct Ho as [-> | ->]; cbn [call].
    - eapply wp_sched_yield; [apply Hi|]. eapply wp_turn; [done..| |].
      + by intros (_ & _ & ?).
      + unfold sleepers. by rewrite Hsq.
    - eapply wp_alarm; [done..|]. eapply wp_turn; [done..| |].
      + by intros (_ & _ & ?).
      + unfold sleepers. by rewrite Hsq. }
  intros r w1 [Hse Hot (n & Hn & Hpk) _ _ [v Hv]]. destruct r as [|p].
  - wp_go. destruct Hv as [Hi' Ht'].
    assert (n = c) as -> by (apply (curr_unique w1); [done|apply Hi']).
    exists c. apply (picked_turn w c t w1 c w1); try done. eauto.
  - destruct Hse as (n' & C & Hc & Hr & Hrq & Hsl & Hspin).
    assert (n' = n) as -> by (by apply (curr_unique w1)).
    eapply wp_post; [by eapply (wp_resume b w1 n)|]. intros [] w2 [Hi2 Hre]. exists n.
    eapply (picked_turn w c t w1); try done.
    + destruct (re_running _ _ _ Hre) as (_ & t' & _ & ? & ? & _). eauto.
    + apply Hre.
    + apply Hre.
    + intros x. by apply (resumed_vrt w1 w2 n).
Qed.

(** ** The measure *)

Definition vr w (x : Z) : Z := default 0 (vrt w x).

(** By how much virtual time [y] may still run before [x] goes first. *)
Definition ahead w (x y : Z) : Z :=
  if bool_decide (y = x) then 0 else Z.max 0 (vr w x - vr w y + 1).
Definition lag w (x : Z) (l : list Z) : Z := foldr (λ y acc, ahead w x y + acc) 0 l.

Lemma lag_cons w x y l : lag w x (y :: l) = ahead w x y + lag w x l.
Proof. done. Qed.

Lemma lag_perm w x l l' : l ≡ₚ l' → lag w x l = lag w x l'.
Proof. unfold lag. induction 1; simpl; lia. Qed.

Lemma lag_nonneg w x l : 0 ≤ lag w x l.
Proof.
  unfold lag. induction l as [|y l IH]; simpl; [done|]. unfold ahead at 1. case_bool_decide; lia.
Qed.

Lemma lag_ext w w' x l :
  vr w' x = vr w x → (∀ y, y ∈ l → vr w' y = vr w y) → lag w' x l = lag w x l.
Proof.
  intros Hx. unfold lag. induction l as [|y l IH]; [done|]. intros Hl. simpl. rewrite IH.
  - unfold ahead. by rewrite Hx, (Hl y) by (by left).
  - intros z Hz. apply Hl. by right.
Qed.

(** A turn that charges the running task brings [x] closer, by more than
    nothing if the running task comes first. *)
Lemma lag_turn w c v w' n x :
  inv_at b w c → turn w c v w' n → vr w c + 1 ≤ v → x ∈ w_runqueue w →
  lag w' x (n :: w_runqueue w') ≤ lag w x (c :: w_runqueue w) ∧
  (vr w c ≤ vr w x → lag w' x (n :: w_runqueue w') + 1 ≤ lag w x (c :: w_runqueue w)).
Proof.
  intros Hi Ht Hv Hx. assert (c ≠ x) as Hne by (intros ->; by apply (inv_at_unqueued w x)).
  assert (∀ y, y ∈ w_runqueue w → vr w' y = vr w y) as Hsame.
  { intros y Hy. unfold vr. by rewrite (tn_others _ _ _ _ _ Ht). }
  assert (vr w' c = v) as Hc by (unfold vr; by rewrite (tn_charged _ _ _ _ _ Ht)).
  rewrite (lag_perm w' x _ _ (tn_queue _ _ _ _ _ Ht)). rewrite !lag_cons.
  rewrite (lag_ext w w' x (w_runqueue w)) by auto.
  unfold ahead. rewrite bool_decide_false by done. rewrite Hsame, Hc by done. lia.
Qed.

(** ** The clock *)

(** The thread clock advances by a microsecond from one reading to the next. *)
Definition advances (readings : nat) : Prop :=
  ∀ i, (i < readings)%nat → thread_clock_now i + 1000 ≤ thread_clock_now (S i).

Lemma advances_from k n m :
  advances m → (k < n)%nat → (n ≤ m)%nat → thread_clock_now k + 1000 ≤ thread_clock_now n.
Proof.
  intros Ha Hlt. induction Hlt as [|n Hlt IH]; intros Hm.
  - apply Ha. lia.
  - specialize (IH ltac:(lia)). pose proof (Ha n ltac:(lia)). lia.
Qed.

Lemma charged_advances w c t :
  ticked w → advances (w_thread_reads w) → w_tasks w !! c = Some t → vr w c + 1 ≤ charged w t.
Proof.
  intros (_ & _ & k & Hk & Hlt) Ha Ht.
  pose proof (advances_from k (w_thread_reads w) _ Ha Hlt (le_n _)).
  unfold vr, vrt, charged, to_microseconds. rewrite Ht, Hk. simpl.
  assert (1 ≤ (thread_clock_now (w_thread_reads w) - thread_clock_now k) ÷ 1000); [|lia].
  rewrite Z.quot_div_nonneg by lia. apply Z.div_le_lower_bound; lia.
Qed.

(** ** Turn after turn *)

(** The state before a turn of [c]. *)
Record at_turn w (c : Z) : Prop := {
  at_ticked : ticked w;
  at_inv : inv_at b w c;
  at_running : ∃ t, w_tasks w !! c = Some t ∧ t_run_state t = RUNNING;
  at_awake : w_sleepqueue w = []
}.

Lemma exec_all_take o k os w w1 r :
  exec o w = Ret () w1 → exec_all (take k os) w1 = r → exec_all (take (S k) (o :: os)) w = r.
Proof. intros Hex Hr. simpl. unfold mbind, M_bind. by rewrite Hex. Qed.

(** One turn on the way of [x] to the processor. *)
Lemma turn_step o w c x :
  gives_way o → at_turn w c → advances (w_thread_reads w) → x ∈ w_runqueue w →
  ∃ w' n, exec o w = Ret () w' ∧ at_turn w' n ∧ w_thread_reads w' = S (S (w_thread_reads w)) ∧
    lag w' x (n :: w_runqueue w') ≤ lag w x (c :: w_runqueue w) ∧
    (vr w c ≤ vr w x → lag w' x (n :: w_runqueue w') + 1 ≤ lag w x (c :: w_runqueue w)) ∧
    (n ≠ x → x ∈ w_runqueue w' ∧ vr w' n ≤ vr w' x).
Proof.
  intros Ho [Htick Hi (t & Ht & Hrun) Hsq] Ha Hx.
  destruct (exec_turn o w c t) as (w' & n & Hex & Htu); [done..|apply Htick|].
  pose proof (charged_advances w c t Htick Ha Ht) as Hch.
  destruct (lag_turn w c _ w' n x Hi Htu Hch Hx) as [Hl1 Hl2].
  exists w', n. split_and!; [done| |apply Htu|done|done|].
  - pose proof (exec_ticked o w Htick) as H. rewrite Hex in H. destruct Htu. by constructor.
  - intros Hne. assert (x ∈ w_runqueue w') as Hx'.
    { assert (x ∈ n :: w_runqueue w') as [->|?]%elem_of_cons; [|done..].
      rewrite (tn_queue _ _ _ _ _ Htu). by right. }
    split; [done|].
    destruct (rq_sorted_head _ _ _ x (tn_sorted _ _ _ _ _ Htu) Hx') as (tn & tx & Hn & Hxt & Hle).
    unfold vr, vrt. rewrite Hn, Hxt. simpl. lia.
Qed.

Lemma turns_reach x os : ∀ w c,
  Forall gives_way os → at_turn w c → advances (w_thread_reads w + 2 * length os) →
  x ∈ w_runqueue w → vr w c ≤ vr w x → lag w x (c :: w_runqueue w) ≤ Z.of_nat (length os) →
  ∃ k w', (k ≤ length os)%nat ∧ exec_all (take k os) w = Ret () w' ∧ curr w' x.
Proof.
  induction os as [|o os IH]; intros w c Hos Hat Ha Hx Hle Hlag.
  { exfalso. pose proof (lag_nonneg w x (w_runqueue w)).
    assert (c ≠ x) as Hne by (intros ->; by apply (inv_at_unqueued w x); [apply Hat|]).
    rewrite lag_cons in Hlag. unfold ahead in Hlag. rewrite bool_decide_false in Hlag by done.
    change (Z.of_nat (length [])) with 0 in Hlag. lia. }
  apply Forall_cons in Hos as [Ho Hos].
  destruct (turn_step o w c x) as (w1 & n & Hex & Hat1 & Hrd & _ & Hl & Hn); [done..| |done|].
  { intros i Hi. apply Ha. lia. }
  specialize (Hl Hle). cbn [length] in Hlag, Ha. destruct (decide (n = x)) as [->|Hne].
  - exists 1%nat, w1. split_and!; [simpl; lia|by eapply exec_all_take|apply Hat1].
  - destruct (Hn Hne) as [Hx1 Hv1].
    destruct (IH w1 n) as (k & w' & Hk & Hrun & Hc); [done..| |done|done|lia|].
    { rewrite Hrd. intros i Hi. apply Ha. lia. }
    exists (S k), w'. split_and!; [simpl; lia|by eapply exec_all_take|done].
Qed.

(** C5.  No runnable task starves.  While the tasks of a program that does not
    sleep only yield or are preempted by the timer, a task [x] on the run queue
    gets the processor after finitely many turns, at most one more than the
    virtual time (in microseconds) that the other runnable tasks together may
    use before [x] comes first.  The thread clock has to advance by a
    microsecond between two of its readings: a slice shorter than that is
    charged as nothing. *)
Theorem no_starvation hs ws w c t x os :
  setitimer 0 preempt_interval = None →
  reachable b (λ o, sleeps o = false) hs ws w → curr w c →
  w_tasks w !! c = Some t → t_run_state t = RUNNING → x ∈ w_runqueue w →
  Forall gives_way os → Z.of_nat (length os) = lag w x (c :: w_runqueue w) + 1 →
  advances (w_thread_reads w + 2 * length os) →
  ∃ k w', (k ≤ length os)%nat ∧ exec_all (take k os) w = Ret () w' ∧ curr w' x.
Proof.
  intros Hset Hr Hc Ht Hrun Hx Hos Hlen Ha.
  destruct (reachable_inv b _ hs ws w Hset Hr) as [c' Hi].
  assert (c' = c) as -> by (apply (curr_unique w); [apply Hi|done]).
  destruct (awake_no_sleepers b hs ws w Hset Hr) as [_ Hsq].
  assert (at_turn w c) as Hat by (constructor; [by eapply reachable_ticked|eauto..]).
  destruct os as [|o os]; [pose proof (lag_nonneg w x (c :: w_runqueue w)); change (0 = lag w x (c :: w_runqueue w) + 1) in Hlen; lia|].
  apply Forall_cons in Hos as [Ho Hos].
  destruct (turn_step o w c x) as (w1 & n & Hex & Hat1 & Hrd & Hl & _ & Hn); [done..| |done|].
  { intros i Hi'. apply Ha. lia. }
  destruct (decide (n = x)) as [->|Hne].
  - exists 1%nat, w1. split_and!; [simpl; lia|by eapply exec_all_take|apply Hat1].
  - destruct (Hn Hne) as [Hx1 Hv1].
    destruct (turns_reach x os w1 n) as (k & w' & Hk & Hrun' & Hc'); [done..| |done|done| |].
    + rewrite Hrd. intros i Hi'. apply Ha. simpl. lia.
    + cbn [length] in Hlen. lia.
    + exists (S k), w'. split_and!; [simpl; lia|by eapply exec_all_take|done].
Qed.

(** ** Slices that are too short to be charged *)

(** Less than a microsecond passes from one reading of the clock to the next. *)
Definition short_slices (readings : nat) : Prop :=
  ∀ i, (i < readings)%nat → 0 ≤ thread_clock_now (S i) - thread_clock_now i < 1000.

Lemma uncharged w t k :
  nd_last_tick (w_node w) = thread_clock_now k →
  0 ≤ thread_clock_now (w_thread_reads w) - thread_clock_now k < 1000 → charged w t = t_vruntime t.
Proof.
  intros Hk Hd. unfold charged, to_microseconds. rewrite Hk, Z.quot_div_nonneg by lia.
  rewrite Z.div_small by lia. lia.
Qed.

(** A turn of a task that comes first and is not charged elects it again. *)
Lemma uncharged_turn o w c t :
  gives_way o → at_turn w c → w_tasks w !! c = Some t → rq_sorted (w_tasks w) (c :: w_runqueue w) →
  charged w t = t_vruntime t →
  ∃ w', exec o w = Ret () w' ∧ at_turn w' c ∧ w_runqueue w' = w_runqueue w ∧
    rq_sorted (w_tasks w') (c :: w_runqueue w') ∧
    w_thread_reads w' = S (S (w_thread_reads w)) ∧
    nd_last_tick (w_node w') = thread_clock_now (S (w_thread_reads w)).
Proof.
  intros Ho [Htick Hi (t' & Ht' & Hrun) Hsq] Ht Hsorted Hch.
  assert (t' = t) as -> by congruence.
  destruct (exec_turn o w c t) as (w' & n & Hex & Htu); [done..|apply Htick|].
  assert (rq_sorted (w_tasks w') (c :: w_runqueue w)) as Hsorted'.
  { eapply rq_sorted_ext; [|exact Hsorted]. intros x [->|Hx]%elem_of_cons; symmetry.
    - fold (vrt w' c) (vrt w c). rewrite (tn_charged _ _ _ _ _ Htu), Hch. unfold vrt. by rewrite Ht.
    - by apply (tn_others _ _ _ _ _ Htu). }
  assert (n :: w_runqueue w' = c :: w_runqueue w) as [= -> Hrq].
  { apply (rq_sorted_unique (w_tasks w')); [apply Htu|done|apply Htu]. }
  exists w'. split_and!; [done| |done|by rewrite Hrq|apply Htu|apply Htu].
  pose proof (exec_ticked o w Htick) as H. rewrite Hex in H. destruct Htu. by constructor.
Qed.

(** C37.  What is not charged is not shared: when less than a microsecond of the
    thread clock passes between two of its readings, a running task that comes
    first in the order by ([vruntime], address) keeps the processor through any
    number of yields and timer ticks, and the other runnable tasks starve: the
    fraction of the slice is dropped with every turn and never adds up. *)
Theorem short_slices_starve hs ws w c t k os :
  setitimer 0 preempt_interval = None →
  reachable b (λ o, sleeps o = false) hs ws w → curr w c →
  w_tasks w !! c = Some t → t_run_state t = RUNNING →
  rq_sorted (w_tasks w) (c :: w_runqueue w) →
  nd_last_tick (w_node w) = thread_clock_now k → w_thread_reads w = S k →
  short_slices (w_thread_reads w + 2 * length os) → Forall gives_way os →
  ∃ w', exec_all os w = Ret () w' ∧ curr w' c ∧ w_runqueue w' = w_runqueue w.
Proof.
  intros Hset Hr Hc Ht Hrun Hsorted Hk Hrd Hslow Hos.
  destruct (reachable_inv b _ hs ws w Hset Hr) as [c' Hi].
  assert (c' = c) as -> by (apply (curr_unique w); [apply Hi|done]).
  destruct (awake_no_sleepers b hs ws w Hset Hr) as [_ Hsq].
  assert (at_turn w c) as Hat by (constructor; [by eapply reachable_ticked|eauto..]).
  clear Hr Hi Hsq Hc Ht Hrun t. revert w k Hat Hsorted Hk Hrd Hslow.
  induction Hos as [|o os Ho _ IH]; intros w k Hat Hsorted Hk Hrd Hslow.
  { exists w. split_and!; [done|apply Hat|done]. }
  destruct (at_running _ _ Hat) as (t & Ht & _).
  destruct (uncharged_turn o w c t) as (w1 & Hex & Hat1 & Hrq1 & Hs1 & Hrd1 & Hk1); [done..| |].
  { apply (uncharged w t k Hk). rewrite Hrd. apply Hslow. lia. }
  destruct (IH w1 (S (w_thread_reads w))) as (w' & Hrun & Hc & Hrq); [done..| |].
  { intros i Hi. apply Hslow. rewrite Hrd1 in Hi. simpl. lia. }
  exists w'. split_and!; [|done|congruence]. simpl. unfold mbind, M_bind. by rewrite Hex.
Qed.

End fairness.
