(* ===== verification/Gthread.v ===== *)
(** * gthread_impl.h and util/function_marshall_impl.h: the class [g]

    A [g] owns the handle of a task that applies a function to arguments.  The
    function and its arguments travel in a [function_marshall] on the heap,
    which the entry function of the task takes over, applies once and frees.
    The functions of a program are named by numbers; [gw_calls] is the history
    of their applications. *)

From S2P Require Import Prelude Platform World Task TimeOrderedQueue Rq Freelist SchedNode Sched.
From S2P Require Import Inv InvSteps InvOps InvNode InvSched InvExec InvCalls Behaviour Demo.

(** ** [function_marshall] *)

Record function_marshall := mkMarshall {
  fm_used : bool;
  fm_function : Z;
  fm_args : list Z
}.

Record gworld := mkGworld {
  gw : world;
  gw_closures : gmap Z function_marshall;
  gw_calls : list (Z * list Z)
}.

Definition G : Type → Type := M gworld.

(** An operation of the scheduler. *)
Definition lift {A} (m : P A) : G A := λ s,
  match m (gw s) with
  | Ret a w => Ret a (mkGworld w (gw_closures s) (gw_calls s))
  | Throw e w => Throw e (mkGworld w (gw_closures s) (gw_calls s))
  | Stuck f => Stuck f
  end.

Definition set_closures (f : gmap Z function_marshall → gmap Z function_marshall) (s : gworld) : gworld :=
  mkGworld (gw s) (f (gw_closures s)) (gw_calls s).

(** [make_unique_function_marshall]; the allocation answers [p]. *)
Definition make_unique_function_marshall (p function : Z) (args : list Z) : G () :=
  modify (set_closures <[p := mkMarshall false function args]>).

(** [operator()]: a second application throws. *)
Definition apply_marshall (p : Z) : G () :=
  cs ← gets gw_closures;
  c ← need (dangling p) (cs !! p);
  if fm_used c then throw bad_function_call
  else
    modify (set_closures <[p := mkMarshall true (fm_function c) (fm_args c)]>);;
    modify (λ s, mkGworld (gw s) (gw_closures s) (gw_calls s ++ [(fm_function c, fm_args c)])).

Section g.
Context {E : Env}.

(** ** The entry function of the tasks of [g] *)

(** The address of [g_polymorphic_start]. *)
Context (g_polymorphic_start : Z).

(** Its body up to the end of the application; an exception of the closure
    frees it. *)
Definition start_body (arg : Z) : G () :=
  on_throw (modify (set_closures (delete arg))) (apply_marshall arg).

(** Its end: the closure is freed and the task returns null. *)
Definition start_end (arg : Z) : G flow :=
  modify (set_closures (delete arg));;
  lift (entry_returns 0).

(** ** [g] *)

(** The constructor: the closure is released before [spawn] is called. *)
Definition g_construct (h p function : Z) (args : list Z) : G flow :=
  make_unique_function_marshall p function args;;
  lift (spawn h k_light_attr g_polymorphic_start p).

Definition g_handle (h : Z) : G Z := lift (handle_task h).

(** The default constructor, and [operator bool]. *)
Definition g_empty (h : Z) : G () := lift (modify (upd_handles <[h := 0]>)).
Definition g_bool (h : Z) : G bool := t ← g_handle h; mret (bool_decide (t ≠ 0)).

Definition g_join (h : Z) : G flow :=
  t ← g_handle h;
  if bool_decide (t = 0) then throw (logic_error "no execution context to join")
  else lift (join h 0).

Definition g_detach (h : Z) : G flow :=
  t ← g_handle h;
  if bool_decide (t = 0) then mret Returned else lift (detach h).

(** [~g()] *)
Definition g_destroy (h : Z) : G flow := g_detach h.

(** The copy assignment the class does not declare, and so has: the handle is
    copied. *)
Definition g_assign (dst src : Z) : G () :=
  t ← g_handle src; lift (modify (upd_handles <[dst := t]>)).

(** ** [self] *)

Definition self_yield : G flow := lift sched_yield.
Definition self_sleep_for (sleep_duration : Z) : G flow := lift (sched_sleep_for sleep_duration).

(** ** Properties *)

Context {EOk : EnvOk E}.

Lemma lift_ret {A} (m : P A) s a w :
  m (gw s) = Ret a w → lift m s = Ret a (mkGworld w (gw_closures s) (gw_calls s)).
Proof. unfold lift. by intros ->. Qed.

(** C35.  [g(function, args...)] runs the function once on its arguments: the
    constructor leaves a handle to a runnable task of the entry function, with
    the closure as its argument; when that closure is applied, the function is
    called with exactly these arguments, and a second application is refused
    and calls nothing. *)
Theorem g_runs_once s c h p f args :
  inv_at false (gw s) c → h ≠ 0 → w_handles (gw s) !! h = Some 0 →
  attr_ok false k_light_attr → memory_available (w_maps (gw s)) k_light_attr →
  g_polymorphic_start ≠ 0 →
  ∃ s' q t, g_construct h p f args s = Ret Returned s' ∧ inv_at false (gw s') c ∧
    w_handles (gw s') !! h = Some q ∧ w_tasks (gw s') !! q = Some t ∧
    t_entry t = g_polymorphic_start ∧ t_arg t = p ∧ q ∈ w_runqueue (gw s') ∧
    ∀ s2, gw_closures s2 !! p = gw_closures s' !! p →
      ∃ s3, start_body p s2 = Ret () s3 ∧ gw s3 = gw s2 ∧
        gw_calls s3 = gw_calls s2 ++ [(f, args)] ∧ apply_marshall p s3 = Throw bad_function_call s3.
Proof.
  intros Hi Hh0 Hh Ha Hm Hg.
  destruct (wp_total (spawn h k_light_attr g_polymorphic_start p)
    (λ r w', r = Returned ∧ g_polymorphic_start ≠ 0 ∧ inv_at false w' c ∧
       ∃ q, spawned (gw s) w' c h g_polymorphic_start p q) (gw s))
    as (r & w' & Hr & -> & _ & Hi' & q & [(t & ? & ? & ? & _) _ _ Hrq Hhs _ _ _ _]).
  { eapply (wp_call_spawn false); eauto. }
  exists (mkGworld w' (<[p := mkMarshall false f args]> (gw_closures s)) (gw_calls s)), q, t.
  split_and!; try done.
  - unfold g_construct, mbind, M_bind. simpl. by rewrite (lift_ret _ _ Returned w').
  - simpl. rewrite Hhs. apply lookup_insert_eq.
  - simpl. rewrite Hrq. by left.
  - intros s2 Hs2. simpl in Hs2. rewrite lookup_insert_eq in Hs2.
    eexists. unfold start_body, on_throw, apply_marshall, mbind, M_bind, gets, need, modify.
    rewrite Hs2. split; [reflexivity|]. simpl. by rewrite lookup_insert_eq.
Qed.

(** The life of a [g]: one that was constructed empty has no execution
    context; without one it is false, is destroyed without effect and cannot be
    joined; one whose task has stopped is true, is joined at once, has no
    execution context afterwards, and its destruction then does nothing more. *)
Theorem g_lifetime b s c h :
  inv_at b (gw s) c → h ≠ 0 →
  (∃ s', g_empty h s = Ret () s' ∧ w_handles (gw s') !! h = Some 0) ∧
  (w_handles (gw s) !! h = Some 0 →
   g_bool h s = Ret false s ∧ g_destroy h s = Ret Returned s ∧
   g_join h s = Throw (logic_error "no execution context to join") s) ∧
  (∀ q tq, w_handles (gw s) !! h = Some q → q ≠ 0 → w_tasks (gw s) !! q = Some tq →
   t_run_state tq = STOPPED → t_joiner tq = 0 →
   g_bool h s = Ret true s ∧
   ∃ s', g_join h s = Ret Returned s' ∧ inv_at b (gw s') c ∧
     w_handles (gw s') !! h = Some 0 ∧ g_destroy h s' = Ret Returned s').
Proof.
  intros Hi Hh0.
  assert (∀ s q, w_handles (gw s) !! h = Some q → g_handle h s = Ret q s) as Hhandle.
  { intros s' q Hq. unfold g_handle, lift, handle_task, mbind, M_bind. simpl. rewrite Hq.
    rewrite bool_decide_false by done. by destruct s'. }
  assert (∀ s, w_handles (gw s) !! h = Some 0 → g_destroy h s = Ret Returned s) as Hempty.
  { intros s' Hs'. unfold g_destroy, g_detach, mbind, M_bind. by rewrite (Hhandle s' 0). }
  split_and!.
  - eexists. split; [done|]. apply lookup_insert_eq.
  - intros Hs. unfold g_bool, g_join, mbind, M_bind. rewrite (Hhandle s 0) by done.
    split_and!; [done|by apply Hempty|done].
  - intros q tq Hq Hq0 Htq Hst Hj.
    destruct (wp_total (join h 0) _ (gw s) (wp_join_stopped b (gw s) c h 0 q tq _ _ Hi Hq Hq0 Htq Hst Hj))
      as (r & w' & Hr & -> & Hi' & Hh' & _).
    split; [unfold g_bool, mbind, M_bind; rewrite (Hhandle s q) by done; by rewrite bool_decide_true|].
    exists (mkGworld w' (gw_closures s) (gw_calls s)). split_and!; [|done|done|by apply Hempty].
    unfold g_join, mbind, M_bind. rewrite (Hhandle s q) by done.
    rewrite bool_decide_false by done. by apply lift_ret.
Qed.

End g.

(** ** Assignment *)

(** A [g] at 1 is assigned from a temporary at 2 which is then destroyed; the
    [g] at 1 is joined, and the task runs to its end. *)
Definition assigned_and_joined : G () :=
  _ ← g_construct 7 2 700 1 [];
  g_assign 1 2;;
  _ ← g_destroy 2;
  lift (exec (Join 1 0));;
  lift (exec (Return 0)).

Definition g_start : gworld :=
  mkGworld (boot [1; 2; 3; 4] [10; 11]) ∅ [].

(** A [g] that was assigned from another is not safe to join: the
    temporary detaches the task when it is destroyed, so that the task is given
    back twice, once by [join] and once as a detached task that has ended.  It
    is then twice in the free list at the next [yield]. *)
Theorem g_assign_returns_twice :
  match (assigned_and_joined;; lift (exec (Spawn 3 k_light_attr 8 0));; lift (exec Yield)) g_start with
  | Ret _ s => ∃ p, fl_l (w_freelist (gw s)) = [p; p]
  | _ => False
  end.
Proof. vm_compute. by eexists. Qed.
