(* ===== verification/Runs.v ===== *)
(** * Runs of small programs

    Complete runs of the model in the environment of [Demo], from the first
    call of a program on: what the theorems about single calls amount to, and
    where the library does not do what its interface suggests. *)

From S2P Require Import Prelude Platform World Task TimeOrderedQueue Rq Freelist SchedNode Sched Demo.

Definition program (os : list op) : outcome world () := exec_all os (boot [1; 2; 3; 4] [10; 11]).

(** What a run ends in: the running task with its state and the word 5, an
    exception, or a fault. *)
Definition summary (r : outcome world ()) : option (Z * run_state_t) * option Z + exn + fault :=
  match r with
  | Ret _ w => inl (inl (
      (c ← tb_thread <$> w_tls w !! w_fs w; t ← w_tasks w !! c; Some (c, t_run_state t)),
      w_words w !! 5))
  | Throw e _ => inl (inr e)
  | Stuck f => inr f
  end.

(** Attributes without guard pages, with and without a thread-local block. *)
Definition tls_attr : attr := mkAttr 0 (1024 * 1024) 0 true.
Definition bare_attr : attr := mkAttr 0 (1024 * 1024) 0 false.

(** A task without a thread-local block of its own runs on the block of
    whichever task ran before it.  When that block belongs to a finished task
    that the free list hands out again, resetting it erases the node of the
    running context, and the next operation fails its assertion: here a task
    with a block ends while two tasks without one are runnable, and the second
    of them spawns. *)
Theorem bare_task_loses_node :
  summary (program [Spawn 1 tls_attr 7 0; Detach 1; Yield; Spawn 2 bare_attr 8 0;
                    Spawn 3 bare_attr 8 0; Exit 0; Yield; Spawn 4 tls_attr 9 0])
  = inr (assert_failed "node != nullptr").
Proof. vm_compute. reflexivity. Qed.

