(* ===== verification/Conformance.v ===== *)
(** * The tests of the repository on the model

    The programs of sched_test.cc, waiter_test.cc and ring_buffer_test.cc, with
    fewer tasks and rounds, run on the definitions of the development and end
    as the tests expect. *)

From S2P Require Import Prelude Platform World Task Sched Demo Runs RingBuffer Monitor RingMonitor.

(** The host task runs, and the word 5 holds [v]. *)
Definition host_with (v : option Z) (os : list op) : Prop :=
  summary (program os) = inl (inl (Some (4096, RUNNING), v)).

(** gthread_sched, basic_spawn_and_join: [returner] adds one to its argument. *)
Example basic_spawn_and_join : host_with (Some 6) [Spawn 1 k_default_attr 7 5; Join 1 5; Return 6].
Proof. vm_compute. reflexivity. Qed.

(** gthread_sched, lots_of_yields: two threads that yield and exit with one
    more than their argument are joined in the order of their creation. *)
Example lots_of_yields :
  host_with (Some 1) [Spawn 1 k_default_attr 7 0; Spawn 2 k_default_attr 7 1; Join 1 5;
                      Yield; Exit 2; Exit 1] ∧
  host_with (Some 2) [Spawn 1 k_default_attr 7 0; Spawn 2 k_default_attr 7 1; Join 1 5;
                      Yield; Exit 2; Exit 1; Join 2 5].
Proof. split; vm_compute; reflexivity. Qed.

(** gthread_sched, detach_test_exit_quick and detach_test_exit_delay. *)
Example detach_test_exit_quick :
  host_with (Some 0) [Spawn 1 k_light_attr 7 0; SleepFor 5000000; Return 0; Join 1 5].
Proof. vm_compute. reflexivity. Qed.

Example detach_test_exit_delay :
  host_with (Some 0) [Spawn 1 k_light_attr 7 0; Join 1 5; SleepFor 5000000; Return 0].
Proof. vm_compute. reflexivity. Qed.

(** gthread_waiter, quick_switch. *)
Example quick_switch :
  host_with None [Spawn 1 k_light_attr 7 0; ParkIf 10 true; Unpark 10; Return 0].
Proof. vm_compute. reflexivity. Qed.

(** gthread_ring_buffer, fill_er_up: the buffer is filled and drained, here twice with four values. *)
Definition fill (n : nat) : list (@event Z) :=
  concat ((λ j, CallWrite (Z.of_nat j) :: writer 8) <$> seq 0 n).
Definition drain (n : nat) : list (@event Z) := concat (replicate n (CallRead :: reader 8)).

Lemma four_bits : 0 ≤ 2 < 64.
Proof. lia. Qed.

Example fill_er_up :
  (m_run (M := ring_monitor 4 2 four_bits eq_refl) (fill 4 ++ drain 4 ++ fill 4 ++ drain 4) ring_init).2 =
    let round := (LPut <$> [0; 1; 2; 3]) ++ (LGet <$> [0; 1; 2; 3]) in round ++ round.
Proof. vm_compute. reflexivity. Qed.
