(* ===== verification/Witnesses.v ===== *)
(** * The theorems at work in the concrete environment

    Each lemma applies a theorem of the development to a run in the environment
    of [Demo], so that its hypotheses are seen to hold together. *)

From S2P Require Import Prelude BitTwiddle SwitchTo RingBuffer Mutex Platform World Task TimeOrderedQueue Rq Freelist SchedNode Sched.
From S2P Require Import Demo SchedSpec Inv InvSteps InvOps TaskClients InvNode InvSched InvExec InvCalls Keeps Safety Behaviour Fairness.

(** ** States of a run *)

Definition demo_start : world := booted [1; 2; 3; 4] [10; 11].
Definition demo_spawn : op := Spawn 1 k_default_attr 7 70.

(** The state after a call that returns. *)
Definition after (o : op) (w : world) : world := default w (final (exec o w)).

(** The host has spawned a task. *)
Definition spawned_state : world := after demo_spawn demo_start.
(** The host waits for that task in [join], and the task runs. *)
Definition joining_state : world := after (Join 1 5) spawned_state.
(** The task has ended without being waited for. *)
Definition stopped_state : world := after (Exit 42) (after Yield spawned_state).
(** The task is parked in the waiter 10, and the host runs. *)
Definition parked_state : world := after (ParkIf 10 true) (after Yield spawned_state).

Definition the_task (w : world) (p : Z) : task := default default_task (w_tasks w !! p).
Definition the_handle (w : world) (h : Z) : Z := default 0 (w_handles w !! h).
Definition the_current (w : world) : Z := default 0 (tb_thread <$> w_tls w !! w_fs w).

Lemma inv_after o w :
  inv true w → op_ok true w o → bool_decide (is_Some (final (exec o w))) = true →
  inv true (after o w).
Proof.
  intros Hi Hok Hs%bool_decide_eq_true. pose proof (exec_ok true w o Hi Hok) as H.
  unfold after. destruct (exec o w); [done|by destruct Hs..].
Qed.

Lemma inv_at_current w c :
  inv true w → w_tls w !! w_fs w = Some (mkTlsBlock c true) → inv_at true w c.
Proof. intros [c' Hi] Hc. pose proof (i_curr _ _ _ Hi) as [Hc' _]. by assert (c' = c) as <- by congruence. Qed.

Lemma demo_spawn_ok : op_ok true demo_start demo_spawn.
Proof. split_and!; [done|by vm_compute|by split_and!; vm_compute|by vm_compute]. Qed.

Lemma demo_start_inv : inv_at true demo_start host_task.
Proof. exact (booted_inv true _ _). Qed.

Lemma spawned_inv : inv true spawned_state.
Proof. apply inv_after; [by eexists; apply demo_start_inv|apply demo_spawn_ok|by vm_compute]. Qed.

Lemma joining_inv : inv true joining_state.
Proof. apply inv_after; [apply spawned_inv|right; by vm_compute; eauto|by vm_compute]. Qed.

Lemma stopped_inv : inv true stopped_state.
Proof. apply inv_after; [apply inv_after|..]; [apply spawned_inv|done|by vm_compute|done|by vm_compute]. Qed.

Lemma parked_inv : inv true parked_state.
Proof.
  apply inv_after; [apply inv_after|..];
    [apply spawned_inv|done|by vm_compute|by vm_compute; eauto|by vm_compute].
Qed.

(** ** The scheduler *)

Lemma reachable_safe_witness :
  inv true spawned_state ∧ outcome_ok true spawned_state (Join 1 5) (exec (Join 1 5) spawned_state).
Proof.
  apply (reachable_safe true (λ _, True) [1; 2; 3; 4] [10; 11]).
  - reflexivity.
  - eapply (reach_call true _ _ _ demo_start demo_spawn).
    + apply reach_boot. vm_compute. reflexivity.
    + done.
    + apply demo_spawn_ok.
    + vm_compute. reflexivity.
  - right. vm_compute. eauto.
Defined.




(** The host and the spawned task start with the same virtual time. *)
Lemma no_starvation_witness :
  let x := the_handle spawned_state 1 in
  ∃ k w', (k ≤ 2)%nat ∧ exec_all (take k [Yield; Tick]) spawned_state = Ret () w' ∧ curr w' x.
Proof.
  apply (no_starvation true [1; 2; 3; 4] [10; 11] spawned_state 4096
    (the_task spawned_state 4096) (the_handle spawned_state 1) [Yield; Tick]).
  - reflexivity.
  - eapply (reach_call true _ _ _ demo_start demo_spawn).
    + apply reach_boot. vm_compute. reflexivity.
    + done.
    + apply demo_spawn_ok.
    + vm_compute. reflexivity.
  - split; [vm_compute; reflexivity|]. eexists. vm_compute. split; reflexivity.
  - vm_compute. reflexivity.
  - vm_compute. reflexivity.
  - vm_compute. left.
  - constructor; [by left|]. constructor; [by right|constructor].
  - vm_compute. reflexivity.
  - assert (w_thread_reads spawned_state = 1%nat) as -> by (vm_compute; reflexivity).
    intros i Hi. do 5 (destruct i as [|i]; [vm_compute; discriminate|]). simpl in Hi. lia.
Defined.

(** The host spawns a task, with a clock that advances by 400 nanoseconds, and
    yields a hundred times in vain. *)
Definition fast_spawned : world :=
  let E := demo_env 400 in default (booted [1] []) (final (exec demo_spawn (booted [1] []))).

Lemma short_slices_starve_witness :
  let E := demo_env 400 in
  ∃ w', exec_all (replicate 100 Yield) fast_spawned = Ret () w' ∧ curr w' 4096 ∧
    w_runqueue w' = w_runqueue fast_spawned.
Proof.
  apply (@short_slices_starve (demo_env 400) _ true [1] [] fast_spawned 4096
    (the_task fast_spawned 4096) 0 (replicate 100 Yield)).
  - reflexivity.
  - eapply (@reach_call (demo_env 400) true _ _ _ (@booted (demo_env 400) [1] []) demo_spawn).
    + apply reach_boot. vm_compute. reflexivity.
    + done.
    + split_and!; [done|by vm_compute|by split_and!; vm_compute|by vm_compute].
    + vm_compute. reflexivity.
  - split; [vm_compute; reflexivity|]. eexists. vm_compute. split; reflexivity.
  - vm_compute. reflexivity.
  - vm_compute. reflexivity.
  - assert (w_runqueue fast_spawned = [the_handle fast_spawned 1]) as -> by (vm_compute; reflexivity).
    constructor; [repeat constructor|]. constructor; [|constructor].
    eexists _, _. split; [vm_compute; reflexivity|]. split; [vm_compute; reflexivity|].
    right. vm_compute. done.
  - vm_compute. reflexivity.
  - vm_compute. reflexivity.
  - assert (w_thread_reads fast_spawned = 1%nat) as -> by (vm_compute; reflexivity).
    intros i Hi. rewrite length_replicate in Hi.
    unfold thread_clock_now, posix_time_from_type, timespec_ns. cbn [clock_gettime demo_env tv_sec tv_nsec].
    rewrite !wrap64_small by (unfold two64; lia). rewrite !signed64_small by lia. lia.
  - apply Forall_replicate. by left.
Defined.

Lemma task_clients_leak_nothing_witness :
  benchmark_task_create_destroy_with_tls 1000 demo_start = Ret () demo_start ∧
  benchmark_task_reset_with_tls 1000 demo_start = Ret () demo_start ∧
  benchmark_task_start 1000 k_default_attr demo_start = Ret () demo_start.
Proof.
  destruct demo_spawn_ok as (_ & _ & Ha & Hm).
  apply (task_clients_leak_nothing true demo_start 4096 k_default_attr demo_start_inv).
  - exact Ha.
  - apply Hm.
  - vm_compute. reflexivity.
Defined.

Lemma min_vruntime_monotone_witness :
  w_context spawned_state = true ∧
  match exec Yield spawned_state with
  | Ret _ w' | Throw _ w' => w_min_vruntime spawned_state ≤ w_min_vruntime w'
  | Stuck _ => True
  end.
Proof.
  split; [vm_compute; reflexivity|].
  apply (min_vruntime_monotone Yield spawned_state). vm_compute. reflexivity.
Defined.

Lemma freelist_bounded_witness :
  Z.of_nat (length (fl_l (w_freelist demo_start))) ≤ 64 ∧ NoDup (fl_l (w_freelist demo_start)) ∧
  ∀ p, p ∈ fl_l (w_freelist demo_start) →
    (∃ t, w_tasks demo_start !! p = Some t ∧ t_run_state t = STOPPED) ∧
    (∀ h, w_handles demo_start !! h ≠ Some p) ∧ (p ∉ w_runqueue demo_start) ∧ (p ∉ sleepers demo_start).
Proof.
  apply (freelist_bounded true (λ _, True) [1; 2; 3; 4] [10; 11]).
  - reflexivity.
  - apply reach_boot. vm_compute. reflexivity.
Defined.



Lemma exit_hands_over_witness :
  ∃ w', exec (Exit 42) joining_state = Ret () w' ∧ inv_at true w' 4096 ∧
    w_handles w' !! 1 = Some 0 ∧ (5 ≠ 0 → w_words w' !! 5 = Some 42).
Proof.
  pose (c := the_current joining_state).
  apply (exit_hands_over true joining_state c (the_task joining_state c)
    (the_task joining_state 4096) 1 5 42).
  - apply inv_at_current; [apply joining_inv|vm_compute; reflexivity].
  - vm_compute. reflexivity.
  - vm_compute. done.
  - vm_compute. done.
  - split; vm_compute; reflexivity.
  - vm_compute. reflexivity.
  - vm_compute. reflexivity.
Defined.

Lemma unpark_wakes_witness :
  ∃ w', unpark 10 parked_state = Ret true w' ∧ inv_at true w' 4096 ∧
    (the_handle parked_state 1 ≠ 0 →
     the_handle parked_state 1 ∈ w_runqueue w' ∧ w_waiters w' !! 10 = Some 0).
Proof.
  apply (unpark_wakes true parked_state 4096 10 (the_handle parked_state 1)).
  - apply inv_at_current; [apply parked_inv|vm_compute; reflexivity].
  - vm_compute. reflexivity.
Defined.

(** ** Components *)

Lemma push_stable_witness :
  ∃ l1 l2, [(3, 1); (5, 2); (9, 3)] = l1 ++ l2 ∧
    toq_push 5 4 [(3, 1); (5, 2); (9, 3)] = l1 ++ (5, 4) :: l2 ∧
    Forall (λ e, e.1 ≤ 5) l1 ∧ Forall (λ e, 5 < e.1) l2 ∧
    toq_ok (toq_push 5 4 [(3, 1); (5, 2); (9, 3)]).
Proof. apply (push_stable 5 4). repeat constructor; simpl; lia. Defined.

Lemma pop_inverted_witness :
  toq_pop 7 [(5, 2)] ≠ toq_pop_documented 7 [(5, 2)] ∧
  (toq_pop 7 [(5, 2)] = Some (5, Some 2, []) ↔ 7 < 5).
Proof. apply (pop_inverted 7 5 2 []). done. Defined.

(** Two finished tasks, with and without a thread-local block. *)
Definition with_sizes : gmap Z task :=
  {[ 1 := mkTask 9 None 0 0 100 STOPPED 0 0 0 0 false 0 0 false;
     2 := mkTask 0 None 0 0 300 STOPPED 0 0 0 0 false 0 0 false;
     3 := mkTask 9 None 0 0 200 STOPPED 0 0 0 0 false 0 0 false ]}.

Lemma with_sizes_live q : q ∈ [2; 1] → is_Some (with_sizes !! q).
Proof. intros [-> | ->%list_elem_of_singleton]%elem_of_cons; vm_compute; eauto. Qed.

Lemma find_task_first_fit_witness :
  ∃ r, find_task with_sizes (mkAttr 0 100 0 true) [2; 1] = Some r ∧
    ((∃ l1 l2 t, [2; 1] = l1 ++ r.1 :: l2 ∧ r.2 = l1 ++ l2 ∧ with_sizes !! r.1 = Some t ∧
        fits (mkAttr 0 100 0 true) t = true ∧
        ∀ q tq, q ∈ l1 → with_sizes !! q = Some tq → fits (mkAttr 0 100 0 true) tq = false) ∨
     (r = (0, [2; 1]) ∧
      ∀ q tq, q ∈ [2; 1] → with_sizes !! q = Some tq → fits (mkAttr 0 100 0 true) tq = false)).
Proof. apply find_task_first_fit. apply with_sizes_live. Defined.

Lemma insert_task_ordered_witness :
  ∃ l', insert_task with_sizes 3 [2; 1] = Some l' ∧ l' ≡ₚ [3; 2; 1] ∧ fl_ordered with_sizes l'.
Proof.
  apply (insert_task_ordered with_sizes 3 [2; 1]).
  - vm_compute. eauto.
  - apply with_sizes_live.
  - repeat constructor. intros (tj & ti & Hj & Hi & Hsz & _). vm_compute in Hj, Hi.
    injection Hj as <-. injection Hi as <-. by vm_compute in Hsz.
Defined.

Lemma k_default_ok : attr_ok true k_default_attr ∧ memory_available (w_maps demo_start) k_default_attr.
Proof. split; [by split_and!; vm_compute|by vm_compute]. Qed.

Lemma reuse_needs_no_guard_witness :
  fits k_default_attr (created_task true demo_start k_default_attr) = false.
Proof. apply (reuse_needs_no_guard true demo_start k_default_attr); apply k_default_ok. Defined.

Lemma right_mask_least_witness :
  ∃ m k, right_mask 100 = Some m ∧ 0 ≤ k ≤ 64 ∧ m = 2 ^ k - 1 ∧ 100 ≤ m < 2 * 100 ∧
    Z.land 100 m = 100.
Proof. apply (right_mask_least 100). done. Defined.


Lemma itimer_exact_witness :
  let '(sec, rest) := itimer_fields 2500000 in
  sec * 1000000 + rest = 2500000 ∧ 0 ≤ sec ∧ 0 ≤ rest < 1000000 ∧
  ((sec, rest) = (0, 0) ↔ 2500000 = 0).
Proof. apply (itimer_exact 2500000). done. Defined.

Lemma thread_clock_exact_witness :
  thread_clock_now 3 = 0 * 1000000000 + 4500 ∧
  ∀ m, thread_clock_now m ≤ thread_clock_now 3 →
    let slice := thread_clock_now 3 - thread_clock_now m in
    1000 * to_microseconds slice ≤ slice < 1000 * to_microseconds slice + 1000.
Proof.
  change (0 * 1000000000 + 4500)
    with (tv_sec (clock_gettime 3) * 1000000000 + tv_nsec (clock_gettime 3)).
  apply (thread_clock_exact 3); vm_compute; done.
Defined.

Lemma mmap_failure_unnoticed_witness :
  allocate_stack [(65536, two64)] (mkAttr 0 4096 0 true) true =
    mkStackResult 0 (Some 4095) (Some 4096) [(65536, two64)].
Proof. apply (mmap_failure_unnoticed [(65536, two64)] (mkAttr 0 4096 0 true)); reflexivity. Defined.

(** A task sleeps for a moment that has already passed, and the run queue is empty. *)
Definition overdue_state : world :=
  set_spin_lock true (set_system_reads 1 (set_sleepqueue [(10, 4096)] demo_start)).

Lemma overdue_sleeper_faults_witness : pop idle_thunk overdue_state = Stuck null_deref.
Proof.
  apply (overdue_sleeper_faults true overdue_state [4096] 10 4096 []); try done.
  apply (core_ext true (set_sleepqueue [(10, 4096)] demo_start)); [reflexivity|].
  apply core_set_sleepqueue; try apply _.
  - eapply core_weaken; [|apply demo_start_inv]. apply list_subseteq_nil.
  - intros x ->%list_elem_of_singleton. split; [apply not_elem_of_nil|]. intros H. by destruct H; left.
  - apply NoDup_singleton.
  - repeat constructor.
Defined.

(** ** The context switch *)

(** Context 0x1000 switches to the context saved at 0x2000, whose stack pointer
    is 0x9000. *)
Definition away_regs (r : reg) : Z :=
  match r with RDI => 0x1000 | RSI => 0x2000 | RSP => 0x8000 | RBX => 1 | RBP => 2
             | R12 => 3 | R13 => 4 | R14 => 5 | R15 => 6 | RCX => 50 | RDX => 60 end.
Definition other_regs (r : reg) : Z := match r with RSP => 0x9000 | _ => 9 end.
Definition away : machine :=
  mkMachine away_regs
    (<[0x8000 := 77]> (<[0x9000 := 88]> (saved_mem 0x2000 other_regs ∅))) false.
Definition away' : machine := default away (snd <$> run gthread_switch_to 0 away).
(** That context switches back. *)
Definition back : machine :=
  mkMachine (λ r, match r with RDI => 0x2000 | RSI => 0x1000 | _ => regs away' r end)
    (mem away') false.

Lemma switch_back_resumes_witness :
  ∃ m3, run gthread_switch_to 0 back = Some (77, m3) ∧
    regs m3 RSP = 0x8000 + 8 ∧
    ∀ r, r ∈ [RBX; RBP; R12; R13; R14; R15] → regs m3 r = regs away r.
Proof.
  apply (switch_back_resumes away 77 away' back other_regs);
    try (vm_compute; done); try (vm_compute; by left); try (vm_compute; by right).
  - eexists. vm_compute. done.
  - intros r off Hin. unfold ctx_fields in Hin.
    repeat (apply elem_of_cons in Hin as [[= -> ->]|Hin]; [by vm_compute|]).
    by apply elem_of_nil in Hin.
  - vm_compute. by eexists.
Defined.

Lemma spawn_enters_witness :
  ∃ m', run gthread_switch_to_and_spawn 0 away = Some (60, m') ∧
    regs m' RDI = 50 ∧ regs m' RBP = 0 ∧ regs m' RSP = 0x2000 - 8 ∧
    (regs m' RSP + 8) `mod` 16 = 0 ∧ mem m' !! regs m' RSP = Some 0 ∧
    holds (mem m') 0x1000 (regs away).
Proof. apply (spawn_enters away); vm_compute; try done. by right. Defined.

(** ** The ring buffer and the mutex *)

(** Three values are written into a buffer of four, and one is read. *)
Definition some_traffic : list (@event Z) :=
  CallWrite 5 :: writer 7 ++ CallWrite 6 :: writer 7 ++ CallRead :: reader 6 ++ CallWrite 7 :: writer 7.

Lemma ring_is_fifo_witness :
  ∃ s, acts 4 some_traffic ring_init = Next s ∧
    got s `prefix_of` sent s ∧
    Z.of_nat (length (sent s)) - Z.of_nat (length (got s)) ≤ 4 ∧
    (∀ lr lw u v, at_r s = RStoreR lr v → at_w s = WStoreW u lw → index 4 lr ≠ index 4 lw).
Proof. apply (ring_is_fifo 4 2); done. Defined.

(** The traffic is what it says: the first value was read, two are left. *)
Example some_traffic_runs :
  match acts 4 some_traffic ring_init with
  | Next s => sent s = [5; 6; 7] ∧ got s = [5]
  | _ => False
  end.
Proof. by vm_compute. Qed.

(** A task waits for the mutex; its owner is in the wait loop of [unlock()]. *)
Definition contended : list mevent :=
  [CallLock 1; MStep 1; MStep 1; CallLock 2; MStep 2; MStep 2; CallUnlock 1; MStep 1; MStep 1].

Lemma mutex_excludes_witness :
  let s := macts contended mutex_init in
  (∀ t1 t2, at_pc s t1 = MOwner → at_pc s t2 = MOwner → t1 = t2 ∧ m_owner s = t1) ∧
  (∀ t id, at_pc s t = LParked id → (id, Waiting t) ∈ m_waitqueue s) ∧
  (m_waitqueue s ≠ [] → m_owner s ≠ 0 ∨ ∃ t, about_to_lock (at_pc s t)).
Proof. apply (mutex_excludes contended). by repeat constructor. Defined.


Lemma lock_then_unlock_witness :
  let s := macts [CallLock 1; MStep 1; MStep 1] mutex_init in
  macts [CallUnlock 2; MStep 2; MStep 2] s = goto 2 MThrew s.
Proof. apply (lock_then_unlock 2 (macts [CallLock 1; MStep 1; MStep 1] mutex_init)); by vm_compute. Defined.
