(* ===== verification/WitnessesArch.v ===== *)
(** * The context switch at work

    The benchmark of the context switch on a concrete machine: contexts at
    0x1000 and 0x1040, the main stack below 0x8000, the new one below 0x9000. *)

From S2P Require Import Prelude SwitchTo PingPong.

Definition arch_start : machine :=
  mkMachine (λ r, match r with RSP => 0x8000 | RBX => 11 | R12 => 12 | R15 => 15 | _ => 0 end) ∅ false.

Lemma ping_pong_returns_witness :
  ∃ m, bench_gthread_switch_to 0x1000 0x1040 0x9000 0x400 0x500 0x510 0x520 100 arch_start = Some m ∧
    regs m RSP = 0x8000 ∧ (∀ r, r ∈ saved_regs → regs m r = regs arch_start r) ∧
    ∀ a, apart 0x1000 0x1040 a → a ∉ [0x8000 - 8; 0x9000 - 8; 0x9000 - 16] →
      mem m !! a = mem arch_start !! a.
Proof.
  apply (ping_pong_returns 0x1000 0x1040 0x9000 0x400 0x500 0x510 0x520 arch_start);
    unfold apart, outside_ctx, arch_start; simpl; try done; lia.
Defined.
