(* ===== verification/WitnessesLib.v ===== *)
(** * The theorems on thread-local blocks, scoped objects and [g] at work *)

From S2P Require Import Prelude Platform World Task Tls TlsRefine Raii Sched.
From S2P Require Import Demo Inv InvSteps Safety Behaviour Gthread Witnesses.

(** ** Thread-local blocks *)

(** Two segments; the first is not a multiple of its alignment. *)
Definition demo_images : list tls_image := [mkTlsImage 100 4 4 16; mkTlsImage 200 8 0 8].

Lemma demo_images_ok : Forall image_ok demo_images.
Proof. repeat constructor; done. Qed.

Definition plain_images : list tls_image := [mkTlsImage 100 4 0 16; mkTlsImage 200 8 0 8].

Lemma plain_images_ok : Forall image_ok plain_images.
Proof. repeat constructor; done. Qed.

(** Some block of these images, with a variable allocated dynamically. *)
Definition demo_tcb : tcbhead :=
  mkTcb 1001 32 (1001 - 24) (mkDtv 1001 false :: mkDtv 77 false :: replicate 31 unallocated) 5 true
    no_magic.


Lemma tls_reset_reloads_witness :
  ∃ m' tcb', reset_tls 1000 (table demo_images) image_bytes demo_tcb = Some ([77], m', tcb') ∧
    (∀ k, 0 ≤ k < 4 → m' (985 + k) = image_bytes (100 + k)) ∧
    (∀ k, 4 ≤ k < 16 → m' (985 + k) = 0) ∧
    (∀ a, a < 1001 - 24 ∨ 1001 ≤ a → m' a = image_bytes a) ∧
    tcb_vector tcb' !! 1%nat = Some (mkDtv 985 true) ∧
    tcb_thread tcb' = 5 ∧ destruct_tls tcb' = [].
Proof.
  change [77] with (destruct_tls demo_tcb).
  eapply (tls_reset_reloads 1000 demo_images) with (im := mkTlsImage 100 4 4 16).
  - vm_compute. lia.
  - apply demo_images_ok.
  - repeat constructor; by vm_compute.
  - done.
  - done.
  - done.
  - done.
Defined.


(** A world that shows the block of [demo_tcb], with [g_current_sched_node] at
    offset 8 of the first segment. *)
Definition block_world : world :=
  upd_tls <[50 := view 985 8 image_bytes demo_tcb]> demo_start.

Lemma tls_block_refines_witness :
  (∃ freed m' tcb', reset_tls 1000 (table demo_images) image_bytes demo_tcb = Some (freed, m', tcb') ∧
     tls_reset 50 block_world = Ret () (upd_tls <[50 := view 985 8 m' tcb']> block_world)) ∧
  (∀ thread, tls_set_thread 50 thread block_world =
     Ret () (upd_tls <[50 := view 985 8 image_bytes (set_tcb_thread thread demo_tcb)]> block_world)) ∧
  (∀ magic m0, (∀ a, 1001 - 24 ≤ a < 1001 → m0 a = 0) →
     let '(m', tcb') := construct_tls 1000 0 magic (table demo_images) m0 in
     tls_construct 50 block_world = Ret () (upd_tls <[50 := view 985 8 m' tcb']> block_world)).
Proof.
  eapply (tls_block_refines 1000 demo_images 0 (mkTlsImage 100 4 4 16) 985 8).
  - apply demo_images_ok.
  - repeat constructor; by vm_compute.
  - done.
  - done.
  - done.
  - done.
  - done.
  - done.
  - apply lookup_insert_eq.
Defined.

Definition demo_infos : list dl_phdr_info :=
  [mkInfo 4096 1 [mkPhdr false 0 9 9 8; mkPhdr true 64 4 12 16]; mkInfo 8192 0 [mkPhdr false 0 1 1 1];
   mkInfo 12288 2 [mkPhdr true 32 8 8 8]].

Lemma demo_modules_ok : modules_ok demo_infos.
Proof.
  split.
  - intros info Hin Hs. unfold demo_infos in Hin.
    repeat (apply elem_of_cons in Hin as [->|Hin];
      [by first [vm_compute; done|destruct Hs]|]). by apply elem_of_nil in Hin.
  - apply (bool_decide_unpack _). by vm_compute.
Qed.

Lemma find_tls_images_complete_witness :
  ∃ images, find_tls_images demo_infos = Some (inr images) ∧ length images = k_num_slots ∧
    (∀ info ph, info ∈ demo_infos → tls_header info = Some ph →
       images !! image_slot info = Some (image_of info ph)) ∧
    (∀ j, (j < k_num_slots)%nat →
       (∀ info, info ∈ demo_infos → is_Some (tls_header info) → image_slot info ≠ j) →
       images !! j = Some no_image).
Proof. apply (find_tls_images_complete demo_infos), demo_modules_ok. Defined.

Lemma image_reserve_aligned_witness :
  let im := image_of (mkInfo 4096 1 []) (mkPhdr true 64 4 12 16) in
  12 ≤ image_reserve im < 12 + 16 ∧ image_reserve im `mod` 16 = 0 ∧
  image_reserve im = image_mem_offset im + 12.
Proof. apply (image_reserve_aligned (mkInfo 4096 1 []) (mkPhdr true 64 4 12 16) 4); done. Defined.

(** ** Scoped objects *)

(** Two timers; the second is moved before it ends. *)
Definition timer_run : list (hop timer_payload) :=
  [Make 0 (100, 7); Make 1 (110, 8); MoveTo 2 1; Destroy 1 120; Destroy 0 150; Destroy 2 160].

Lemma timer_calls_once_witness :
  let s := hacts timer_run no_holders in
  (end_calls s).*1 ≡ₚ (made s).*2 ∧
  ∀ f d, (f, d) ∈ end_calls s →
    ∃ start now id, (start, f) ∈ made s ∧ Destroy id now ∈ timer_run ∧ d = now - start.
Proof. apply (timer_calls_once timer_run); [by repeat constructor|by vm_compute]. Defined.

Example timer_run_calls : end_calls (hacts timer_run no_holders) = [(7, 50); (8, 50)].
Proof. by vm_compute. Qed.

(** ** The class [g] *)

Definition demo_gworld : gworld := mkGworld demo_start ∅ [].

Lemma g_runs_once_witness :
  ∃ s' q t, g_construct 7 1 700 9 [4; 5] demo_gworld = Ret Returned s' ∧
    inv_at false (gw s') host_task ∧
    w_handles (gw s') !! 1 = Some q ∧ w_tasks (gw s') !! q = Some t ∧
    t_entry t = 7 ∧ t_arg t = 700 ∧ q ∈ w_runqueue (gw s') ∧
    ∀ s2, gw_closures s2 !! 700 = gw_closures s' !! 700 →
      ∃ s3, start_body 700 s2 = Ret () s3 ∧ gw s3 = gw s2 ∧
        gw_calls s3 = gw_calls s2 ++ [(9, [4; 5])] ∧ apply_marshall 700 s3 = Throw bad_function_call s3.
Proof.
  apply (g_runs_once 7 demo_gworld host_task 1 700 9 [4; 5]); try done.
  exact (booted_inv false _ _).
Defined.

(** A [g] whose task has stopped, and is current in the host task. *)
Lemma g_lifetime_witness :
  ∃ s', g_join 1 (mkGworld stopped_state ∅ []) = Ret Returned s' ∧ inv_at true (gw s') 4096 ∧
    w_handles (gw s') !! 1 = Some 0 ∧ g_destroy 1 s' = Ret Returned s'.
Proof.
  assert (inv_at true stopped_state 4096) as Hi
    by (apply inv_at_current; [apply stopped_inv|by vm_compute]).
  refine (proj2 (proj2 (proj2 (g_lifetime true (mkGworld stopped_state ∅ []) 4096 1 Hi _))
    (the_handle stopped_state 1) (the_task stopped_state (the_handle stopped_state 1)) _ _ _ _ _));
    by vm_compute.
Defined.
