(* ===== verification/WitnessesConcur.v ===== *)
(** * The refinement theorems of the ring buffer and the mutex at work *)

From S2P Require Import Prelude RingBuffer Mutex Monitor RingMonitor MutexRefine.
From S2P Require Import ChannelClient RingStream.

(** Two values are written and one is read, in a buffer of two. *)
Definition two_writes : list (@event Z) :=
  CallWrite 5 :: writer 7 ++ CallWrite 6 :: writer 7 ++ CallRead :: reader 6.

Lemma two_bits : 0 ≤ 1 < 64.
Proof. lia. Qed.


Example two_writes_trace :
  (m_run (M := ring_monitor 2 1 two_bits eq_refl) two_writes ring_init).2 = [LPut 5; LPut 6; LGet 5].
Proof. vm_compute. reflexivity. Qed.

(** Task 1 locks, task 2 has to wait, a third one may not unlock. *)
Definition locked_twice : list mevent :=
  CallLock 1 :: replicate 2 (MStep 1) ++ CallLock 2 :: replicate 4 (MStep 2) ++
  CallUnlock 3 :: replicate 2 (MStep 3) ++ CallUnlock 1 :: replicate 3 (MStep 1) ++
  replicate 2 (MStep 2).

Lemma mutex_refines_lock_witness :
  lock_steps 0 (mutex_trace locked_twice mutex_init) (m_owner (macts locked_twice mutex_init)).
Proof. apply (mutex_refines_lock locked_twice). by repeat constructor. Defined.

Example locked_twice_trace :
  mutex_trace locked_twice mutex_init = [Acquire 1; Refuse 3; Release 1; Acquire 2].
Proof. vm_compute. reflexivity. Qed.

Lemma buffered_streams_arrive_witness :
  delivered 3 (bench_buffered_channel_sending_ints_64 3 (replicate 240 true)) ∧
  delivered 3 (bench_buffered_channel_sending_ints_1024 3 (replicate 240 true)) ∧
  delivered 3 (bench_buffered_channel_sending_ints_4096 3 (replicate 240 true)).
Proof. apply (buffered_streams_arrive 3 (replicate 240 true)). simpl. lia. Defined.
