(* ===== verification/WitnessesMac.v ===== *)
(** * The theorems on the macOS platform at work

    A Mach kernel that maps above everything mapped so far, and whose
    [mach_vm_protect] answers the given code; and a thread whose [pthread_t] has
    three words before its slots. *)

From S2P Require Import Prelude BitTwiddle Platform Task Sched Demo MacMemory MacTls.

Definition demo_base (maps : list region) (mask : Z) : Z :=
  (top_of maps / (mask + 1) + 1) * (mask + 1).

Definition demo_mach (protect : Z) : Mach := {|
  vm_page_size := 4096;
  mach_vm_map maps hint len mask :=
    let base := demo_base maps mask in
    if bool_decide (top_of maps ≤ base ∧ base + len < two64 ∧ Z.land base mask = 0)
    then (kern_success, base) else (3, hint);
  mach_vm_allocate maps hint len :=
    if bool_decide (top_of maps + len < two64) then (kern_success, top_of maps) else (3, hint);
  mach_vm_protect _ _ := protect;
  mach_vm_deallocate maps base len := if bool_decide ((base, len) ∈ maps) then 0 else 1
|}.

#[export] Instance demo_mach_ok protect : MachOk (demo_mach protect).
Proof.
  split; simpl.
  - intros maps hint len mask. case_bool_decide as H; [|done]. destruct H as (Ht & ? & ?). intros _.
    pose proof (top_of_pos maps). split_and!; [simpl; lia|done|done|].
    intros r Hr. pose proof (top_of_above maps r Hr). left. simpl in *. lia.
  - intros maps hint len. case_bool_decide; [|done]. intros _. pose proof (top_of_pos maps).
    split_and!; [simpl; lia|done|]. intros r Hr. left. by apply top_of_above.
  - intros maps base len H. by rewrite bool_decide_true.
Qed.

Lemma mac_stack_roundtrip_witness :
  let _ := demo_mach kern_success in
  ∃ r, mac_allocate_stack [] k_default_attr true = Some r ∧
    mr_total r = Some (total_size k_default_attr) ∧
    (mr_rc r = eagain ∧ mr_stack r = None ∧ mr_maps r = [] ∨
     ∃ base, mac_mapped [] k_default_attr r base ∧
       mac_free_stack (mr_maps r) base (total_size k_default_attr) = (0, [])).
Proof.
  exact (@mac_stack_roundtrip (demo_mach kern_success) (demo_mach_ok kern_success) [] k_default_attr
    eq_refl eq_refl).
Defined.

Lemma mac_stack_aligned_witness :
  let _ := demo_mach kern_success in
  ∃ r base, mac_allocate_stack [] k_default_attr true = Some r ∧ mac_mapped [] k_default_attr r base ∧
    ∀ x, base ≤ x < base + total_size k_default_attr → Z.ldiff x 0x7fffff = base.
Proof.
  exact (@mac_stack_aligned (demo_mach kern_success) (demo_mach_ok kern_success) [] k_default_attr
    0x7fffff eq_refl eq_refl eq_refl).
Defined.

Lemma mac_guard_unchecked_witness :
  let _ := demo_mach 2 in
  ∃ r, mac_allocate_stack [] k_default_attr true = Some r ∧ mr_rc r = 0 ∧ mr_guard r = None.
Proof.
  apply (@mac_guard_unchecked (demo_mach 2) [] k_default_attr 0x7fffff).
  - reflexivity.
  - reflexivity.
  - reflexivity.
  - vm_compute. discriminate.
Defined.

(** A Mach kernel that maps where the Linux kernel of [Demo] does. *)
Definition like_linux : Mach := {|
  vm_page_size := 4096;
  mach_vm_map maps _ len _ := (kern_success, mmap maps len);
  mach_vm_allocate maps _ len := (kern_success, mmap maps len);
  mach_vm_protect _ _ := kern_success;
  mach_vm_deallocate _ _ _ := 0
|}.

Lemma mac_matches_linux_witness :
  let _ := like_linux in
  (λ r, mkStackResult (mr_rc r) (mr_stack r) (mr_total r) (mr_maps r)) <$>
    mac_allocate_stack [] k_default_attr true =
  Some (allocate_stack [] k_default_attr true).
Proof.
  apply (@mac_matches_linux demo like_linux [] k_default_attr true 0x7fffff).
  - reflexivity.
  - reflexivity.
  - reflexivity.
  - vm_compute. discriminate.
  - vm_compute. discriminate.
  - reflexivity.
Defined.

(** The [pthread_t] at 4096, its slots at 4120. *)
Definition demo_thread (size : Z) : mac := mkMac (store64 4120 4096 (λ _, 0)) 4120 size [].

Lemma mac_search_terminates_witness :
  let s := demo_thread 0 in
  ∃ k s', (k ≤ 3)%nat ∧ get_pthread_slots_offset 4 s = Some (8 * Z.of_nat k, s') ∧
    load64 (mac_mem s) (pthread_self s + 8 * Z.of_nat k) = pthread_self s ∧
    mac_mem s' = mac_mem s ∧ mac_gs s' = mac_gs s ∧
    ((0 < k)%nat → get_pthread_slots_offset 0 s' = Some (8 * Z.of_nat k, s')) ∧
    ((∀ j, (j < 3)%nat → load64 (mac_mem s) (pthread_self s + 8 * Z.of_nat j) ≠ pthread_self s) →
     k = 3%nat).
Proof.
  apply (mac_search_terminates (demo_thread 0) 3 4).
  - reflexivity.
  - vm_compute. reflexivity.
  - lia.
Defined.

Lemma demo_thread_sized : sized (demo_thread 24) 24.
Proof. by split. Qed.

Lemma mac_block_current_witness :
  let s := demo_thread 24 in
  ∃ s1 s2 s3, mac_construct 0 8191 s = Some s1 ∧ mac_set_thread 0 8191 77 s1 = Some s2 ∧
    mac_use 0 8191 s2 = Some s3 ∧ mac_current s3 = 8191 ∧ mac_current_thread s3 = 77 ∧
    mac_get_thread 0 8191 s3 = Some (77, s3) ∧
    (∀ n s', mac_postfix_bytes 0 s = Some (n, s') →
       ∀ x, ¬ (8191 ≤ x < 8191 + n) → mac_mem s3 x = mac_mem s x).
Proof.
  apply (mac_block_current (demo_thread 24) 24 8191 77); [exact demo_thread_sized|by vm_compute..].
Defined.

Lemma mac_reset_frees_once_witness :
  let s := set_mem (store64 (8192 + 24 + 8 * 300) 55 (mac_mem (demo_thread 24))) (demo_thread 24) in
  ∃ s', mac_reset 0 8191 s = Some s' ∧
    mac_freed s' = rev (held (mac_mem s) (mac_after 8191 + 24) 256 512) ++ mac_freed s ∧
    (∀ j, 256 ≤ j < 768 → load64 (mac_mem s') (mac_after 8191 + 24 + 8 * j) = 0) ∧
    (∀ x, ¬ (mac_after 8191 + 24 + 8 * 256 ≤ x < mac_after 8191 + 24 + 8 * 768) →
       mac_mem s' x = mac_mem s x) ∧
    mac_gs s' = mac_gs s ∧
    option_map fst (mac_get_thread 0 8191 s') = option_map fst (mac_get_thread 0 8191 s) ∧
    mac_destruct 0 8191 s' = Some s'.
Proof. intros s. apply (mac_reset_frees_once s 24 8191). exact demo_thread_sized. Defined.
