(* ===== verification/WitnessesWindow.v ===== *)
(** * The theorems on the channel window at work *)

From S2P Require Import Prelude ChannelWindow WindowProgress.
From S2P Require Import ChannelClient WindowStream.

Lemma window_end_of_stream_witness :
  let es := CloseW :: writer 3 ++ CallRead :: reader 2 in
  w_closed (acts (T := Z) es window_init []).1.1 = true.
Proof.
  eapply (window_end_of_stream (T := Z) (CloseW :: writer 3 ++ CallRead :: reader 2) StepR).
  - vm_compute. reflexivity.
  - vm_compute. reflexivity.
Defined.

(** Both sides have just entered their calls, and step in turn. *)
Lemma window_progress_witness :
  let s := (acts [CallRead; CallWrite 7] window_init []).1.1 in
  ∃ es1 es2, concat (replicate 23 [StepR; StepW]) = es1 ++ es2 ∧
    let '(s1, _, f) := acts es1 s [Offered 7] in (calls s1 < calls s)%nat ∨ is_Some f.
Proof.
  apply (window_progress [CallRead; CallWrite 7] _ _ (replicate 23 [StepR; StepW])).
  - vm_compute. reflexivity.
  - vm_compute. reflexivity.
  - apply Forall_replicate. split; [left|right; left].
  - reflexivity.
Defined.

Lemma unbuffered_stream_arrives_witness :
  delivered 3 (bench_channel_sending_ints 3 (replicate 240 true)).
Proof. apply (unbuffered_stream_arrives 3 (replicate 240 true)). simpl. lia. Defined.
