(* ===== verification/WitnessesTls.v ===== *)
(** * The theorems on the class [tls] at work

    A process with two modules; a task is created, labelled and run, and a module
    is loaded for it. *)

From S2P Require Import Prelude Platform Tls TlsProcess.

Definition proc_infos : list dl_phdr_info :=
  [mkInfo 4096 1 [mkPhdr false 0 9 9 8; mkPhdr true 64 4 12 16]; mkInfo 8192 0 [mkPhdr false 0 1 1 1];
   mkInfo 12288 2 [mkPhdr true 32 8 8 8]].
Definition proc_images : list tls_image := [mkTlsImage 4160 4 4 16; mkTlsImage 12320 8 0 8].

Lemma proc_find : find_tls_images proc_infos = Some (inr (table proc_images)).
Proof. by vm_compute. Qed.

Lemma proc_images_ok : Forall image_ok proc_images.
Proof. repeat constructor; done. Qed.

(** Addresses never run out. *)
Definition proc_new (live : gset Z) : option Z := Some (fresh live).

Lemma proc_new_fresh live va : proc_new live = Some va → va ∉ live.
Proof. intros [= <-]. apply is_fresh. Qed.

Definition proc_magic : Z * Z * Z * Z := (1, 2, 3, 4).
Definition proc_start : process :=
  mkProcess (λ _, 0) 50 None (0, 0, 0, 0) {[50 := mkControl 50 9 7 true proc_magic]} ∅ ∅ ∅.

(** The state after an operation *)
Definition then_ (o : op) (s : process) : process :=
  match exec proc_infos proc_new o s with Ret _ s' => s' | _ => s end.

Definition proc_reach : process → Prop := reach proc_infos proc_new 50 proc_magic.

Lemma reach_then s o : proc_reach s → allowed 50 s o → proc_reach (then_ o s).
Proof.
  intros Hr Ha. assert (ok proc_images 50 proc_magic s) as Hok.
  { eapply reach_ok; [apply proc_find|apply proc_images_ok|apply proc_new_fresh|done]. }
  destruct (history_step proc_infos proc_new proc_images 50 proc_magic proc_find proc_images_ok
              proc_new_fresh s o Hok Ha) as [(s' & He & _)|(? & ? & _ & Hn & _)]; [|done].
  unfold then_. rewrite He. by eapply reach_step.
Qed.

Lemma proc_start_reach : proc_reach proc_start.
Proof. apply reach_start. split_and!; try done. by eexists. Qed.

(** A task at 1000, whose block is at 1001, which belongs to the task 77 *)
Definition proc_one : process := then_ (SetThread 1000 77) (then_ (Create 1000) proc_start).
(** It runs, and module 5 is loaded for it *)
Definition proc_two : process := then_ (LoadModule 1000 3 600) (then_ (Use 1000) proc_one).
(** The first thread runs again, and the task is destroyed *)
Definition proc_three : process := then_ (Destroy 1000) (then_ (Use 49) proc_two).

Lemma proc_one_reach : proc_reach proc_one.
Proof.
  apply reach_then; [apply reach_then|vm_compute; by eexists].
  - apply proc_start_reach.
  - by vm_compute.
Qed.

Lemma proc_two_reach : proc_reach proc_two.
Proof.
  apply reach_then; [apply reach_then; [apply proc_one_reach|vm_compute; by eexists]|].
  split_and!; [done|by vm_compute|done|done|].
  eexists _, _. split_and!; by vm_compute.
Qed.

Lemma proc_three_reach : proc_reach proc_three.
Proof.
  apply reach_then; [apply reach_then; [apply proc_two_reach|vm_compute; by eexists]|].
  split_and!; [vm_compute; by eexists|done|by vm_compute].
Qed.

Lemma tls_histories_safe_witness :
  (∃ s', exec proc_infos proc_new (Reset 1000) (then_ (Use 49) proc_two) = Ret () s' ∧ proc_reach s') ∨
  (∃ this s', Reset 1000 = Create this ∧
     proc_new (dom (pr_vectors (then_ (Use 49) proc_two))) = None ∧
     exec proc_infos proc_new (Reset 1000) (then_ (Use 49) proc_two) = Throw bad_alloc s').
Proof.
  apply (tls_histories_safe proc_infos proc_new proc_images 50 proc_magic proc_find proc_images_ok
           proc_new_fresh).
  - apply reach_then; [apply proc_two_reach|vm_compute; by eexists].
  - split_and!; [vm_compute; by eexists|done|by vm_compute].
Defined.

Lemma tls_nothing_leaks_witness :
  pr_dynamic proc_two = {[600]} ∧ pr_vectors proc_three = ∅ ∧ pr_dynamic proc_three = ∅.
Proof.
  split; [by vm_compute|].
  apply (tls_nothing_leaks proc_infos proc_new proc_images 50 proc_magic proc_find proc_images_ok
           proc_new_fresh proc_three proc_three_reach). by vm_compute.
Defined.

Lemma tls_use_current_witness :
  ∃ s', use 1000 proc_one = Ret () s' ∧ current s' = Ret 1000 s' ∧ current_thread s' = Ret 77 s' ∧
    ∃ c, pr_controls s' !! 1001 = Some c ∧ c_magic c = proc_magic ∧
      (1001 ≠ 50 → c_self c = 1001 ∧ 1001 ∈ pr_ctype s').
Proof.
  apply (tls_use_current proc_infos proc_new proc_images 50 proc_magic proc_find proc_images_ok
           proc_new_fresh proc_one 1000 77).
  - apply proc_one_reach.
  - apply (get_thread_eq proc_one 1000 (mkControl 1001 (fresh (∅ : gset Z)) 77 false proc_magic)).
    by vm_compute.
Defined.
