(* ===== verification/WitnessesPlatforms.v ===== *)
(** * The theorem on the platforms at work

    The first thread of a process is the task at 4096, with its block at 8192, on
    Linux, on macOS and in the world of the scheduler; a block for another task
    is made, put to use, left, reset and destroyed. *)

From S2P Require Import Prelude Platform World Task Sched Demo Safety.
From S2P Require Import Tls TlsProcess MacTls TlsInterface TlsLinux TlsMac TlsWorld TlsPlatforms.
From S2P Require Import WitnessesTls.

Definition plat_env : Env := {|
  clock_gettime := clock_gettime; clock_getres := clock_getres; system_now := system_now;
  sleep_until := sleep_until; sc_pagesize := sc_pagesize; mmap := mmap;
  mprotect_fails := mprotect_fails; setitimer := setitimer;
  tls_images := table proc_images; host_task := 4096; host_tls := 8192
|}.

Definition plat_linux : process :=
  mkProcess (λ _, 0) 8193 None (0, 0, 0, 0) {[8193 := mkControl 8193 9 4096 true proc_magic]} ∅ ∅ ∅.

Definition plat_mac : mac :=
  mkMac (store64 8217 8193 (store64 8265 4096 (λ _, 0))) 8217 24 [].

Definition plat_world : world := booted (E := plat_env) [] [].

Definition plat_registry : registry := mkRegistry {[8192 := 4096]} 8192 8192.

Lemma plat_linux_models : linux_models proc_images 8193 proc_magic plat_linux plat_registry.
Proof.
  apply (linux_starts proc_images 8193 proc_magic plat_linux (mkControl 8193 9 4096 true proc_magic));
    [|done]. split_and!; try done. by eexists.
Qed.

Lemma plat_mac_models : mac_models 24 plat_mac plat_registry.
Proof.
  split; [done| | |by eexists|done]; cbn [plat_registry r_blocks].
  - intros this thread [<- <-]%lookup_singleton_Some. by repeat split.
  - intros a b [x [<- _]%lookup_singleton_Some] [y [<- _]%lookup_singleton_Some]. done.
Qed.

Lemma plat_world_models : world_models plat_world plat_registry.
Proof. split; [|done]. simpl. by rewrite map_fmap_singleton. Qed.

Definition plat_calls : list tls_call :=
  [CConstruct 200000; CGetThread 200000; CSetThread 200000 77; CUse 200000; CCurrent; CCurrentThread;
   CUse 8192; CReset 200000; CGetThread 200000; CDestruct 200000; CCurrentThread].

Lemma plat_registry_calls pre post :
  0 ≤ pre ≤ 100 → 0 < post ≤ 10000 →
  registry_calls pre post plat_calls plat_registry =
    Some ([0; 200000; 77; 77; 4096], plat_registry).
Proof.
  intros Hpre Hpost. cbn [plat_calls registry_calls registry_call mbind option_bind].
  rewrite decide_True; [reflexivity|]. split_and!; [lia|unfold two64; lia|].
  cbn [plat_registry r_blocks]. intros x t [<- _]%lookup_singleton_Some. right. lia.
Qed.

