(* ===== verification/WitnessesClient.v ===== *)
(** * The specification of the scheduler and its clients at work

    [scheduler_refines] and [fork_join_completes] applied in the environment of
    [Demo], and runs of the fork-join program. *)

From S2P Require Import Prelude Platform World Task TimeOrderedQueue Rq Freelist SchedNode Sched.
From S2P Require Import SchedSpec Demo Inv InvSteps InvOps InvNode InvSched InvExec InvCalls.
From S2P Require Import TaskClients TaskMirror Safety Behaviour SchedAbs SchedRefine Client ForkJoin.

Definition client_start : world := booted [1; 2; 3; 4] [10; 11].
Definition client_spawn : op := Spawn 1 k_default_attr 7 70.

(** The host spawns a task: the call is a step of the specification. *)
Lemma scheduler_refines_witness :
  ∃ c, curr client_start c ∧ areachable host_task [1; 2; 3; 4] [10; 11] (abs client_start c) ∧
    match exec client_spawn client_start with
    | Ret _ w' => ∃ c', curr w' c' ∧ astep (abs client_start c) client_spawn (abs w' c')
    | Throw e w' =>
        (e = deadlock ∧ stalls (abs client_start c) client_spawn) ∨
        (refuses (abs client_start c) client_spawn e ∧ curr w' c ∧
         abs w' c = abs client_start c)
    | Stuck _ => False
    end.
Proof.
  apply (scheduler_refines true [1; 2; 3; 4] [10; 11] client_start client_spawn).
  - reflexivity.
  - apply reach_boot. vm_compute. reflexivity.
  - split_and!; [done|by vm_compute|by split_and!; vm_compute|by vm_compute].
  - reflexivity.
Defined.

(** ** Two tasks, one round *)

Definition demo_threads : list Z := [1; 2].
Definition demo_fork_join : code fj := benchmark_sched_default_attr 7 70 demo_threads.

(** The timer interrupts the first task between its load and its store. *)
Definition demo_events : list event :=
  [Go; Go; Interrupt; Go; Interrupt; Go; Go; Go; Go; Interrupt; Go; Go; Go].

Definition demo_states (k : nat) : option (world * fj) :=
  run demo_fork_join (take k demo_events) (client_start, fork_join_start 1).

(** Memory is there whenever the benchmark is about to spawn. *)
Definition memory_check (s : option (world * fj)) : bool :=
  match s with
  | Some (w, l) =>
      match fj_main l with
      | MSpawn _ _ => negb (bool_decide (mmap (w_maps w) (total_size k_default_attr) = map_failed))
      | _ => true
      end
  | None => false
  end.

Lemma memory_check_ok w l :
  memory_check (Some (w, l)) = true → memory_for demo_fork_join (w, l).
Proof.
  intros Hc c h a e arg l' _ Hp. unfold demo_fork_join, benchmark_sched_default_attr, fork_join in Hp. simpl in Hp, Hc.
  case_bool_decide; [|by destruct (pc_of l c)].
  destruct (fj_main l) as [more i|more i|].
  - destruct (demo_threads !! i); [|done]. injection Hp as _ <- _ _ _.
    apply negb_true_iff, bool_decide_eq_false in Hc. by split.
  - by destruct (demo_threads !! i).
  - done.
Qed.

Lemma demo_memory : enough_memory demo_fork_join demo_events (client_start, fork_join_start 1).
Proof.
  intros k [w l] Hk. apply memory_check_ok. rewrite <-Hk.
  change (memory_check (demo_states k) = true).
  assert (forallb (λ k, memory_check (demo_states k)) (seq 0 14) = true) as Hall
    by (vm_compute; reflexivity).
  destruct (decide (k < 14)%nat) as [Hlt|Hge].
  - rewrite forallb_forall in Hall. apply Hall. apply in_seq. lia.
  - assert (demo_states k = demo_states 13) as ->.
    { unfold demo_states. by rewrite !take_ge by (simpl; lia). }
    rewrite forallb_forall in Hall. apply Hall. apply in_seq. lia.
Qed.

Lemma fork_join_completes_witness :
  ∃ w l, run demo_fork_join demo_events (client_start, fork_join_start 1) = Some (w, l) ∧
    fj_main l = MDone ∧ curr w host_task ∧ (∀ h, h ∈ demo_threads → w_handles w !! h = Some 0) ∧
    (∀ q t, w_tasks w !! q = Some t → q = host_task ∨ t_run_state t = STOPPED) ∧
    0 ≤ fj_shared l ≤ 2.
Proof.
  apply (fork_join_completes true k_default_attr 7 70 demo_threads [1; 2; 3; 4] [10; 11] 1 demo_events).
  - reflexivity.
  - by split_and!; vm_compute.
  - lia.
  - repeat constructor; rewrite ?elem_of_cons, ?elem_of_nil; lia.
  - unfold demo_threads. rewrite !elem_of_cons, elem_of_nil. lia.
  - done.
  - unfold demo_threads. intros h. rewrite !elem_of_cons, elem_of_nil. lia.
  - vm_compute. reflexivity.
  - vm_compute. reflexivity.
  - apply demo_memory.
Defined.


Lemma first_use_enables_timer_witness :
  (∃ w, (disable_timer_preemption;; sched_context_get) (boot [1] [10]) = Ret () w ∧
     al_trap (w_alarm w) = true ∧ al_interval (w_alarm w) = preempt_interval) ∧
  (∃ w, (disable_timer_preemption;; sched_context_get) (booted [1] [10]) = Ret () w ∧
     al_interval (w_alarm w) = 0).
Proof. apply (first_use_enables_timer [1] [10]); reflexivity. Defined.

(** A program that has not used the scheduler, with its task at the address 8;
    the second one has a thread-local block. *)
Lemma round_trips_return_witness :
  benchmark_task_switch_to_with_tls 8 7 1000 (boot [] []) =
    Ret () (upd_tls <[host_tls := mkTlsBlock 8 false]> (boot [] [])).
Proof.
  apply (round_trips_return true (boot [] []) 8 7 k_default_attr (mkTlsBlock 0 false)).
  - by split_and!; vm_compute.
  - by split; vm_compute.
  - reflexivity.
  - done.
  - reflexivity.
  - vm_compute. reflexivity.
  - by vm_compute.
  - vm_compute. reflexivity.
Defined.
